(** * MemProcFS [vmm.c]: a shallow embedding and its verified properties

    The development follows the layout of [vmm/vmm.c]:
    - [Proc]   the generational process table (VmmProcessGetEx,
               VmmProcessClone, VmmProcessCreateEntry,
               VmmProcessCreateFinish, VmmProcessListPIDs);
    - [Cache]  the page cache tables (VmmCacheGet, VmmCacheInvalidate_2,
               VmmCacheReserve, VmmCacheReserveReturn, VmmCacheReclaim);
    - [Scatter] the scatter read/write pipeline and the byte-granular
               wrappers (VmmReadEx, VmmWriteEx, VmmReadAsFile,
               VmmWriteAsFile);
    - [ProcIter] the walks over the process table (VmmProcessGetNextEx,
               VmmProcessTlbClear, VmmProcessListPIDs) and the refresh
               cycle;
    - [CacheOps] VmmCacheExists, and a lookup after an insertion;
    - [ReadThrough] VmmCacheGet_FromDeviceOnMiss;
    - [Rw]     what the byte-granular wrappers hand to the scatter
               functions and make of their results;
    - [WriteVirt] VmmWriteScatterVirtual.

    C integers are [Z]; where the source relies on the width of a type the
    wrap-around is written out.  A function of the model returns [None] when
    the C function has no defined result on that input (a NULL or dangling
    pointer is dereferenced, a buffer is overrun, a loop does not end within
    the supplied fuel) and [Some r] when it returns [r]. *)

From Stdlib Require Import ZArith Lia List Bool.
From stdpp Require Import base option list gmap fin_maps.

Open Scope Z_scope.

(** ** Constants declared in [vmm.h] / [leechcore.h]

    The headers are not part of the translated sources, so the values of the
    constants are parameters of the development. *)
Class VmmConsts := {
  VMM_PROCESSTABLE_ENTRIES_MAX : Z;
  VMM_PID_PROCESS_CLONE_WITH_KERNELMEMORY : Z;
  VMM_FLAG_PROCESS_TOKEN : Z;
  VMM_FLAG_PROCESS_SHOW_TERMINATED : Z;
  VMM_FLAG_NOCACHE : Z;
  VMM_FLAG_ZEROPAD_ON_FAIL : Z;
  VMM_FLAG_FORCECACHE_READ : Z;
  VMM_FLAG_NOPAGING : Z;
  VMM_FLAG_NOCACHEPUT : Z;
  VMM_FLAG_ALTADDR_VA_PTE : Z;
  VMM_CACHE2_REGIONS : Z;
  VMM_CACHE2_BUCKETS : Z;
  VMM_CACHE2_MAX_ENTRIES : Z;
  sizeof_EPROCESS_pb : Z;
  VMM_CACHE_TAG_PHYS : Z;
  VMM_CACHE_TAG_TLB : Z;
  VMM_CACHE_TAG_PAGING : Z;
}.

(** The values used by the concrete runs below (the ones of the headers of
    the 2020 code base, with small table sizes so that runs stay small). *)
Definition small_consts : VmmConsts := {|
  VMM_PROCESSTABLE_ENTRIES_MAX := 8;
  VMM_PID_PROCESS_CLONE_WITH_KERNELMEMORY := 0x80000000;
  VMM_FLAG_PROCESS_TOKEN := 0x0080;
  VMM_FLAG_PROCESS_SHOW_TERMINATED := 0x0004;
  VMM_FLAG_NOCACHE := 0x0001;
  VMM_FLAG_ZEROPAD_ON_FAIL := 0x0002;
  VMM_FLAG_FORCECACHE_READ := 0x0008;
  VMM_FLAG_NOPAGING := 0x0010;
  VMM_FLAG_NOCACHEPUT := 0x0100;
  VMM_FLAG_ALTADDR_VA_PTE := 0x0200;
  VMM_CACHE2_REGIONS := 3;
  VMM_CACHE2_BUCKETS := 5;
  VMM_CACHE2_MAX_ENTRIES := 0x40;
  sizeof_EPROCESS_pb := 0x800;
  VMM_CACHE_TAG_PHYS := 0x43615068;
  VMM_CACHE_TAG_TLB := 0x43615462;
  VMM_CACHE_TAG_PAGING := 0x43615067;
|}.

(** [flags & MASK] used as a C truth value. *)
Definition flag_set (flags mask : Z) : bool := negb (Z.land flags mask =? 0).

(** * The process table *)
Module Proc.

(** Token sub-record [win.TOKEN] of a process object. *)
Record VMM_TOKEN := mkToken {
  fInitialized : bool;
  tok_va : Z;
  qwLUID : Z;
  dwSessionId : Z;
  fSID : bool;
}.

Definition token_zero : VMM_TOKEN := mkToken false 0 0 0 false.

(** Object tags of the two kinds of process objects. *)
Inductive OB_TAG := OB_TAG_VMM_PROCESS | OB_TAG_VMM_PROCESS_CLONE.

(** The process object [VMM_PROCESS].  Pointers to other objects are
    addresses of the object heap; [None] is NULL. *)
Record VMM_PROCESS := mkProcess {
  ob_tag : OB_TAG;
  dwPID : Z;
  dwPPID : Z;
  dwState : Z;
  paDTB : Z;
  paDTB_UserOpt : Z;
  szName : list Z;
  fUserOnly : bool;
  fTlbSpiderDone : bool;
  win_EPROCESS : list Z;
  win_TOKEN : VMM_TOKEN;
  pObPersistent : option nat;
  pObProcessCloneParent : option nat;
}.

Definition process_zero (tag : OB_TAG) : VMM_PROCESS :=
  mkProcess tag 0 0 0 0 0 (replicate 16 0) false false [] token_zero None None.

(** The process table object [VMMOB_PROCESS_TABLE].  [_M] and [_iFLinkM]
    are arrays of [VMM_PROCESSTABLE_ENTRIES_MAX] entries allocated with
    LMEM_ZEROINIT: a key that is absent from [_M] is a NULL slot, a key that
    is absent from [_iFLinkM] reads as 0.  [pObCNewPROC] is the content of
    the one-slot container holding the table of the next generation. *)
#[local] Unset Elimination Schemes.
Inductive VMMOB_PROCESS_TABLE := mkTable {
  c : Z;
  cActive : Z;
  _iFLink : Z;
  _M : gmap Z nat;
  _iFLinkM : gmap Z Z;
  pObCNewPROC : option VMMOB_PROCESS_TABLE;
}.

#[local] Set Elimination Schemes.

Definition table_zero : VMMOB_PROCESS_TABLE := mkTable 0 0 0 ∅ ∅ None.

(** The part of the global context [ctxVmm] the process functions use:
    the content of the container [pObCPROC] (the live table), the context
    flags, the heap of process objects and the number of allocations that
    will still succeed. *)
Record VMM_CONTEXT := mkCtx {
  pObCPROC : option VMMOB_PROCESS_TABLE;
  flags : Z;
  heap : gmap nat VMM_PROCESS;
  persistent : gset nat;
  cAllocAvail : nat;
}.

Definition set_heap (s : VMM_CONTEXT) (h : gmap nat VMM_PROCESS) : VMM_CONTEXT :=
  mkCtx (pObCPROC s) (flags s) h (persistent s) (cAllocAvail s).
Definition set_pObCPROC (s : VMM_CONTEXT) (t : option VMMOB_PROCESS_TABLE) : VMM_CONTEXT :=
  mkCtx t (flags s) (heap s) (persistent s) (cAllocAvail s).
Definition set_persistent (s : VMM_CONTEXT) (p : gset nat) : VMM_CONTEXT :=
  mkCtx (pObCPROC s) (flags s) (heap s) p (cAllocAvail s).
Definition set_cAllocAvail (s : VMM_CONTEXT) (n : nat) : VMM_CONTEXT :=
  mkCtx (pObCPROC s) (flags s) (heap s) (persistent s) n.

Definition set_token (o : VMM_PROCESS) (t : VMM_TOKEN) : VMM_PROCESS :=
  mkProcess (ob_tag o) (dwPID o) (dwPPID o) (dwState o) (paDTB o)
    (paDTB_UserOpt o) (szName o) (fUserOnly o) (fTlbSpiderDone o)
    (win_EPROCESS o) t (pObPersistent o) (pObProcessCloneParent o).
Definition set_fUserOnly (o : VMM_PROCESS) (b : bool) : VMM_PROCESS :=
  mkProcess (ob_tag o) (dwPID o) (dwPPID o) (dwState o) (paDTB o)
    (paDTB_UserOpt o) (szName o) b (fTlbSpiderDone o)
    (win_EPROCESS o) (win_TOKEN o) (pObPersistent o) (pObProcessCloneParent o).
Definition set_pObPersistent (o : VMM_PROCESS) (p : option nat) : VMM_PROCESS :=
  mkProcess (ob_tag o) (dwPID o) (dwPPID o) (dwState o) (paDTB o)
    (paDTB_UserOpt o) (szName o) (fUserOnly o) (fTlbSpiderDone o)
    (win_EPROCESS o) (win_TOKEN o) p (pObProcessCloneParent o).

Section Proc.
Context `{!VmmConsts}.

(** [VmmProcess_TokenTryEnsure] is a batch operation of the operating-system
    layer (it reads kernel memory); of the process objects it writes the
    fields of [win.TOKEN] only.  Its outcome is a parameter: the token record
    every object of the heap has after the call on table [pt]. *)
Variable VmmProcess_TokenTryEnsure :
  VMMOB_PROCESS_TABLE → gmap nat VMM_PROCESS → nat → VMM_TOKEN.

#[local] Abbreviation N := VMM_PROCESSTABLE_ENTRIES_MAX.
#[local] Abbreviation CLONE := VMM_PID_PROCESS_CLONE_WITH_KERNELMEMORY.

(** [Ob_Alloc(tag, LMEM_ZEROINIT, sizeof(VMM_PROCESS), ...)]: NULL when
    memory is exhausted, otherwise the address of a fresh zeroed object. *)
Definition Ob_Alloc (tag : OB_TAG) (s : VMM_CONTEXT) : option nat * VMM_CONTEXT :=
  match cAllocAvail s with
  | O => (None, s)
  | S n =>
    let a := fresh (dom (heap s)) in
    (Some a, set_heap (set_cAllocAvail s n) (<[a := process_zero tag]> (heap s)))
  end.

(** [if(++i == VMM_PROCESSTABLE_ENTRIES_MAX) { i = 0; }] *)
Definition next_slot (i : Z) : Z := if decide (i + 1 = N) then 0 else i + 1.

(** [VmmProcess_TokenTryEnsureLock]: the token records are computed once,
    under the master lock, unless the process already has one. *)
Definition VmmProcess_TokenTryEnsureLock (pt : VMMOB_PROCESS_TABLE) (a : nat)
    (s : VMM_CONTEXT) : option VMM_CONTEXT :=
  o ← heap s !! a;
  if fInitialized (win_TOKEN o) then Some s
  else Some (set_heap s
         (map_imap (λ b ob, Some (set_token ob (VmmProcess_TokenTryEnsure pt (heap s) b)))
                   (heap s))).

(** The probing loop of [VmmProcessGetEx]; the result is the slot content on
    a match and NULL at [fail:]. *)
Fixpoint GetEx_loop (fuel : nat) (h : gmap nat VMM_PROCESS)
    (pt : VMMOB_PROCESS_TABLE) (pid i iStart : Z) : option (option nat) :=
  match fuel with
  | O => None
  | S fuel =>
    match _M pt !! i with
    | None => Some None
    | Some a =>
      o ← h !! a;
      if decide (dwPID o = pid) then Some (Some a)
      else
        let i' := next_slot i in
        if decide (i' = iStart) then Some None
        else GetEx_loop fuel h pt pid i' iStart
    end
  end.

(** [VmmProcessClone] *)
Definition VmmProcessClone (a : nat) (s : VMM_CONTEXT)
    : option (option nat * VMM_CONTEXT) :=
  o ← heap s !! a;
  match pObProcessCloneParent o with
  | Some _ => Some (None, s)
  | None =>
    match Ob_Alloc OB_TAG_VMM_PROCESS_CLONE s with
    | (None, s1) => Some (None, s1)
    | (Some cl, s1) =>
      let ob := mkProcess OB_TAG_VMM_PROCESS_CLONE (dwPID o) (dwPPID o)
                  (dwState o) (paDTB o) (paDTB_UserOpt o) (szName o)
                  (fUserOnly o) (fTlbSpiderDone o) (win_EPROCESS o)
                  (win_TOKEN o) (pObPersistent o) (Some a) in
      Some (Some cl, set_heap s1 (<[cl := ob]> (heap s1)))
    end
  end.

(** [VmmProcessGetEx] on a table that is not NULL.  [depth] bounds the
    recursion of the clone path, which clears the clone bit of the PID. *)
Fixpoint GetEx_pt (depth : nat) (pt : VMMOB_PROCESS_TABLE) (pid fl : Z)
    (s : VMM_CONTEXT) : option (option nat * VMM_CONTEXT) :=
  match depth with
  | O => None
  | S depth =>
    let fToken := flag_set (Z.lor fl (flags s)) VMM_FLAG_PROCESS_TOKEN in
    r ← GetEx_loop (Z.to_nat N) (heap s) pt pid (pid `mod` N) (pid `mod` N);
    match r with
    | Some a =>
      o ← heap s !! a;
      if fToken && negb (fInitialized (win_TOKEN o))
      then s1 ← VmmProcess_TokenTryEnsureLock pt a s; Some (Some a, s1)
      else Some (Some a, s)
    | None =>
      if flag_set pid CLONE then
        '(r1, s1) ← GetEx_pt depth pt (Z.land pid (Z.lnot CLONE)) fl s;
        match r1 with
        | Some a =>
          '(r2, s2) ← VmmProcessClone a s1;
          match r2 with
          | Some cl =>
            ob ← heap s2 !! cl;
            Some (Some cl, set_heap s2 (<[cl := set_fUserOnly ob false]> (heap s2)))
          | None => Some (None, s2)
          end
        | None => Some (None, s1)
        end
      else Some (None, s)
    end
  end.

(** [VmmProcessGetEx(pt, dwPID, flags)].  With [pt == NULL] the live table is
    taken from the container; if the container is empty the C function calls
    itself with the same arguments for ever. *)
Definition VmmProcessGetEx (pt : option VMMOB_PROCESS_TABLE) (pid fl : Z)
    (s : VMM_CONTEXT) : option (option nat * VMM_CONTEXT) :=
  match pt with
  | Some t => GetEx_pt 2 t pid fl s
  | None => t ← pObCPROC s; GetEx_pt 2 t pid fl s
  end.

(** Modelled from the spec: [VmmProcessGet(dwPID)] is declared in [vmm.h];
    it is the lookup of [dwPID] in the live table,
    [VmmProcessGetEx(NULL, dwPID, 0)]. *)
Definition VmmProcessGet (pid : Z) (s : VMM_CONTEXT)
    : option (option nat * VMM_CONTEXT) :=
  VmmProcessGetEx None pid 0 s.

(** [VmmProcessStatic_Initialize]: a new persistent record (NULL when the
    allocation fails). *)
Definition VmmProcessStatic_Initialize (a : nat) (s : VMM_CONTEXT)
    : option VMM_CONTEXT :=
  o ← heap s !! a;
  match cAllocAvail s with
  | O => Some (set_heap s (<[a := set_pObPersistent o None]> (heap s)))
  | S n =>
    let p := fresh (persistent s) in
    Some (set_heap (set_persistent (set_cAllocAvail s n) ({[p]} ∪ persistent s))
            (<[a := set_pObPersistent o (Some p)]> (heap s)))
  end.

(** Step 4 of [VmmProcessCreateEntry] when no object is carried over: a new
    process object is allocated and filled in. *)
Definition CreateEntry_new (pid ppid state dtb dtbUser : Z) (name : list Z)
    (userOnly : bool) (pbEPROCESS : option (list Z)) (cbEPROCESS : Z)
    (s : VMM_CONTEXT) : option (option nat * VMM_CONTEXT) :=
  match Ob_Alloc OB_TAG_VMM_PROCESS s with
  | (None, s1) => Some (None, s1)
  | (Some a, s1) =>
    let ep :=
      match pbEPROCESS with
      | Some pb =>
        if decide (cbEPROCESS = 0) then []
        else take (Z.to_nat (Z.min sizeof_EPROCESS_pb cbEPROCESS)) pb
      | None => []
      end in
    let ob := mkProcess OB_TAG_VMM_PROCESS pid ppid state dtb dtbUser
                (take 15 name ++ [0]) userOnly false ep token_zero None None in
    let s2 := set_heap s1 (<[a := ob]> (heap s1)) in
    '(old, s3) ← VmmProcessGet pid s2;
    match old with
    | Some b =>
      ob' ← heap s3 !! a;
      oldob ← heap s3 !! b;
      Some (Some a, set_heap s3 (<[a := set_pObPersistent ob' (pObPersistent oldob)]> (heap s3)))
    | None =>
      s4 ← VmmProcessStatic_Initialize a s3;
      Some (Some a, s4)
    end
  end.

(** Step 5 of [VmmProcessCreateEntry]: the object is installed in the first
    free slot at or after [dwPID % VMM_PROCESSTABLE_ENTRIES_MAX]; NULL when
    the probe wraps around. *)
Fixpoint Install_loop (fuel : nat) (h : gmap nat VMM_PROCESS)
    (ptNew : VMMOB_PROCESS_TABLE) (p : nat) (i iStart : Z)
    : option (option VMMOB_PROCESS_TABLE) :=
  match fuel with
  | O => None
  | S fuel =>
    match _M ptNew !! i with
    | None =>
      o ← h !! p;
      Some (Some (mkTable (c ptNew + 1)
                    (cActive ptNew + (if decide (dwState o = 0) then 1 else 0))
                    (i `mod` 2 ^ 16)
                    (<[i := p]> (_M ptNew))
                    (<[i := _iFLink ptNew]> (_iFLinkM ptNew))
                    (pObCNewPROC ptNew)))
    | Some _ =>
      let i' := next_slot i in
      if decide (i' = iStart) then Some None
      else Install_loop fuel h ptNew p i' iStart
    end
  end.

Definition set_new (ptOld : VMMOB_PROCESS_TABLE) (ptNew : option VMMOB_PROCESS_TABLE)
    : VMMOB_PROCESS_TABLE :=
  mkTable (c ptOld) (cActive ptOld) (_iFLink ptOld) (_M ptOld) (_iFLinkM ptOld) ptNew.

(** [VmmProcessCreateEntry].  [fDTB] is the outcome of the sanity check of
    step 1, which fetches the page table at [paDTB] through the TLB cache
    and has the memory model verify it. *)
Definition VmmProcessCreateEntry (fDTB : bool) (fTotalRefresh : bool)
    (pid ppid state dtb dtbUser : Z) (name : list Z) (userOnly : bool)
    (pbEPROCESS : option (list Z)) (cbEPROCESS : Z) (s : VMM_CONTEXT)
    : option (option nat * VMM_CONTEXT) :=
  (* 1: sanity check DTB *)
  if (state =? 0) && negb fDTB then Some (None, s) else
  (* 2: allocate new 'Process Table' (if not already existing) *)
  match pObCPROC s with
  | None => Some (None, s)
  | Some ptOld =>
    let alloc :=
      match pObCNewPROC ptOld with
      | Some ptNew => Some (ptNew, s)
      | None =>
        match cAllocAvail s with
        | O => None
        | S n =>
          Some (table_zero,
                set_pObCPROC (set_cAllocAvail s n) (Some (set_new ptOld (Some table_zero))))
        end
      end in
    match alloc with
    | None => Some (None, s)
    | Some (ptNew, s1) =>
      (* 3: process to create not already in 'new' table *)
      '(r3, s3) ← VmmProcessGetEx (Some ptNew) pid 0 s1;
      match r3 with
      | Some _ => Some (None, s3)
      | None =>
        (* 4: prepare existing item, or create new item, for new PID *)
        '(r4, s4) ← (if fTotalRefresh then Some (None, s3)
                      else VmmProcessGetEx (Some ptOld) pid 0 s3);
        '(r5, s5) ← (match r4 with
                      | Some a => Some (Some a, s4)
                      | None => CreateEntry_new pid ppid state dtb dtbUser name
                                  userOnly pbEPROCESS cbEPROCESS s4
                      end);
        match r5 with
        | None => Some (None, s5)
        | Some a =>
          (* 5: install new PID *)
          r ← Install_loop (Z.to_nat N) (heap s5) ptNew a (pid `mod` N) (pid `mod` N);
          match r with
          | None => Some (None, s5)
          | Some ptNew' =>
            Some (Some a, set_pObCPROC s5 (Some (set_new ptOld (Some ptNew'))))
          end
        end
      end
    end
  end.

(** [VmmProcessCreateFinish] *)
Definition VmmProcessCreateFinish (s : VMM_CONTEXT) : VMM_CONTEXT :=
  match pObCPROC s with
  | None => s
  | Some ptOld =>
    match pObCNewPROC ptOld with
    | None => s
    | Some ptNew => set_pObCPROC s (Some ptNew)
    end
  end.

(** [VmmProcessTableCreateInitial] *)
Definition VmmProcessTableCreateInitial (s : VMM_CONTEXT) : bool * VMM_CONTEXT :=
  match cAllocAvail s with
  | O => (false, s)
  | S n => (true, set_pObCPROC (set_cAllocAvail s n) (Some table_zero))
  end.

(** The copy loop of [VmmProcessListPIDs]: [buf] is the array [pPIDs],
    [i] the number of PIDs written, [a] the current (non-NULL) [pProcess]. *)
Fixpoint ListPIDs_loop (fuel : nat) (h : gmap nat VMM_PROCESS)
    (pt : VMMOB_PROCESS_TABLE) (fShowTerminated : bool) (buf : list Z)
    (i iProcess : Z) (a : nat) : option (list Z * Z) :=
  match fuel with
  | O => None
  | S fuel =>
    o ← h !! a;
    '(buf1, i1) ←
      (if (dwState o =? 0) || fShowTerminated then
         if decide (Z.to_nat i < length buf)%nat
         then Some (<[Z.to_nat i := dwPID o]> buf, (i + 1) `mod` 2 ^ 32)
         else None
       else Some (buf, i));
    let iProcess' := default 0 (_iFLinkM pt !! iProcess) in
    match _M pt !! iProcess' with
    | None => Some (buf1, i1)
    | Some a' =>
      if decide (iProcess' = _iFLink pt) then Some (buf1, i1)
      else ListPIDs_loop fuel h pt fShowTerminated buf1 i1 iProcess' a'
    end
  end.

(** [VmmProcessListPIDs(pPIDs, pcPIDs, flags)]: the result is the array
    [pPIDs] (when not NULL) and [*pcPIDs] on exit. *)
Definition VmmProcessListPIDs (fuel : nat) (pPIDs : option (list Z))
    (pcPIDs : Z) (fl : Z) (s : VMM_CONTEXT) : option (option (list Z) * Z) :=
  pt ← pObCPROC s;
  let fShowTerminated :=
    flag_set (Z.lor fl (flags s)) VMM_FLAG_PROCESS_SHOW_TERMINATED in
  let need := if fShowTerminated then c pt else cActive pt in
  match pPIDs with
  | None => Some (None, need)
  | Some buf =>
    if decide (pcPIDs < need) then Some (Some buf, 0)
    else
      match _M pt !! _iFLink pt with
      | None => Some (Some buf, 0)
      | Some a =>
        '(buf', i) ← ListPIDs_loop fuel (heap s) pt fShowTerminated buf 0
                       (_iFLink pt) a;
        Some (Some buf', i)
      end
  end.

(** ** Frame properties of the process functions *)

(** The objects of [h] are still in [h'], with the same PID, state and
    clone parent. *)
Definition heap_ext (h h' : gmap nat VMM_PROCESS) : Prop :=
  ∀ a o, h !! a = Some o →
    ∃ o', h' !! a = Some o' ∧ dwPID o' = dwPID o ∧ dwState o' = dwState o
          ∧ pObProcessCloneParent o' = pObProcessCloneParent o.

(** The parent of a clone is an object that is not a clone. *)
Definition clone_inv (h : gmap nat VMM_PROCESS) : Prop :=
  ∀ a o p, h !! a = Some o → pObProcessCloneParent o = Some p →
    ∃ po, h !! p = Some po ∧ pObProcessCloneParent po = None.

Record frame (s s' : VMM_CONTEXT) : Prop := mkFrame {
  frame_flags : flags s' = flags s;
  frame_ext : heap_ext (heap s) (heap s');
  frame_clone : clone_inv (heap s) → clone_inv (heap s');
  frame_alloc : (cAllocAvail s' ≤ cAllocAvail s)%nat;
}.

Lemma heap_ext_refl h : heap_ext h h.
Proof. intros a o Ha. eauto. Qed.

Lemma heap_ext_trans h1 h2 h3 : heap_ext h1 h2 → heap_ext h2 h3 → heap_ext h1 h3.
Proof.
  intros H12 H23 a o Ha.
  destruct (H12 a o Ha) as (o2 & Ha2 & E1 & E2 & E3).
  destruct (H23 a o2 Ha2) as (o3 & Ha3 & F1 & F2 & F3).
  exists o3. repeat split; congruence.
Qed.

Lemma heap_ext_insert_new h a o : h !! a = None → heap_ext h (<[a := o]> h).
Proof.
  intros Hn b ob Hb. exists ob.
  rewrite lookup_insert_ne; [auto | congruence].
Qed.

Lemma heap_ext_update h a o o' :
  h !! a = Some o → dwPID o' = dwPID o → dwState o' = dwState o →
  pObProcessCloneParent o' = pObProcessCloneParent o →
  heap_ext h (<[a := o']> h).
Proof.
  intros Ha E1 E2 E3 b ob Hb.
  destruct (decide (a = b)) as [->|Hne].
  - exists o'. rewrite lookup_insert_eq. rewrite Ha in Hb. injection Hb as <-. auto.
  - exists ob. rewrite lookup_insert_ne; auto.
Qed.

Lemma clone_inv_insert_new h a o :
  h !! a = None → pObProcessCloneParent o = None →
  clone_inv h → clone_inv (<[a := o]> h).
Proof.
  intros Hn Hp Hinv b ob p Hb Hpar.
  destruct (decide (a = b)) as [->|Hne].
  - rewrite lookup_insert_eq in Hb. injection Hb as <-. congruence.
  - rewrite lookup_insert_ne in Hb by done.
    destruct (Hinv b ob p Hb Hpar) as (po & Hpo & Hnone).
    exists po. split; [|done].
    rewrite lookup_insert_ne; [done | congruence].
Qed.

Lemma clone_inv_update h a o o' :
  h !! a = Some o → pObProcessCloneParent o' = pObProcessCloneParent o →
  clone_inv h → clone_inv (<[a := o']> h).
Proof.
  intros Ha E Hinv b ob p Hb Hpar.
  assert (Hpo : ∃ po, h !! p = Some po ∧ pObProcessCloneParent po = None).
  { destruct (decide (a = b)) as [->|Hne].
    - rewrite lookup_insert_eq in Hb. injection Hb as <-.
      eapply Hinv; [exact Ha | congruence].
    - rewrite lookup_insert_ne in Hb by done. eauto. }
  destruct Hpo as (po & Hpo & Hnone).
  destruct (decide (a = p)) as [->|Hne].
  - exists o'. rewrite lookup_insert_eq. split; [done|].
    rewrite Ha in Hpo. injection Hpo as <-. congruence.
  - exists po. rewrite lookup_insert_ne; auto.
Qed.

Lemma frame_refl s : frame s s.
Proof. split; auto using heap_ext_refl. Qed.

Lemma frame_trans s1 s2 s3 : frame s1 s2 → frame s2 s3 → frame s1 s3.
Proof.
  intros [A1 A2 A3 A4] [B1 B2 B3 B4]. split.
  - congruence.
  - eauto using heap_ext_trans.
  - auto.
  - lia.
Qed.

Lemma fresh_heap_None (h : gmap nat VMM_PROCESS) : h !! fresh (dom h) = None.
Proof. apply not_elem_of_dom. apply is_fresh. Qed.

Lemma Ob_Alloc_frame tag s r s' :
  Ob_Alloc tag s = (r, s') →
  frame s s' ∧ pObCPROC s' = pObCPROC s ∧
  match r with
  | Some a => heap s !! a = None ∧ heap s' = <[a := process_zero tag]> (heap s)
  | None => s' = s ∧ cAllocAvail s = O
  end.
Proof.
  unfold Ob_Alloc. destruct (cAllocAvail s) as [|n] eqn:En; intros [= <- <-].
  - split; [apply frame_refl|]. auto.
  - pose proof (fresh_heap_None (heap s)) as Hf. simpl.
    split; [|auto]. split; simpl.
    + done.
    + by apply heap_ext_insert_new.
    + by apply clone_inv_insert_new.
    + lia.
Qed.

Lemma TokenTryEnsureLock_frame pt a s s' :
  VmmProcess_TokenTryEnsureLock pt a s = Some s' →
  frame s s' ∧ pObCPROC s' = pObCPROC s.
Proof.
  unfold VmmProcess_TokenTryEnsureLock. intros H0.
  destruct (heap s !! a) as [o|]; [simpl in H0 | discriminate].
  destruct (fInitialized (win_TOKEN o)); injection H0 as <-.
  { split; [apply frame_refl | done]. }
  split; [|done]. split; simpl.
  - done.
  - intros b ob Hb. rewrite map_lookup_imap, Hb. simpl. eauto.
  - intros Hinv b ob p Hb Hpar.
    rewrite map_lookup_imap in Hb.
    destruct (heap s !! b) as [ob0|] eqn:Eb; [|discriminate].
    simpl in Hb. injection Hb as <-. simpl in Hpar.
    destruct (Hinv b ob0 p Eb Hpar) as (po & Hpo & Hnone).
    eexists. rewrite map_lookup_imap, Hpo. simpl. split; [reflexivity|done].
  - lia.
Qed.

Lemma clone_inv_insert_clone h cl a o ob :
  h !! a = Some o → pObProcessCloneParent o = None → h !! cl = None →
  pObProcessCloneParent ob = Some a →
  clone_inv h → clone_inv (<[cl := ob]> h).
Proof.
  intros Ha Hnone Hcl Hob Hinv b o' p Hb Hpar.
  assert (a ≠ cl) by congruence.
  destruct (decide (cl = b)) as [->|Hne].
  - rewrite lookup_insert_eq in Hb. injection Hb as <-.
    exists o. rewrite lookup_insert_ne by congruence.
    split; congruence.
  - rewrite lookup_insert_ne in Hb by done.
    destruct (Hinv b o' p Hb Hpar) as (po & Hpo & Hn).
    exists po. split; [|done]. rewrite lookup_insert_ne; [done|congruence].
Qed.

Lemma VmmProcessClone_frame a s r s' :
  VmmProcessClone a s = Some (r, s') →
  frame s s' ∧ pObCPROC s' = pObCPROC s ∧
  match r with
  | Some cl =>
    heap s !! cl = None ∧
    ∃ o ob, heap s !! a = Some o ∧ pObProcessCloneParent o = None ∧
            heap s' !! cl = Some ob ∧ pObProcessCloneParent ob = Some a ∧
            dwPID ob = dwPID o
  | None => True
  end.
Proof.
  unfold VmmProcessClone. intros H0.
  destruct (heap s !! a) as [o|] eqn:Ea; [simpl in H0 | discriminate].
  destruct (pObProcessCloneParent o) as [p|] eqn:Ep.
  { injection H0 as <- <-. split; [apply frame_refl | done]. }
  destruct (Ob_Alloc OB_TAG_VMM_PROCESS_CLONE s) as [[cl|] s1] eqn:Eal;
    apply Ob_Alloc_frame in Eal as (Hfr & Hpt & Hr).
  - destruct Hr as [Hcl Hh]. injection H0 as <- <-. simpl.
    rewrite Hh, insert_insert_eq.
    split; [|split; [done|]].
    + split; simpl.
      * apply Hfr.
      * by apply heap_ext_insert_new.
      * intros Hinv. eapply clone_inv_insert_clone; eauto.
      * apply Hfr.
    + split; [done|]. eexists o, _. rewrite lookup_insert_eq. eauto.
  - destruct Hr as [-> _]. injection H0 as <- <-.
    split; [apply frame_refl | done].
Qed.

Lemma GetEx_loop_heap_ext fuel h h' pt pid i i0 r :
  heap_ext h h' →
  GetEx_loop fuel h pt pid i i0 = Some r →
  GetEx_loop fuel h' pt pid i i0 = Some r.
Proof.
  intros Hext. revert i. induction fuel as [|fuel IH]; intros i; simpl; [done|].
  destruct (_M pt !! i) as [a|]; [|done].
  destruct (h !! a) as [o|] eqn:Ea; [|done]. simpl.
  destruct (Hext a o Ea) as (o' & -> & E1 & _). simpl. rewrite E1.
  destruct (decide (dwPID o = pid)); [done|].
  destruct (decide (next_slot i = i0)); [done|]. apply IH.
Qed.

Lemma GetEx_loop_found fuel h pt pid i i0 a :
  GetEx_loop fuel h pt pid i i0 = Some (Some a) →
  ∃ o, h !! a = Some o ∧ dwPID o = pid.
Proof.
  revert i. induction fuel as [|fuel IH]; intros i; simpl; [done|].
  destruct (_M pt !! i) as [b|]; [|done].
  destruct (h !! b) as [o|] eqn:Eb; [|done]. simpl.
  destruct (decide (dwPID o = pid)).
  { intros [= <-]. eauto. }
  destruct (decide (next_slot i = i0)); [done|]. apply IH.
Qed.

(** The probe only reads the array [_M] of the table. *)
Lemma GetEx_loop_M fuel h pt pt' pid i i0 :
  _M pt' = _M pt →
  GetEx_loop fuel h pt' pid i i0 = GetEx_loop fuel h pt pid i i0.
Proof.
  intros HM. revert i. induction fuel as [|fuel IH]; intros i; simpl; [done|].
  rewrite HM. destruct (_M pt !! i) as [b|]; [|done].
  destruct (h !! b) as [o|]; [|done]. simpl.
  destruct (decide (dwPID o = pid)); [done|].
  destruct (decide (next_slot i = i0)); [done|]. apply IH.
Qed.

Lemma GetEx_pt_frame depth pt pid fl s r s' :
  GetEx_pt depth pt pid fl s = Some (r, s') →
  frame s s' ∧ pObCPROC s' = pObCPROC s.
Proof.
  revert pid s r s'. induction depth as [|depth IH]; intros pid s r s'; simpl; [done|].
  destruct (GetEx_loop _ _ _ _ _ _) as [[a|]|]; simpl; [| |done].
  - destruct (heap s !! a) as [o|]; simpl; [|done].
    destruct (_ && _).
    + destruct (VmmProcess_TokenTryEnsureLock pt a s) as [s1|] eqn:Et; simpl; [|done].
      intros [= <- <-]. by apply TokenTryEnsureLock_frame in Et.
    + intros [= <- <-]. split; [apply frame_refl|done].
  - destruct (flag_set pid CLONE).
    2:{ intros [= <- <-]. split; [apply frame_refl|done]. }
    destruct (GetEx_pt depth pt _ fl s) as [[r1 s1]|] eqn:E1; simpl; [|done].
    apply IH in E1 as [Hf1 Hp1].
    destruct r1 as [a|].
    2:{ intros [= <- <-]. done. }
    destruct (VmmProcessClone a s1) as [[r2 s2]|] eqn:E2; simpl; [|done].
    apply VmmProcessClone_frame in E2 as (Hf2 & Hp2 & Hr2).
    destruct r2 as [cl|].
    2:{ intros [= <- <-]. split; [eauto using frame_trans | congruence]. }
    destruct (heap s2 !! cl) as [ob|] eqn:Ecl; simpl; [|done].
    intros [= <- <-]. simpl. split; [|congruence].
    eapply frame_trans; [exact Hf1|]. eapply frame_trans; [exact Hf2|].
    split; simpl.
    + done.
    + eapply heap_ext_update; eauto.
    + eapply clone_inv_update; eauto.
    + lia.
Qed.

Lemma VmmProcessGetEx_frame pt pid fl s r s' :
  VmmProcessGetEx pt pid fl s = Some (r, s') →
  frame s s' ∧ pObCPROC s' = pObCPROC s.
Proof.
  unfold VmmProcessGetEx. destruct pt as [t|].
  - apply GetEx_pt_frame.
  - intros H0. destruct (pObCPROC s) as [t|] eqn:Et; [|done].
    change (GetEx_pt 2 t pid fl s = Some (r, s')) in H0.
    apply GetEx_pt_frame in H0 as [Hf Hp]. split; [done|congruence].
Qed.

(** ** Open addressing: installing and probing *)

Lemma next_slot_range i : 0 < N → 0 ≤ i < N → 0 ≤ next_slot i < N.
Proof. unfold next_slot. intros. destruct (decide (i + 1 = N)); lia. Qed.

(** What step 5 does to the table. *)
Definition installed (h : gmap nat VMM_PROCESS) (pt : VMMOB_PROCESS_TABLE)
    (a : nat) (j : Z) : VMMOB_PROCESS_TABLE :=
  mkTable (c pt + 1)
    (cActive pt + (if decide ((dwState <$> h !! a) = Some 0) then 1 else 0))
    (j `mod` 2 ^ 16) (<[j := a]> (_M pt)) (<[j := _iFLink pt]> (_iFLinkM pt))
    (pObCNewPROC pt).

Lemma Install_loop_spec fuel h pt a i i0 pt' :
  Install_loop fuel h pt a i i0 = Some (Some pt') →
  ∃ j, _M pt !! j = None ∧ is_Some (h !! a) ∧ pt' = installed h pt a j ∧
       (0 < N → 0 ≤ i < N → 0 ≤ j < N).
Proof.
  revert i. induction fuel as [|fuel IH]; intros i; simpl; [done|].
  destruct (_M pt !! i) as [b|] eqn:Ei.
  - destruct (decide (next_slot i = i0)); [done|].
    intros Hl. destruct (IH _ Hl) as (j & Hj & Ha & -> & Hr).
    exists j. repeat split; auto.
    all: intros; apply Hr; auto using next_slot_range.
  - destruct (h !! a) as [o|] eqn:Ea; [|done]. simpl. intros [= <-].
    exists i. split; [done|]. split; [eauto|]. split; [|done].
    unfold installed. rewrite Ea. simpl. f_equal. f_equal.
    destruct (decide (dwState o = 0)), (decide (Some (dwState o) = Some 0));
      congruence.
Qed.

Lemma GetEx_loop_insert fuel h pt pt' pid i i0 j a b :
  _M pt !! j = None → _M pt' = <[j := a]> (_M pt) →
  GetEx_loop fuel h pt pid i i0 = Some (Some b) →
  GetEx_loop fuel h pt' pid i i0 = Some (Some b).
Proof.
  intros Hj HM. revert i. induction fuel as [|fuel IH]; intros i; simpl; [done|].
  rewrite HM. destruct (_M pt !! i) as [x|] eqn:Ei; [|done].
  rewrite lookup_insert_ne by congruence. rewrite Ei.
  destruct (h !! x) as [o|]; [|done]. simpl.
  destruct (decide (dwPID o = pid)); [done|].
  destruct (decide (next_slot i = i0)); [done|]. apply IH.
Qed.

Lemma GetEx_loop_install fuel h pt pt' pid i i0 a o :
  h !! a = Some o → dwPID o = pid →
  GetEx_loop fuel h pt pid i i0 = Some None →
  Install_loop fuel h pt a i i0 = Some (Some pt') →
  GetEx_loop fuel h pt' pid i i0 = Some (Some a).
Proof.
  intros Ha Hpid. revert i. induction fuel as [|fuel IH]; intros i; simpl; [done|].
  destruct (_M pt !! i) as [x|] eqn:Ei.
  - destruct (h !! x) as [ox|] eqn:Ex; [|done]. simpl.
    destruct (decide (dwPID ox = pid)); [done|].
    destruct (decide (next_slot i = i0)); [done|].
    intros Hg Hi. pose proof (IH _ Hg Hi) as Hrec.
    apply Install_loop_spec in Hi as (j & Hj & _ & -> & _). simpl.
    rewrite lookup_insert_ne by congruence. rewrite Ei, Ex. simpl.
    destruct (decide (dwPID ox = pid)); [done|].
    destruct (decide (next_slot i = i0)); [done|]. done.
  - rewrite Ha. simpl. intros _ [= <-]. simpl.
    rewrite lookup_insert_eq, Ha. simpl.
    destruct (decide (dwPID o = pid)); done.
Qed.

(** Without the clone bit, [VmmProcessGetEx] is the probe. *)
Lemma GetEx_pt_noclone depth pt pid fl s r s' :
  flag_set pid CLONE = false →
  GetEx_pt depth pt pid fl s = Some (r, s') →
  GetEx_loop (Z.to_nat N) (heap s) pt pid (pid `mod` N) (pid `mod` N) = Some r ∧
  (r = None → s' = s).
Proof.
  intros Hc. destruct depth as [|depth]; simpl; [done|].
  destruct (GetEx_loop _ _ _ _ _ _) as [[a|]|]; simpl; [| |done].
  - destruct (heap s !! a) as [o|]; simpl; [|done].
    destruct (_ && _).
    + destruct (VmmProcess_TokenTryEnsureLock pt a s); simpl; [|done].
      by intros [= <- <-].
    + by intros [= <- <-].
  - rewrite Hc. by intros [= <- <-].
Qed.

Lemma GetEx_pt_noclone_run depth pt pid fl s r :
  flag_set pid CLONE = false →
  GetEx_loop (Z.to_nat N) (heap s) pt pid (pid `mod` N) (pid `mod` N) = Some r →
  ∃ s', GetEx_pt (S depth) pt pid fl s = Some (r, s').
Proof.
  intros Hc Hl. simpl. rewrite Hl. simpl. destruct r as [a|].
  - destruct (GetEx_loop_found _ _ _ _ _ _ _ Hl) as (o & Ho & _).
    rewrite Ho. simpl. destruct (_ && _); [|eauto].
    unfold VmmProcess_TokenTryEnsureLock. rewrite Ho. simpl.
    destruct (fInitialized _); simpl; eauto.
  - rewrite Hc. eauto.
Qed.

(** ** What [VmmProcessCreateEntry] does to the state *)

Lemma frame_update s a o o' :
  heap s !! a = Some o → dwPID o' = dwPID o → dwState o' = dwState o →
  pObProcessCloneParent o' = pObProcessCloneParent o →
  frame s (set_heap s (<[a := o']> (heap s))).
Proof.
  intros. split; simpl; [done| | |lia].
  - eapply heap_ext_update; eauto.
  - eapply clone_inv_update; eauto.
Qed.

Lemma VmmProcessStatic_Initialize_frame a s s' :
  VmmProcessStatic_Initialize a s = Some s' →
  frame s s' ∧ pObCPROC s' = pObCPROC s.
Proof.
  unfold VmmProcessStatic_Initialize.
  destruct (heap s !! a) as [o|] eqn:Ea; simpl; [|done].
  destruct (cAllocAvail s) as [|n] eqn:En; intros [= <-].
  - split; [|done]. by eapply frame_update.
  - split; [|done]. split; simpl; [done| | |lia].
    + by eapply heap_ext_update.
    + by eapply clone_inv_update.
Qed.

Lemma CreateEntry_new_frame pid ppid st dtb dtbU name uo ep cb s r s' :
  CreateEntry_new pid ppid st dtb dtbU name uo ep cb s = Some (r, s') →
  frame s s' ∧ pObCPROC s' = pObCPROC s ∧
  ∀ a, r = Some a →
    heap s !! a = None ∧ ∃ o, heap s' !! a = Some o ∧ dwPID o = pid.
Proof.
  unfold CreateEntry_new.
  destruct (Ob_Alloc OB_TAG_VMM_PROCESS s) as [[a|] s1] eqn:Eal;
    apply Ob_Alloc_frame in Eal as (Hf1 & Hp1 & Hr).
  2:{ destruct Hr as [-> _]. intros [= <- <-].
      split; [apply frame_refl|]. split; [done|]. done. }
  destruct Hr as [Hnew Hh1].
  set (ob := mkProcess _ _ _ _ _ _ _ _ _ _ _ _ _).
  set (s2 := set_heap s1 _).
  assert (Hf2 : frame s s2).
  { subst s2. split; simpl; [apply Hf1| | |apply Hf1].
    - rewrite Hh1, insert_insert_eq. by apply heap_ext_insert_new.
    - rewrite Hh1, insert_insert_eq. by apply clone_inv_insert_new. }
  assert (Hp2 : pObCPROC s2 = pObCPROC s) by done.
  assert (Ha2 : heap s2 !! a = Some ob) by (simpl; apply lookup_insert_eq).
  unfold VmmProcessGet.
  destruct (VmmProcessGetEx None pid 0 s2) as [[old s3]|] eqn:Eg; simpl; [|done].
  apply VmmProcessGetEx_frame in Eg as [Hf3 Hp3].
  destruct (frame_ext _ _ Hf3 a ob Ha2) as (ob3 & Ha3 & Hpid3 & Hst3 & Hcl3).
  assert (Hf03 : frame s s3) by eauto using frame_trans.
  destruct old as [b|].
  - rewrite Ha3. simpl. destruct (heap s3 !! b) as [oldob|]; simpl; [|done].
    intros [= <- <-]. split; [|split].
    + eapply frame_trans; [exact Hf03|]. by eapply frame_update.
    + simpl. congruence.
    + intros ? [= <-]. split; [done|]. simpl. rewrite lookup_insert_eq.
      eexists. split; [done|]. simpl. by rewrite Hpid3.
  - destruct (VmmProcessStatic_Initialize a s3) as [s4|] eqn:Es; simpl; [|done].
    apply VmmProcessStatic_Initialize_frame in Es as [Hf4 Hp4].
    intros [= <- <-]. split; [eauto using frame_trans|]. split; [congruence|].
    intros ? [= <-]. split; [done|].
    destruct (frame_ext _ _ Hf4 a ob3 Ha3) as (ob4 & Ha4 & Hpid4 & _).
    exists ob4. split; [done|]. rewrite Hpid4, Hpid3. done.
Qed.

#[local] Abbreviation home pid := (pid `mod` N).

(** The table of the next generation before a call (a zeroed table when it
    does not exist yet). *)
Definition next_gen (ptOld : VMMOB_PROCESS_TABLE) : VMMOB_PROCESS_TABLE :=
  default table_zero (pObCNewPROC ptOld).

Lemma set_new_id pt : set_new pt (pObCNewPROC pt) = pt.
Proof. by destruct pt. Qed.

Lemma next_gen_Some ptOld ptNew :
  pObCNewPROC ptOld = Some ptNew → next_gen ptOld = ptNew.
Proof. unfold next_gen. by intros ->. Qed.

Lemma VmmProcessCreateEntry_inv fDTB fTR pid ppid st dtb dtbU name uo ep cb s r s' :
  VmmProcessCreateEntry fDTB fTR pid ppid st dtb dtbU name uo ep cb s = Some (r, s') →
  frame s s' ∧
  match pObCPROC s with
  | None => pObCPROC s' = None ∧ r = None
  | Some ptOld =>
    ∃ x, pObCPROC s' = Some (set_new ptOld x) ∧
      match r with
      | None => x = pObCNewPROC ptOld ∨ x = Some (next_gen ptOld)
      | Some a =>
        ∃ ptN sA s3 r4 s4,
          x = Some ptN ∧ heap sA = heap s ∧ flags sA = flags s ∧
          GetEx_pt 2 (next_gen ptOld) pid 0 sA = Some (None, s3) ∧
          (if fTR then r4 = None ∧ s4 = s3
           else GetEx_pt 2 ptOld pid 0 s3 = Some (r4, s4)) ∧
          frame s4 s' ∧
          match r4 with
          | Some b => a = b
          | None => ∃ o, heap s' !! a = Some o ∧ dwPID o = pid
          end ∧
          Install_loop (Z.to_nat N) (heap s') (next_gen ptOld) a (home pid) (home pid)
            = Some (Some ptN)
      end
  end.
Proof.
  unfold VmmProcessCreateEntry, VmmProcessGetEx. intros H0.
  destruct ((st =? 0) && negb fDTB).
  { injection H0 as <- <-. split; [apply frame_refl|].
    destruct (pObCPROC s) as [ptOld|]; [|done].
    exists (pObCNewPROC ptOld). by rewrite set_new_id; auto. }
  destruct (pObCPROC s) as [ptOld|] eqn:Eold.
  2:{ injection H0 as <- <-. split; [apply frame_refl|]. by rewrite Eold. }
  (* the state after step 2 *)
  assert (Hstep2 :
    match (match pObCNewPROC ptOld with
           | Some ptNew => Some (ptNew, s)
           | None =>
             match cAllocAvail s with
             | O => None
             | S n => Some (table_zero,
                 set_pObCPROC (set_cAllocAvail s n) (Some (set_new ptOld (Some table_zero))))
             end
           end) with
    | None => True
    | Some (ptNew, s1) =>
      ptNew = next_gen ptOld ∧ frame s s1 ∧ heap s1 = heap s ∧
      (pObCPROC s1 = Some (set_new ptOld (pObCNewPROC ptOld)) ∨
       pObCPROC s1 = Some (set_new ptOld (Some (next_gen ptOld))))
    end).
  { unfold next_gen. destruct (pObCNewPROC ptOld) as [ptNew|] eqn:Enew; simpl.
    - split; [done|]. split; [apply frame_refl|]. split; [done|].
      left. by rewrite <- Enew, set_new_id.
    - destruct (cAllocAvail s) as [|n] eqn:En; [done|].
      split; [done|]. split; [|split; [done|by right]].
      split; simpl; [done|apply heap_ext_refl|done|lia]. }
  destruct (match pObCNewPROC ptOld with Some _ => _ | None => _ end)
    as [[ptNew s1]|]; cbn [mbind option_bind] in H0.
  2:{ injection H0 as <- <-. split; [apply frame_refl|].
      exists (pObCNewPROC ptOld). by rewrite set_new_id; auto. }
  destruct Hstep2 as (-> & Hf1 & Hh1 & Hp1).
  assert (Hx1 : ∃ x, pObCPROC s1 = Some (set_new ptOld x) ∧
                     (x = pObCNewPROC ptOld ∨ x = Some (next_gen ptOld))).
  { destruct Hp1; eauto. }
  clear Hp1.
  destruct (GetEx_pt 2 (next_gen ptOld) pid 0 s1) as [[r3 s3]|] eqn:E3;
    cbn [mbind option_bind] in H0; [|discriminate H0].
  pose proof (GetEx_pt_frame _ _ _ _ _ _ _ E3) as [Hf3 Hp3].
  destruct r3 as [x3|].
  { injection H0 as <- <-. split; [eauto using frame_trans|].
    rewrite Hp3. done. }
  set (step4 := if fTR then Some (None, s3) else GetEx_pt 2 ptOld pid 0 s3) in H0.
  destruct step4 as [[r4 s4]|] eqn:E4; cbn [mbind option_bind] in H0; [|discriminate H0].
  assert (Hf4 : frame s3 s4 ∧ pObCPROC s4 = pObCPROC s3).
  { subst step4. destruct fTR.
    - injection E4 as <- <-. split; [apply frame_refl|done].
    - by apply GetEx_pt_frame in E4. }
  destruct Hf4 as [Hf4 Hp4].
  set (step4b := match r4 with Some a => Some (Some a, s4) | None => _ end) in H0.
  destruct step4b as [[r5 s5]|] eqn:E5; cbn [mbind option_bind] in H0; [|discriminate H0].
  assert (Hf5 : frame s4 s5 ∧ pObCPROC s5 = pObCPROC s4 ∧
                ∀ a, r5 = Some a →
                  match r4 with
                  | Some b => a = b
                  | None => ∃ o, heap s5 !! a = Some o ∧ dwPID o = pid
                  end).
  { subst step4b. destruct r4 as [b|].
    - injection E5 as <- <-. split; [apply frame_refl|]. split; [done|].
      by intros ? [= <-].
    - apply CreateEntry_new_frame in E5 as (? & ? & Hr5).
      split; [done|]. split; [done|]. intros a Ha. by apply Hr5. }
  destruct Hf5 as (Hf5 & Hp5 & Hr5).
  assert (Hf05 : frame s s5) by eauto using frame_trans.
  assert (Hp05 : pObCPROC s5 = pObCPROC s1) by congruence.
  destruct r5 as [a|].
  2:{ injection H0 as <- <-. split; [done|]. rewrite Hp05. done. }
  destruct (Install_loop _ _ _ _ _ _) as [[ptN|]|] eqn:Ei; cbn [mbind option_bind] in H0; [| |discriminate H0].
  2:{ injection H0 as <- <-. split; [done|]. rewrite Hp05. done. }
  injection H0 as <- <-. split.
  { destruct Hf05. split; simpl; auto. }
  exists (Some ptN). split; [done|].
  exists ptN, s1, s3, r4, s4. split; [done|]. split; [done|].
  split; [apply Hf1|]. split; [done|]. split.
  { subst step4. destruct fTR; [|done]. by injection E4 as <- <-. }
  split.
  { destruct Hf5. split; simpl; auto. }
  split; [|done]. by apply Hr5.
Qed.

(** ** Calls made while a generation is under construction *)

(** A call of [VmmProcessGetEx], [VmmProcessClone] or
    [VmmProcessCreateEntry], by any caller and with any arguments. *)
Inductive entry_step : VMM_CONTEXT → VMM_CONTEXT → Prop :=
  | step_GetEx pt pid fl s r s' :
      VmmProcessGetEx pt pid fl s = Some (r, s') → entry_step s s'
  | step_Clone a s r s' :
      VmmProcessClone a s = Some (r, s') → entry_step s s'
  | step_CreateEntry fDTB fTR pid ppid st dtb dtbU name uo ep cb s r s' :
      VmmProcessCreateEntry fDTB fTR pid ppid st dtb dtbU name uo ep cb s
        = Some (r, s') →
      entry_step s s'.

(** The PID is found in the table under construction. *)
Definition pending (pid : Z) (obj : nat) (s : VMM_CONTEXT) : Prop :=
  ∃ ptOld ptN, pObCPROC s = Some ptOld ∧ pObCNewPROC ptOld = Some ptN ∧
    GetEx_loop (Z.to_nat N) (heap s) ptN pid (home pid) (home pid) = Some (Some obj).

(** The PID is not found in the live table. *)
Definition not_live (pid : Z) (s : VMM_CONTEXT) : Prop :=
  ∃ ptOld, pObCPROC s = Some ptOld ∧
    GetEx_loop (Z.to_nat N) (heap s) ptOld pid (home pid) (home pid) = Some None.

Lemma entry_step_frame s s' :
  entry_step s s' →
  frame s s' ∧
  match pObCPROC s with
  | None => pObCPROC s' = None
  | Some ptOld =>
    ∃ x, pObCPROC s' = Some (set_new ptOld x) ∧
      (x = pObCNewPROC ptOld ∨ x = Some (next_gen ptOld) ∨
       ∃ a j, _M (next_gen ptOld) !! j = None ∧
              x = Some (installed (heap s') (next_gen ptOld) a j))
  end.
Proof.
  intros [pt pid fl s0 r s0' Hg | a s0 r s0' Hc | ? ? ? ? ? ? ? ? ? ? ? s0 r s0' He].
  - apply VmmProcessGetEx_frame in Hg as [Hf Hp]. split; [done|]. rewrite Hp.
    destruct (pObCPROC s0) as [ptOld|]; [|done].
    exists (pObCNewPROC ptOld). by rewrite set_new_id; auto.
  - apply VmmProcessClone_frame in Hc as (Hf & Hp & _). split; [done|]. rewrite Hp.
    destruct (pObCPROC s0) as [ptOld|]; [|done].
    exists (pObCNewPROC ptOld). by rewrite set_new_id; auto.
  - apply VmmProcessCreateEntry_inv in He as [Hf Hr]. split; [done|].
    destruct (pObCPROC s0) as [ptOld|]; [|by destruct Hr].
    destruct Hr as (x & Hx & Hr). exists x. split; [done|].
    destruct r as [a|]; [|destruct Hr; auto].
    destruct Hr as (ptN & sA & s3 & r4 & s4 & -> & _ & _ & _ & _ & _ & _ & Hi).
    apply Install_loop_spec in Hi as (j & Hj & _ & -> & _). eauto 10.
Qed.

Lemma pending_step pid obj s s' :
  entry_step s s' → pending pid obj s → pending pid obj s'.
Proof.
  intros Hs (ptOld & ptN & Hold & Hnew & Hl).
  apply entry_step_frame in Hs as [Hf Hr]. rewrite Hold in Hr.
  destruct Hr as (x & Hx & Hr).
  rewrite (next_gen_Some _ _ Hnew), Hnew in Hr.
  pose proof (GetEx_loop_heap_ext _ _ _ _ _ _ _ _ (frame_ext _ _ Hf) Hl) as Hl'.
  destruct Hr as [-> | [-> | (a & j & Hj & ->)]].
  - exists (set_new ptOld (Some ptN)), ptN. done.
  - exists (set_new ptOld (Some ptN)), ptN. done.
  - eexists _, _. split; [exact Hx|]. split; [done|].
    eapply GetEx_loop_insert; [exact Hj|done|done].
Qed.

Lemma not_live_step pid s s' :
  entry_step s s' → not_live pid s → not_live pid s'.
Proof.
  intros Hs (ptOld & Hold & Hl).
  apply entry_step_frame in Hs as [Hf Hr]. rewrite Hold in Hr.
  destruct Hr as (x & Hx & _).
  exists (set_new ptOld x). split; [done|].
  rewrite (GetEx_loop_M _ _ ptOld) by done.
  eapply GetEx_loop_heap_ext; [apply Hf|done].
Qed.

Lemma pending_steps pid obj s s' :
  rtc entry_step s s' → pending pid obj s → pending pid obj s'.
Proof. induction 1; eauto using pending_step. Qed.

Lemma not_live_steps pid s s' :
  rtc entry_step s s' → not_live pid s → not_live pid s'.
Proof. induction 1; eauto using not_live_step. Qed.

Lemma VmmProcessGetEx_live_noclone pid fl s r s' :
  flag_set pid CLONE = false →
  VmmProcessGetEx None pid fl s = Some (r, s') →
  ∃ ptOld, pObCPROC s = Some ptOld ∧
    GetEx_loop (Z.to_nat N) (heap s) ptOld pid (home pid) (home pid) = Some r.
Proof.
  intros Hc. unfold VmmProcessGetEx.
  destruct (pObCPROC s) as [ptOld|]; [|done]. intros Hg.
  change (GetEx_pt 2 ptOld pid fl s = Some (r, s')) in Hg.
  apply GetEx_pt_noclone in Hg as [Hl _]; eauto.
Qed.

(** C1 (amended): a PID without the clone bit that [VmmProcessCreateEntry]
    inserts in the table of the next generation stays invisible to
    [VmmProcessGetEx(NULL, pid, 0)] while the generation is under
    construction, if it was not in the live table; after
    [VmmProcessCreateFinish] the lookup returns the object
    [VmmProcessCreateEntry] returned; and when the PID is carried over
    ([fTotalRefresh] false, PID in the live table) that object is the one
    the live table held. *)
Theorem C1_generation_swap fDTB fTR pid ppid st dtb dtbU name uo ep cb s obj s1 s2 :
  flag_set pid CLONE = false →
  VmmProcessCreateEntry fDTB fTR pid ppid st dtb dtbU name uo ep cb s
    = Some (Some obj, s1) →
  rtc entry_step s1 s2 →
  (∀ s', VmmProcessGetEx None pid 0 s = Some (None, s') →
         VmmProcessGetEx None pid 0 s2 = Some (None, s2)) ∧
  (∃ s3, VmmProcessGetEx None pid 0 (VmmProcessCreateFinish s2)
           = Some (Some obj, s3)) ∧
  (fTR = false → ∀ o s', VmmProcessGetEx None pid 0 s = Some (Some o, s') →
                 obj = o).
Proof.
  intros Hc He Hsteps.
  pose proof (step_CreateEntry _ _ _ _ _ _ _ _ _ _ _ _ _ _ He) as Hstep.
  apply VmmProcessCreateEntry_inv in He as [Hf Hr].
  destruct (pObCPROC s) as [ptOld|] eqn:Eold; [|by destruct Hr].
  destruct Hr as (x & Hx & ptN & sA & s3 & r4 & s4 & -> & HhA & HflA & H3 & H4 & Hf4 & Hobj & Hi).
  apply GetEx_pt_noclone in H3 as [Hl3 Hs3]; [|done]. specialize (Hs3 eq_refl). subst s3.
  assert (Hr4 : GetEx_loop (Z.to_nat N) (heap s) ptOld pid (home pid) (home pid) = Some r4
                ∨ (fTR = true ∧ r4 = None)).
  { destruct fTR; [right; by destruct H4|left].
    apply GetEx_pt_noclone in H4 as [Hl4 _]; [|done]. by rewrite <- HhA. }
  assert (Hext : heap_ext (heap s) (heap s1)) by apply Hf.
  assert (Hpid : ∃ o, heap s1 !! obj = Some o ∧ dwPID o = pid).
  { destruct r4 as [b|]; [subst b|done].
    destruct Hr4 as [Hl4|[_ ?]]; [|done].
    apply GetEx_loop_found in Hl4 as (o & Ho & Hp).
    destruct (Hext _ _ Ho) as (o' & Ho' & Hp' & _). exists o'. split; [done|congruence]. }
  destruct Hpid as (o & Ho & Hpid).
  assert (Hpend : pending pid obj s1).
  { exists (set_new ptOld (Some ptN)), ptN. split; [done|]. split; [done|].
    eapply GetEx_loop_install; [exact Ho|exact Hpid| |exact Hi].
    rewrite HhA in Hl3. eapply GetEx_loop_heap_ext; [exact Hext|exact Hl3]. }
  split; [|split].
  - intros s' Hg.
    apply VmmProcessGetEx_live_noclone in Hg as (pt0 & Hpt0 & Hl0); [|done].
    assert (Hnl : not_live pid s) by (exists pt0; split; done).
    apply (not_live_step _ _ _ Hstep) in Hnl.
    apply (not_live_steps _ _ _ Hsteps) in Hnl as (pt2 & Hpt2 & Hl2).
    unfold VmmProcessGetEx. rewrite Hpt2. cbn [mbind option_bind].
    destruct (GetEx_pt_noclone_run 1 pt2 pid 0 s2 None Hc Hl2) as (s'' & Hrun).
    pose proof Hrun as Hrun'.
    apply GetEx_pt_noclone in Hrun' as [_ Hsame]; [|done].
    by rewrite (Hsame eq_refl) in Hrun.
  - apply (pending_steps _ _ _ _ Hsteps) in Hpend as (pt2 & ptN2 & Hpt2 & HptN2 & Hl2).
    unfold VmmProcessCreateFinish, VmmProcessGetEx. rewrite Hpt2, HptN2. simpl pObCPROC.
    cbn [mbind option_bind].
    apply (GetEx_pt_noclone_run 1 ptN2 pid 0 (set_pObCPROC s2 (Some ptN2)) (Some obj) Hc Hl2).
  - intros -> o0 s' Hg.
    apply VmmProcessGetEx_live_noclone in Hg as (pt0 & Hpt0 & Hl0); [|done].
    rewrite Eold in Hpt0. injection Hpt0 as <-.
    destruct Hr4 as [Hl4|[? _]]; [|done].
    rewrite Hl0 in Hl4. injection Hl4 as <-. done.
Qed.

(** ** Clones *)

(** Any call of the process API. *)
Inductive api_step : VMM_CONTEXT → VMM_CONTEXT → Prop :=
  | api_entry s s' : entry_step s s' → api_step s s'
  | api_CreateFinish s : api_step s (VmmProcessCreateFinish s)
  | api_CreateInitial s : api_step s (snd (VmmProcessTableCreateInitial s)).

(** The context before [VmmInitialize]: no table, no object. *)
Definition ctx_zero (fl : Z) (avail : nat) : VMM_CONTEXT := mkCtx None fl ∅ ∅ avail.

Lemma api_step_clone_inv s s' :
  api_step s s' → clone_inv (heap s) → clone_inv (heap s').
Proof.
  intros [s0 s0' He | s0 | s0].
  - apply entry_step_frame in He as [Hf _]. apply Hf.
  - unfold VmmProcessCreateFinish.
    destruct (pObCPROC s0) as [ptOld|]; [|done].
    by destruct (pObCNewPROC ptOld).
  - unfold VmmProcessTableCreateInitial. by destruct (cAllocAvail s0).
Qed.

Lemma api_steps_clone_inv s s' :
  rtc api_step s s' → clone_inv (heap s) → clone_inv (heap s').
Proof. induction 1; eauto using api_step_clone_inv. Qed.

(** C9: [VmmProcessClone] returns NULL on a clone, and in every state the
    process API can reach the parent of a clone is an object that is not a
    clone: clone chains have depth at most one. *)
Theorem C9_clones_never_nested :
  (∀ a s o, heap s !! a = Some o → is_Some (pObProcessCloneParent o) →
            VmmProcessClone a s = Some (None, s)) ∧
  (∀ fl avail s, rtc api_step (ctx_zero fl avail) s →
     ∀ cl o p, heap s !! cl = Some o → pObProcessCloneParent o = Some p →
       ∃ po, heap s !! p = Some po ∧ pObProcessCloneParent po = None).
Proof.
  split.
  - intros a s o Ha [p Hp]. unfold VmmProcessClone. rewrite Ha. simpl. by rewrite Hp.
  - intros fl avail s Hsteps.
    apply (api_steps_clone_inv _ _ Hsteps). intros a o p Ha. done.
Qed.

(** ** Enumeration of the PIDs *)

(** The tables [VmmProcessCreateEntry] builds: starting from the zeroed
    table, step 5 installs an object whose PID the probe of step 3 did not
    find.  [l] lists the installed objects, the most recently installed
    first. *)
Inductive built (h : gmap nat VMM_PROCESS)
    : VMMOB_PROCESS_TABLE → list nat → Prop :=
  | built_zero : built h table_zero []
  | built_install pt l a o pt' :
      built h pt l → h !! a = Some o →
      GetEx_loop (Z.to_nat N) h pt (dwPID o) (home (dwPID o)) (home (dwPID o))
        = Some None →
      Install_loop (Z.to_nat N) h pt a (home (dwPID o)) (home (dwPID o))
        = Some (Some pt') →
      built h pt' (a :: l)
  | built_set_new pt l x : built h pt l → built h (set_new pt x) l.

Definition pid_of (h : gmap nat VMM_PROCESS) (a : nat) : Z :=
  default 0 (dwPID <$> h !! a).

(** [!pProcess->dwState || fShowTerminated] *)
Definition shown (h : gmap nat VMM_PROCESS) (fShowTerminated : bool) (a : nat) : bool :=
  bool_decide ((dwState <$> h !! a) = Some 0) || fShowTerminated.

(** The links [_iFLinkM] chain the slots [sl] in this order and end in 0. *)
Fixpoint links (pt : VMMOB_PROCESS_TABLE) (sl : list Z) : Prop :=
  match sl with
  | [] => True
  | j :: rest => default 0 (_iFLinkM pt !! j) = hd 0 rest ∧ links pt rest
  end.

(** The invariant of a built table; [sl] pairs every installed object with
    its slot, the most recently installed first. *)
Record table_inv (h : gmap nat VMM_PROCESS) (pt : VMMOB_PROCESS_TABLE)
    (sl : list (Z * nat)) : Prop := mkTableInv {
  inv_slots : NoDup (sl.*1);
  inv_objs : NoDup (sl.*2);
  inv_M : ∀ j a, _M pt !! j = Some a ↔ (j, a) ∈ sl;
  inv_range : ∀ j a, (j, a) ∈ sl → 0 ≤ j < N;
  inv_probe : ∀ j a, (j, a) ∈ sl →
    ∃ o, h !! a = Some o ∧
      GetEx_loop (Z.to_nat N) h pt (dwPID o) (home (dwPID o)) (home (dwPID o))
        = Some (Some a);
  inv_head : _iFLink pt = hd 0 (sl.*1);
  inv_links : links pt (sl.*1);
  inv_c : c pt = Z.of_nat (length sl);
  inv_cActive :
    cActive pt = Z.of_nat (length (filter (λ a, shown h false a = true) (sl.*2)));
}.

Lemma links_insert pt pt' j v sl :
  _iFLinkM pt' = <[j := v]> (_iFLinkM pt) → j ∉ sl →
  links pt sl → links pt' sl.
Proof.
  intros HL. induction sl as [|k rest IH]; simpl; [done|].
  intros Hj [Hk Hrest]. apply not_elem_of_cons in Hj as [Hjk Hj].
  split; [|auto]. rewrite HL, lookup_insert_ne by done. done.
Qed.

Lemma links_set_new pt x sl : links pt sl → links (set_new pt x) sl.
Proof. induction sl; simpl; [done|]. intros [? ?]; auto. Qed.

Lemma table_inv_zero h : table_inv h table_zero [].
Proof.
  split; simpl; try done; try apply NoDup_nil_2.
  - intros j a. rewrite lookup_empty. split; [done|]. by intros ?%elem_of_nil.
  - by intros j a ?%elem_of_nil.
  - by intros j a ?%elem_of_nil.
Qed.

Lemma table_inv_set_new h pt sl x : table_inv h pt sl → table_inv h (set_new pt x) sl.
Proof.
  intros [A B C D E F G I J]. split; simpl; auto.
  - intros j a Hin. destruct (E j a Hin) as (o & Ho & Hl). exists o. split; [done|].
    by rewrite (GetEx_loop_M _ _ pt).
  - by apply links_set_new.
Qed.

Lemma table_inv_install h pt sl a o pt' :
  0 < N ≤ 2 ^ 16 →
  table_inv h pt sl → h !! a = Some o →
  GetEx_loop (Z.to_nat N) h pt (dwPID o) (home (dwPID o)) (home (dwPID o))
    = Some None →
  Install_loop (Z.to_nat N) h pt a (home (dwPID o)) (home (dwPID o))
    = Some (Some pt') →
  ∃ j, table_inv h pt' ((j, a) :: sl).
Proof.
  intros HN [A B C D E F G I J] Ha Hg Hi.
  pose proof (GetEx_loop_install _ _ _ _ _ _ _ _ _ Ha eq_refl Hg Hi) as Hfound.
  apply Install_loop_spec in Hi as (j & Hj & _ & -> & Hr).
  assert (Hjr : 0 ≤ j < N) by (apply Hr; [lia|]; apply Z.mod_pos_bound; lia).
  assert (Hjsl : j ∉ sl.*1).
  { intros ((j' & a') & Hj' & Hin)%(list_elem_of_fmap_1 fst). simpl in Hj'. subst j'.
    apply C in Hin. congruence. }
  assert (Hasl : a ∉ sl.*2).
  { intros ((j' & a') & Ha' & Hin)%(list_elem_of_fmap_1 snd). simpl in Ha'. subst a'.
    destruct (E _ _ Hin) as (o' & Ho' & Hl'). congruence. }
  exists j. split; simpl.
  - by apply NoDup_cons_2.
  - by apply NoDup_cons_2.
  - intros k b. rewrite elem_of_cons. destruct (decide (j = k)) as [->|Hne].
    + rewrite lookup_insert_eq. split.
      * intros [= <-]. by left.
      * intros [[= <-]|Hin]; [done|].
        exfalso. apply Hjsl. apply (list_elem_of_fmap_2 fst _ (k, b)). done.
    + rewrite lookup_insert_ne by done. rewrite C. split; [auto|].
      intros [[= ? ?]|?]; [congruence|done].
  - intros k b [[= -> ->]|Hin]%elem_of_cons; eauto.
  - intros k b [[= -> ->]|Hin]%elem_of_cons.
    + eauto.
    + destruct (E _ _ Hin) as (o' & Ho' & Hl'). exists o'. split; [done|].
      eapply GetEx_loop_insert; [exact Hj|done|done].
  - apply Z.mod_small. lia.
  - split.
    + rewrite lookup_insert_eq. simpl. done.
    + eapply links_insert; [done|done|done].
  - rewrite I. lia.
  - rewrite J. rewrite filter_cons.
    assert (Hsh : shown h false a = true ↔ dwState <$> h !! a = Some 0).
    { unfold shown. rewrite orb_false_r. apply bool_decide_eq_true. }
    destruct (decide (dwState <$> h !! a = Some 0)) as [Hs|Hs],
             (decide (shown h false a = true)) as [Ht|Ht]; cbn [length].
    + rewrite Nat2Z.inj_succ. reflexivity.
    + by apply Hsh in Hs.
    + by apply Hsh in Ht.
    + rewrite Z.add_0_r. reflexivity.
Qed.

Lemma built_table_inv h pt l :
  0 < N ≤ 2 ^ 16 → built h pt l → ∃ sl, sl.*2 = l ∧ table_inv h pt sl.
Proof.
  intros HN. induction 1 as [|pt l a o pt' _ (sl & <- & Hinv) Ha Hg Hi|pt l x _ (sl & <- & Hinv)].
  - exists []. split; [done|]. apply table_inv_zero.
  - destruct (table_inv_install _ _ _ _ _ _ HN Hinv Ha Hg Hi) as (j & Hinv').
    exists ((j, a) :: sl). done.
  - exists sl. split; [done|]. by apply table_inv_set_new.
Qed.

(** The PIDs [VmmProcessListPIDs] copies for the objects [l]. *)
Definition listed (h : gmap nat VMM_PROCESS) (fShowTerminated : bool)
    (l : list nat) : list Z :=
  pid_of h <$> filter (λ a, shown h fShowTerminated a = true) l.

Lemma links_app pt l1 l2 : links pt (l1 ++ l2) → links pt l2.
Proof. induction l1 as [|x l1 IH]; simpl; [done|]. intros [_ ?]; auto. Qed.

Lemma shown_lookup h fST a o :
  h !! a = Some o → shown h fST a = (dwState o =? 0) || fST.
Proof.
  intros Ha. unfold shown. rewrite Ha. simpl. f_equal.
  destruct (Z.eqb_spec (dwState o) 0) as [->|Hne].
  - by apply bool_decide_eq_true_2.
  - apply bool_decide_eq_false_2. congruence.
Qed.

Lemma listed_cons h fST a l :
  listed h fST (a :: l) =
  (if shown h fST a then [pid_of h a] else []) ++ listed h fST l.
Proof.
  unfold listed. rewrite filter_cons.
  destruct (decide (shown h fST a = true)) as [->|Hn]; [done|].
  by destruct (shown h fST a).
Qed.

Lemma ListPIDs_loop_ok h pt sl fST :
  table_inv h pt sl →
  (_M pt !! 0 = None ∨ _iFLink pt = 0) →
  ∀ rest pre j a w t fuel,
    sl = pre ++ (j, a) :: rest →
    (length rest < fuel)%nat →
    Z.of_nat (length w + length (listed h fST (a :: rest.*2))) < 2 ^ 32 →
    (length (listed h fST (a :: rest.*2)) ≤ length t)%nat →
    ListPIDs_loop fuel h pt fST (w ++ t) (Z.of_nat (length w)) j a =
    Some (w ++ listed h fST (a :: rest.*2)
            ++ drop (length (listed h fST (a :: rest.*2))) t,
          Z.of_nat (length w + length (listed h fST (a :: rest.*2)))).
Proof.
  intros Hinv Hzero. induction rest as [|[j' a'] rest IH];
    intros pre j a w t fuel Hsl Hfuel Hlt Hfit;
    (destruct fuel as [|fuel]; [lia|]); cbn [ListPIDs_loop].
  all: assert (Hin : (j, a) ∈ sl)
    by (rewrite Hsl; apply elem_of_app; right; apply elem_of_cons; by left).
  all: destruct (inv_probe _ _ _ Hinv _ _ Hin) as (o & Ho & _).
  all: rewrite Ho; cbn [mbind option_bind].
  all: rewrite <- (shown_lookup h fST a o Ho).
  all: rewrite listed_cons in Hlt, Hfit |- *.
  all: pose proof (inv_links _ _ _ Hinv) as Hlinks.
  all: rewrite Hsl, fmap_app in Hlinks; apply links_app in Hlinks.
  all: cbn [fmap list_fmap fst links] in Hlinks.
  all: destruct Hlinks as [Hnext _]; rewrite Hnext; cbn [hd fmap list_fmap fst].
  - (* the last object of the chain: its link is 0 *)
    assert (Hstop : ∀ r, match _M pt !! 0 with
                         | Some a' => if decide (0 = _iFLink pt) then Some r
                                      else ListPIDs_loop fuel h pt fST r.1 r.2 0 a'
                         | None => Some r
                         end = Some r).
    { intros r. destruct (_M pt !! 0) as [a'|] eqn:E0; [|done].
      destruct Hzero as [?|Hh]; [congruence|].
      by destruct (decide (0 = _iFLink pt)). }
    cbn [fmap list_fmap] in *. unfold listed in *.
    rewrite filter_nil in *. cbn [fmap list_fmap] in *. rewrite app_nil_r in *.
    destruct (shown h fST a); cbn [length app] in *.
    + rewrite decide_True by (rewrite Nat2Z.id, length_app; lia).
      cbn [mbind option_bind].
      specialize (Hstop (<[Z.to_nat (Z.of_nat (length w)) := dwPID o]> (w ++ t),
                         (Z.of_nat (length w) + 1) `mod` 2 ^ 32)).
      cbn [fst snd] in Hstop. rewrite Hstop. f_equal. f_equal.
      * rewrite Nat2Z.id. destruct t as [|x t]; [simpl in Hfit; lia|].
        rewrite insert_app_r_alt by lia. rewrite Nat.sub_diag. simpl.
        unfold pid_of. rewrite Ho. simpl. by rewrite drop_0.
      * rewrite Z.mod_small by lia. lia.
    + specialize (Hstop (w ++ t, Z.of_nat (length w))). cbn [fst snd] in Hstop.
      cbn [mbind option_bind]. rewrite Hstop. rewrite drop_0. f_equal. f_equal. lia.
  - (* an inner object: the link is the slot of the next one *)
    assert (Hin' : (j', a') ∈ sl).
    { rewrite Hsl. apply elem_of_app. right. apply elem_of_cons. right.
      apply elem_of_cons. by left. }
    apply (inv_M _ _ _ Hinv) in Hin'. rewrite Hin'.
    assert (Hnh : j' ≠ _iFLink pt).
    { rewrite (inv_head _ _ _ Hinv). pose proof (inv_slots _ _ _ Hinv) as Hnd.
      rewrite Hsl in Hnd |- *. rewrite fmap_app in Hnd |- *. cbn [fmap list_fmap fst] in *.
      destruct pre as [|[j0 a0] pre]; cbn [fmap list_fmap app hd fst] in *.
      - apply NoDup_cons_1_1 in Hnd. intros ->. apply Hnd.
        apply elem_of_cons. by left.
      - apply NoDup_cons_1_1 in Hnd. intros ->. apply Hnd.
        apply elem_of_app. right. apply elem_of_cons. right.
        apply elem_of_cons. by left. }
    destruct (decide (j' = _iFLink pt)) as [?|_]; [done|].
    cbn [fmap list_fmap snd] in *.
    assert (Hsl' : sl = (pre ++ [(j, a)]) ++ (j', a') :: rest)
      by (by rewrite <- app_assoc).
    destruct (shown h fST a); cbn [length app] in *.
    + rewrite decide_True by (rewrite Nat2Z.id, length_app; lia).
      cbn [mbind option_bind].
      destruct t as [|x t]; [simpl in Hfit; lia|].
      rewrite Nat2Z.id, insert_app_r_alt by lia. rewrite Nat.sub_diag.
      cbn [insert list_insert]. rewrite Z.mod_small by lia.
      specialize (IH (pre ++ [(j, a)]) j' a' (w ++ [dwPID o]) t fuel Hsl').
      rewrite length_app in IH. cbn [length] in IH.
      replace (Z.of_nat (length w) + 1) with (Z.of_nat (length w + 1)) by lia.
      rewrite (cons_middle (dwPID o) w t), app_assoc.
      rewrite IH; [|lia|lia|simpl in Hfit; lia].
      f_equal. f_equal.
      * rewrite <- app_assoc. cbn [app drop]. unfold pid_of. rewrite Ho. done.
      * lia.
    + cbn [mbind option_bind].
      specialize (IH (pre ++ [(j, a)]) j' a' w t fuel Hsl').
      rewrite IH; [done|lia|lia|lia].
Qed.

Lemma table_inv_length h pt sl :
  0 < N → table_inv h pt sl → Z.of_nat (length sl) ≤ N.
Proof.
  intros HN Hinv.
  assert (Hsub : sl.*1 ⊆+ seqZ 0 N).
  { apply NoDup_submseteq; [apply Hinv|].
    intros j ([j' a] & -> & Hin)%list_elem_of_fmap_1. simpl.
    apply elem_of_seqZ. pose proof (inv_range _ _ _ Hinv _ _ Hin). lia. }
  apply submseteq_length in Hsub. rewrite length_fmap, length_seqZ in Hsub. lia.
Qed.

Lemma table_inv_pid_inj h pt sl a a' :
  table_inv h pt sl → a ∈ sl.*2 → a' ∈ sl.*2 →
  pid_of h a = pid_of h a' → a = a'.
Proof.
  intros Hinv ([j b] & -> & Hin)%list_elem_of_fmap_1
              ([j' b'] & -> & Hin')%list_elem_of_fmap_1. simpl.
  destruct (inv_probe _ _ _ Hinv _ _ Hin) as (o & Ho & Hl).
  destruct (inv_probe _ _ _ Hinv _ _ Hin') as (o' & Ho' & Hl').
  unfold pid_of. rewrite Ho, Ho'. simpl. intros E. rewrite E in Hl. congruence.
Qed.

Lemma listed_length_le h fST l : (length (listed h fST l) ≤ length l)%nat.
Proof. unfold listed. rewrite length_fmap. apply length_filter. Qed.

Lemma listed_true h l : length (listed h true l) = length l.
Proof.
  unfold listed. rewrite length_fmap. f_equal.
  induction l as [|a l IH]; [done|]. rewrite filter_cons.
  rewrite decide_True; [by rewrite IH|].
  unfold shown. apply orb_true_r.
Qed.

(** C7 (amended): for a table built by [VmmProcessCreateEntry] installs
    ([l] lists the installed objects, the most recently installed first)
    whose slot 0 is free or holds the most recent object,
    [VmmProcessListPIDs] with a NULL array reports [c] (SHOW_TERMINATED) or
    [cActive] (otherwise), which is the number of PIDs it copies into a
    large enough array; the PIDs are copied most recently installed first,
    terminated processes left out unless SHOW_TERMINATED is set, and no PID
    is copied twice. *)
Theorem C7_ListPIDs_exact fl s pt l :
  0 < N ≤ 2 ^ 16 →
  pObCPROC s = Some pt →
  built (heap s) pt l →
  (_M pt !! 0 = None ∨ _iFLink pt = 0) →
  let fST := flag_set (Z.lor fl (flags s)) VMM_FLAG_PROCESS_SHOW_TERMINATED in
  let pids := listed (heap s) fST l in
  (if fST then c pt else cActive pt) = Z.of_nat (length pids) ∧
  (∀ fuel n, VmmProcessListPIDs fuel None n fl s
               = Some (None, Z.of_nat (length pids))) ∧
  (∀ fuel buf n,
     (length l < fuel)%nat → Z.of_nat (length pids) ≤ n →
     (length pids ≤ length buf)%nat →
     VmmProcessListPIDs fuel (Some buf) n fl s
       = Some (Some (pids ++ drop (length pids) buf), Z.of_nat (length pids))) ∧
  NoDup pids.
Proof.
  intros HN Hpt Hb Hzero fST pids.
  destruct (built_table_inv _ _ _ HN Hb) as (sl & Hl & Hinv).
  assert (Hcount : (if fST then c pt else cActive pt) = Z.of_nat (length pids)).
  { subst pids. destruct fST.
    - rewrite listed_true, (inv_c _ _ _ Hinv), <- Hl. by rewrite length_fmap.
    - rewrite (inv_cActive _ _ _ Hinv), Hl. unfold listed. by rewrite length_fmap. }
  split; [done|]. split; [|split].
  - intros fuel n. unfold VmmProcessListPIDs. rewrite Hpt. cbn [mbind option_bind].
    fold fST. by rewrite Hcount.
  - intros fuel buf n Hfuel Hn Hbuf.
    unfold VmmProcessListPIDs. rewrite Hpt. cbn [mbind option_bind]. fold fST.
    rewrite Hcount. rewrite decide_False by lia.
    rewrite (inv_head _ _ _ Hinv).
    destruct sl as [|[j a] rest]; cbn [fmap list_fmap hd fst].
    + assert (HM0 : _M pt !! 0 = None).
      { destruct (_M pt !! 0) as [a|] eqn:E0; [|done].
        apply (inv_M _ _ _ Hinv) in E0. by apply elem_of_nil in E0. }
      rewrite HM0. subst pids. rewrite <- Hl. cbn. by rewrite drop_0.
    + assert (HMj : _M pt !! j = Some a).
      { apply (inv_M _ _ _ Hinv). apply elem_of_cons. by left. }
      rewrite HMj.
      pose proof (table_inv_length _ _ _ ltac:(lia) Hinv) as Hlen.
      pose proof (listed_length_le (heap s) fST l) as Hle. fold pids in Hle.
      assert (Hll : length l = length ((j, a) :: rest))
        by (by rewrite <- Hl, length_fmap).
      assert (Hl2 : l = a :: rest.*2) by (by rewrite <- Hl).
      pose proof (ListPIDs_loop_ok _ _ _ fST Hinv Hzero rest [] j a [] buf fuel
                    eq_refl) as Hloop.
      cbn [app length Nat.add] in Hloop. change (Z.of_nat 0) with 0 in Hloop.
      rewrite <- Hl2 in Hloop. fold pids in Hloop.
      rewrite Hloop; [done| |lia|done].
      rewrite Hll in Hfuel. simpl in Hfuel. lia.
  - subst pids. unfold listed.
    apply NoDup_fmap_2_strong.
    + intros a a' Ha Ha' E. apply list_elem_of_filter in Ha as [_ Ha].
      apply list_elem_of_filter in Ha' as [_ Ha']. rewrite <- Hl in Ha, Ha'.
      eapply table_inv_pid_inj; eauto.
    + apply NoDup_filter. rewrite <- Hl. apply Hinv.
Qed.

(** [VmmProcessCreateEntry] with a PID without the clone bit builds the
    table of the next generation in the sense of [built]. *)
Lemma Install_loop_heap_ext fuel h h' pt a i i0 r :
  heap_ext h h' →
  Install_loop fuel h pt a i i0 = Some r → Install_loop fuel h' pt a i i0 = Some r.
Proof.
  intros Hext. revert i. induction fuel as [|fuel IH]; intros i; simpl; [done|].
  destruct (_M pt !! i) as [b|].
  - destruct (decide (next_slot i = i0)); [done|]. apply IH.
  - destruct (h !! a) as [o|] eqn:Ea; [|done]. simpl.
    destruct (Hext _ _ Ea) as (o' & -> & _ & E & _). simpl. by rewrite E.
Qed.

Lemma built_heap_ext h h' pt l : heap_ext h h' → built h pt l → built h' pt l.
Proof.
  intros Hext. induction 1 as [|pt l a o pt' _ IH Ha Hg Hi|pt l x _ IH].
  - constructor.
  - destruct (Hext _ _ Ha) as (o' & Ha' & Hp & _).
    eapply built_install; [exact IH|exact Ha'|rewrite Hp..].
    + eapply GetEx_loop_heap_ext; eauto.
    + eapply Install_loop_heap_ext; eauto.
  - by constructor.
Qed.


End Proc.

(** ** Concrete runs (a table of 8 slots) *)

#[local] Existing Instance small_consts.

Definition tok_none
    : VMMOB_PROCESS_TABLE → gmap nat VMM_PROCESS → nat → VMM_TOKEN :=
  λ _ _ _, token_zero.

Definition name_A : list Z := replicate 16 65.

(** The state of a [VmmProcessCreateEntry] run ([s] itself when the run has
    no defined result). *)
Definition state_of (r : option (option nat * VMM_CONTEXT)) (s : VMM_CONTEXT)
    : VMM_CONTEXT :=
  match r with Some (_, s') => s' | None => s end.

(** After [VmmInitialize]: an empty live table. *)
Definition st_init : VMM_CONTEXT :=
  snd (VmmProcessTableCreateInitial (ctx_zero 0 100)).

(** First generation: PID 100 (slot 4). *)
Definition st_gen1 : VMM_CONTEXT :=
  VmmProcessCreateFinish
    (state_of (VmmProcessCreateEntry tok_none true true 100 4 0 0x1aa000 0
                 name_A false None 0 st_init) st_init).

(** Second generation under construction: PID 100 is carried over, then
    PID 204 (terminated; slot 4 is taken, it goes to slot 5) and PID 301
    (slot 5 is taken, it goes to slot 6) are created. *)
Definition st_100 : VMM_CONTEXT :=
  state_of (VmmProcessCreateEntry tok_none true false 100 4 0 0x1aa000 0
              name_A false None 0 st_gen1) st_gen1.
Definition st_204 : VMM_CONTEXT :=
  state_of (VmmProcessCreateEntry tok_none true false 204 4 1 0x2bb000 0
              name_A true None 0 st_100) st_100.
Definition st_301 : VMM_CONTEXT :=
  state_of (VmmProcessCreateEntry tok_none true false 301 4 0 0x3cc000 0
              name_A true None 0 st_204) st_204.
Definition st_gen2 : VMM_CONTEXT := VmmProcessCreateFinish st_301.


Lemma run_204 :
  VmmProcessCreateEntry tok_none true false 204 4 1 0x2bb000 0 name_A true None 0
    st_100 = Some (Some 1%nat, st_204).
Proof. vm_compute. reflexivity. Qed.

Lemma run_301 :
  VmmProcessCreateEntry tok_none true false 301 4 0 0x3cc000 0 name_A true None 0
    st_204 = Some (Some 2%nat, st_301).
Proof. vm_compute. reflexivity. Qed.

(** Witness of C1: PID 204 is created while PID 100 is live; PID 301 is
    created afterwards. *)
Lemma C1_generation_swap_witness :
  VmmProcessGetEx tok_none None 204 0 st_301 = Some (None, st_301) ∧
  (∃ s3, VmmProcessGetEx tok_none None 204 0 st_gen2 = Some (Some 1%nat, s3)).
Proof.
  assert (Hc : flag_set 204 VMM_PID_PROCESS_CLONE_WITH_KERNELMEMORY = false)
    by reflexivity.
  assert (Hsteps : rtc (entry_step tok_none) st_204 st_301).
  { eapply rtc_l; [|apply rtc_refl]. eapply step_CreateEntry. exact run_301. }
  destruct (C1_generation_swap tok_none _ _ _ _ _ _ _ _ _ _ _ _ _ _ _
              Hc run_204 Hsteps) as (Hbefore & Hafter & _).
  split.
  - apply (Hbefore st_100). vm_compute. reflexivity.
  - exact Hafter.
Defined.

(** Counterexample to C1 as stated: PID 0x80000064 carries the clone bit
    of PID 100, which is live.  The PID is in no slot of the live table (the
    probe finds nothing), [VmmProcessCreateEntry] inserts it in the table of
    the next generation, and before [VmmProcessCreateFinish] the lookup
    already returns an object: a clone of PID 100. *)
Lemma C1_counterexample :
  let pid := 0x80000064 in
  let r := VmmProcessCreateEntry tok_none true true pid 4 0 0x1aa000 0 name_A
             false None 0 st_gen1 in
  GetEx_loop 8 (heap st_gen1) (default table_zero (pObCPROC st_gen1)) pid
    (pid `mod` 8) (pid `mod` 8) = Some None ∧
  fst <$> r = Some (Some 1%nat) ∧
  fst <$> VmmProcessGetEx tok_none None pid 0 (state_of r st_gen1)
    = Some (Some 3%nat) ∧
  (pObProcessCloneParent <$> heap (state_of
      (VmmProcessGetEx tok_none None pid 0 (state_of r st_gen1)) st_gen1) !! 3%nat)
    = Some (Some 0%nat).
Proof. vm_compute. repeat split; reflexivity. Qed.

(** Witness of C9: the lookup of PID 100 with the clone bit in the first
    generation creates a clone (object 1) of object 0; cloning the clone
    gives NULL, and the parent of the clone is not a clone. *)
Definition st_clone : VMM_CONTEXT :=
  state_of (VmmProcessGetEx tok_none None (100 + 0x80000000) 0 st_gen1) st_gen1.

Lemma st_clone_reachable : rtc (api_step tok_none) (ctx_zero 0 100) st_clone.
Proof.
  eapply rtc_l; [apply api_CreateInitial|].
  eapply rtc_l.
  { apply api_entry.
    eapply (step_CreateEntry tok_none true true 100 4 0 0x1aa000 0 name_A false None 0).
    vm_compute. reflexivity. }
  eapply rtc_l; [apply api_CreateFinish|].
  eapply rtc_l; [|apply rtc_refl].
  apply api_entry. eapply (step_GetEx tok_none None (100 + 0x80000000) 0).
  vm_compute. reflexivity.
Qed.

Lemma C9_clones_never_nested_witness :
  VmmProcessClone 1 st_clone = Some (None, st_clone) ∧
  ∃ po, heap st_clone !! 0%nat = Some po ∧ pObProcessCloneParent po = None.
Proof.
  destruct (C9_clones_never_nested tok_none) as [Hclone Hinv].
  assert (Hob : ∃ o, heap st_clone !! 1%nat = Some o ∧
                     pObProcessCloneParent o = Some 0%nat).
  { eexists. split; vm_compute; reflexivity. }
  destruct Hob as (o & Ho & Hp). split.
  - apply (Hclone 1%nat st_clone o Ho). rewrite Hp. eauto.
  - exact (Hinv 0 100%nat st_clone st_clone_reachable 1%nat o 0%nat Ho Hp).
Defined.

(** The live table of a state and the table of its next generation. *)
Definition live_table (s : VMM_CONTEXT) : VMMOB_PROCESS_TABLE :=
  default table_zero (pObCPROC s).
Definition pending_table (s : VMM_CONTEXT) : VMMOB_PROCESS_TABLE :=
  default table_zero (pObCPROC s ≫= pObCNewPROC).

(** The live table of the second generation is built by installing the
    objects 0, 1 and 2 in this order. *)
Lemma st_gen2_built : built (heap st_gen2) (live_table st_gen2) [2; 1; 0]%nat.
Proof.
  eapply (built_install _ (pending_table st_204) [1; 0]%nat 2%nat);
    [|vm_compute; reflexivity..].
  eapply (built_install _ (pending_table st_100) [0]%nat 1%nat);
    [|vm_compute; reflexivity..].
  eapply (built_install _ table_zero [] 0%nat);
    [|vm_compute; reflexivity..].
  apply built_zero.
Qed.

(** Witness of C7: the second generation holds the PIDs 100, 204
    (terminated) and 301, installed in this order. *)
Lemma C7_ListPIDs_exact_witness :
  VmmProcessListPIDs 4 None 0 0 st_gen2 = Some (None, 2) ∧
  VmmProcessListPIDs 4 (Some [0; 0; 0]) 3 0 st_gen2 = Some (Some [301; 100; 0], 2) ∧
  VmmProcessListPIDs 4 (Some [0; 0; 0]) 3 VMM_FLAG_PROCESS_SHOW_TERMINATED st_gen2
    = Some (Some [301; 204; 100], 3).
Proof.
  assert (HN : 0 < VMM_PROCESSTABLE_ENTRIES_MAX ≤ 2 ^ 16) by (vm_compute; split; [reflexivity|discriminate]).
  assert (Hpt : pObCPROC st_gen2 = Some (live_table st_gen2)) by (vm_compute; reflexivity).
  assert (Hzero : _M (live_table st_gen2) !! 0 = None ∨ _iFLink (live_table st_gen2) = 0)
    by (left; vm_compute; reflexivity).
  destruct (C7_ListPIDs_exact 0 st_gen2 _ _ HN Hpt st_gen2_built Hzero)
    as (_ & Hnull & Hbuf & _).
  destruct (C7_ListPIDs_exact VMM_FLAG_PROCESS_SHOW_TERMINATED st_gen2 _ _ HN Hpt
              st_gen2_built Hzero) as (_ & _ & Hbuf' & _).
  split; [exact (Hnull 4%nat 0)|]. split.
  - apply (Hbuf 4%nat [0; 0; 0] 3); [simpl; lia|vm_compute; discriminate|vm_compute; lia].
  - apply (Hbuf' 4%nat [0; 0; 0] 3); [simpl; lia|vm_compute; discriminate|vm_compute; lia].
Defined.

(** Counterexample to C7 as stated: the PIDs 100, 204 and 301 were inserted
    in this order, and [VmmProcessListPIDs] copies them in the opposite
    order. *)
Lemma C7_counterexample :
  fst <$> VmmProcessCreateEntry tok_none true false 100 4 0 0x1aa000 0 name_A false
            None 0 st_gen1 = Some (Some 0%nat) ∧
  fst <$> VmmProcessCreateEntry tok_none true false 204 4 1 0x2bb000 0 name_A true
            None 0 st_100 = Some (Some 1%nat) ∧
  fst <$> VmmProcessCreateEntry tok_none true false 301 4 0 0x3cc000 0 name_A true
            None 0 st_204 = Some (Some 2%nat) ∧
  VmmProcessListPIDs 4 (Some [0; 0; 0]) 3 VMM_FLAG_PROCESS_SHOW_TERMINATED
    (VmmProcessCreateFinish st_301) = Some (Some [301; 204; 100], 3) ∧
  [301; 204; 100] ≠ [100; 204; 301].
Proof. vm_compute. repeat split; try reflexivity. discriminate. Qed.

(** The slip behind the restriction on slot 0: when slot 0 holds an object
    that is not the most recent one, the walk of [VmmProcessListPIDs] runs
    into it again and never ends (here PID 8 sits in slot 0 and PID 4 is
    installed after it; the array is overrun). *)
Definition st_slot0 : VMM_CONTEXT :=
  let s1 := state_of (VmmProcessCreateEntry tok_none true true 8 4 0 0x1aa000 0
                        name_A false None 0 st_init) st_init in
  let s2 := state_of (VmmProcessCreateEntry tok_none true true 4 0 0 0x2bb000 0
                        name_A false None 0 s1) s1 in
  VmmProcessCreateFinish s2.

Lemma ListPIDs_slot0_overrun :
  VmmProcessListPIDs 100 None 0 0 st_slot0 = Some (None, 2) ∧
  VmmProcessListPIDs 100 (Some [0; 0]) 2 0 st_slot0 = None ∧
  VmmProcessListPIDs 100 (Some [0; 0; 0]) 3 0 st_slot0 = None.
Proof. vm_compute. repeat split; reflexivity. Qed.

End Proc.

(** * The page cache *)
Module Cache.

(** [MEM_SCATTER] of [leechcore.h]: the address, the size and the content
    of the buffer [pb] points to, the valid flag [f], and the small stack
    the pipeline stages use ([vStack], the top first). *)
Record MEM_SCATTER := mkMEM {
  qwA : Z;
  cb : Z;
  pb : list Z;
  f : bool;
  vStack : list Z;
}.

(** [MEM_SCATTER_ADDR_INVALID], [(QWORD)-1]. *)
Definition MEM_SCATTER_ADDR_INVALID : Z := 2 ^ 64 - 1.

(** The cache descriptor [VMMOB_MEM]: the object header ([_count], [_tag]),
    the scatter header [h] (whose [pb] is the page of the descriptor) and
    the links of the bucket chain and of the age list. *)
Record VMMOB_MEM := mkOb {
  _count : Z;
  _tag : Z;
  h : MEM_SCATTER;
  FLink : option nat;
  BLink : option nat;
  AgeFLink : option nat;
  AgeBLink : option nat;
}.

(** One region [t->R[iR]] of a cache table. *)
Record VMM_CACHE_REGION := mkRegion {
  R_c : Z;
  R_B : gmap Z nat;
  R_AgeFLink : option nat;
  R_AgeBLink : option nat;
}.

Definition region_zero : VMM_CACHE_REGION := mkRegion 0 ∅ None None.

(** [VMM_CACHE_TABLE]; the two interlocked lists are stacks of descriptor
    addresses, the top first. *)
Record VMM_CACHE_TABLE := mkTbl {
  fActive : bool;
  tag : Z;
  R : gmap Z VMM_CACHE_REGION;
  ListHeadEmpty : list nat;
  ListHeadTotal : list nat;
  cEmpty : Z;
  cTotal : Z;
  iReclaimLast : Z;
}.

Definition table_zero : VMM_CACHE_TABLE := mkTbl false 0 ∅ [] [] 0 0 0.

Inductive TBL := T_PHYS | T_TLB | T_PAGING.

#[global] Instance TBL_eq_dec : EqDecision TBL.
Proof. solve_decision. Defined.

(** [ctxVmm->Cache] and the heap of descriptors. *)
Record VMM_CACHE := mkCache {
  mem : gmap nat VMMOB_MEM;
  PHYS : VMM_CACHE_TABLE;
  TLB : VMM_CACHE_TABLE;
  PAGING : VMM_CACHE_TABLE;
  cAllocAvail : nat;
}.

Definition tbl (s : VMM_CACHE) (T : TBL) : VMM_CACHE_TABLE :=
  match T with T_PHYS => PHYS s | T_TLB => TLB s | T_PAGING => PAGING s end.

Definition set_tbl (s : VMM_CACHE) (T : TBL) (t : VMM_CACHE_TABLE) : VMM_CACHE :=
  match T with
  | T_PHYS => mkCache (mem s) t (TLB s) (PAGING s) (cAllocAvail s)
  | T_TLB => mkCache (mem s) (PHYS s) t (PAGING s) (cAllocAvail s)
  | T_PAGING => mkCache (mem s) (PHYS s) (TLB s) t (cAllocAvail s)
  end.

Definition set_mem (s : VMM_CACHE) (m : gmap nat VMMOB_MEM) : VMM_CACHE :=
  mkCache m (PHYS s) (TLB s) (PAGING s) (cAllocAvail s).

Definition region (t : VMM_CACHE_TABLE) (iR : Z) : VMM_CACHE_REGION :=
  default region_zero (R t !! iR).

Definition set_region (t : VMM_CACHE_TABLE) (iR : Z) (r : VMM_CACHE_REGION)
    : VMM_CACHE_TABLE :=
  mkTbl (fActive t) (tag t) (<[iR := r]> (R t)) (ListHeadEmpty t)
    (ListHeadTotal t) (cEmpty t) (cTotal t) (iReclaimLast t).

(** Field updates. *)
Definition set_count (v : Z) (o : VMMOB_MEM) : VMMOB_MEM :=
  mkOb v (_tag o) (h o) (FLink o) (BLink o) (AgeFLink o) (AgeBLink o).
Definition set_h (v : MEM_SCATTER) (o : VMMOB_MEM) : VMMOB_MEM :=
  mkOb (_count o) (_tag o) v (FLink o) (BLink o) (AgeFLink o) (AgeBLink o).
Definition set_FLink (v : option nat) (o : VMMOB_MEM) : VMMOB_MEM :=
  mkOb (_count o) (_tag o) (h o) v (BLink o) (AgeFLink o) (AgeBLink o).
Definition set_BLink (v : option nat) (o : VMMOB_MEM) : VMMOB_MEM :=
  mkOb (_count o) (_tag o) (h o) (FLink o) v (AgeFLink o) (AgeBLink o).
Definition set_AgeFLink (v : option nat) (o : VMMOB_MEM) : VMMOB_MEM :=
  mkOb (_count o) (_tag o) (h o) (FLink o) (BLink o) v (AgeBLink o).
Definition set_AgeBLink (v : option nat) (o : VMMOB_MEM) : VMMOB_MEM :=
  mkOb (_count o) (_tag o) (h o) (FLink o) (BLink o) (AgeFLink o) v.

Definition set_qwA (v : Z) (x : MEM_SCATTER) : MEM_SCATTER :=
  mkMEM v (cb x) (pb x) (f x) (vStack x).
Definition set_f (v : bool) (x : MEM_SCATTER) : MEM_SCATTER :=
  mkMEM (qwA x) (cb x) (pb x) v (vStack x).
Definition set_pb (v : list Z) (x : MEM_SCATTER) : MEM_SCATTER :=
  mkMEM (qwA x) (cb x) v (f x) (vStack x).
Definition set_vStack (v : list Z) (x : MEM_SCATTER) : MEM_SCATTER :=
  mkMEM (qwA x) (cb x) (pb x) (f x) v.

Definition set_R_c (v : Z) (r : VMM_CACHE_REGION) : VMM_CACHE_REGION :=
  mkRegion v (R_B r) (R_AgeFLink r) (R_AgeBLink r).
Definition set_R_B (v : gmap Z nat) (r : VMM_CACHE_REGION) : VMM_CACHE_REGION :=
  mkRegion (R_c r) v (R_AgeFLink r) (R_AgeBLink r).
Definition set_R_AgeFLink (v : option nat) (r : VMM_CACHE_REGION) : VMM_CACHE_REGION :=
  mkRegion (R_c r) (R_B r) v (R_AgeBLink r).
Definition set_R_AgeBLink (v : option nat) (r : VMM_CACHE_REGION) : VMM_CACHE_REGION :=
  mkRegion (R_c r) (R_B r) (R_AgeFLink r) v.

(** A write [p->field = v] through the pointer [a]; no result when [a] is
    not the address of a descriptor. *)
Definition wr (a : nat) (g : VMMOB_MEM → VMMOB_MEM) (s : VMM_CACHE)
    : option VMM_CACHE :=
  o ← mem s !! a; Some (set_mem s (<[a := g o]> (mem s))).

(** The same through a pointer that is tested first:
    [if(p) { p->field = v; }]. *)
Definition wr_opt (p : option nat) (g : VMMOB_MEM → VMMOB_MEM) (s : VMM_CACHE)
    : option VMM_CACHE :=
  match p with Some a => wr a g s | None => Some s end.

(** An array slot [B[i] = p], where [p] may be NULL. *)
Definition set_slot (b : gmap Z nat) (i : Z) (p : option nat) : gmap Z nat :=
  match p with Some a => <[i := a]> b | None => delete i b end.

(** A write to region [iR] of table [T]. *)
Definition wr_region (T : TBL) (iR : Z)
    (g : VMM_CACHE_REGION → VMM_CACHE_REGION) (s : VMM_CACHE) : VMM_CACHE :=
  set_tbl s T (set_region (tbl s T) iR (g (region (tbl s T) iR))).

(** 32-bit interlocked counters. *)
Definition incr32 (x : Z) : Z := (x + 1) `mod` 2 ^ 32.
Definition decr32 (x : Z) : Z := (x - 1) `mod` 2 ^ 32.

Section Cache.
Context `{!VmmConsts}.

(** [VmmCacheTableGet] *)
Definition VmmCacheTableGet (wTblTag : Z) : option TBL :=
  if decide (wTblTag = VMM_CACHE_TAG_PHYS) then Some T_PHYS
  else if decide (wTblTag = VMM_CACHE_TAG_TLB) then Some T_TLB
  else if decide (wTblTag = VMM_CACHE_TAG_PAGING) then Some T_PAGING
  else None.

Definition VMM_CACHE2_GET_REGION (a : Z) : Z := Z.shiftr a 12 `mod` VMM_CACHE2_REGIONS.
Definition VMM_CACHE2_GET_BUCKET (a : Z) : Z := Z.shiftr a 12 `mod` VMM_CACHE2_BUCKETS.

(** Modelled from the spec: [Ob_INCREF] of [ob.c] increments the reference
    count of the object atomically. *)
Definition Ob_INCREF (a : nat) (s : VMM_CACHE) : option VMM_CACHE :=
  wr a (λ o, set_count (incr32 (_count o)) o) s.

(** [VmmCache_CallbackRefCount1] *)
Definition VmmCache_CallbackRefCount1 (a : nat) (s : VMM_CACHE)
    : option VMM_CACHE :=
  o ← mem s !! a;
  match VmmCacheTableGet (_tag o) with
  | None => Some s
  | Some T =>
    if negb (fActive (tbl s T)) then Some s
    else
      s1 ← Ob_INCREF a s;
      let t := tbl s1 T in
      Some (set_tbl s1 T
              (mkTbl (fActive t) (tag t) (R t) (a :: ListHeadEmpty t)
                 (ListHeadTotal t) (incr32 (cEmpty t)) (cTotal t) (iReclaimLast t)))
  end.

(** Modelled from the spec: [Ob_DECREF] of [ob.c] decrements the reference
    count; when it becomes 0 the object is freed, and when it becomes 1 the
    refcount-reaches-one hook of the object runs, which for a cache
    descriptor is [VmmCache_CallbackRefCount1]. *)
Definition Ob_DECREF (a : nat) (s : VMM_CACHE) : option VMM_CACHE :=
  o ← mem s !! a;
  let n := decr32 (_count o) in
  let s1 := set_mem s (<[a := set_count n o]> (mem s)) in
  if decide (n = 0) then Some (set_mem s (delete a (mem s)))
  else if decide (n = 1) then VmmCache_CallbackRefCount1 a s1
  else Some s1.

(** [VmmCacheReserveReturn] *)
Definition VmmCacheReserveReturn (pOb : option nat) (s : VMM_CACHE)
    : option VMM_CACHE :=
  match pOb with
  | None => Some s
  | Some a =>
    o ← mem s !! a;
    match VmmCacheTableGet (_tag o) with
    | None => Some s
    | Some T =>
      let t := tbl s T in
      if negb (fActive t) || negb (f (h o))
         || (qwA (h o) =? MEM_SCATTER_ADDR_INVALID)
      then Ob_DECREF a s
      else
        let iR := VMM_CACHE2_GET_REGION (qwA (h o)) in
        let iB := VMM_CACHE2_GET_BUCKET (qwA (h o)) in
        let r := region t iR in
        (* insert into "bucket" *)
        s1 ← wr a (set_BLink None) s;
        s2 ← wr a (set_FLink (R_B r !! iB)) s1;
        s3 ← wr_opt (R_B r !! iB) (set_BLink (Some a)) s2;
        let s4 := wr_region T iR (λ r, set_R_B (<[iB := a]> (R_B r)) r) s3 in
        (* insert into "age list" *)
        s5 ← wr a (set_AgeFLink (R_AgeFLink r)) s4;
        s6 ← wr_opt (R_AgeFLink r) (set_AgeBLink (Some a)) s5;
        s7 ← wr a (set_AgeBLink None) s6;
        let s8 := wr_region T iR (set_R_AgeFLink (Some a)) s7 in
        let s9 := match R_AgeBLink (region (tbl s8 T) iR) with
                  | Some _ => s8
                  | None => wr_region T iR (set_R_AgeBLink (Some a)) s8
                  end in
        Some (wr_region T iR (λ r, set_R_c (incr32 (R_c r)) r) s9)
    end
  end.

(** The chain walk of [VmmCacheGet]. *)
Fixpoint Get_loop (fuel : nat) (m : gmap nat VMMOB_MEM) (a : Z)
    (pOb : option nat) : option (option nat) :=
  match pOb with
  | None => Some None
  | Some x =>
    match fuel with
    | O => None
    | S fuel =>
      o ← m !! x;
      if decide (a ≠ qwA (h o)) then Get_loop fuel m a (FLink o)
      else Some (Some x)
    end
  end.

(** [VmmCacheGet] *)
Definition VmmCacheGet (fuel : nat) (dwTblTag a : Z) (s : VMM_CACHE)
    : option (option nat * VMM_CACHE) :=
  match VmmCacheTableGet dwTblTag with
  | None => Some (None, s)
  | Some T =>
    let t := tbl s T in
    if negb (fActive t) then Some (None, s)
    else
      let iR := VMM_CACHE2_GET_REGION a in
      pOb ← Get_loop fuel (mem s) a (R_B (region t iR) !! VMM_CACHE2_GET_BUCKET a);
      s1 ← match pOb with Some x => Ob_INCREF x s | None => Some s end;
      Some (pOb, s1)
  end.

(** The body of the loop of [VmmCacheInvalidate_2] for a descriptor whose
    address matches. *)
Definition Invalidate_detach (T : TBL) (iR iB : Z) (x : nat) (s : VMM_CACHE)
    : option VMM_CACHE :=
  (* detach bucket *)
  o ← mem s !! x;
  s1 ← match BLink o with
       | Some b => wr b (set_FLink (FLink o)) s
       | None => Some (wr_region T iR (λ r, set_R_B (set_slot (R_B r) iB (FLink o)) r) s)
       end;
  o ← mem s1 !! x;
  s2 ← wr_opt (FLink o) (set_BLink (BLink o)) s1;
  (* detach age list *)
  o ← mem s2 !! x;
  s3 ← match AgeBLink o with
       | Some b => wr b (set_AgeFLink (AgeFLink o)) s2
       | None => Some (wr_region T iR (set_R_AgeFLink (AgeFLink o)) s2)
       end;
  o ← mem s3 !! x;
  s4 ← match AgeFLink o with
       | Some n => wr n (set_AgeBLink (AgeBLink o)) s3
       | None => Some (wr_region T iR (set_R_AgeBLink (AgeBLink o)) s3)
       end;
  (* decrease count & decref *)
  let s5 := wr_region T iR (λ r, set_R_c (decr32 (R_c r)) r) s4 in
  Ob_DECREF x s5.

Fixpoint Invalidate_loop (fuel : nat) (T : TBL) (iR iB a : Z)
    (pOb : option nat) (s : VMM_CACHE) : option VMM_CACHE :=
  match pOb with
  | None => Some s
  | Some x =>
    match fuel with
    | O => None
    | S fuel =>
      o ← mem s !! x;
      let pObNext := FLink o in
      s1 ← (if decide (qwA (h o) = a) then Invalidate_detach T iR iB x s
            else Some s);
      Invalidate_loop fuel T iR iB a pObNext s1
    end
  end.

(** [VmmCacheInvalidate_2] *)
Definition VmmCacheInvalidate_2 (fuel : nat) (dwTblTag a : Z) (s : VMM_CACHE)
    : option VMM_CACHE :=
  match VmmCacheTableGet dwTblTag with
  | None => Some s
  | Some T =>
    if negb (fActive (tbl s T)) then Some s
    else
      let iR := VMM_CACHE2_GET_REGION a in
      let iB := VMM_CACHE2_GET_BUCKET a in
      Invalidate_loop fuel T iR iB a (R_B (region (tbl s T) iR) !! iB) s
  end.

(** The loop of [VmmCacheReclaim]: the oldest descriptor is detached while
    the region holds more than [cThreshold] descriptors. *)
Fixpoint Reclaim_loop (fuel : nat) (T : TBL) (iR cThreshold : Z)
    (s : VMM_CACHE) : option VMM_CACHE :=
  if R_c (region (tbl s T) iR) >? cThreshold then
    match fuel with
    | O => None
    | S fuel =>
      match R_AgeBLink (region (tbl s T) iR) with
      | None => Some s
      | Some x =>
        (* detach from age list *)
        o ← mem s !! x;
        let s1 := wr_region T iR (set_R_AgeBLink (AgeBLink o)) s in
        s2 ← match AgeBLink o with
             | Some b => wr b (set_AgeFLink None) s1
             | None => Some (wr_region T iR (set_R_AgeFLink None) s1)
             end;
        (* detach from bucket list *)
        o ← mem s2 !! x;
        s3 ← match BLink o with
             | Some b => wr b (set_FLink None) s2
             | None =>
               Some (wr_region T iR
                       (λ r, set_R_B (delete (VMM_CACHE2_GET_BUCKET (qwA (h o))) (R_B r)) r)
                       s2)
             end;
        s4 ← Ob_DECREF x s3;
        Reclaim_loop fuel T iR cThreshold
          (wr_region T iR (λ r, set_R_c (decr32 (R_c r)) r) s4)
      end
    end
  else Some s.

(** [VmmCacheReclaim] *)
Definition VmmCacheReclaim (fuel : nat) (T : TBL) (iR : Z) (fTotal : bool)
    (s : VMM_CACHE) : option VMM_CACHE :=
  let cThreshold :=
    if fTotal then 0 else Z.max 0x10 (Z.shiftr (R_c (region (tbl s T) iR)) 1) in
  Reclaim_loop fuel T iR cThreshold s.

(** [Ob_Alloc(t->tag, LMEM_ZEROINIT, sizeof(VMMOB_MEM), NULL,
    VmmCache_CallbackRefCount1)]: NULL when memory is exhausted, otherwise a
    fresh zeroed descriptor with reference count 1. *)
Definition Ob_Alloc (tg : Z) (s : VMM_CACHE) : option nat * VMM_CACHE :=
  match cAllocAvail s with
  | O => (None, s)
  | S n =>
    let a := fresh (dom (mem s)) in
    (Some a,
     mkCache (<[a := mkOb 1 tg (mkMEM 0 0 [] false []) None None None None]> (mem s))
       (PHYS s) (TLB s) (PAGING s) n)
  end.

(** The loop of [VmmCacheReserve]; [cLoopProtect] is a 16-bit counter. *)
Fixpoint Reserve_loop (fuel : nat) (T : TBL) (cLoopProtect : Z)
    (s : VMM_CACHE) : option (option nat * VMM_CACHE) :=
  let t := tbl s T in
  match ListHeadEmpty t with
  | e :: rest =>
    let s1 := set_tbl s T
                (mkTbl (fActive t) (tag t) (R t) rest (ListHeadTotal t)
                   (decr32 (cEmpty t)) (cTotal t) (iReclaimLast t)) in
    s2 ← wr e (λ o, set_h (set_f false (set_qwA MEM_SCATTER_ADDR_INVALID (h o))) o) s1;
    Some (Some e, s2)
  | [] =>
    match fuel with
    | O => None
    | S fuel =>
      if cTotal t <? VMM_CACHE2_MAX_ENTRIES then
        (* below max threshold -> create new *)
        match Ob_Alloc (tag t) s with
        | (None, s1) => Some (None, s1)
        | (Some a, s1) =>
          s2 ← wr a (λ o, set_h (mkMEM MEM_SCATTER_ADDR_INVALID 0x1000
                                   (replicate 0x1000 0) false []) o) s1;
          s3 ← Ob_INCREF a s2;
          let t3 := tbl s3 T in
          Some (Some a,
                set_tbl s3 T
                  (mkTbl (fActive t3) (tag t3) (R t3) (ListHeadEmpty t3)
                     (a :: ListHeadTotal t3) (cEmpty t3) (incr32 (cTotal t3))
                     (iReclaimLast t3)))
        end
      else
        (* reclaim existing entries *)
        let i := (iReclaimLast t + 1) `mod` 2 ^ 16 in
        let s1 := set_tbl s T
                    (mkTbl (fActive t) (tag t) (R t) (ListHeadEmpty t)
                       (ListHeadTotal t) (cEmpty t) (cTotal t) i) in
        s2 ← VmmCacheReclaim fuel T (i `mod` VMM_CACHE2_REGIONS) false s1;
        Reserve_loop fuel T ((cLoopProtect + 1) `mod` 2 ^ 16) s2
    end
  end.

(** [VmmCacheReserve] *)
Definition VmmCacheReserve (fuel : nat) (dwTblTag : Z) (s : VMM_CACHE)
    : option (option nat * VMM_CACHE) :=
  match VmmCacheTableGet dwTblTag with
  | None => Some (None, s)
  | Some T =>
    if negb (fActive (tbl s T)) then Some (None, s)
    else Reserve_loop fuel T 0 s
  end.

(** [VmmCache2Initialize] *)
Definition VmmCache2Initialize (dwTblTag : Z) (s : VMM_CACHE) : VMM_CACHE :=
  match VmmCacheTableGet dwTblTag with
  | None => s
  | Some T =>
    let t := tbl s T in
    if fActive t then s
    else set_tbl s T
           (mkTbl true dwTblTag (R t) [] [] (cEmpty t) (cTotal t) (iReclaimLast t))
  end.

End Cache.

(** ** Doubly linked lists in the heap of descriptors

    The bucket chains ([FLink]/[BLink]) and the age lists
    ([AgeFLink]/[AgeBLink]) are doubly linked lists threaded through the
    descriptors; the theory is stated once for a pair of link fields. *)
Section Dll.
Variables nxt prv : VMMOB_MEM → option nat.

Definition prev_of (l : list nat) (i : nat) : option nat :=
  match i with O => None | S j => l !! j end.

(** The descriptors [l], in this order, are linked in [m]: no descriptor
    occurs twice, the forward link of each is its successor and the
    backward link its predecessor (NULL at the ends). *)
Definition dll (m : gmap nat VMMOB_MEM) (l : list nat) : Prop :=
  NoDup l ∧
  ∀ i x, l !! i = Some x →
    nxt <$> m !! x = Some (l !! S i) ∧ prv <$> m !! x = Some (prev_of l i).

Lemma dll_nil m : dll m [].
Proof. split; [constructor|]. intros i x. by rewrite lookup_nil. Qed.

Lemma dll_NoDup m l : dll m l → NoDup l.
Proof. by intros [? _]. Qed.

Lemma dll_alloc m l x : dll m l → x ∈ l → is_Some (m !! x).
Proof.
  intros [_ Hl] [i Hi]%list_elem_of_lookup_1.
  destruct (Hl i x Hi) as [Hn _]. destruct (m !! x); [eauto|done].
Qed.

Lemma dll_frame m m' l :
  (∀ y, y ∈ l → nxt <$> m' !! y = nxt <$> m !! y ∧
                prv <$> m' !! y = prv <$> m !! y) →
  dll m l → dll m' l.
Proof.
  intros Hsame [Hnd Hl]. split; [done|]. intros i x Hi.
  destruct (Hsame x (list_elem_of_lookup_2 _ _ _ Hi)) as [-> ->]. auto.
Qed.

Lemma dll_head_links m l x :
  dll m l → head l = Some x →
  ∃ o, m !! x = Some o ∧ prv o = None ∧ nxt o = l !! 1%nat.
Proof.
  intros [_ Hl] Hh. rewrite head_lookup in Hh.
  destruct (Hl _ _ Hh) as [Hn Hp]. destruct (m !! x) as [o|]; [|done].
  simpl in *. exists o. split; [done|]. split; congruence.
Qed.

(** The links of the element at the position that follows [l1]. *)
Lemma dll_mid_links m l1 x l2 :
  dll m (l1 ++ x :: l2) →
  ∃ o, m !! x = Some o ∧ nxt o = head l2 ∧ prv o = last l1.
Proof.
  intros [_ Hl].
  assert (Hi : (l1 ++ x :: l2) !! length l1 = Some x).
  { rewrite lookup_app_r by lia. by rewrite Nat.sub_diag. }
  destruct (Hl _ _ Hi) as [Hn Hp]. destruct (m !! x) as [o|]; [|done].
  simpl in *. exists o. split; [done|]. split.
  - injection Hn as ->. rewrite lookup_app_r by lia.
    replace (S (length l1) - length l1)%nat with 1%nat by lia. simpl.
    by rewrite head_lookup.
  - injection Hp as ->. rewrite last_lookup. unfold prev_of.
    destruct l1 as [|z l1]; [done|]. simpl length. simpl pred. cbv iota.
    rewrite lookup_app_l by (simpl; lia). done.
Qed.

(** Unlinking the element that follows [l1]: the forward link of the last
    element of [l1] and the backward link of the first element of [l2]
    are redirected, the other links are as before. *)
Lemma dll_unlink m m' l1 x l2 :
  dll m (l1 ++ x :: l2) →
  (∀ y, y ∈ l1 ++ l2 →
     nxt <$> m' !! y = if decide (Some y = last l1) then Some (head l2)
                       else nxt <$> m !! y) →
  (∀ y, y ∈ l1 ++ l2 →
     prv <$> m' !! y = if decide (Some y = head l2) then Some (last l1)
                       else prv <$> m !! y) →
  dll m' (l1 ++ l2).
Proof.
  intros [Hnd Hl] Hn Hp.
  assert (Hnd' : NoDup (l1 ++ l2)).
  { apply NoDup_app in Hnd as (H1 & H2 & H3). apply NoDup_app.
    split; [done|]. split.
    - intros y Hy Hy2. apply (H2 y Hy). by apply elem_of_cons; right.
    - by apply NoDup_cons_1_2 in H3. }
  split; [done|]. intros i y Hi.
  pose proof (list_elem_of_lookup_2 _ _ _ Hi) as Hy.
  rewrite (Hn y Hy), (Hp y Hy). clear Hn Hp.
  pose proof (proj1 (NoDup_alt _) Hnd') as Hinj.
  rewrite last_lookup, head_lookup.
  destruct (decide (i < length l1)%nat) as [Hlt|Hge].
  - (* y is in l1 *)
    assert (Hi0 : (l1 ++ x :: l2) !! i = Some y).
    { rewrite lookup_app_l in Hi |- * by done. done. }
    destruct (Hl _ _ Hi0) as [Hn0 Hp0]. split.
    + destruct (decide (Some y = l1 !! pred (length l1))) as [Hlast|Hnlast].
      * assert (i = pred (length l1)).
        { apply (Hinj i (pred (length l1)) y Hi).
          rewrite lookup_app_l by lia. done. }
        f_equal. rewrite lookup_app_r by lia.
        replace (S i - length l1)%nat with 0%nat by lia. done.
      * rewrite Hn0. f_equal.
        assert (S i < length l1)%nat.
        { destruct (decide (S i = length l1)) as [E|]; [|lia].
          exfalso. apply Hnlast. rewrite <- E. simpl.
          rewrite lookup_app_l in Hi by done. done. }
        rewrite !lookup_app_l by done. done.
    + destruct (decide (Some y = l2 !! 0%nat)) as [Hh|_].
      * exfalso. assert (i = length l1); [|lia].
        apply (Hinj i (length l1) y Hi).
        rewrite lookup_app_r by lia. rewrite Nat.sub_diag. done.
      * rewrite Hp0. f_equal. destruct i as [|j]; [done|]. simpl.
        rewrite !lookup_app_l by lia. done.
  - (* y is in l2 *)
    assert (Hi0 : (l1 ++ x :: l2) !! S i = Some y).
    { rewrite lookup_app_r in Hi |- * by lia.
      replace (S i - length l1)%nat with (S (i - length l1)) by lia. done. }
    destruct (Hl _ _ Hi0) as [Hn0 Hp0]. split.
    + destruct (decide (Some y = l1 !! pred (length l1))) as [Hlast|_].
      * exfalso. symmetry in Hlast.
        pose proof (lookup_lt_Some _ _ _ Hlast).
        assert (i = pred (length l1)); [|lia].
        apply (Hinj i (pred (length l1)) y Hi).
        rewrite lookup_app_l by lia. done.
      * rewrite Hn0. f_equal. rewrite !lookup_app_r by lia.
        replace (S (S i) - length l1)%nat with (S (S i - length l1)) by lia.
        done.
    + destruct (decide (Some y = l2 !! 0%nat)) as [Hh|Hnh].
      * assert (i = length l1).
        { apply (Hinj i (length l1) y Hi).
          rewrite lookup_app_r by lia. rewrite Nat.sub_diag. done. }
        subst i. f_equal. unfold prev_of.
        destruct l1 as [|z l1]; [done|]. simpl length. simpl pred. cbv iota.
        rewrite lookup_app_l by (simpl; lia). done.
      * rewrite Hp0. f_equal. simpl.
        assert (length l1 < i)%nat.
        { destruct (decide (i = length l1)) as [->|]; [|lia].
          exfalso. apply Hnh. rewrite lookup_app_r in Hi by lia.
          rewrite Nat.sub_diag in Hi. done. }
        destruct i as [|j]; [lia|]. simpl.
        rewrite !lookup_app_r by lia.
        replace (S j - length l1)%nat with (S (j - length l1)) by lia. done.
Qed.

(** Linking a new element in front of the list. *)
Lemma dll_push m m' l a :
  dll m l → a ∉ l →
  nxt <$> m' !! a = Some (head l) → prv <$> m' !! a = Some None →
  (∀ y, y ∈ l →
     nxt <$> m' !! y = nxt <$> m !! y ∧
     prv <$> m' !! y = if decide (Some y = head l) then Some (Some a)
                       else prv <$> m !! y) →
  dll m' (a :: l).
Proof.
  intros [Hnd Hl] Ha Hna Hpa Hrest. split; [by constructor|].
  intros [|i] x Hi; simpl in Hi.
  - injection Hi as <-. rewrite Hna, Hpa. simpl. by rewrite head_lookup.
  - pose proof (list_elem_of_lookup_2 _ _ _ Hi) as Hx.
    destruct (Hrest x Hx) as [-> ->]. destruct (Hl _ _ Hi) as [Hn0 Hp0].
    split; [done|]. rewrite head_lookup.
    destruct (decide (Some x = l !! 0%nat)) as [Hh|Hnh].
    + assert (i = 0%nat) as ->.
      { apply (proj1 (NoDup_alt _) Hnd i 0%nat x); done. }
      done.
    + rewrite Hp0. f_equal. destruct i as [|j]; [by rewrite Hi in Hnh|]. done.
Qed.

End Dll.

(** ** Writes through pointers *)

Definition alter_opt (g : VMMOB_MEM → VMMOB_MEM) (p : option nat)
    (m : gmap nat VMMOB_MEM) : gmap nat VMMOB_MEM :=
  match p with Some x => alter g x m | None => m end.

Lemma insert_is_alter (m : gmap nat VMMOB_MEM) a o g :
  m !! a = Some o → <[a := g o]> m = alter g a m.
Proof.
  intros Ha. apply map_eq. intros y. rewrite lookup_alter, lookup_insert.
  destruct (decide (a = y)) as [->|]; [by rewrite Ha|done].
Qed.

Lemma wr_ok a g s :
  is_Some (mem s !! a) → wr a g s = Some (set_mem s (alter g a (mem s))).
Proof.
  intros [o Ho]. unfold wr. rewrite Ho. simpl. by rewrite (insert_is_alter _ _ _ _ Ho).
Qed.

Lemma wr_opt_ok p g s :
  (∀ x, p = Some x → is_Some (mem s !! x)) →
  wr_opt p g s = Some (set_mem s (alter_opt g p (mem s))).
Proof.
  destruct p as [x|]; simpl; intros Hx.
  - apply wr_ok. auto.
  - by destruct s.
Qed.

Lemma alter_alloc g a (m : gmap nat VMMOB_MEM) y :
  is_Some (alter g a m !! y) ↔ is_Some (m !! y).
Proof.
  rewrite lookup_alter. destruct (decide (a = y)) as [->|]; [|done].
  by rewrite fmap_is_Some.
Qed.

Lemma alter_opt_alloc g p (m : gmap nat VMMOB_MEM) y :
  is_Some (alter_opt g p m !! y) ↔ is_Some (m !! y).
Proof. destruct p; [apply alter_alloc|done]. Qed.

Lemma fld_alter_pres {A} (fld : VMMOB_MEM → A) g a (m : gmap nat VMMOB_MEM) y :
  (∀ o, fld (g o) = fld o) → fld <$> alter g a m !! y = fld <$> m !! y.
Proof.
  intros Hg. rewrite lookup_alter. destruct (decide (a = y)) as [->|]; [|done].
  destruct (m !! y); simpl; [by rewrite Hg|done].
Qed.

Lemma fld_alter_opt_pres {A} (fld : VMMOB_MEM → A) g p (m : gmap nat VMMOB_MEM) y :
  (∀ o, fld (g o) = fld o) → fld <$> alter_opt g p m !! y = fld <$> m !! y.
Proof. destruct p; [apply fld_alter_pres|done]. Qed.

Lemma fld_alter_set {A} (fld : VMMOB_MEM → A) g a (m : gmap nat VMMOB_MEM) y v :
  (∀ o, fld (g o) = v) → is_Some (m !! a) →
  fld <$> alter g a m !! y = if decide (y = a) then Some v else fld <$> m !! y.
Proof.
  intros Hg [o Ho]. rewrite lookup_alter.
  destruct (decide (a = y)) as [E|E], (decide (y = a)) as [E'|E']; try congruence.
  subst y. rewrite Ho. simpl. by rewrite Hg.
Qed.

Lemma fld_alter_opt_set {A} (fld : VMMOB_MEM → A) g p (m : gmap nat VMMOB_MEM) y v :
  (∀ o, fld (g o) = v) → (∀ x, p = Some x → is_Some (m !! x)) →
  fld <$> alter_opt g p m !! y =
  if decide (Some y = p) then Some v else fld <$> m !! y.
Proof.
  intros Hg Hp. destruct p as [x|]; simpl.
  - rewrite (fld_alter_set fld g x m y v Hg) by auto.
    destruct (decide (y = x)), (decide (Some y = Some x)); congruence.
  - by destruct (decide (Some y = None)).
Qed.

(** ** Reading the state after an update *)

Lemma mem_set_mem s m : mem (set_mem s m) = m.
Proof. done. Qed.
Lemma mem_set_tbl s T t : mem (set_tbl s T t) = mem s.
Proof. by destruct T. Qed.
Lemma mem_wr_region T iR g s : mem (wr_region T iR g s) = mem s.
Proof. apply mem_set_tbl. Qed.
Lemma tbl_set_mem s m T : tbl (set_mem s m) T = tbl s T.
Proof. by destruct T. Qed.
Lemma tbl_set_tbl s T t : tbl (set_tbl s T t) T = t.
Proof. by destruct T. Qed.
Lemma tbl_set_tbl_ne s T T' t : T ≠ T' → tbl (set_tbl s T t) T' = tbl s T'.
Proof. by destruct T, T'. Qed.
Lemma region_set_region t iR r : region (set_region t iR r) iR = r.
Proof. unfold region, set_region. simpl. by rewrite lookup_insert_eq. Qed.
Lemma region_set_region_ne t iR iR' r :
  iR ≠ iR' → region (set_region t iR r) iR' = region t iR'.
Proof. intros. unfold region, set_region. simpl. by rewrite lookup_insert_ne. Qed.
Lemma region_wr_region T iR g s :
  region (tbl (wr_region T iR g s) T) iR = g (region (tbl s T) iR).
Proof. unfold wr_region. by rewrite tbl_set_tbl, region_set_region. Qed.
Lemma tbl_wr_region_ne T T' iR g s : T ≠ T' → tbl (wr_region T iR g s) T' = tbl s T'.
Proof. apply tbl_set_tbl_ne. Qed.
Lemma fActive_wr_region T iR g s T' :
  fActive (tbl (wr_region T iR g s) T') = fActive (tbl s T').
Proof.
  unfold wr_region. destruct (decide (T = T')) as [->|].
  - by rewrite tbl_set_tbl.
  - by rewrite tbl_set_tbl_ne.
Qed.
Lemma ListHeadEmpty_wr_region T iR g s T' :
  ListHeadEmpty (tbl (wr_region T iR g s) T') = ListHeadEmpty (tbl s T').
Proof.
  unfold wr_region. destruct (decide (T = T')) as [->|].
  - by rewrite tbl_set_tbl.
  - by rewrite tbl_set_tbl_ne.
Qed.
Lemma cEmpty_wr_region T iR g s T' :
  cEmpty (tbl (wr_region T iR g s) T') = cEmpty (tbl s T').
Proof.
  unfold wr_region. destruct (decide (T = T')) as [->|].
  - by rewrite tbl_set_tbl.
  - by rewrite tbl_set_tbl_ne.
Qed.

Create Rewrite HintDb cache.
#[local] Hint Rewrite mem_set_mem mem_set_tbl mem_wr_region tbl_set_mem
  tbl_set_tbl region_set_region region_wr_region fActive_wr_region
  ListHeadEmpty_wr_region cEmpty_wr_region : cache.

Section CacheTheory.
Context `{!VmmConsts}.

(** ** [VmmCacheReserveReturn] *)

(** The heap after the insertion of descriptor [a] in front of the bucket
    chain that starts at [hd] and of the age list that starts at [agehd]. *)
Definition mem_inserted (a : nat) (hd agehd : option nat)
    (m : gmap nat VMMOB_MEM) : gmap nat VMMOB_MEM :=
  alter (set_AgeBLink None) a
    (alter_opt (set_AgeBLink (Some a)) agehd
       (alter (set_AgeFLink agehd) a
          (alter_opt (set_BLink (Some a)) hd
             (alter (set_FLink hd) a (alter (set_BLink None) a m))))).

Lemma VmmCacheReserveReturn_insert a s o T :
  mem s !! a = Some o →
  VmmCacheTableGet (_tag o) = Some T →
  fActive (tbl s T) = true → f (h o) = true →
  qwA (h o) ≠ MEM_SCATTER_ADDR_INVALID →
  let iR := VMM_CACHE2_GET_REGION (qwA (h o)) in
  let iB := VMM_CACHE2_GET_BUCKET (qwA (h o)) in
  let r := region (tbl s T) iR in
  (∀ x, R_B r !! iB = Some x → is_Some (mem s !! x)) →
  (∀ x, R_AgeFLink r = Some x → is_Some (mem s !! x)) →
  ∃ s', VmmCacheReserveReturn (Some a) s = Some s' ∧
    mem s' = mem_inserted a (R_B r !! iB) (R_AgeFLink r) (mem s) ∧
    region (tbl s' T) iR =
      mkRegion (incr32 (R_c r)) (<[iB := a]> (R_B r)) (Some a)
        (match R_AgeBLink r with Some x => Some x | None => Some a end) ∧
    (∀ iR', iR' ≠ iR → region (tbl s' T) iR' = region (tbl s T) iR') ∧
    (∀ T', T' ≠ T → tbl s' T' = tbl s T') ∧
    ListHeadEmpty (tbl s' T) = ListHeadEmpty (tbl s T) ∧
    fActive (tbl s' T) = true.
Proof.
  intros Ho HT Hact Hf Hq iR iB r Hhd Hage.
  unfold VmmCacheReserveReturn. rewrite Ho. cbn [mbind option_bind].
  rewrite HT, Hact, Hf.
  destruct (Z.eqb_spec (qwA (h o)) MEM_SCATTER_ADDR_INVALID) as [?|_]; [done|].
  cbn [negb orb]. fold iR iB r.
  assert (Ha : is_Some (mem s !! a)) by eauto.
  rewrite wr_ok by done. cbn [mbind option_bind].
  rewrite wr_ok by (autorewrite with cache; by apply alter_alloc).
  cbn [mbind option_bind]. autorewrite with cache.
  rewrite wr_opt_ok.
  2:{ intros x Hx. autorewrite with cache. apply alter_alloc, alter_alloc. auto. }
  cbn [mbind option_bind]. autorewrite with cache.
  rewrite wr_ok.
  2:{ autorewrite with cache. by apply alter_opt_alloc, alter_alloc, alter_alloc. }
  cbn [mbind option_bind]. autorewrite with cache.
  rewrite wr_opt_ok.
  2:{ intros x Hx. autorewrite with cache.
      apply alter_alloc, alter_opt_alloc, alter_alloc, alter_alloc. auto. }
  cbn [mbind option_bind]. autorewrite with cache.
  rewrite wr_ok.
  2:{ autorewrite with cache.
      by apply alter_opt_alloc, alter_alloc, alter_opt_alloc, alter_alloc, alter_alloc. }
  cbn [mbind option_bind]. autorewrite with cache.
  eexists. split; [reflexivity|].
  change (R_AgeBLink (set_R_AgeFLink _ (set_R_B _ (region (tbl s T) iR))))
    with (R_AgeBLink r).
  assert (Hne : ∀ iR' g s0, iR' ≠ iR →
            region (tbl (wr_region T iR g s0) T) iR' = region (tbl s0 T) iR').
  { intros iR' g s0 Hne. unfold wr_region.
    by rewrite tbl_set_tbl, region_set_region_ne. }
  destruct (R_AgeBLink r) as [x|] eqn:Eage.
  - split; [by autorewrite with cache|]. split.
    { autorewrite with cache. unfold set_R_c, set_R_AgeFLink, set_R_B. simpl.
      fold r. by rewrite Eage. }
    split.
    { intros iR' HiR'. rewrite !Hne by done. autorewrite with cache.
      rewrite Hne by done. by autorewrite with cache. }
    split.
    { intros T' HT'. rewrite !tbl_wr_region_ne by done. autorewrite with cache.
      rewrite tbl_wr_region_ne by done. by autorewrite with cache. }
    by autorewrite with cache.
  - split; [by autorewrite with cache|]. split.
    { autorewrite with cache. unfold set_R_c, set_R_AgeBLink, set_R_AgeFLink, set_R_B.
      simpl. fold r. done. }
    split.
    { intros iR' HiR'. rewrite !Hne by done. autorewrite with cache.
      rewrite Hne by done. by autorewrite with cache. }
    split.
    { intros T' HT'. rewrite !tbl_wr_region_ne by done. autorewrite with cache.
      rewrite tbl_wr_region_ne by done. by autorewrite with cache. }
    by autorewrite with cache.
Qed.

Lemma mem_inserted_links a hd agehd (m : gmap nat VMMOB_MEM) :
  is_Some (m !! a) →
  (∀ x, hd = Some x → is_Some (m !! x) ∧ x ≠ a) →
  (∀ x, agehd = Some x → is_Some (m !! x) ∧ x ≠ a) →
  ∀ y,
    FLink <$> mem_inserted a hd agehd m !! y
      = (if decide (y = a) then Some hd else FLink <$> m !! y) ∧
    BLink <$> mem_inserted a hd agehd m !! y
      = (if decide (y = a) then Some None
         else if decide (Some y = hd) then Some (Some a) else BLink <$> m !! y) ∧
    AgeFLink <$> mem_inserted a hd agehd m !! y
      = (if decide (y = a) then Some agehd else AgeFLink <$> m !! y) ∧
    AgeBLink <$> mem_inserted a hd agehd m !! y
      = (if decide (y = a) then Some None
         else if decide (Some y = agehd) then Some (Some a)
         else AgeBLink <$> m !! y) ∧
    _count <$> mem_inserted a hd agehd m !! y = _count <$> m !! y ∧
    h <$> mem_inserted a hd agehd m !! y = h <$> m !! y ∧
    _tag <$> mem_inserted a hd agehd m !! y = _tag <$> m !! y.
Proof.
  intros Ha Hhd Hage y. unfold mem_inserted.
  assert (Hhd' : ∀ m0 : gmap nat VMMOB_MEM, (∀ z, is_Some (m0 !! z) ↔ is_Some (m !! z)) →
                 ∀ x, hd = Some x → is_Some (m0 !! x)).
  { intros m0 Hm0 x Hx. apply Hm0. by apply Hhd. }
  assert (Hage' : ∀ m0 : gmap nat VMMOB_MEM, (∀ z, is_Some (m0 !! z) ↔ is_Some (m !! z)) →
                 ∀ x, agehd = Some x → is_Some (m0 !! x)).
  { intros m0 Hm0 x Hx. apply Hm0. by apply Hage. }
  repeat split.
  - rewrite (fld_alter_pres FLink), (fld_alter_opt_pres FLink),
      (fld_alter_pres FLink), (fld_alter_opt_pres FLink) by done.
    rewrite (fld_alter_set FLink _ _ _ _ hd) by (done || by apply alter_alloc).
    destruct (decide (y = a)); [done|]. by rewrite (fld_alter_pres FLink).
  - rewrite (fld_alter_pres BLink), (fld_alter_opt_pres BLink),
      (fld_alter_pres BLink) by done.
    rewrite (fld_alter_opt_set BLink _ _ _ _ (Some a)); [|done|].
    2:{ apply Hhd'. intros z. by rewrite !alter_alloc. }
    rewrite (fld_alter_pres BLink) by done.
    rewrite (fld_alter_set BLink _ _ _ _ None) by done.
    destruct (decide (Some y = hd)) as [E|E], (decide (y = a)) as [E'|E']; try done.
    subst y. symmetry in E. by destruct (Hhd _ E).
  - rewrite (fld_alter_pres AgeFLink), (fld_alter_opt_pres AgeFLink) by done.
    rewrite (fld_alter_set AgeFLink _ _ _ _ agehd); [|done|].
    2:{ by apply alter_opt_alloc, alter_alloc, alter_alloc. }
    destruct (decide (y = a)); [done|].
    by rewrite (fld_alter_opt_pres AgeFLink), !(fld_alter_pres AgeFLink).
  - rewrite (fld_alter_set AgeBLink _ _ _ _ None); [|done|].
    2:{ by apply alter_opt_alloc, alter_alloc, alter_opt_alloc, alter_alloc, alter_alloc. }
    destruct (decide (y = a)); [done|].
    rewrite (fld_alter_opt_set AgeBLink _ _ _ _ (Some a)); [|done|].
    2:{ apply Hage'. intros z.
        by rewrite alter_alloc, alter_opt_alloc, !alter_alloc. }
    destruct (decide (Some y = agehd)); [done|].
    by rewrite (fld_alter_pres AgeBLink), (fld_alter_opt_pres AgeBLink),
      !(fld_alter_pres AgeBLink).
  - by rewrite (fld_alter_pres _count), (fld_alter_opt_pres _count),
      (fld_alter_pres _count), (fld_alter_opt_pres _count), !(fld_alter_pres _count).
  - by rewrite (fld_alter_pres h), (fld_alter_opt_pres h),
      (fld_alter_pres h), (fld_alter_opt_pres h), !(fld_alter_pres h).
  - by rewrite (fld_alter_pres _tag), (fld_alter_opt_pres _tag),
      (fld_alter_pres _tag), (fld_alter_opt_pres _tag), !(fld_alter_pres _tag).
Qed.

Lemma Ob_DECREF_recycle a s o T :
  mem s !! a = Some o → _count o = 2 →
  VmmCacheTableGet (_tag o) = Some T → fActive (tbl s T) = true →
  ∃ s', Ob_DECREF a s = Some s' ∧
    mem s' = <[a := set_count 2 o]> (mem s) ∧
    ListHeadEmpty (tbl s' T) = a :: ListHeadEmpty (tbl s T) ∧
    cEmpty (tbl s' T) = incr32 (cEmpty (tbl s T)) ∧
    R (tbl s' T) = R (tbl s T) ∧
    fActive (tbl s' T) = true ∧
    (∀ T', T' ≠ T → tbl s' T' = tbl s T').
Proof.
  intros Ho Hc HT Hact. unfold Ob_DECREF. rewrite Ho. cbn [mbind option_bind].
  rewrite Hc. change (decr32 2) with 1.
  rewrite decide_False by done. rewrite decide_True by done.
  unfold VmmCache_CallbackRefCount1. rewrite mem_set_mem, lookup_insert_eq.
  cbn [mbind option_bind]. change (_tag (set_count 1 o)) with (_tag o).
  rewrite HT, tbl_set_mem, Hact. cbn [negb].
  unfold Ob_INCREF, wr. rewrite mem_set_mem, lookup_insert_eq.
  cbn [mbind option_bind]. eexists. split; [reflexivity|].
  rewrite mem_set_tbl, mem_set_mem, tbl_set_tbl, !tbl_set_mem. cbn.
  rewrite insert_insert_eq. repeat split; try done.
  intros T' HT'. by rewrite tbl_set_tbl_ne, !tbl_set_mem.
Qed.

Lemma Ob_DECREF_inactive a s o T :
  mem s !! a = Some o → _count o = 2 →
  VmmCacheTableGet (_tag o) = Some T → fActive (tbl s T) = false →
  Ob_DECREF a s = Some (set_mem s (<[a := set_count 1 o]> (mem s))).
Proof.
  intros Ho Hc HT Hact. unfold Ob_DECREF. rewrite Ho. cbn [mbind option_bind].
  rewrite Hc. change (decr32 2) with 1.
  rewrite decide_False by done. rewrite decide_True by done.
  unfold VmmCache_CallbackRefCount1. rewrite mem_set_mem, lookup_insert_eq.
  cbn [mbind option_bind]. change (_tag (set_count 1 o)) with (_tag o).
  by rewrite HT, tbl_set_mem, Hact.
Qed.

(** C2 (amended): the contract of [VmmCacheReserveReturn] for a descriptor
    [a] of table [T].  When the table is active, the descriptor valid and
    its address not INVALID, the reference count of the descriptor is left
    as it is (the reference of the caller is taken over by the region), and
    the descriptor is put at the head of the bucket chain and of the age
    list of its region, whose count is incremented.  When the table is
    active and the descriptor is not valid or has the address INVALID, the
    reference count of a reserved descriptor (2) is decremented and the
    hook, which increments it again, pushes the descriptor on the empty
    list.  When the table is not active the reference count is decremented
    and nothing is pushed. *)
Theorem C2_reserve_return_contract a s o T :
  mem s !! a = Some o →
  VmmCacheTableGet (_tag o) = Some T →
  let t := tbl s T in
  let iR := VMM_CACHE2_GET_REGION (qwA (h o)) in
  let iB := VMM_CACHE2_GET_BUCKET (qwA (h o)) in
  let r := region t iR in
  (fActive t = true → f (h o) = true → qwA (h o) ≠ MEM_SCATTER_ADDR_INVALID →
   ∀ lb la,
     dll FLink BLink (mem s) lb → head lb = R_B r !! iB →
     dll AgeFLink AgeBLink (mem s) la →
     head la = R_AgeFLink r → last la = R_AgeBLink r →
     a ∉ lb → a ∉ la →
     ∃ s', VmmCacheReserveReturn (Some a) s = Some s' ∧
       _count <$> mem s' !! a = Some (_count o) ∧
       dll FLink BLink (mem s') (a :: lb) ∧
       R_B (region (tbl s' T) iR) !! iB = Some a ∧
       dll AgeFLink AgeBLink (mem s') (a :: la) ∧
       R_AgeFLink (region (tbl s' T) iR) = Some a ∧
       R_AgeBLink (region (tbl s' T) iR) = last (a :: la) ∧
       R_c (region (tbl s' T) iR) = incr32 (R_c r) ∧
       ListHeadEmpty (tbl s' T) = ListHeadEmpty t) ∧
  (fActive t = true →
   f (h o) = false ∨ qwA (h o) = MEM_SCATTER_ADDR_INVALID → _count o = 2 →
   ∃ s', VmmCacheReserveReturn (Some a) s = Some s' ∧
     _count <$> mem s' !! a = Some 2 ∧
     ListHeadEmpty (tbl s' T) = a :: ListHeadEmpty t ∧
     cEmpty (tbl s' T) = incr32 (cEmpty t) ∧
     R (tbl s' T) = R t) ∧
  (fActive t = false → _count o = 2 →
   ∃ s', VmmCacheReserveReturn (Some a) s = Some s' ∧
     _count <$> mem s' !! a = Some 1 ∧ tbl s' T = t).
Proof.
  intros Ho HT t iR iB r. subst t iR iB r. split; [|split].
  - intros Hact Hf Hq lb la Hlb Hhb Hla Hha Hta Hnb Hna.
    assert (Hhd : ∀ x, head lb = Some x → is_Some (mem s !! x) ∧ x ≠ a).
    { intros x Hx. apply head_Some_elem_of in Hx.
      split; [exact (dll_alloc _ _ _ _ _ Hlb Hx)|]. by intros ->. }
    assert (Hage : ∀ x, head la = Some x → is_Some (mem s !! x) ∧ x ≠ a).
    { intros x Hx. apply head_Some_elem_of in Hx.
      split; [exact (dll_alloc _ _ _ _ _ Hla Hx)|]. by intros ->. }
    rewrite Hhb in Hhd. rewrite Hha in Hage.
    destruct (VmmCacheReserveReturn_insert a s o T Ho HT Hact Hf Hq)
      as (s' & Hrun & Hmem & Hreg & _ & _ & Hempty & _).
    { intros x Hx. by apply Hhd. }
    { intros x Hx. by apply Hage. }
    pose proof (mem_inserted_links a _ _ (mem s) ltac:(eauto) Hhd Hage) as Hlinks.
    rewrite <- Hmem in Hlinks.
    exists s'. split; [done|]. split.
    { destruct (Hlinks a) as (_ & _ & _ & _ & -> & _). by rewrite Ho. }
    split.
    { eapply dll_push; [exact Hlb|done|..].
      - destruct (Hlinks a) as (-> & _). rewrite decide_True by done. by rewrite Hhb.
      - destruct (Hlinks a) as (_ & -> & _). by rewrite decide_True.
      - intros y Hy. destruct (Hlinks y) as (-> & -> & _).
        assert (y ≠ a) by (by intros ->).
        rewrite !(decide_False (P := y = a)) by done. by rewrite Hhb. }
    split; [rewrite Hreg; simpl; apply lookup_insert_eq|]. split.
    { eapply dll_push; [exact Hla|done|..].
      - destruct (Hlinks a) as (_ & _ & -> & _). rewrite decide_True by done.
        by rewrite Hha.
      - destruct (Hlinks a) as (_ & _ & _ & -> & _). by rewrite decide_True.
      - intros y Hy. destruct (Hlinks y) as (_ & _ & -> & -> & _).
        assert (y ≠ a) by (by intros ->).
        rewrite !(decide_False (P := y = a)) by done. by rewrite Hha. }
    rewrite Hreg. simpl. split; [done|]. split; [|done].
    rewrite last_cons, Hta. by destruct (R_AgeBLink _).
  - intros Hact Hbad Hc.
    destruct (Ob_DECREF_recycle a s o T Ho Hc HT Hact)
      as (s' & Hrun & Hmem & Hl & Hce & HR & _).
    exists s'. split.
    { unfold VmmCacheReserveReturn. rewrite Ho. cbn [mbind option_bind].
      rewrite HT. rewrite Hact. cbn [negb orb].
      destruct Hbad as [-> | ->]; [done|].
      rewrite Z.eqb_refl. by rewrite orb_true_r. }
    rewrite Hmem, lookup_insert_eq. done.
  - intros Hact Hc. eexists. split.
    { unfold VmmCacheReserveReturn. rewrite Ho. cbn [mbind option_bind].
      rewrite HT. rewrite Hact. cbn [negb orb].
      by apply (Ob_DECREF_inactive a s o T). }
    rewrite mem_set_mem, lookup_insert_eq, tbl_set_mem. done.
Qed.

(** ** [VmmCacheInvalidate_2] *)

(** Releasing a reference of a descriptor that holds at least two only
    changes its reference count and, through the hook, the empty list of
    its table. *)
Lemma Ob_DECREF_keeps x s o :
  mem s !! x = Some o → 2 ≤ _count o < 2 ^ 32 →
  ∃ s' n, Ob_DECREF x s = Some s' ∧
    mem s' = <[x := set_count n o]> (mem s) ∧ 1 ≤ n < 2 ^ 32 ∧
    ∀ T, R (tbl s' T) = R (tbl s T) ∧ fActive (tbl s' T) = fActive (tbl s T).
Proof.
  intros Ho Hc. unfold Ob_DECREF. rewrite Ho. cbn [mbind option_bind].
  assert (Hd : decr32 (_count o) = _count o - 1).
  { unfold decr32. apply Z.mod_small. lia. }
  rewrite Hd. rewrite decide_False by lia.
  destruct (decide (_count o - 1 = 1)) as [H1|H1].
  2:{ eexists _, _. split; [done|]. rewrite mem_set_mem. split; [done|].
      split; [lia|]. intros T. by rewrite tbl_set_mem. }
  unfold VmmCache_CallbackRefCount1. rewrite mem_set_mem, lookup_insert_eq.
  cbn [mbind option_bind]. change (_tag (set_count _ o)) with (_tag o).
  destruct (VmmCacheTableGet (_tag o)) as [T'|].
  2:{ eexists _, _. split; [done|]. rewrite mem_set_mem. split; [done|].
      split; [lia|]. intros T. by rewrite tbl_set_mem. }
  rewrite tbl_set_mem. destruct (fActive (tbl s T')) eqn:Hact; cbn [negb].
  2:{ eexists _, _. split; [done|]. rewrite mem_set_mem. split; [done|].
      split; [lia|]. intros T. by rewrite tbl_set_mem. }
  unfold Ob_INCREF, wr. rewrite mem_set_mem, lookup_insert_eq.
  cbn [mbind option_bind]. eexists _, _. split; [reflexivity|].
  rewrite mem_set_tbl, mem_set_mem, insert_insert_eq.
  split; [reflexivity|]. split.
  { cbn. rewrite H1. change (incr32 1) with 2. lia. }
  intros T. destruct (decide (T' = T)) as [->|Hne].
  - rewrite tbl_set_tbl, !tbl_set_mem. done.
  - rewrite tbl_set_tbl_ne, !tbl_set_mem by done. done.
Qed.

Lemma alter_opt_lookup_ne g p (m : gmap nat VMMOB_MEM) x :
  p ≠ Some x → alter_opt g p m !! x = m !! x.
Proof.
  destruct p as [y|]; [|done]. intros Hne. simpl.
  apply lookup_alter_ne. congruence.
Qed.

(** The heap after the descriptor with the links of [o] has been taken out
    of its bucket chain and of its age list. *)
Definition mem_detached (o : VMMOB_MEM) (m : gmap nat VMMOB_MEM)
    : gmap nat VMMOB_MEM :=
  alter_opt (set_AgeBLink (AgeBLink o)) (AgeFLink o)
    (alter_opt (set_AgeFLink (AgeFLink o)) (AgeBLink o)
       (alter_opt (set_BLink (BLink o)) (FLink o)
          (alter_opt (set_FLink (FLink o)) (BLink o) m))).

#[local] Ltac in_links :=
  repeat first [apply list_elem_of_here | apply list_elem_of_further].

Lemma Invalidate_detach_unlink T iR iB x s o :
  mem s !! x = Some o → 2 ≤ _count o < 2 ^ 32 →
  (∀ p y, p ∈ [BLink o; FLink o; AgeBLink o; AgeFLink o] → p = Some y →
     is_Some (mem s !! y) ∧ y ≠ x) →
  let r := region (tbl s T) iR in
  ∃ s' n, Invalidate_detach T iR iB x s = Some s' ∧
    mem s' = <[x := set_count n o]> (mem_detached o (mem s)) ∧
    1 ≤ n < 2 ^ 32 ∧
    region (tbl s' T) iR =
      mkRegion (decr32 (R_c r))
        (match BLink o with Some _ => R_B r | None => set_slot (R_B r) iB (FLink o) end)
        (match AgeBLink o with Some _ => R_AgeFLink r | None => AgeFLink o end)
        (match AgeFLink o with Some _ => R_AgeBLink r | None => AgeBLink o end) ∧
    fActive (tbl s' T) = fActive (tbl s T).
Proof.
  intros Ho Hc Hnb r. unfold Invalidate_detach, mem_detached.
  rewrite Ho. cbn [mbind option_bind].
  assert (Hal : ∀ p y, p ∈ [BLink o; FLink o; AgeBLink o; AgeFLink o] →
            p = Some y → is_Some (mem s !! y)).
  { intros p y Hp Hy. by destruct (Hnb p y Hp Hy). }
  assert (Hne : ∀ p y, p ∈ [BLink o; FLink o; AgeBLink o; AgeFLink o] →
            p = Some y → y ≠ x).
  { intros p y Hp Hy. by destruct (Hnb p y Hp Hy). }
  destruct (BLink o) as [b|] eqn:EB, (FLink o) as [n|] eqn:EF,
    (AgeBLink o) as [ab|] eqn:EAB, (AgeFLink o) as [an|] eqn:EAF.
  all: repeat first
    [ progress cbn [mbind option_bind wr_opt alter_opt]
    | progress autorewrite with cache
    | rewrite lookup_alter_ne by (eapply Hne; [|reflexivity]; in_links)
    | rewrite Ho
    | rewrite EB | rewrite EF | rewrite EAB | rewrite EAF
    | rewrite wr_ok by (autorewrite with cache; rewrite ?alter_alloc;
                         eapply Hal; [|reflexivity]; in_links) ].
  all: match goal with
       | |- ∃ s' n, Ob_DECREF _ ?s5 = _ ∧ _ =>
         destruct (Ob_DECREF_keeps x s5 o) as (s' & n0 & Hrun & Hmem & Hn & Htb);
           [ autorewrite with cache;
             rewrite ?lookup_alter_ne by (eapply Hne; [|reflexivity]; in_links);
             exact Ho
           | exact Hc
           | exists s', n0; destruct (Htb T) as [HR Hact];
             split; [exact Hrun|];
             split; [rewrite Hmem; autorewrite with cache; reflexivity|];
             split; [exact Hn|];
             split; [unfold region at 1; rewrite HR;
                     fold (region (tbl s5 T) iR); autorewrite with cache;
                     reflexivity
                    |rewrite Hact; autorewrite with cache; reflexivity] ]
       end.
Qed.

Lemma mem_detached_links o (m : gmap nat VMMOB_MEM) :
  (∀ p y, p ∈ [BLink o; FLink o; AgeBLink o; AgeFLink o] → p = Some y →
     is_Some (m !! y)) →
  ∀ y,
    FLink <$> mem_detached o m !! y
      = (if decide (Some y = BLink o) then Some (FLink o) else FLink <$> m !! y) ∧
    BLink <$> mem_detached o m !! y
      = (if decide (Some y = FLink o) then Some (BLink o) else BLink <$> m !! y) ∧
    AgeFLink <$> mem_detached o m !! y
      = (if decide (Some y = AgeBLink o) then Some (AgeFLink o)
         else AgeFLink <$> m !! y) ∧
    AgeBLink <$> mem_detached o m !! y
      = (if decide (Some y = AgeFLink o) then Some (AgeBLink o)
         else AgeBLink <$> m !! y) ∧
    _count <$> mem_detached o m !! y = _count <$> m !! y ∧
    h <$> mem_detached o m !! y = h <$> m !! y ∧
    _tag <$> mem_detached o m !! y = _tag <$> m !! y.
Proof.
  intros Hal y. unfold mem_detached.
  assert (Hal' : ∀ m0 : gmap nat VMMOB_MEM,
            (∀ z, is_Some (m0 !! z) ↔ is_Some (m !! z)) →
            ∀ p, p ∈ [BLink o; FLink o; AgeBLink o; AgeFLink o] →
            ∀ z, p = Some z → is_Some (m0 !! z)).
  { intros m0 Hm0 p Hp z Hz. apply Hm0. by apply (Hal p). }
  repeat split.
  - rewrite !(fld_alter_opt_pres FLink _ (AgeFLink o)),
      !(fld_alter_opt_pres FLink _ (AgeBLink o)),
      !(fld_alter_opt_pres FLink _ (FLink o)) by done.
    apply fld_alter_opt_set; [done|]. apply (Hal' m); [done|in_links].
  - rewrite !(fld_alter_opt_pres BLink _ (AgeFLink o)),
      !(fld_alter_opt_pres BLink _ (AgeBLink o)) by done.
    rewrite (fld_alter_opt_set BLink _ _ _ _ (BLink o)); [|done|].
    2:{ apply Hal'; [|in_links]. intros z. by rewrite alter_opt_alloc. }
    destruct (decide (Some y = FLink o)); [done|].
    by rewrite (fld_alter_opt_pres BLink).
  - rewrite !(fld_alter_opt_pres AgeFLink _ (AgeFLink o)) by done.
    rewrite (fld_alter_opt_set AgeFLink _ _ _ _ (AgeFLink o)); [|done|].
    2:{ apply Hal'; [|in_links]. intros z. by rewrite !alter_opt_alloc. }
    destruct (decide (Some y = AgeBLink o)); [done|].
    by rewrite !(fld_alter_opt_pres AgeFLink).
  - rewrite (fld_alter_opt_set AgeBLink _ _ _ _ (AgeBLink o)); [|done|].
    2:{ apply Hal'; [|in_links]. intros z. by rewrite !alter_opt_alloc. }
    destruct (decide (Some y = AgeFLink o)); [done|].
    by rewrite !(fld_alter_opt_pres AgeBLink).
  - by rewrite !(fld_alter_opt_pres _count).
  - by rewrite !(fld_alter_opt_pres h).
  - by rewrite !(fld_alter_opt_pres _tag).
Qed.

Lemma lookup_set_slot (b : gmap Z nat) i p : set_slot b i p !! i = p.
Proof. destruct p; simpl; [apply lookup_insert_eq|apply lookup_delete_eq]. Qed.

Lemma NoDup_mid_ne (l1 l2 : list nat) x y :
  NoDup (l1 ++ x :: l2) → y ∈ l1 ++ l2 → y ≠ x.
Proof.
  intros (_ & H1 & H2)%NoDup_app Hy ->. apply NoDup_cons in H2 as [H2 _].
  apply elem_of_app in Hy as [Hy|Hy]; [|done].
  apply (H1 x Hy). apply list_elem_of_here.
Qed.

Lemma elem_of_mid (l1 l2 : list nat) x y : y ∈ l1 ++ l2 → y ∈ l1 ++ x :: l2.
Proof.
  rewrite !elem_of_app, elem_of_cons. tauto.
Qed.

(** Bucket [iB] of region [iR] of table [T] holds the chain [lb] and the
    region has the age list [la]. *)
Record region_wf (s : VMM_CACHE) (T : TBL) (iR iB : Z) (lb la : list nat)
    : Prop := mk_region_wf {
  wf_chain : dll FLink BLink (mem s) lb;
  wf_B : R_B (region (tbl s T) iR) !! iB = head lb;
  wf_age : dll AgeFLink AgeBLink (mem s) la;
  wf_AgeFLink : R_AgeFLink (region (tbl s T) iR) = head la;
  wf_AgeBLink : R_AgeBLink (region (tbl s T) iR) = last la;
}.

Lemma Invalidate_detach_spec T iR iB x s l1 l2 a1 a2 o :
  region_wf s T iR iB (l1 ++ x :: l2) (a1 ++ x :: a2) →
  mem s !! x = Some o → 2 ≤ _count o < 2 ^ 32 →
  ∃ s', Invalidate_detach T iR iB x s = Some s' ∧
    region_wf s' T iR iB (l1 ++ l2) (a1 ++ a2) ∧
    R_c (region (tbl s' T) iR) = decr32 (R_c (region (tbl s T) iR)) ∧
    fActive (tbl s' T) = fActive (tbl s T) ∧
    (∀ y, h <$> mem s' !! y = h <$> mem s !! y) ∧
    (∀ y, y ≠ x → _count <$> mem s' !! y = _count <$> mem s !! y).
Proof.
  intros [Hlb HB Hla HAF HAB] Ho Hc.
  destruct (dll_mid_links _ _ _ _ _ _ Hlb) as (o1 & Ho1 & HF & HBk).
  destruct (dll_mid_links _ _ _ _ _ _ Hla) as (o2 & Ho2 & HAFk & HABk).
  assert (o1 = o) as -> by congruence. assert (o2 = o) as -> by congruence.
  clear Ho1 Ho2.
  assert (Hin : ∀ p y, p ∈ [BLink o; FLink o; AgeBLink o; AgeFLink o] →
            p = Some y → y ∈ l1 ++ l2 ∨ y ∈ a1 ++ a2).
  { intros p y Hp Hy. rewrite HF, HBk, HAFk, HABk in Hp.
    rewrite !elem_of_app.
    repeat (apply elem_of_cons in Hp as [->|Hp]).
    - apply last_Some_elem_of in Hy. tauto.
    - apply head_Some_elem_of in Hy. tauto.
    - apply last_Some_elem_of in Hy. tauto.
    - apply head_Some_elem_of in Hy. tauto.
    - by apply elem_of_nil in Hp. }
  assert (Hnb : ∀ p y, p ∈ [BLink o; FLink o; AgeBLink o; AgeFLink o] →
            p = Some y → is_Some (mem s !! y) ∧ y ≠ x).
  { intros p y Hp Hy. destruct (Hin p y Hp Hy) as [Hy'|Hy'].
    - split; [|by eapply NoDup_mid_ne; [eapply dll_NoDup, Hlb|]].
      eapply dll_alloc; [exact Hlb|]. by apply elem_of_mid.
    - split; [|by eapply NoDup_mid_ne; [eapply dll_NoDup, Hla|]].
      eapply dll_alloc; [exact Hla|]. by apply elem_of_mid. }
  destruct (Invalidate_detach_unlink T iR iB x s o Ho Hc Hnb)
    as (s' & n & Hrun & Hmem & Hn & Hreg & Hact).
  pose proof (mem_detached_links o (mem s)
                (λ p y Hp Hy, proj1 (Hnb p y Hp Hy))) as Hlinks.
  assert (Hother : ∀ {A} (fld : VMMOB_MEM → A) y, y ≠ x →
            fld <$> mem s' !! y = fld <$> mem_detached o (mem s) !! y).
  { intros A fld y Hy. rewrite Hmem. by rewrite lookup_insert_ne. }
  exists s'. split; [done|]. split; [|split; [|split; [done|split]]].
  - split.
    + eapply dll_unlink; [exact Hlb|..]; intros y Hy.
      * rewrite Hother by (eapply NoDup_mid_ne; [eapply dll_NoDup, Hlb|done]).
        destruct (Hlinks y) as (-> & _). by rewrite HBk, HF.
      * rewrite Hother by (eapply NoDup_mid_ne; [eapply dll_NoDup, Hlb|done]).
        destruct (Hlinks y) as (_ & -> & _). by rewrite HBk, HF.
    + rewrite Hreg. simpl. rewrite HBk, HF. destruct l1 as [|z l1].
      * simpl. apply lookup_set_slot.
      * rewrite last_cons. destruct (last l1); by rewrite HB.
    + eapply dll_unlink; [exact Hla|..]; intros y Hy.
      * rewrite Hother by (eapply NoDup_mid_ne; [eapply dll_NoDup, Hla|done]).
        destruct (Hlinks y) as (_ & _ & -> & _). by rewrite HABk, HAFk.
      * rewrite Hother by (eapply NoDup_mid_ne; [eapply dll_NoDup, Hla|done]).
        destruct (Hlinks y) as (_ & _ & _ & -> & _). by rewrite HABk, HAFk.
    + rewrite Hreg. simpl. rewrite HABk, HAFk. destruct a1 as [|z a1].
      * done.
      * rewrite last_cons. destruct (last a1); by rewrite HAF.
    + rewrite Hreg. simpl. rewrite HABk, HAFk. destruct a2 as [|z a2].
      * simpl. by rewrite app_nil_r.
      * simpl. rewrite HAB. rewrite !last_app. simpl.
        reflexivity.
  - by rewrite Hreg.
  - intros y. destruct (decide (y = x)) as [->|Hy].
    + rewrite Hmem, lookup_insert_eq, Ho. done.
    + rewrite Hother by done. by destruct (Hlinks y) as (_ & _ & _ & _ & _ & -> & _).
  - intros y Hy. rewrite Hother by done.
    by destruct (Hlinks y) as (_ & _ & _ & _ & -> & _).
Qed.

(** The descriptor at [y] holds the page of address [a]. *)
Definition addr_is (m : gmap nat VMMOB_MEM) (a : Z) (y : nat) : Prop :=
  qwA <$> (h <$> m !! y) = Some a.

#[global] Instance addr_is_dec m a y : Decision (addr_is m a y).
Proof. unfold addr_is. apply _. Defined.

Lemma addr_is_ext m m' a y :
  h <$> m' !! y = h <$> m !! y → addr_is m' a y ↔ addr_is m a y.
Proof. unfold addr_is. by intros ->. Qed.

Lemma filter_ext_in {A} (P Q : A → Prop) `{!∀ x, Decision (P x)}
    `{!∀ x, Decision (Q x)} (l : list A) :
  (∀ x, x ∈ l → P x ↔ Q x) → filter P l = filter Q l.
Proof.
  induction l as [|x l IH]; intros HPQ; [done|].
  rewrite !filter_cons.
  rewrite IH by (intros y Hy; apply HPQ; by apply list_elem_of_further).
  pose proof (HPQ x (list_elem_of_here _ _)).
  destruct (decide (P x)), (decide (Q x)); tauto.
Qed.

Lemma filter_all {A} (P : A → Prop) `{!∀ x, Decision (P x)} (l : list A) :
  (∀ x, x ∈ l → P x) → filter P l = l.
Proof.
  induction l as [|x l IH]; intros HP; [done|].
  rewrite filter_cons_True by (apply HP, list_elem_of_here).
  rewrite IH; [done|]. intros y Hy. by apply HP, list_elem_of_further.
Qed.

Lemma decr32_sub c k :
  (decr32 c - k) `mod` 2 ^ 32 = (c - (1 + k)) `mod` 2 ^ 32.
Proof.
  unfold decr32. rewrite Zminus_mod_idemp_l. f_equal. lia.
Qed.

(** The chain walk of [VmmCacheGet] over a chain none of whose descriptors
    holds [a] ends with NULL. *)
Lemma Get_loop_miss m a l :
  dll FLink BLink m l → (∀ y, y ∈ l → ¬ addr_is m a y) →
  ∀ fuel i, (length l - i ≤ fuel)%nat → Get_loop fuel m a (l !! i) = Some None.
Proof.
  intros [_ Hl] Hno. induction fuel as [|fuel IH]; intros i Hi.
  - rewrite lookup_ge_None_2 by lia. done.
  - destruct (l !! i) as [x|] eqn:Hx; [|done]. simpl.
    destruct (Hl i x Hx) as [Hn _].
    destruct (m !! x) as [o|] eqn:Ho; [|done]. simpl in Hn |- *.
    injection Hn as Hn. rewrite decide_True.
    + rewrite Hn. apply IH. lia.
    + intros E. apply (Hno x); [by eapply list_elem_of_lookup_2|].
      unfold addr_is. rewrite Ho. simpl. by rewrite E.
Qed.

(** The loop of [VmmCacheInvalidate_2] at the position that follows
    [kept]: of the remaining chain [rest] the descriptors that hold [a] are
    taken out of the bucket chain and of the age list. *)
Lemma Invalidate_loop_spec T iR iB a :
  ∀ rest kept la s fuel,
    region_wf s T iR iB (kept ++ rest) la →
    (∀ y, y ∈ rest → y ∈ la) →
    (∀ y, y ∈ rest → ∃ c, _count <$> mem s !! y = Some c ∧ 2 ≤ c < 2 ^ 32) →
    0 ≤ R_c (region (tbl s T) iR) < 2 ^ 32 →
    (length rest ≤ fuel)%nat →
    ∃ s', Invalidate_loop fuel T iR iB a (head rest) s = Some s' ∧
      region_wf s' T iR iB
        (kept ++ filter (λ y, ¬ addr_is (mem s) a y) rest)
        (filter (λ y, ¬ (y ∈ rest ∧ addr_is (mem s) a y)) la) ∧
      R_c (region (tbl s' T) iR)
        = (R_c (region (tbl s T) iR)
           - Z.of_nat (length (filter (addr_is (mem s) a) rest))) `mod` 2 ^ 32 ∧
      fActive (tbl s' T) = fActive (tbl s T) ∧
      (∀ y, h <$> mem s' !! y = h <$> mem s !! y).
Proof.
  induction rest as [|x rest IH]; intros kept la s fuel Hwf Hsub Hcnt Hc Hfuel.
  - exists s. split; [by destruct fuel|]. split; [|split; [|done]].
    + rewrite filter_nil, filter_all; [exact Hwf|].
      intros y _ [Hy _]. by apply elem_of_nil in Hy.
    + simpl. rewrite Z.sub_0_r. symmetry. by apply Z.mod_small.
  - destruct fuel as [|fuel]; [simpl in Hfuel; lia|].
    simpl in Hfuel. cbn [head Invalidate_loop].
    destruct (dll_mid_links _ _ _ _ _ _ (wf_chain _ _ _ _ _ _ Hwf))
      as (o & Ho & HF & _).
    rewrite Ho. cbn [mbind option_bind]. rewrite HF.
    destruct (Hcnt x (list_elem_of_here _ _)) as (c & Hcx & Hcr).
    rewrite Ho in Hcx. simpl in Hcx. injection Hcx as <-.
    pose proof (dll_NoDup _ _ _ _ (wf_chain _ _ _ _ _ _ Hwf)) as Hnd.
    assert (Hxr : ∀ y, y ∈ rest → y ≠ x).
    { intros y Hy. eapply NoDup_mid_ne; [exact Hnd|].
      apply elem_of_app. by right. }
    destruct (decide (qwA (h o) = a)) as [Ha|Ha].
    + (* the descriptor holds [a] *)
      assert (Hax : addr_is (mem s) a x).
      { unfold addr_is. rewrite Ho. simpl. by rewrite Ha. }
      destruct (list_elem_of_split la x (Hsub x (list_elem_of_here _ _)))
        as (a1 & a2 & ->).
      pose proof (dll_NoDup _ _ _ _ (wf_age _ _ _ _ _ _ Hwf)) as Hnda.
      destruct (Invalidate_detach_spec T iR iB x s kept rest a1 a2 o Hwf Ho Hcr)
        as (s1 & Hrun & Hwf1 & Hc1 & Hact1 & Hh1 & Hcnt1).
      rewrite Hrun. cbn [mbind option_bind].
      destruct (IH kept (a1 ++ a2) s1 fuel Hwf1)
        as (s' & Hrun' & Hwf' & Hc' & Hact' & Hh').
      { intros y Hy. pose proof (Hsub y (list_elem_of_further _ _ _ Hy)) as Hyl.
        pose proof (Hxr y Hy). revert Hyl.
        rewrite !elem_of_app, elem_of_cons. tauto. }
      { intros y Hy. rewrite (Hcnt1 y (Hxr y Hy)).
        apply Hcnt. by apply list_elem_of_further. }
      { rewrite Hc1. unfold decr32. apply Z.mod_pos_bound. lia. }
      { lia. }
      exists s'. split; [done|].
      assert (Hadd : ∀ y, addr_is (mem s1) a y ↔ addr_is (mem s) a y).
      { intros y. apply addr_is_ext, Hh1. }
      split; [|split; [|split]].
      * rewrite filter_cons_False by tauto.
        rewrite (list_filter_iff (λ y, ¬ addr_is (mem s) a y)
                   (λ y, ¬ addr_is (mem s1) a y)) by (intros y; by rewrite Hadd).
        assert (Eage : filter (λ y, ¬ (y ∈ x :: rest ∧ addr_is (mem s) a y))
                         (a1 ++ x :: a2)
                       = filter (λ y, ¬ (y ∈ rest ∧ addr_is (mem s1) a y))
                           (a1 ++ a2)).
        { rewrite !filter_app.
          rewrite (filter_cons_False _ x).
          2:{ intros Hn. apply Hn. split; [apply list_elem_of_here|done]. }
          f_equal; apply filter_ext_in; intros y Hy.
          - assert (y ≠ x).
            { eapply NoDup_mid_ne; [exact Hnda|]. apply elem_of_app. by left. }
            rewrite Hadd, elem_of_cons. tauto.
          - assert (y ≠ x).
            { eapply NoDup_mid_ne; [exact Hnda|]. apply elem_of_app. by right. }
            rewrite Hadd, elem_of_cons. tauto. }
        rewrite Eage. exact Hwf'.
      * rewrite Hc', Hc1. rewrite filter_cons_True by done.
        rewrite (list_filter_iff (addr_is (mem s1) a) (addr_is (mem s) a)) by done.
        rewrite decr32_sub. f_equal. simpl length. lia.
      * by rewrite Hact'.
      * intros y. by rewrite Hh'.
    + (* the descriptor holds another address *)
      assert (Hax : ¬ addr_is (mem s) a x).
      { unfold addr_is. rewrite Ho. simpl. congruence. }
      cbn [mbind option_bind].
      destruct (IH (kept ++ [x]) la s fuel) as (s' & Hrun' & Hwf' & Hc' & Hact' & Hh').
      { by rewrite <- app_assoc. }
      { intros y Hy. by apply Hsub, list_elem_of_further. }
      { intros y Hy. by apply Hcnt, list_elem_of_further. }
      { done. }
      { lia. }
      exists s'. split; [done|]. split; [|split; [|done]].
      * rewrite filter_cons_True by done.
        rewrite <- app_assoc in Hwf'. simpl in Hwf'.
        rewrite (list_filter_iff (λ y, ¬ (y ∈ x :: rest ∧ addr_is (mem s) a y))
                   (λ y, ¬ (y ∈ rest ∧ addr_is (mem s) a y))); [done|].
        intros y. rewrite elem_of_cons. split; [tauto|].
        intros Hn [[->|Hy] Hy']; tauto.
      * rewrite Hc'. by rewrite filter_cons_False.
Qed.

(** C3: invalidation removes every matching cache entry.  For an active
    table whose bucket of the address [a] holds the chain [lb] and whose
    region of [a] has the age list [la], [VmmCacheInvalidate_2] returns; the
    chain is then [lb] without the descriptors that hold [a], the same
    descriptors are gone from the age list, the count of the region is
    decremented once for each of them, and [VmmCacheGet] for [a] in the
    state that results returns NULL and leaves the state as it is. *)
Theorem C3_invalidate_then_get_null dwTblTag a s T lb la fuel :
  VmmCacheTableGet dwTblTag = Some T → fActive (tbl s T) = true →
  let iR := VMM_CACHE2_GET_REGION a in
  let iB := VMM_CACHE2_GET_BUCKET a in
  region_wf s T iR iB lb la →
  (∀ y, y ∈ lb → y ∈ la) →
  (∀ y, y ∈ lb → ∃ c, _count <$> mem s !! y = Some c ∧ 2 ≤ c < 2 ^ 32) →
  0 ≤ R_c (region (tbl s T) iR) < 2 ^ 32 →
  (length lb ≤ fuel)%nat →
  ∃ s', VmmCacheInvalidate_2 fuel dwTblTag a s = Some s' ∧
    region_wf s' T iR iB
      (filter (λ y, ¬ addr_is (mem s) a y) lb)
      (filter (λ y, ¬ (y ∈ lb ∧ addr_is (mem s) a y)) la) ∧
    R_c (region (tbl s' T) iR)
      = (R_c (region (tbl s T) iR)
         - Z.of_nat (length (filter (addr_is (mem s) a) lb))) `mod` 2 ^ 32 ∧
    VmmCacheGet fuel dwTblTag a s' = Some (None, s').
Proof.
  intros HT Hact iR iB Hwf Hsub Hcnt Hc Hfuel.
  destruct (Invalidate_loop_spec T iR iB a lb [] la s fuel Hwf Hsub Hcnt Hc Hfuel)
    as (s' & Hrun & Hwf' & Hc' & Hact' & Hh').
  simpl app in Hwf'.
  exists s'. split.
  { unfold VmmCacheInvalidate_2. rewrite HT, Hact. cbn [negb].
    fold iR iB. by rewrite (wf_B _ _ _ _ _ _ Hwf). }
  split; [done|]. split; [done|].
  unfold VmmCacheGet. rewrite HT, Hact', Hact. cbn [negb]. fold iR iB.
  rewrite (wf_B _ _ _ _ _ _ Hwf'), head_lookup.
  rewrite (Get_loop_miss (mem s') a _ (wf_chain _ _ _ _ _ _ Hwf')); [done| |].
  - intros y [Hy _]%list_elem_of_filter Hy'. apply Hy.
    exact (proj1 (addr_is_ext (mem s) (mem s') a y (Hh' y)) Hy').
  - pose proof (length_filter (λ y, ¬ addr_is (mem s) a y) lb). lia.
Qed.

End CacheTheory.

(** ** Concrete runs of the cache *)

#[local] Existing Instance small_consts.

(** The caller of [VmmCacheReserve] fills the descriptor: [h.qwA = qa],
    [h.f = TRUE]. *)
Definition fill (a : nat) (qa : Z) (s : VMM_CACHE) : option VMM_CACHE :=
  wr a (λ o, set_h (set_f true (set_qwA qa (h o))) o) s.

(** The PHYS table is initialised; nothing is allocated yet. *)
Definition cst_init : VMM_CACHE :=
  VmmCache2Initialize VMM_CACHE_TAG_PHYS
    (mkCache ∅ table_zero table_zero table_zero 8).

(** A descriptor is reserved (it is allocated at address 0). *)
Definition cst_reserved : VMM_CACHE :=
  default cst_init (snd <$> VmmCacheReserve 4 VMM_CACHE_TAG_PHYS cst_init).

(** The reserved descriptor is filled with the page 0x1000. *)
Definition cst_filled : VMM_CACHE :=
  default cst_reserved (fill 0 0x1000 cst_reserved).

(** The filled descriptor is returned to the cache. *)
Definition cst_cached : VMM_CACHE :=
  default cst_filled (VmmCacheReserveReturn (Some 0%nat) cst_filled).

(** The table is closed while the descriptor is reserved. *)
Definition cst_closed : VMM_CACHE :=
  let t := tbl cst_reserved T_PHYS in
  set_tbl cst_reserved T_PHYS
    (mkTbl false (tag t) (R t) (ListHeadEmpty t) (ListHeadTotal t)
       (cEmpty t) (cTotal t) (iReclaimLast t)).

(** A second descriptor (address 1) is reserved, filled with the page
    0x10000, which has the region and the bucket of 0x1000, and returned. *)
Definition cst_two : VMM_CACHE :=
  default cst_cached
    ('(_, s1) ← VmmCacheReserve 4 VMM_CACHE_TAG_PHYS cst_cached;
     s2 ← fill 1 0x10000 s1;
     VmmCacheReserveReturn (Some 1%nat) s2).

Lemma cst_reserved_run :
  VmmCacheReserve 4 VMM_CACHE_TAG_PHYS cst_init = Some (Some 0%nat, cst_reserved).
Proof. vm_compute. reflexivity. Qed.

Lemma cst_two_run :
  VmmCacheReserve 4 VMM_CACHE_TAG_PHYS cst_cached
    ≫= (λ '(p, s1), s2 ← fill 1 0x10000 s1;
                     s3 ← VmmCacheReserveReturn (Some 1%nat) s2; Some (p, s3))
  = Some (Some 1%nat, cst_two).
Proof. vm_compute. reflexivity. Qed.

(** The descriptor at [a], for the states above. *)
Definition ob_at (s : VMM_CACHE) (a : nat) : VMMOB_MEM :=
  default (mkOb 0 0 (mkMEM 0 0 [] false []) None None None None) (mem s !! a).

Lemma C2_reserve_return_contract_witness :
  (∃ s', VmmCacheReserveReturn (Some 0%nat) cst_filled = Some s' ∧
     _count <$> mem s' !! 0%nat = Some 2 ∧
     dll FLink BLink (mem s') [0%nat] ∧
     dll AgeFLink AgeBLink (mem s') [0%nat] ∧
     R_B (region (tbl s' T_PHYS) 1) !! 1 = Some 0%nat ∧
     R_c (region (tbl s' T_PHYS) 1) = 1) ∧
  (∃ s', VmmCacheReserveReturn (Some 0%nat) cst_reserved = Some s' ∧
     _count <$> mem s' !! 0%nat = Some 2 ∧
     ListHeadEmpty (tbl s' T_PHYS) = [0%nat]) ∧
  (∃ s', VmmCacheReserveReturn (Some 0%nat) cst_closed = Some s' ∧
     _count <$> mem s' !! 0%nat = Some 1 ∧
     ListHeadEmpty (tbl s' T_PHYS) = []).
Proof.
  split; [|split].
  - destruct (C2_reserve_return_contract 0 cst_filled (ob_at cst_filled 0) T_PHYS)
      as (B & _ & _); [vm_compute; reflexivity..|].
    destruct (B ltac:(vm_compute; reflexivity) ltac:(vm_compute; reflexivity)
                ltac:(vm_compute; discriminate) [] [])
      as (s' & Hrun & Hc & Hlb & HB & Hla & _ & _ & HRc & _).
    + apply dll_nil.
    + vm_compute; reflexivity.
    + apply dll_nil.
    + vm_compute; reflexivity.
    + vm_compute; reflexivity.
    + apply not_elem_of_nil.
    + apply not_elem_of_nil.
    + exists s'. split; [exact Hrun|]. split; [exact Hc|].
      split; [exact Hlb|]. split; [exact Hla|]. split; [exact HB|].
      etransitivity; [exact HRc|]. vm_compute; reflexivity.
  - destruct (C2_reserve_return_contract 0 cst_reserved (ob_at cst_reserved 0) T_PHYS)
      as (_ & B & _); [vm_compute; reflexivity..|].
    destruct (B ltac:(vm_compute; reflexivity)
                ltac:(left; vm_compute; reflexivity)
                ltac:(vm_compute; reflexivity))
      as (s' & Hrun & Hc & Hl & _).
    exists s'. split; [exact Hrun|]. split; [exact Hc|]. rewrite Hl.
    vm_compute; reflexivity.
  - destruct (C2_reserve_return_contract 0 cst_closed (ob_at cst_closed 0) T_PHYS)
      as (_ & _ & B); [vm_compute; reflexivity..|].
    destruct (B ltac:(vm_compute; reflexivity) ltac:(vm_compute; reflexivity))
      as (s' & Hrun & Hc & Ht).
    exists s'. split; [assumption|]. split; [assumption|].
    rewrite Ht. vm_compute; reflexivity.
Defined.

(** C2 as stated fails: the descriptor at address 0 was obtained from
    [VmmCacheReserve], the table is active, the descriptor is valid and holds
    the page 0x1000, and [VmmCacheReserveReturn] leaves its reference count
    at 2; and when the table is not active the descriptor is not put on the
    empty list. *)
Lemma C2_counterexample :
  VmmCacheReserve 4 VMM_CACHE_TAG_PHYS cst_init = Some (Some 0%nat, cst_reserved) ∧
  fill 0 0x1000 cst_reserved = Some cst_filled ∧
  fActive (tbl cst_filled T_PHYS) = true ∧
  f (h (ob_at cst_filled 0)) = true ∧
  qwA (h (ob_at cst_filled 0)) = 0x1000 ∧
  _count (ob_at cst_filled 0) = 2 ∧
  VmmCacheReserveReturn (Some 0%nat) cst_filled = Some cst_cached ∧
  _count (ob_at cst_cached 0) = 2 ∧
  R_B (region (tbl cst_cached T_PHYS) 1) !! 1 = Some 0%nat ∧
  ∃ s', VmmCacheReserveReturn (Some 0%nat) cst_closed = Some s' ∧
    _count (ob_at s' 0) = 1 ∧ ListHeadEmpty (tbl s' T_PHYS) = [].
Proof.
  repeat (split; [vm_compute; reflexivity|]).
  eexists. repeat split; vm_compute; reflexivity.
Qed.

Lemma cst_two_wf : region_wf cst_two T_PHYS 1 1 [1%nat; 0%nat] [1%nat; 0%nat].
Proof.
  assert (Hnd : NoDup [1%nat; 0%nat]).
  { apply NoDup_cons. split; [|apply NoDup_singleton].
    intros Hin%list_elem_of_singleton. discriminate Hin. }
  split; [split; [exact Hnd|]|vm_compute; reflexivity|split; [exact Hnd|]|
          vm_compute; reflexivity..].
  - intros [|[|i]] x Hi; simpl in Hi; [injection Hi as <-..|discriminate Hi];
      split; vm_compute; reflexivity.
  - intros [|[|i]] x Hi; simpl in Hi; [injection Hi as <-..|discriminate Hi];
      split; vm_compute; reflexivity.
Qed.

Lemma C3_invalidate_then_get_null_witness :
  ∃ s', VmmCacheInvalidate_2 2 VMM_CACHE_TAG_PHYS 0x1000 cst_two = Some s' ∧
    region_wf s' T_PHYS 1 1 [1%nat] [1%nat] ∧
    R_c (region (tbl s' T_PHYS) 1) = 1 ∧
    VmmCacheGet 2 VMM_CACHE_TAG_PHYS 0x1000 s' = Some (None, s').
Proof.
  destruct (C3_invalidate_then_get_null VMM_CACHE_TAG_PHYS 0x1000 cst_two T_PHYS
              [1%nat; 0%nat] [1%nat; 0%nat] 2)
    as (s' & Hrun & Hwf & Hc & Hget).
  - vm_compute; reflexivity.
  - vm_compute; reflexivity.
  - exact cst_two_wf.
  - intros y Hy. exact Hy.
  - intros y Hy. apply elem_of_cons in Hy as [->|Hy];
      [|apply list_elem_of_singleton in Hy as ->];
      exists 2; (split; [vm_compute; reflexivity|lia]).
  - vm_compute; split; [discriminate|reflexivity].
  - simpl; lia.
  - exists s'. split; [exact Hrun|]. split; [exact Hwf|].
    split; [|exact Hget]. etransitivity; [exact Hc|]. vm_compute; reflexivity.
Defined.

End Cache.

(** * The scatter read and write pipeline *)
Module Scatter.
Import Cache.

(** Modelled from the spec: the descriptor stack of [leechcore.h]
    ([MEM_SCATTER_STACK_PUSH], [MEM_SCATTER_STACK_POP],
    [MEM_SCATTER_STACK_PEEK]), a small LIFO in the descriptor; a pop or a
    peek of an empty stack has no result. *)
Definition MEM_SCATTER_STACK_PUSH (v : Z) (d : MEM_SCATTER) : MEM_SCATTER :=
  set_vStack (v :: vStack d) d.

Definition MEM_SCATTER_STACK_POP (d : MEM_SCATTER) : option (Z * MEM_SCATTER) :=
  match vStack d with
  | [] => None
  | v :: st => Some (v, set_vStack st d)
  end.

Definition MEM_SCATTER_STACK_PEEK (d : MEM_SCATTER) : option Z := head (vStack d).

(** [memcpy(dst, src, n)] and [ZeroMemory(dst, n)] on the content of the
    buffers. *)
Definition memcpy (dst src : list Z) (n : nat) : list Z := take n src ++ drop n dst.
Definition ZeroMemory (dst : list Z) (n : nat) : list Z := replicate n 0 ++ drop n dst.

(** 64-bit interlocked counters. *)
Definition incr64 (x : Z) : Z := (x + 1) `mod` 2 ^ 64.

(** [(qwA & ~0xfff) + 0x1000] on a QWORD. *)
Definition page_next (a : Z) : Z := (Z.land a (Z.lnot 0xfff) + 0x1000) `mod` 2 ^ 64.

(** A pointer to a scatter descriptor: descriptor [i] of the array of the
    caller, whose descriptors are distinct objects, or the header [&pOb->h]
    of the cache descriptor at [a]. *)
Inductive PMEM := P_caller (i : nat) | P_cache (a : nat).

Definition load (ds : list MEM_SCATTER) (s : VMM_CACHE) (p : PMEM)
    : option MEM_SCATTER :=
  match p with
  | P_caller i => ds !! i
  | P_cache a => h <$> mem s !! a
  end.

Definition store (p : PMEM) (v : MEM_SCATTER) (ds : list MEM_SCATTER)
    (s : VMM_CACHE) : option (list MEM_SCATTER * VMM_CACHE) :=
  match p with
  | P_caller i => _ ← ds !! i; Some (<[i := v]> ds, s)
  | P_cache a => s' ← wr a (set_h v) s; Some (ds, s')
  end.

Section Scatter.
Context `{!VmmConsts}.

(** The device behind [ctxMain->hLC], of LeechCore, and the memory model
    ([ctxVmm->fnMemoryModel]) are outside this file.  [LcReadScatter] gives,
    for the descriptors of a batch, the new valid flags and buffers;
    [LcWriteScatter] the new valid flags.  [VmmVirt2Phys] and
    [pfnPagedRead] receive the value their out parameter holds and return
    the value it holds afterwards. *)
Variables D P : Type.
Variable LcReadScatter : D → list MEM_SCATTER → D * list (bool * list Z).
Variable LcWriteScatter : D → list MEM_SCATTER → D * list bool.
Variable VmmVirt2Phys : P → Z → Z → bool * Z.
Variable pfnPagedRead :
  option (P → Z → Z → option (list Z) → Z → Z → bool * list Z * Z).

(** The part of [ctxVmm] and [ctxMain] the pipeline works on; the logs hold
    the batches the device was called with, the latest first. *)
Record VMM_WORLD := mkWorld {
  cache : VMM_CACHE;
  ctx_flags : Z;
  paMax : Z;
  fLocalAlloc : bool;
  dev : D;
  rd_log : list (list MEM_SCATTER);
  wr_log : list (list MEM_SCATTER);
  cPhysCacheHit : Z;
  cPhysReadSuccess : Z;
  cPhysReadFail : Z;
  cPhysWrite : Z;
}.

Definition set_cache (s : VMM_CACHE) (w : VMM_WORLD) : VMM_WORLD :=
  mkWorld s (ctx_flags w) (paMax w) (fLocalAlloc w) (dev w) (rd_log w) (wr_log w)
    (cPhysCacheHit w) (cPhysReadSuccess w) (cPhysReadFail w) (cPhysWrite w).
Definition set_cPhysCacheHit (v : Z) (w : VMM_WORLD) : VMM_WORLD :=
  mkWorld (cache w) (ctx_flags w) (paMax w) (fLocalAlloc w) (dev w) (rd_log w)
    (wr_log w) v (cPhysReadSuccess w) (cPhysReadFail w) (cPhysWrite w).
Definition set_cPhysReadSuccess (v : Z) (w : VMM_WORLD) : VMM_WORLD :=
  mkWorld (cache w) (ctx_flags w) (paMax w) (fLocalAlloc w) (dev w) (rd_log w)
    (wr_log w) (cPhysCacheHit w) v (cPhysReadFail w) (cPhysWrite w).
Definition set_cPhysReadFail (v : Z) (w : VMM_WORLD) : VMM_WORLD :=
  mkWorld (cache w) (ctx_flags w) (paMax w) (fLocalAlloc w) (dev w) (rd_log w)
    (wr_log w) (cPhysCacheHit w) (cPhysReadSuccess w) v (cPhysWrite w).
Definition set_cPhysWrite (v : Z) (w : VMM_WORLD) : VMM_WORLD :=
  mkWorld (cache w) (ctx_flags w) (paMax w) (fLocalAlloc w) (dev w) (rd_log w)
    (wr_log w) (cPhysCacheHit w) (cPhysReadSuccess w) (cPhysReadFail w) v.
(** A call of [LcReadScatter] with the batch [b]. *)
Definition dev_read (b : list MEM_SCATTER) (w : VMM_WORLD)
    : list (bool * list Z) * VMM_WORLD :=
  let '(dv, res) := LcReadScatter (dev w) b in
  (res,
   mkWorld (cache w) (ctx_flags w) (paMax w) (fLocalAlloc w) dv (b :: rd_log w)
     (wr_log w) (cPhysCacheHit w) (cPhysReadSuccess w) (cPhysReadFail w)
     (cPhysWrite w)).
(** A call of [LcWriteScatter] with the batch [b]. *)
Definition dev_write (b : list MEM_SCATTER) (w : VMM_WORLD)
    : list bool * VMM_WORLD :=
  let '(dv, res) := LcWriteScatter (dev w) b in
  (res,
   mkWorld (cache w) (ctx_flags w) (paMax w) (fLocalAlloc w) dv (rd_log w)
     (b :: wr_log w) (cPhysCacheHit w) (cPhysReadSuccess w) (cPhysReadFail w)
     (cPhysWrite w)).

(** ** [VmmReadScatterPhysical] *)

(** Step 1, the cache read, from descriptor [i] on: [c] counts the
    descriptors that are finished and [sp] holds the positions put in
    [ppMEMsSpeculative], at most 0x18. *)
Fixpoint Read_cache (fuel : nat) (i : nat) (ds : list MEM_SCATTER) (c : nat)
    (sp : list nat) (w : VMM_WORLD)
    : option (list MEM_SCATTER * nat * list nat * VMM_WORLD) :=
  match ds with
  | [] => Some ([], c, sp, w)
  | d :: ds =>
    if f d then
      (* already valid -> skip *)
      '(ds', c', sp', w') ← Read_cache fuel (S i) ds (S c) sp w;
      Some (MEM_SCATTER_STACK_PUSH 3 d :: ds', c', sp', w')
    else
      (* retrieve from cache (if found) *)
      '(pObCacheEntry, s1) ←
        (if cb d =? 0x1000
         then VmmCacheGet fuel VMM_CACHE_TAG_PHYS (qwA d) (cache w)
         else Some (None, cache w));
      match pObCacheEntry with
      | Some x =>
        o ← mem s1 !! x;
        s2 ← Ob_DECREF x s1;
        let d' := set_pb (memcpy (pb d) (pb (h o)) 0x1000)
                    (set_f true (MEM_SCATTER_STACK_PUSH 2 d)) in
        '(ds', c', sp', w') ←
          Read_cache fuel (S i) ds (S c) sp
            (set_cPhysCacheHit (incr64 (cPhysCacheHit w)) (set_cache s2 w));
        Some (d' :: ds', c', sp', w')
      | None =>
        let sp1 := if decide (length sp < 0x18)%nat then sp ++ [i] else sp in
        '(ds', c', sp', w') ← Read_cache fuel (S i) ds c sp1 (set_cache s1 w);
        Some (MEM_SCATTER_STACK_PUSH 1 d :: ds', c', sp', w')
      end
  end.

(** [MEM_SCATTER_STACK_POP] on every descriptor. *)
Definition pop_all (ds : list MEM_SCATTER) : option (list MEM_SCATTER) :=
  mapM (λ d, snd <$> MEM_SCATTER_STACK_POP d) ds.

(** [if(1 != MEM_SCATTER_STACK_PEEK(pMEM, 1)) { MEM_SCATTER_STACK_POP(pMEM); }] *)
Definition pop_unless_1 (d : MEM_SCATTER) : option MEM_SCATTER :=
  v ← MEM_SCATTER_STACK_PEEK d;
  if decide (v = 1) then Some d else snd <$> MEM_SCATTER_STACK_POP d.

(** The loop that fills [ppMEMsSpeculative] up to 0x18 entries; [n] bounds
    the number of rounds, a round in which [VmmCacheReserve] returns NULL
    changes nothing but the cache. *)
Fixpoint Speculative_loop (n fuel : nat) (ds : list MEM_SCATTER)
    (batch : list PMEM) (s : VMM_CACHE) : option (list PMEM * VMM_CACHE) :=
  if decide (length batch < 0x18)%nat then
    match n with
    | O => None
    | S n =>
      '(pOb, s1) ← VmmCacheReserve fuel VMM_CACHE_TAG_PHYS s;
      match pOb with
      | None => Speculative_loop n fuel ds batch s1
      | Some a =>
        s2 ← wr a (λ o, set_h (set_f false (MEM_SCATTER_STACK_PUSH 4 (h o))) o) s1;
        pPrev ← last batch;
        dPrev ← load ds s2 pPrev;
        s3 ← wr a (λ o, set_h (set_qwA (page_next (qwA dPrev)) (h o)) o) s2;
        Speculative_loop n fuel ds (batch ++ [P_cache a]) s3
      end
    end
  else Some (batch, s).

(** The results of the device are written through the pointers of the
    batch. *)
Fixpoint write_back (batch : list PMEM) (res : list (bool * list Z))
    (ds : list MEM_SCATTER) (s : VMM_CACHE)
    : option (list MEM_SCATTER * VMM_CACHE) :=
  match batch, res with
  | p :: batch, (fl, buf) :: res =>
    d ← load ds s p;
    '(ds1, s1) ← store p (set_pb buf (set_f fl d)) ds s;
    write_back batch res ds1 s1
  | _, _ => Some (ds, s)
  end.

(** Step 4, statistics and read fail zero fixups. *)
Fixpoint Read_fixup (flags : Z) (batch : list PMEM) (ds : list MEM_SCATTER)
    (w : VMM_WORLD) : option (list MEM_SCATTER * VMM_WORLD) :=
  match batch with
  | [] => Some (ds, w)
  | p :: batch =>
    d ← load ds (cache w) p;
    if f d then
      Read_fixup flags batch ds
        (set_cPhysReadSuccess (incr64 (cPhysReadSuccess w)) w)
    else
      let w1 := set_cPhysReadFail (incr64 (cPhysReadFail w)) w in
      if flag_set flags VMM_FLAG_ZEROPAD_ON_FAIL && (qwA d <? paMax w) then
        '(ds1, s1) ← store p (set_f true (set_pb (ZeroMemory (pb d) (Z.to_nat (cb d))) d))
                       ds (cache w1);
        Read_fixup flags batch ds1 (set_cache s1 w1)
      else Read_fixup flags batch ds w1
  end.

(** Step 5, the cache put. *)
Fixpoint Read_cacheput (fuel : nat) (flags : Z) (batch : list PMEM)
    (ds : list MEM_SCATTER) (s : VMM_CACHE)
    : option (list MEM_SCATTER * VMM_CACHE) :=
  match batch with
  | [] => Some (ds, s)
  | p :: batch =>
    d ← load ds s p;
    '(tp, d1) ← MEM_SCATTER_STACK_POP d;
    '(ds1, s1) ← store p d1 ds s;
    s4 ← (if flag_set flags VMM_FLAG_NOCACHEPUT then Some s1
          else
            (* 4 == speculative & backed by cache reserved *)
            s2 ← (if tp =? 4 then
                    match p with
                    | P_cache a => VmmCacheReserveReturn (Some a) s1
                    | P_caller _ => None
                    end
                  else Some s1);
            (* 1 = normal read *)
            if (tp =? 1) && f d1 then
              '(pObReservedMEM, s3) ← VmmCacheReserve fuel VMM_CACHE_TAG_PHYS s2;
              match pObReservedMEM with
              | Some r =>
                s3' ← wr r (λ o, set_h (set_pb (memcpy (pb (h o)) (pb d1) 0x1000)
                                          (set_qwA (qwA d1) (set_f true (h o)))) o) s3;
                VmmCacheReserveReturn (Some r) s3'
              | None => Some s3
              end
            else Some s2);
    Read_cacheput fuel flags batch ds1 s4
  end.

(** Steps 1 and 2 of [VmmReadScatterPhysical]: the function returns
    after step 1 (left), or the descriptors of [ppMEMsPhys], as pointers,
    go to the device (right). *)
Definition Read_batch (fuel : nat) (ds : list MEM_SCATTER) (flags : Z)
    (w : VMM_WORLD)
    : option (list MEM_SCATTER * VMM_WORLD
              + list MEM_SCATTER * list PMEM * VMM_WORLD) :=
  let fCache := negb (flag_set (Z.lor flags (ctx_flags w)) VMM_FLAG_NOCACHE) in
  (* 1: cache read *)
  '(ds1, c, sp, w1) ←
    (if fCache then Read_cache fuel 0 ds 0 [] w else Some (ds, 0%nat, [], w));
  if fCache && ((c =? length ds)%nat || flag_set flags VMM_FLAG_FORCECACHE_READ)
  then
    (* all found in cache _OR_ only cached reads allowed *)
    ds' ← pop_all ds1; Some (inl (ds', w1))
  else if fCache && negb (length sp =? 0)%nat && (length sp <? 0x18)%nat then
    (* 2: speculative future read if negligible performance loss *)
    ds2 ← mapM pop_unless_1 ds1;
    '(batch, s2) ← Speculative_loop fuel fuel ds2 (P_caller <$> sp) (cache w1);
    Some (inr (ds2, batch, set_cache s2 w1))
  else Some (inr (ds1, P_caller <$> seq 0 (length ds1), w1)).

(** Steps 3 and 4 of [VmmReadScatterPhysical]: the device reads the
    batch, and the descriptors it could not read are fixed up. *)
Definition Read_with_fixup (flags : Z) (ds : list MEM_SCATTER)
    (batch : list PMEM) (w : VMM_WORLD) : option (list MEM_SCATTER * VMM_WORLD) :=
  (* 3: read! *)
  vals ← mapM (load ds (cache w)) batch;
  let '(res, w3) := dev_read vals w in
  '(ds3, s3) ← write_back batch res ds (cache w3);
  (* 4: statistics and read fail zero fixups (if required) *)
  Read_fixup flags batch ds3 (set_cache s3 w3).

(** Steps 3 to 5 of [VmmReadScatterPhysical]. *)
Definition Read_device (fuel : nat) (flags : Z) (ds : list MEM_SCATTER)
    (batch : list PMEM) (w : VMM_WORLD) : option (list MEM_SCATTER * VMM_WORLD) :=
  let fCache := negb (flag_set (Z.lor flags (ctx_flags w)) VMM_FLAG_NOCACHE) in
  '(ds4, w4) ← Read_with_fixup flags ds batch w;
  (* 5: cache put *)
  if fCache then
    '(ds5, s5) ← Read_cacheput fuel flags batch ds4 (cache w4);
    Some (ds5, set_cache s5 w4)
  else Some (ds4, w4).

(** [VmmReadScatterPhysical]: the descriptors of the caller after the call
    and the state. *)
Definition VmmReadScatterPhysical (fuel : nat) (ds : list MEM_SCATTER)
    (flags : Z) (w : VMM_WORLD) : option (list MEM_SCATTER * VMM_WORLD) :=
  r ← Read_batch fuel ds flags w;
  match r with
  | inl r => Some r
  | inr (ds2, batch, w2) => Read_device fuel flags ds2 batch w2
  end.

(** ** [VmmReadScatterVirtual] *)

Section Virt.
Variable pProcess : P.
Variable flags : Z.
Variable ctxflags : Z.

Definition fPaging : bool :=
  negb (flag_set (Z.lor flags ctxflags) VMM_FLAG_NOPAGING).
Definition fAltAddrPte : bool := flag_set flags VMM_FLAG_ALTADDR_VA_PTE.
Definition fZeropadOnFail : bool :=
  flag_set (Z.lor flags ctxflags) VMM_FLAG_ZEROPAD_ON_FAIL.

Definition zeropad (d : MEM_SCATTER) : MEM_SCATTER :=
  if fZeropadOnFail then set_pb (ZeroMemory (pb d) (Z.to_nat (cb d))) d else d.

(** One round of the translation loop for the descriptor [d]: the
    descriptor afterwards, the physical address to read when the round
    reaches the end of the body, and [qwPagedPA]. *)
Definition Virt_step (d : MEM_SCATTER) (qwPagedPA : Z)
    : MEM_SCATTER * option Z * Z :=
  if f d || (qwA d =? 0) || (qwA d =? MEM_SCATTER_ADDR_INVALID) then
    (* MEMORY READ ALREADY COMPLETED *)
    ((if negb (f d) then zeropad d else d), None, qwPagedPA)
  else
    (* PHYSICAL MEMORY *)
    let '(fVirt2Phys, qwPA) :=
      if fAltAddrPte then (false, 0) else VmmVirt2Phys pProcess (qwA d) 0 in
    (* PAGED MEMORY *)
    match (if negb fVirt2Phys && fPaging && (cb d =? 0x1000) then pfnPagedRead
           else None) with
    | Some fn =>
      let '(r, buf, qwPagedPA') :=
        fn pProcess (if fAltAddrPte then 0 else qwA d)
          (if fAltAddrPte then qwA d else qwPA) (Some (pb d)) qwPagedPA flags in
      let d1 := set_pb buf d in
      if r then (d1, None, qwPagedPA')
      else if qwPagedPA' =? 0 then (zeropad d1, None, qwPagedPA')
      else (d1, Some qwPagedPA', qwPagedPA')
    | None =>
      if fVirt2Phys then (d, Some qwPA, qwPagedPA)
      else (zeropad d, None, qwPagedPA)
    end.

(** Step 2, translate virt2phys: the descriptors of the caller and the
    physical descriptors, each with the position [iVA] of the descriptor
    whose buffer it shares. *)
Fixpoint Virt_translate (iVA : nat) (ds : list MEM_SCATTER) (qwPagedPA : Z)
    : list MEM_SCATTER * list (nat * MEM_SCATTER) :=
  match ds with
  | [] => ([], [])
  | d :: ds =>
    let '(d', pa, qwPagedPA') := Virt_step d qwPagedPA in
    let '(ds', phys) := Virt_translate (S iVA) ds qwPagedPA' in
    (d' :: ds',
     match pa with
     | Some qwPA =>
       (iVA, MEM_SCATTER_STACK_PUSH (Z.of_nat iVA) (mkMEM qwPA 0x1000 (pb d') false []))
       :: phys
     | None => phys
     end)
  end.

(** Step 3, the results: the valid flag goes to the descriptor the pointer
    on the stack names, the buffer is the one of descriptor [iVA]. *)
Fixpoint Virt_result (phys : list (nat * MEM_SCATTER)) (ds : list MEM_SCATTER)
    : option (list MEM_SCATTER) :=
  match phys with
  | [] => Some ds
  | (iVA, dP) :: phys =>
    dV ← ds !! iVA;
    let ds1 := <[iVA := set_pb (pb dP) dV]> ds in
    '(v, _) ← MEM_SCATTER_STACK_POP dP;
    dT ← ds1 !! Z.to_nat v;
    Virt_result phys (<[Z.to_nat v := set_f (f dP) dT]> ds1)
  end.

End Virt.

(** [VmmReadScatterVirtual] *)
Definition VmmReadScatterVirtual (fuel : nat) (pProcess : P)
    (ds : list MEM_SCATTER) (flags : Z) (w : VMM_WORLD)
    : option (list MEM_SCATTER * VMM_WORLD) :=
  (* 1: allocate / set up buffers (if needed) *)
  if (length ds <? 0x20)%nat || fLocalAlloc w then
    (* 2: translate virt2phys *)
    let '(ds1, phys) := Virt_translate pProcess flags (ctx_flags w) 0 ds 0 in
    (* 3: read and check result *)
    match phys with
    | [] => Some (ds1, w)
    | _ =>
      '(phys', w') ← VmmReadScatterPhysical fuel (snd <$> phys) flags w;
      ds2 ← Virt_result (reverse (zip (fst <$> phys) phys')) ds1;
      Some (ds2, w')
    end
  else Some (ds, w).

(** ** [VmmWriteScatterPhysical] and [VmmWriteScatterVirtual] *)

(** [VmmCacheInvalidate] *)
Definition VmmCacheInvalidate (fuel : nat) (pa : Z) (s : VMM_CACHE)
    : option VMM_CACHE :=
  s1 ← VmmCacheInvalidate_2 fuel VMM_CACHE_TAG_TLB pa s;
  VmmCacheInvalidate_2 fuel VMM_CACHE_TAG_PHYS pa s1.

(** The valid flags the device gives to the descriptors of a write. *)
Fixpoint set_flags (ds : list MEM_SCATTER) (res : list bool) : list MEM_SCATTER :=
  match ds, res with
  | d :: ds, fl :: res => set_f fl d :: set_flags ds res
  | _, _ => ds
  end.

(** The loop of [VmmWriteScatterPhysical]. *)
Fixpoint Write_invalidate (fuel : nat) (ds : list MEM_SCATTER) (w : VMM_WORLD)
    : option VMM_WORLD :=
  match ds with
  | [] => Some w
  | d :: ds =>
    let w1 := set_cPhysWrite (incr64 (cPhysWrite w)) w in
    w2 ← (if f d && negb (qwA d =? MEM_SCATTER_ADDR_INVALID) then
            s ← VmmCacheInvalidate fuel (Z.land (qwA d) (Z.lnot 0xfff)) (cache w1);
            Some (set_cache s w1)
          else Some w1);
    Write_invalidate fuel ds w2
  end.

(** [VmmWriteScatterPhysical]; an entry of [ppMEMsPhys] may be NULL, and
    every entry is dereferenced. *)
Definition VmmWriteScatterPhysical (fuel : nat)
    (ppMEMsPhys : list (option MEM_SCATTER)) (w : VMM_WORLD)
    : option (list MEM_SCATTER * VMM_WORLD) :=
  ds ← mapM id ppMEMsPhys;
  let '(res, w1) := dev_write ds w in
  let ds1 := set_flags ds res in
  w2 ← Write_invalidate fuel ds1 w1;
  Some (ds1, w2).

(** The first loop of [VmmWriteScatterVirtual]. *)
Fixpoint Write_translate (pProcess : P) (ds : list MEM_SCATTER)
    (qwPA_PTE qwPagedPA : Z) : option (list MEM_SCATTER) :=
  match ds with
  | [] => Some []
  | d :: ds =>
    let d1 := MEM_SCATTER_STACK_PUSH (qwA d) d in
    if f d || (qwA d =? MEM_SCATTER_ADDR_INVALID) then
      ds' ← Write_translate pProcess ds qwPA_PTE qwPagedPA;
      Some (set_qwA MEM_SCATTER_ADDR_INVALID d1 :: ds')
    else
      let '(ok, qwPA_PTE') := VmmVirt2Phys pProcess (qwA d) qwPA_PTE in
      if ok then
        ds' ← Write_translate pProcess ds qwPA_PTE' qwPagedPA;
        Some (set_qwA qwPA_PTE' d1 :: ds')
      else
        (* paged "read" also translate virtual -> physical *)
        fn ← pfnPagedRead;
        let '(_, _, qwPagedPA') :=
          fn pProcess (qwA d) qwPA_PTE' None qwPagedPA 0 in
        ds' ← Write_translate pProcess ds qwPA_PTE' qwPagedPA';
        Some (set_qwA (if qwPagedPA' =? 0 then MEM_SCATTER_ADDR_INVALID
                       else qwPagedPA') d1 :: ds')
  end.

(** [VmmWriteScatterVirtual] *)
Definition VmmWriteScatterVirtual (fuel : nat) (pProcess : P)
    (ppMEMsVirt : list (option MEM_SCATTER)) (w : VMM_WORLD)
    : option (list MEM_SCATTER * VMM_WORLD) :=
  ds ← mapM id ppMEMsVirt;
  ds1 ← Write_translate pProcess ds 0 0;
  '(ds2, w2) ← VmmWriteScatterPhysical fuel (Some <$> ds1) w;
  ds3 ← mapM (λ d, '(v, d') ← MEM_SCATTER_STACK_POP d; Some (set_qwA v d')) ds2;
  Some (ds3, w2).

(** ** [VmmReadEx], [VmmWriteEx] and the functions on top of them *)

(** [memcpy(dst + off, src, n)]; buffers keep their sizes. *)
Definition copy_at (dst : list Z) (off : nat) (src : list Z) (n : nat) : list Z :=
  take off dst ++ take n src ++ drop (off + n) dst.

(** [cMEMs = (DWORD)(((qwA & 0xfff) + cb + 0xfff) >> 12)] *)
Definition count_pages (qwA cb : Z) : Z :=
  Z.shiftr (Z.land qwA 0xfff + cb + 0xfff) 12 `mod` 2 ^ 32.

(** The descriptors [VmmReadEx] prepares: the pages in the middle read
    into the buffer [pb] of the caller, the first and the last page into
    the two zeroed pages of [pbBuffer]. *)
Definition ReadEx_pages (qwA : Z) (pb : list Z) (cMEMs : nat) : list MEM_SCATTER :=
  let oA := Z.land qwA 0xfff in
  (λ i : nat,
     mkMEM ((qwA - oA + Z.shiftl (Z.of_nat i) 12) `mod` 2 ^ 64) 0x1000
       (if decide (i = 0%nat ∨ S i = cMEMs) then replicate 0x1000 0
        else take 0x1000 (drop (i * 0x1000 - Z.to_nat oA) pb))
       false []) <$> seq 0 cMEMs.

(** The buffer of the caller after the pages in the middle have been
    read. *)
Fixpoint ReadEx_middle (oA : nat) (cMEMs : nat) (i : nat) (ds : list MEM_SCATTER)
    (pb : list Z) : list Z :=
  match ds with
  | [] => pb
  | d :: ds =>
    ReadEx_middle oA cMEMs (S i) ds
      (if decide (i = 0%nat ∨ S i = cMEMs) then pb
       else copy_at pb (i * 0x1000 - oA) (Cache.pb d) 0x1000)
  end.

(** [VmmReadEx]: the buffer of the caller afterwards, the number of bytes
    read ([*pcbReadOpt], when the caller asks for it) and the state. *)
Definition VmmReadEx (fuel : nat) (pProcess : option P) (qwA : Z) (pb : list Z)
    (cb : Z) (flags : Z) (w : VMM_WORLD) : option (list Z * Z * VMM_WORLD) :=
  if cb =? 0 then Some (pb, 0, w)
  else
    let cMEMs := Z.to_nat (count_pages qwA cb) in
    if negb (fLocalAlloc w) then Some (ZeroMemory pb (Z.to_nat cb), 0, w)
    else
      let oA := Z.land qwA 0xfff in
      (* prepare pages *)
      let pMEMs := ReadEx_pages qwA pb cMEMs in
      (* Read VMM and handle result *)
      '(ds, w') ← match pProcess with
                   | Some p => VmmReadScatterVirtual fuel p pMEMs flags w
                   | None => VmmReadScatterPhysical fuel pMEMs flags w
                   end;
      let ds1 := (λ d, if f d then d
                       else set_pb (ZeroMemory (Cache.pb d) 0x1000) d) <$> ds in
      let pb1 := ReadEx_middle (Z.to_nat oA) cMEMs 0 ds1 pb in
      let cValid := Z.of_nat (length (filter (λ d, f d = true) ds1)) in
      d0 ← head ds1;
      dl ← last ds1;
      let fLast := (1 <? cMEMs)%nat && f dl in
      let cbRead0 := 0x1000 * cValid - (if f d0 then 0x1000 else 0)
                     - (if fLast then 0x1000 else 0) in
      (* Handle first page *)
      let cbP := Z.min cb (0x1000 - oA) in
      let pb2 := if f d0 then copy_at pb1 0 (drop (Z.to_nat oA) (Cache.pb d0)) (Z.to_nat cbP)
                 else ZeroMemory pb1 (Z.to_nat cbP) in
      let cbRead1 := cbRead0 + (if f d0 then cbP else 0) in
      (* Handle last page *)
      let cbPl := if Z.land (qwA + cb) 0xfff =? 0 then 0x1000
                  else Z.land (qwA + cb) 0xfff in
      let off := (cMEMs * 0x1000 - Z.to_nat oA - 0x1000)%nat in
      let pb3 := if (1 <? cMEMs)%nat then
                   copy_at pb2 off
                     (if f dl then Cache.pb dl else replicate 0x1000 0)
                     (Z.to_nat cbPl)
                 else pb2 in
      let cbRead2 := cbRead1 + (if fLast then cbPl else 0) in
      Some (pb3, cbRead2 `mod` 2 ^ 32, w').

(** [VmmRead] *)
Definition VmmRead (fuel : nat) (pProcess : option P) (qwA : Z) (pb : list Z)
    (cb : Z) (w : VMM_WORLD) : option (list Z * bool * VMM_WORLD) :=
  '(pb', cbRead, w') ← VmmReadEx fuel pProcess qwA pb cb 0 w;
  Some (pb', cbRead =? cb, w').

(** The loop of [VmmWriteEx] that prepares the pages, from the offset
    [oA] on; every round moves [oA] forward, [n] bounds the rounds. *)
Fixpoint WriteEx_pages (n : nat) (qwA : Z) (pb : list Z) (cb oA : Z)
    : list MEM_SCATTER :=
  match n with
  | O => []
  | S n =>
    if oA <? cb then
      let cbP := Z.min (0x1000 - Z.land (qwA + oA) 0xfff) (cb - oA) in
      mkMEM ((qwA + oA) `mod` 2 ^ 64) cbP
        (take (Z.to_nat cbP) (drop (Z.to_nat oA) pb)) false []
      :: WriteEx_pages n qwA pb cb (oA + cbP)
    else []
  end.

Definition sum_written (ds : list MEM_SCATTER) : Z :=
  foldr (λ d acc, if f d then Cache.cb d + acc else acc) 0 ds.

(** [VmmWriteEx]: the number of bytes written ([*pcbWrite], when the
    caller asks for it) and the state.  The array [ppMEMs] has [cMEMs]
    entries, zeroed when allocated, of which the loop sets one for each
    page it prepares. *)
Definition VmmWriteEx (fuel : nat) (pProcess : option P) (qwA : Z) (pb : list Z)
    (cb : Z) (w : VMM_WORLD) : option (Z * VMM_WORLD) :=
  (* allocate *)
  let cMEMs := Z.to_nat (count_pages qwA cb) in
  if negb (fLocalAlloc w) then Some (0, w)
  else
    (* prepare pages *)
    let pages := WriteEx_pages (Z.to_nat cb) qwA pb cb 0 in
    let ppMEMs := take cMEMs ((Some <$> pages) ++ replicate (cMEMs - length pages) None) in
    (* write and count result *)
    '(ds, w') ← match pProcess with
                 | Some p => VmmWriteScatterVirtual fuel p ppMEMs w
                 | None => VmmWriteScatterPhysical fuel ppMEMs w
                 end;
    Some (sum_written ds `mod` 2 ^ 32, w').

(** [VmmWrite] *)
Definition VmmWrite (fuel : nat) (pProcess : option P) (qwA : Z) (pb : list Z)
    (cb : Z) (w : VMM_WORLD) : option (bool * VMM_WORLD) :=
  '(cbWrite, w') ← VmmWriteEx fuel pProcess qwA pb cb w;
  Some (cbWrite =? cb, w').

Definition STATUS_SUCCESS : Z := 0.
Definition STATUS_END_OF_FILE : Z := 0xC0000011.

(** [cbMax], on QWORDs, and the length [(DWORD)min(cb, cbMax)]. *)
Definition file_length (qwMemoryAddress cbMemorySize cb cbOffset : Z) : Z :=
  let cbMax :=
    (Z.min ((qwMemoryAddress + cbMemorySize) `mod` 2 ^ 64)
       ((qwMemoryAddress + cb + cbOffset) `mod` 2 ^ 64)
     - (qwMemoryAddress + cbOffset) `mod` 2 ^ 64) `mod` 2 ^ 64 in
  Z.min cb cbMax `mod` 2 ^ 32.

(** [VmmReadAsFile]: the status, the buffer, [*pcbRead] and the state. *)
Definition VmmReadAsFile (fuel : nat) (pProcess : option P)
    (qwMemoryAddress cbMemorySize : Z) (pb : list Z) (cb cbOffset : Z)
    (w : VMM_WORLD) : option (Z * list Z * Z * VMM_WORLD) :=
  if cbMemorySize <=? cbOffset then Some (STATUS_END_OF_FILE, pb, 0, w)
  else
    let cbRead := file_length qwMemoryAddress cbMemorySize cb cbOffset in
    if cbRead =? 0 then Some (STATUS_END_OF_FILE, pb, cbRead, w)
    else
      '(pb', _, w') ← VmmReadEx fuel pProcess
                        ((qwMemoryAddress + cbOffset) `mod` 2 ^ 64) pb cbRead
                        VMM_FLAG_ZEROPAD_ON_FAIL w;
      Some (STATUS_SUCCESS, pb', cbRead, w').

(** [VmmWriteAsFile]: the status, [*pcbWrite] and the state. *)
Definition VmmWriteAsFile (fuel : nat) (pProcess : option P)
    (qwMemoryAddress cbMemorySize : Z) (pb : list Z) (cb cbOffset : Z)
    (w : VMM_WORLD) : option (Z * Z * VMM_WORLD) :=
  if cbMemorySize <=? cbOffset then Some (STATUS_END_OF_FILE, 0, w)
  else
    let cbWrite := file_length qwMemoryAddress cbMemorySize cb cbOffset in
    if cbWrite =? 0 then Some (STATUS_END_OF_FILE, cbWrite, w)
    else
      '(_, w') ← VmmWriteEx fuel pProcess
                   ((qwMemoryAddress + cbOffset) `mod` 2 ^ 64) pb cbWrite w;
      Some (STATUS_SUCCESS, cbWrite, w').

(** ** Zero-length accesses *)

Lemma land_fff (a : Z) : Z.land a 0xfff = a `mod` 4096.
Proof. change 0xfff with (Z.ones 12). by rewrite Z.land_ones. Qed.

Lemma count_pages_zero_aligned qwA : Z.land qwA 0xfff = 0 → count_pages qwA 0 = 0.
Proof. intros E. unfold count_pages. rewrite E. reflexivity. Qed.

Lemma count_pages_zero_unaligned qwA : Z.land qwA 0xfff ≠ 0 → count_pages qwA 0 = 1.
Proof.
  unfold count_pages. rewrite land_fff. intros Hne.
  pose proof (Z.mod_pos_bound qwA 4096 ltac:(lia)) as Hr.
  rewrite Z.shiftr_div_pow2 by lia. change (2 ^ 12) with 4096.
  replace ((qwA `mod` 4096 + 0 + 4095) `div` 4096) with 1; [reflexivity|].
  apply Z.div_unique with (r := qwA `mod` 4096 - 1); lia.
Qed.

Lemma file_length_zero qwMemoryAddress cbMemorySize cbOffset :
  file_length qwMemoryAddress cbMemorySize 0 cbOffset = 0.
Proof.
  unfold file_length. rewrite Z.min_l; [reflexivity|].
  apply Z.mod_pos_bound. lia.
Qed.

(** C8, at the input where the code leaves the claim: a read of length zero
    does nothing and is reported as a success; a write of length zero to an
    aligned address is reported as a success after a call of the device
    with no descriptor; a write of length zero to an address that is not
    aligned dereferences the NULL entry of [ppMEMs]. *)
Theorem C8_zero_length_read_write fuel pProcess qwA pb w :
  fLocalAlloc w = true →
  VmmRead fuel pProcess qwA pb 0 w = Some (pb, true, w) ∧
  (Z.land qwA 0xfff = 0 →
   VmmWrite fuel pProcess qwA pb 0 w = Some (true, (dev_write [] w).2)) ∧
  (Z.land qwA 0xfff ≠ 0 → VmmWrite fuel pProcess qwA pb 0 w = None).
Proof.
  intros Halloc. split; [reflexivity|]. split.
  - intros Hal. unfold VmmWrite, VmmWriteEx.
    rewrite Halloc, (count_pages_zero_aligned _ Hal). cbn [negb].
    change (Z.to_nat 0) with 0%nat.
    cbn [WriteEx_pages fmap list_fmap app length replicate take Nat.sub].
    destruct pProcess as [p|].
    + unfold VmmWriteScatterVirtual, VmmWriteScatterPhysical.
      cbn [mapM mret option_ret mbind option_bind Write_translate fmap list_fmap].
      destruct (dev_write [] w) as [res w1]. by destruct res.
    + unfold VmmWriteScatterPhysical.
      cbn [mapM mret option_ret mbind option_bind].
      destruct (dev_write [] w) as [res w1]. by destruct res.
  - intros Hal. unfold VmmWrite, VmmWriteEx.
    rewrite Halloc, (count_pages_zero_unaligned _ Hal). cbn [negb].
    change (Z.to_nat 1) with 1%nat. change (Z.to_nat 0) with 0%nat.
    cbn [WriteEx_pages fmap list_fmap app length replicate take Nat.sub].
    by destruct pProcess as [p|].
Qed.

(** C10: a file-style access whose clamped length is zero, which it is at
    an offset at or behind the end and for a request of length zero,
    returns [STATUS_END_OF_FILE] with the byte count 0; the buffer and the
    state, with the device, are as before. *)
Theorem C10_zero_length_file_access_eof fuel pProcess qwMemoryAddress
    cbMemorySize pb cb cbOffset w :
  cbMemorySize ≤ cbOffset ∨ cb = 0
  ∨ file_length qwMemoryAddress cbMemorySize cb cbOffset = 0 →
  VmmReadAsFile fuel pProcess qwMemoryAddress cbMemorySize pb cb cbOffset w
    = Some (STATUS_END_OF_FILE, pb, 0, w) ∧
  VmmWriteAsFile fuel pProcess qwMemoryAddress cbMemorySize pb cb cbOffset w
    = Some (STATUS_END_OF_FILE, 0, w).
Proof.
  intros Hz. unfold VmmReadAsFile, VmmWriteAsFile.
  destruct (Z.leb_spec cbMemorySize cbOffset) as [Hle|Hlt]; [done|].
  assert (Hlen : file_length qwMemoryAddress cbMemorySize cb cbOffset = 0).
  { destruct Hz as [Hz|[->|Hz]]; [lia|apply file_length_zero|done]. }
  by rewrite Hlen.
Qed.

(** ** The cache read of [VmmReadScatterPhysical] *)

Lemma set_mem_id s : set_mem s (mem s) = s.
Proof. by destruct s. Qed.

Lemma set_cache_id w : set_cache (cache w) w = w.
Proof. by destruct w. Qed.

Lemma STACK_POP_PUSH v d :
  MEM_SCATTER_STACK_POP (MEM_SCATTER_STACK_PUSH v d) = Some (v, d).
Proof. by destruct d. Qed.

Lemma VmmCacheTableGet_PHYS : VmmCacheTableGet VMM_CACHE_TAG_PHYS = Some T_PHYS.
Proof. unfold VmmCacheTableGet. by rewrite decide_True. Qed.

(** The walk of [VmmCacheGet] in the PHYS table, without the reference it
    takes. *)
Definition cache_find (fuel : nat) (s : VMM_CACHE) (a : Z) : option (option nat) :=
  if fActive (PHYS s) then
    Get_loop fuel (mem s) a
      (R_B (region (PHYS s) (VMM_CACHE2_GET_REGION a)) !! VMM_CACHE2_GET_BUCKET a)
  else Some None.

Lemma VmmCacheGet_miss fuel a s :
  cache_find fuel s a = Some None →
  VmmCacheGet fuel VMM_CACHE_TAG_PHYS a s = Some (None, s).
Proof.
  unfold cache_find, VmmCacheGet. rewrite VmmCacheTableGet_PHYS.
  cbn [tbl]. destruct (fActive (PHYS s)); [|done].
  cbn [negb]. by intros ->.
Qed.

(** A hit takes a reference, and the release of this reference gives the
    state before the hit. *)
Lemma VmmCacheGet_hit fuel a s x o :
  cache_find fuel s a = Some (Some x) →
  mem s !! x = Some o → 2 ≤ _count o < 2 ^ 32 - 1 →
  ∃ s1, VmmCacheGet fuel VMM_CACHE_TAG_PHYS a s = Some (Some x, s1) ∧
    h <$> mem s1 !! x = Some (h o) ∧ Ob_DECREF x s1 = Some s.
Proof.
  unfold cache_find, VmmCacheGet. rewrite VmmCacheTableGet_PHYS.
  cbn [tbl]. destruct (fActive (PHYS s)); [|done].
  cbn [negb]. intros -> Ho Hc. cbn [mbind option_bind].
  unfold Ob_INCREF, wr. rewrite Ho. cbn [mbind option_bind].
  eexists. split; [reflexivity|]. rewrite mem_set_mem, lookup_insert_eq.
  split; [done|]. unfold Ob_DECREF. rewrite mem_set_mem, lookup_insert_eq.
  cbn [mbind option_bind].
  assert (Hi : incr32 (_count o) = _count o + 1).
  { unfold incr32. apply Z.mod_small. lia. }
  assert (Hd : decr32 (_count (set_count (incr32 (_count o)) o)) = _count o).
  { cbn. rewrite Hi. unfold decr32. rewrite Z.add_simpl_r.
    apply Z.mod_small. lia. }
  rewrite Hd. rewrite !decide_False by lia.
  rewrite insert_insert_eq. f_equal.
  replace (set_count (_count o) (set_count (incr32 (_count o)) o)) with o
    by (by destruct o).
  rewrite (insert_id _ _ _ Ho). by destruct s.
Qed.

(** What the cache read makes of the descriptor [d]. *)
Definition cache_read (fuel : nat) (s : VMM_CACHE) (d : MEM_SCATTER) : MEM_SCATTER :=
  if f d then d
  else if cb d =? 0x1000 then
    match cache_find fuel s (qwA d) with
    | Some (Some x) =>
      match mem s !! x with
      | Some o => set_pb (memcpy (pb d) (pb (h o)) 0x1000) (set_f true d)
      | None => d
      end
    | _ => d
    end
  else d.

(** The walk for the page of [d] ends, and the descriptor it finds is
    held by the cache alone. *)
Definition lookup_ok (fuel : nat) (s : VMM_CACHE) (d : MEM_SCATTER) : Prop :=
  f d = false → cb d = 0x1000 →
  ∃ r, cache_find fuel s (qwA d) = Some r ∧
    ∀ x, r = Some x → ∃ o, mem s !! x = Some o ∧ 2 ≤ _count o < 2 ^ 32 - 1.

Lemma cache_read_valid fuel s d : f d = true → cache_read fuel s d = d.
Proof. unfold cache_read. by intros ->. Qed.

Lemma cache_read_hit fuel s d x o :
  f d = false → cb d = 0x1000 → cache_find fuel s (qwA d) = Some (Some x) →
  mem s !! x = Some o →
  cache_read fuel s d = set_pb (memcpy (pb d) (pb (h o)) 0x1000) (set_f true d).
Proof.
  unfold cache_read. intros -> -> -> ->. done.
Qed.

Lemma cache_read_miss fuel s d :
  f d = false → cb d ≠ 0x1000 ∨ cache_find fuel s (qwA d) = Some None →
  cache_read fuel s d = d.
Proof.
  unfold cache_read. intros -> [Hcb| ->].
  - by destruct (Z.eqb_spec (cb d) 0x1000).
  - by destruct (cb d =? 0x1000).
Qed.

Lemma pop_all_cons v d ds ds' :
  pop_all ds = Some ds' →
  pop_all (MEM_SCATTER_STACK_PUSH v d :: ds) = Some (d :: ds').
Proof.
  unfold pop_all. intros Hpop. cbn [mapM]. rewrite STACK_POP_PUSH.
  cbn [fmap option_fmap option_map snd mbind option_bind]. by rewrite Hpop.
Qed.

Lemma Read_cache_spec fuel :
  ∀ ds i c sp w,
    Forall (lookup_ok fuel (cache w)) ds →
    ∃ ds1 c' sp' n,
      Read_cache fuel i ds c sp w = Some (ds1, c', sp', set_cPhysCacheHit n w) ∧
      pop_all ds1 = Some (cache_read fuel (cache w) <$> ds).
Proof.
  induction ds as [|d ds IH]; intros i c sp w Hok.
  - exists [], c, sp, (cPhysCacheHit w). split; [by destruct w|done].
  - apply Forall_cons in Hok as [Hd Hok]. cbn [Read_cache fmap list_fmap].
    destruct (f d) eqn:Hf.
    + destruct (IH (S i) (S c) sp w Hok) as (ds1 & c' & sp' & n & -> & Hpop).
      cbn [mbind option_bind]. eexists _, _, _, _. split; [reflexivity|].
      rewrite (cache_read_valid _ _ _ Hf). by apply pop_all_cons.
    + destruct (Z.eqb_spec (cb d) 0x1000) as [Hcb|Hcb].
      * destruct (Hd Hf Hcb) as (r & Hfind & Hr).
        destruct r as [x|].
        -- destruct (Hr x eq_refl) as (o & Ho & Hc).
           destruct (VmmCacheGet_hit fuel _ _ x o Hfind Ho Hc)
             as (s1 & -> & Hh & Hrel).
           cbn [mbind option_bind].
           destruct (mem s1 !! x) as [o1|] eqn:Ho1; [|done].
           simpl in Hh. injection Hh as Hh. cbn [mbind option_bind].
           rewrite Hrel. cbn [mbind option_bind]. rewrite set_cache_id.
           destruct (IH (S i) (S c) sp (set_cPhysCacheHit (incr64 (cPhysCacheHit w)) w) Hok)
             as (ds1 & c' & sp' & n & -> & Hpop).
           cbn [mbind option_bind]. eexists _, _, _, _. split; [reflexivity|].
           rewrite (cache_read_hit _ _ _ x o Hf Hcb Hfind Ho), Hh.
           by apply (pop_all_cons 2 (set_pb _ (set_f true d))).
        -- rewrite (VmmCacheGet_miss _ _ _ Hfind). cbn [mbind option_bind].
           rewrite set_cache_id.
           destruct (IH (S i) c (if decide (length sp < 0x18)%nat then sp ++ [i] else sp)
                       w Hok) as (ds1 & c' & sp' & n & -> & Hpop).
           cbn [mbind option_bind]. eexists _, _, _, _. split; [reflexivity|].
           rewrite (cache_read_miss _ _ _ Hf) by (by right).
           by apply pop_all_cons.
      * cbn [mbind option_bind]. rewrite set_cache_id.
        destruct (IH (S i) c (if decide (length sp < 0x18)%nat then sp ++ [i] else sp)
                    w Hok) as (ds1 & c' & sp' & n & -> & Hpop).
        cbn [mbind option_bind]. eexists _, _, _, _. split; [reflexivity|].
        rewrite (cache_read_miss _ _ _ Hf) by (by left).
        by apply pop_all_cons.
Qed.

(** What a cache-only read makes of the descriptor [d]: a valid
    descriptor is left as it is; a descriptor of one page whose address is
    found in the cache gets the page and is valid; any other descriptor is
    left as it is, not valid. *)
Definition cache_only_result (fuel : nat) (s : VMM_CACHE) (d d' : MEM_SCATTER)
    : Prop :=
  if f d then d' = d
  else
    (∀ x o, cb d = 0x1000 → cache_find fuel s (qwA d) = Some (Some x) →
            mem s !! x = Some o →
            d' = set_pb (memcpy (pb d) (pb (h o)) 0x1000) (set_f true d)) ∧
    (cb d ≠ 0x1000 ∨ cache_find fuel s (qwA d) = Some None → d' = d).

Lemma cache_read_result fuel s d : cache_only_result fuel s d (cache_read fuel s d).
Proof.
  unfold cache_only_result. destruct (f d) eqn:Hf.
  - by apply cache_read_valid.
  - split.
    + intros x o Hcb Hfind Ho. by apply (cache_read_hit _ _ _ x).
    + intros Hmiss. by apply cache_read_miss.
Qed.

(** C4 (amended): with [VMM_FLAG_FORCECACHE_READ] in the flags and
    [VMM_FLAG_NOCACHE] neither in the flags nor in [ctxVmm->flags],
    [VmmReadScatterPhysical] returns without a call of the device; the
    cache is as before, and every descriptor is the result of the cache
    read, with its stack as before. *)
Theorem C4_forcecache_read_cache_only fuel ds flags w :
  flag_set flags VMM_FLAG_FORCECACHE_READ = true →
  flag_set (Z.lor flags (ctx_flags w)) VMM_FLAG_NOCACHE = false →
  Forall (lookup_ok fuel (cache w)) ds →
  ∃ ds' w', VmmReadScatterPhysical fuel ds flags w = Some (ds', w') ∧
    rd_log w' = rd_log w ∧ dev w' = dev w ∧ cache w' = cache w ∧
    Forall2 (cache_only_result fuel (cache w)) ds ds'.
Proof.
  intros Hforce Hnocache Hok.
  destruct (Read_cache_spec fuel ds 0 0 [] w Hok)
    as (ds1 & c & sp & n & Hrun & Hpop).
  exists (cache_read fuel (cache w) <$> ds), (set_cPhysCacheHit n w).
  split; [|split; [done|split; [done|split; [done|]]]].
  - unfold VmmReadScatterPhysical, Read_batch.
    rewrite Hnocache. cbn [negb]. rewrite Hrun. cbn [mbind option_bind].
    rewrite Hforce, orb_true_r. cbn [andb]. rewrite Hpop. done.
  - apply Forall2_fmap_r, Forall_Forall2_diag, Forall_forall.
    intros d _. apply cache_read_result.
Qed.

(** ** The speculative read of [VmmReadScatterPhysical] *)

(** The device and the settings are the same in both states. *)
Definition same_device (w w' : VMM_WORLD) : Prop :=
  rd_log w' = rd_log w ∧ wr_log w' = wr_log w ∧ dev w' = dev w ∧
  ctx_flags w' = ctx_flags w ∧ paMax w' = paMax w.

Lemma same_device_refl w : same_device w w.
Proof. by repeat split. Qed.


(** One round of the cache read: the descriptor gets the mark [tp] on its
    stack; with the mark 1 it is a miss, which is put in
    [ppMEMsSpeculative] when there is room, with another mark it is
    finished. *)
Lemma Read_cache_cons_inv fuel i d ds c sp w ds1 c' sp' w1 :
  Read_cache fuel i (d :: ds) c sp w = Some (ds1, c', sp', w1) →
  ∃ tp d1 ds1' c0 sp0 w0,
    ds1 = MEM_SCATTER_STACK_PUSH tp d1 :: ds1' ∧
    Read_cache fuel (S i) ds c0 sp0 w0 = Some (ds1', c', sp', w1) ∧
    same_device w w0 ∧
    qwA d1 = qwA d ∧ cb d1 = cb d ∧ vStack d1 = vStack d ∧
    ((tp = 1 ∧ c0 = c ∧ d1 = d ∧ f d = false ∧
      sp0 = (if decide (length sp < 0x18)%nat then sp ++ [i] else sp)) ∨
     ((tp = 2 ∨ tp = 3) ∧ c0 = S c ∧ sp0 = sp ∧ f d1 = true)).
Proof.
  cbn [Read_cache]. destruct (f d) eqn:Hf.
  - destruct (Read_cache fuel (S i) ds (S c) sp w) as [[[[ds1' c0] sp0] w0]|] eqn:Hrec;
      [|done].
    cbn [mbind option_bind]. intros [= <- <- <- <-].
    exists 3, d, ds1', (S c), sp, w. split; [done|]. split; [done|].
    split; [apply same_device_refl|]. repeat split; try done. right. tauto.
  - destruct (if cb d =? 0x1000 then _ else _) as [[pOb s1]|]; [|done].
    cbn [mbind option_bind]. destruct pOb as [x|].
    + destruct (mem s1 !! x) as [o|]; [|done]. cbn [mbind option_bind].
      destruct (Ob_DECREF x s1) as [s2|]; [|done]. cbn [mbind option_bind].
      destruct (Read_cache fuel (S i) ds (S c) sp _) as [[[[ds1' c0] sp0] w0]|] eqn:Hrec;
        [|done].
      cbn [mbind option_bind]. intros [= <- <- <- <-].
      exists 2, (set_pb (memcpy (pb d) (pb (h o)) 0x1000) (set_f true d)), ds1',
        (S c), sp, (set_cPhysCacheHit (incr64 (cPhysCacheHit w)) (set_cache s2 w)).
      split; [done|]. split; [done|]. split; [by repeat split|].
      repeat split; try done. right. tauto.
    + destruct (Read_cache fuel (S i) ds c _ _) as [[[[ds1' c0] sp0] w0]|] eqn:Hrec;
        [|done].
      cbn [mbind option_bind]. intros [= <- <- <- <-].
      exists 1, d, ds1', c, (if decide (length sp < 0x18)%nat then sp ++ [i] else sp),
        (set_cache s1 w).
      split; [done|]. split; [done|]. split; [by repeat split|].
      repeat split; try done. left. tauto.
Qed.


(** A descriptor the cache read has marked as a miss. *)
Definition is_miss (d : MEM_SCATTER) : Prop := MEM_SCATTER_STACK_PEEK d = Some 1.

#[global] Instance is_miss_dec d : Decision (is_miss d).
Proof. unfold is_miss. apply _. Defined.

(** The number of misses among the descriptors the cache read returns. *)
Definition n_miss (ds1 : list MEM_SCATTER) : nat := length (filter is_miss ds1).

Lemma is_miss_PUSH tp d : is_miss (MEM_SCATTER_STACK_PUSH tp d) ↔ tp = 1.
Proof.
  unfold is_miss, MEM_SCATTER_STACK_PEEK. destruct d; cbn. split; congruence.
Qed.

(** The cache read marks every descriptor, counts the finished ones in
    [c], and appends the positions of the misses, in their order, to [sp]
    while [sp] has fewer than 0x18 entries. *)
Lemma Read_cache_shape fuel :
  ∀ ds i c sp w ds1 c' sp' w1,
    Read_cache fuel i ds c sp w = Some (ds1, c', sp', w1) →
    length ds1 = length ds ∧
    Forall (λ d, is_Some (MEM_SCATTER_STACK_PEEK d)) ds1 ∧
    (c' + n_miss ds1 = c + length ds)%nat ∧
    ∃ new, sp' = sp ++ new ∧
      Forall2 (λ j d, (i ≤ j)%nat ∧ ds1 !! (j - i)%nat = Some d) new
        (take (0x18 - length sp) (filter is_miss ds1)).
Proof.
  induction ds as [|d ds IH]; intros i c sp w ds1 c' sp' w1 Hrun.
  - injection Hrun as <- <- <- <-. unfold n_miss. rewrite filter_nil.
    cbn [length]. split; [done|]. split; [constructor|]. split; [lia|].
    exists []. rewrite app_nil_r, take_nil. split; [done|constructor].
  - apply Read_cache_cons_inv in Hrun
      as (tp & d1 & ds1' & c0 & sp0 & w0 & -> & Hrec & _ & _ & _ & _ & Hcase).
    destruct (IH _ _ _ _ _ _ _ _ Hrec) as (Hlen & Hst & Hc & new & -> & Hnew).
    assert (Hshift : ∀ l, Forall2 (λ j d0, (S i ≤ j)%nat ∧ ds1' !! (j - S i)%nat = Some d0) new l →
              Forall2 (λ j d0, (i ≤ j)%nat ∧
                (MEM_SCATTER_STACK_PUSH tp d1 :: ds1') !! (j - i)%nat = Some d0) new l).
    { intros l Hl. eapply Forall2_impl; [exact Hl|]. intros j d0 (Hj & Hd0).
      split; [lia|]. replace (j - i)%nat with (S (j - S i)) by lia. done. }
    split; [cbn; lia|]. split.
    { constructor; [|done]. destruct d1; cbn. eauto. }
    unfold n_miss in *. rewrite filter_cons.
    destruct Hcase as [(-> & -> & -> & Hf & ->)|(Htp & -> & -> & Hf)].
    + rewrite decide_True by (by apply is_miss_PUSH). cbn [length].
      split; [lia|]. destruct (decide (length sp < 0x18)%nat) as [Hlt|Hge].
      * exists (i :: new). split; [by rewrite <- app_assoc|].
        rewrite length_app in Hnew. cbn [length] in Hnew.
        replace (0x18 - length sp)%nat with (S (0x18 - (length sp + 1))) by lia.
        cbn [take]. constructor; [|by apply Hshift].
        split; [lia|]. by rewrite Nat.sub_diag.
      * exists new. split; [done|].
        replace (0x18 - length sp)%nat with 0%nat in * by lia.
        rewrite take_0 in *. by apply Hshift.
    + rewrite decide_False by (rewrite is_miss_PUSH; lia).
      split; [cbn [length]; lia|]. exists new. split; [done|]. by apply Hshift.
Qed.


(** The pointer [p] points to the descriptor [d]. *)
Definition loaded (ds : list MEM_SCATTER) (s : VMM_CACHE) (p : PMEM)
    (d : MEM_SCATTER) : Prop :=
  load ds s p = Some d.









Lemma Read_fixup_same_device flags :
  ∀ batch ds w ds' w',
    Read_fixup flags batch ds w = Some (ds', w') → same_device w w'.
Proof.
  induction batch as [|p batch IH]; intros ds w ds' w'; cbn [Read_fixup].
  - intros [= <- <-]. apply same_device_refl.
  - destruct (load ds (cache w) p) as [d|]; [|done]. cbn [mbind option_bind].
    destruct (f d).
    + intros Hrun. apply IH in Hrun. destruct Hrun as (A1 & A2 & A3 & A4 & A5).
      by repeat split.
    + destruct (flag_set flags VMM_FLAG_ZEROPAD_ON_FAIL && (qwA d <? paMax w)).
      * destruct (store p _ ds _) as [[ds1 s1]|]; [|done].
        cbn [mbind option_bind]. intros Hrun. apply IH in Hrun.
        destruct Hrun as (A1 & A2 & A3 & A4 & A5). by repeat split.
      * intros Hrun. apply IH in Hrun.
        destruct Hrun as (A1 & A2 & A3 & A4 & A5). by repeat split.
Qed.



(** ** The zero fixups of the reads *)

Lemma load_store_eq p v ds s ds1 s1 :
  store p v ds s = Some (ds1, s1) → load ds1 s1 p = Some v.
Proof.
  destruct p as [i|a]; cbn [store load].
  - destruct (ds !! i) as [d|] eqn:Hd; [|done]. cbn [mbind option_bind].
    intros [= <- <-]. apply list_lookup_insert_eq. by eapply lookup_lt_Some.
  - unfold wr. destruct (mem s !! a) as [o|]; [|done]. cbn [mbind option_bind].
    intros [= <- <-]. cbn. by rewrite lookup_insert_eq.
Qed.

Lemma load_store_ne p q v ds s ds1 s1 :
  store p v ds s = Some (ds1, s1) → q ≠ p → load ds1 s1 q = load ds s q.
Proof.
  destruct p as [i|a]; cbn [store].
  - destruct (ds !! i) as [d|] eqn:Hd; [|done]. cbn [mbind option_bind].
    intros [= <- <-] Hq. destruct q as [j|b]; [|done]. cbn.
    apply list_lookup_insert_ne. congruence.
  - unfold wr. destruct (mem s !! a) as [o|]; [|done]. cbn [mbind option_bind].
    intros [= <- <-] Hq. destruct q as [j|b]; [done|]. cbn.
    rewrite lookup_insert_ne; [done|congruence].
Qed.

Lemma store_defined p v ds s :
  is_Some (load ds s p) → is_Some (store p v ds s).
Proof.
  destruct p as [i|a]; cbn [store load].
  - intros [d ->]. cbn. eauto.
  - rewrite fmap_is_Some. intros [o Ho]. unfold wr. rewrite Ho. cbn. eauto.
Qed.

(** A store changes the descriptors of the caller in one place at most,
    and keeps their number. *)
Lemma store_length p v ds s ds1 s1 :
  store p v ds s = Some (ds1, s1) → length ds1 = length ds.
Proof.
  destruct p as [i|a]; cbn [store].
  - destruct (ds !! i); [|done]. intros [= <- <-]. apply length_insert.
  - destruct (wr a _ s); [|done]. by intros [= <- <-].
Qed.

(** The descriptor after the device has treated it: entry [k] of the
    results gives the valid flag and the buffer. *)
Definition dev_result (res : list (bool * list Z)) (k : nat) (d : MEM_SCATTER)
    : MEM_SCATTER :=
  match res !! k with
  | Some (fl, buf) => set_pb buf (set_f fl d)
  | None => d
  end.

Lemma write_back_spec :
  ∀ batch res ds s,
    NoDup batch → (∀ p, p ∈ batch → is_Some (load ds s p)) →
    ∃ ds' s', write_back batch res ds s = Some (ds', s') ∧
      (∀ k p d, batch !! k = Some p → load ds s p = Some d →
                load ds' s' p = Some (dev_result res k d)) ∧
      (∀ q, q ∉ batch → load ds' s' q = load ds s q).
Proof.
  induction batch as [|p batch IH]; intros res ds s Hnd Hal.
  - exists ds, s. split; [done|]. split; [|done]. intros k p d. by rewrite lookup_nil.
  - apply NoDup_cons in Hnd as [Hp Hnd]. cbn [write_back].
    destruct res as [|[fl buf] res].
    { exists ds, s. split; [done|]. split; [|done].
      intros k q d _ Hd. unfold dev_result. by rewrite lookup_nil. }
    destruct (Hal p (list_elem_of_here _ _)) as [d Hd]. rewrite Hd.
    cbn [mbind option_bind].
    destruct (store_defined p (set_pb buf (set_f fl d)) ds s ltac:(eauto))
      as [[ds1 s1] Hst].
    rewrite Hst. cbn [mbind option_bind].
    destruct (IH res ds1 s1 Hnd) as (ds' & s' & Hrun & Hin & Hout).
    { intros q Hq. rewrite (load_store_ne _ _ _ _ _ _ _ Hst).
      - apply Hal. by apply list_elem_of_further.
      - by intros ->. }
    exists ds', s'. split; [exact Hrun|]. split.
    + intros [|k] q dq Hq Hdq; cbn in Hq.
      * injection Hq as <-. rewrite (Hout p Hp).
        rewrite (load_store_eq _ _ _ _ _ _ Hst). unfold dev_result. cbn.
        congruence.
      * assert (q ≠ p).
        { intros ->. apply Hp. by eapply list_elem_of_lookup_2. }
        apply (Hin k q dq Hq). by rewrite (load_store_ne _ _ _ _ _ _ _ Hst).
    + intros q Hq. apply not_elem_of_cons in Hq as [Hqp Hq].
      rewrite (Hout q Hq). by apply (load_store_ne _ _ _ _ _ _ _ Hst).
Qed.

(** What step 4 makes of a descriptor of the batch. *)
Definition zero_fix (flags paMx : Z) (d : MEM_SCATTER) : MEM_SCATTER :=
  if f d then d
  else if flag_set flags VMM_FLAG_ZEROPAD_ON_FAIL && (qwA d <? paMx)
       then set_f true (set_pb (ZeroMemory (pb d) (Z.to_nat (cb d))) d)
       else d.

(** The same, as the claim puts it: a descriptor that is not valid after
    the device read is zeroed over its [cb] bytes and made valid when the
    flags hold [VMM_FLAG_ZEROPAD_ON_FAIL] and its address is below [paMx],
    and is left as it is, not valid, otherwise; a valid descriptor is left
    as it is. *)
Definition zeropad_result (flags paMx : Z) (d d' : MEM_SCATTER) : Prop :=
  (f d = true → d' = d) ∧
  (f d = false → flag_set flags VMM_FLAG_ZEROPAD_ON_FAIL = true → qwA d < paMx →
   f d' = true ∧ pb d' = replicate (Z.to_nat (cb d)) 0 ++ drop (Z.to_nat (cb d)) (pb d) ∧
   qwA d' = qwA d ∧ cb d' = cb d ∧ vStack d' = vStack d) ∧
  (f d = false → flag_set flags VMM_FLAG_ZEROPAD_ON_FAIL = false ∨ paMx ≤ qwA d →
   d' = d).

Lemma zero_fix_result flags paMx d : zeropad_result flags paMx d (zero_fix flags paMx d).
Proof.
  unfold zeropad_result, zero_fix. split; [by intros ->|]. split.
  - intros -> -> Hlt. destruct (Z.ltb_spec (qwA d) paMx) as [_|?]; [|lia]. done.
  - intros -> [-> | Hge]; [done|].
    destruct (Z.ltb_spec (qwA d) paMx) as [?|_]; [lia|]. by rewrite andb_false_r.
Qed.

Lemma Read_fixup_spec flags :
  ∀ batch ds w,
    NoDup batch → (∀ p, p ∈ batch → is_Some (load ds (cache w) p)) →
    ∃ ds' w', Read_fixup flags batch ds w = Some (ds', w') ∧
      (∀ p d, p ∈ batch → load ds (cache w) p = Some d →
              load ds' (cache w') p = Some (zero_fix flags (paMax w) d)) ∧
      (∀ q, q ∉ batch → load ds' (cache w') q = load ds (cache w) q).
Proof.
  induction batch as [|p batch IH]; intros ds w Hnd Hal.
  - exists ds, w. split; [done|]. split; [|done].
    intros p d Hp. destruct (not_elem_of_nil p Hp).
  - apply NoDup_cons in Hnd as [Hp Hnd]. cbn [Read_fixup].
    destruct (Hal p (list_elem_of_here _ _)) as [d Hd]. rewrite Hd.
    cbn [mbind option_bind].
    assert (Hrest : ∀ ds1 w1,
              paMax w1 = paMax w →
              load ds1 (cache w1) p = Some (zero_fix flags (paMax w) d) →
              (∀ q, q ≠ p → load ds1 (cache w1) q = load ds (cache w) q) →
              ∃ ds' w', Read_fixup flags batch ds1 w1 = Some (ds', w') ∧
                (∀ q dq, q ∈ p :: batch → load ds (cache w) q = Some dq →
                   load ds' (cache w') q = Some (zero_fix flags (paMax w) dq)) ∧
                (∀ q, q ∉ p :: batch → load ds' (cache w') q = load ds (cache w) q)).
    { intros ds1 w1 Hpa Hlp Hother.
      destruct (IH ds1 w1 Hnd) as (ds' & w' & Hrun & Hin & Hout).
      { intros q Hq. rewrite Hother by (by intros ->).
        apply Hal. by apply list_elem_of_further. }
      exists ds', w'. split; [exact Hrun|]. split.
      - intros q dq Hq Hdq. apply elem_of_cons in Hq as [->|Hq].
        + rewrite (Hout p Hp). congruence.
        + rewrite <- Hpa. apply (Hin q dq Hq).
          rewrite Hother; [done|]. by intros ->.
      - intros q Hq. apply not_elem_of_cons in Hq as [Hqp Hq].
        rewrite (Hout q Hq). by apply Hother. }
    destruct (f d) eqn:Hf.
    + apply Hrest; [done| |done]. unfold zero_fix. by rewrite Hf.
    + destruct (flag_set flags VMM_FLAG_ZEROPAD_ON_FAIL && (qwA d <? paMax w)) eqn:Hz.
      * destruct (store_defined p
                    (set_f true (set_pb (ZeroMemory (pb d) (Z.to_nat (cb d))) d))
                    ds (cache w) ltac:(eauto)) as [[ds1 s1] Hst].
        cbn [cache set_cPhysReadFail]. rewrite Hst. cbn [mbind option_bind].
        apply Hrest; [done| |].
        -- cbn [cache set_cache]. rewrite (load_store_eq _ _ _ _ _ _ Hst).
           unfold zero_fix. by rewrite Hf, Hz.
        -- intros q Hq. cbn [cache set_cache].
           by apply (load_store_ne _ _ _ _ _ _ _ Hst).
      * apply Hrest; [done| |done]. cbn [cache set_cPhysReadFail].
        unfold zero_fix. by rewrite Hf, Hz.
Qed.

(** Two descriptors that differ in their stacks at most. *)
Definition same_data (d d' : MEM_SCATTER) : Prop :=
  f d' = f d ∧ pb d' = pb d ∧ qwA d' = qwA d ∧ cb d' = cb d.

Lemma Forall2_same_data_refl ds : Forall2 same_data ds ds.
Proof. apply Forall_Forall2_diag, Forall_forall. by intros d _. Qed.

Lemma Forall2_same_data_trans ds1 ds2 ds3 :
  Forall2 same_data ds1 ds2 → Forall2 same_data ds2 ds3 → Forall2 same_data ds1 ds3.
Proof.
  intros H12. revert ds3. induction H12 as [|d1 d2 ds1 ds2 Hd _ IH]; intros ds3 H23.
  - by apply Forall2_nil_inv_l in H23 as ->.
  - apply Forall2_cons_inv_l in H23 as (d3 & ds3' & Hd' & H23 & ->).
    constructor; [|by apply IH].
    destruct Hd as (A1 & A2 & A3 & A4), Hd' as (B1 & B2 & B3 & B4).
    repeat split; congruence.
Qed.

(** Step 5 changes the stacks of the descriptors of the caller only. *)
Lemma Read_cacheput_same_data fuel flags :
  ∀ batch ds s ds' s',
    Read_cacheput fuel flags batch ds s = Some (ds', s') → Forall2 same_data ds ds'.
Proof.
  induction batch as [|p batch IH]; intros ds s ds' s'; cbn [Read_cacheput].
  - intros [= <- <-]. apply Forall2_same_data_refl.
  - destruct (load ds s p) as [d|] eqn:Hd; [|done]. cbn [mbind option_bind].
    destruct (MEM_SCATTER_STACK_POP d) as [[tp d1]|] eqn:Hpop; [|done].
    cbn [mbind option_bind].
    destruct (store p d1 ds s) as [[ds1 s1]|] eqn:Hst; [|done].
    cbn [mbind option_bind].
    match goal with |- ?m ≫= _ = _ → _ => destruct m as [s4|]; [|done] end.
    cbn [mbind option_bind]. intros Hrun.
    eapply Forall2_same_data_trans; [|exact (IH _ _ _ _ Hrun)].
    destruct p as [i|a]; cbn [store load] in Hst, Hd.
    + rewrite Hd in Hst. cbn in Hst. injection Hst as <- <-.
      apply Forall2_same_length_lookup. split; [by rewrite length_insert|].
      intros j x y Hx Hy. destruct (decide (j = i)) as [->|Hne].
      * rewrite list_lookup_insert_eq in Hy by (by eapply lookup_lt_Some).
        injection Hy as <-. assert (x = d) as -> by congruence.
        unfold MEM_SCATTER_STACK_POP in Hpop.
        destruct (vStack d); [done|]. by injection Hpop as <- <-.
      * rewrite list_lookup_insert_ne in Hy by done.
        assert (x = y) as -> by congruence. done.
    + destruct (wr a _ s); [|done]. injection Hst as <- <-.
      apply Forall2_same_data_refl.
Qed.

(** [qwPagedPA] after the translation loop has treated the descriptors
    [ds]. *)
Definition Virt_paged (pProcess : P) (flags ctxflags : Z) (ds : list MEM_SCATTER)
    (q : Z) : Z :=
  foldl (λ q d, (Virt_step pProcess flags ctxflags d q).2) q ds.

Lemma Virt_translate_idx pProcess flags ctxflags :
  ∀ ds iVA q j,
    j ∈ (Virt_translate pProcess flags ctxflags iVA ds q).2.*1 →
    (iVA ≤ j < iVA + length ds)%nat.
Proof.
  induction ds as [|d ds IH]; intros iVA q j; cbn [Virt_translate].
  - cbn. intros Hj. destruct (not_elem_of_nil j Hj).
  - destruct (Virt_step pProcess flags ctxflags d q) as [[d' pa] q'].
    specialize (IH (S iVA) q' j).
    destruct (Virt_translate pProcess flags ctxflags (S iVA) ds q') as [ds' phys].
    cbn [snd length] in *. destruct pa as [qwPA|].
    + cbn [fmap list_fmap fst]. intros [->|Hj]%elem_of_cons; [lia|].
      specialize (IH Hj). lia.
    + intros Hj. specialize (IH Hj). lia.
Qed.

(** The translation loop treats descriptor [i] with the value [qwPagedPA]
    has after the descriptors before it; a descriptor for which the round
    gives no physical address is not among the physical descriptors. *)
Lemma Virt_translate_lookup pProcess flags ctxflags :
  ∀ ds iVA q i d,
    ds !! i = Some d →
    let r := Virt_step pProcess flags ctxflags d
               (Virt_paged pProcess flags ctxflags (take i ds) q) in
    (Virt_translate pProcess flags ctxflags iVA ds q).1 !! i = Some r.1.1 ∧
    (r.1.2 = None →
     (iVA + i)%nat ∉ (Virt_translate pProcess flags ctxflags iVA ds q).2.*1).
Proof.
  induction ds as [|d0 ds IH]; intros iVA q i d Hd; [done|].
  cbn [Virt_translate].
  destruct (Virt_step pProcess flags ctxflags d0 q) as [[d' pa] q'] eqn:Hstep.
  pose proof (Virt_translate_idx pProcess flags ctxflags ds (S iVA) q') as Hidx.
  destruct i as [|i].
  - cbn in Hd. injection Hd as <-. cbn [take Virt_paged foldl].
    rewrite Hstep. cbn [fst snd].
    destruct (Virt_translate pProcess flags ctxflags (S iVA) ds q') as [ds' phys].
    cbn [fst snd] in *. split; [done|]. intros ->. intros Hin.
    specialize (Hidx _ Hin). lia.
  - cbn in Hd. cbn [take]. unfold Virt_paged. cbn [foldl]. rewrite Hstep.
    cbn [snd]. fold (Virt_paged pProcess flags ctxflags (take i ds) q').
    destruct (IH (S iVA) q' i d Hd) as [Hl Hn].
    destruct (Virt_translate pProcess flags ctxflags (S iVA) ds q') as [ds' phys].
    cbn [fst snd] in *. split; [exact Hl|]. intros Hnone.
    specialize (Hn Hnone). replace (iVA + S i)%nat with (S iVA + i)%nat by lia.
    destruct pa as [qwPA|]; [|done].
    cbn [fmap list_fmap fst]. apply not_elem_of_cons. split; [lia|done].
Qed.

(** Step 3 leaves the buffers of the descriptors that have no physical
    descriptor as they are. *)
Lemma Virt_result_pb :
  ∀ phys ds ds',
    Virt_result phys ds = Some ds' →
    ∀ i, i ∉ phys.*1 → pb <$> ds' !! i = pb <$> ds !! i.
Proof.
  induction phys as [|[iVA dP] phys IH]; intros ds ds'; cbn [Virt_result].
  - by intros [= <-].
  - destruct (ds !! iVA) as [dV|] eqn:HdV; [|done]. cbn [mbind option_bind].
    destruct (MEM_SCATTER_STACK_POP dP) as [[v d0]|]; [|done].
    cbn [mbind option_bind].
    destruct (<[iVA:=set_pb (pb dP) dV]> ds !! Z.to_nat v) as [dT|] eqn:HdT; [|done].
    cbn [mbind option_bind]. intros Hrun i Hi.
    cbn [fmap list_fmap fst] in Hi. apply not_elem_of_cons in Hi as [Hne Hi].
    rewrite (IH _ _ Hrun i Hi).
    destruct (decide (i = Z.to_nat v)) as [->|Hv].
    + rewrite list_lookup_insert_eq by (by eapply lookup_lt_Some).
      rewrite list_lookup_insert_ne in HdT by done. by rewrite HdT.
    + rewrite list_lookup_insert_ne by done. by rewrite list_lookup_insert_ne.
Qed.

Lemma VmmReadScatterVirtual_unread fuel pProcess ds flags w ds' w' :
  VmmReadScatterVirtual fuel pProcess ds flags w = Some (ds', w') →
  (length ds < 0x20)%nat ∨ fLocalAlloc w = true →
  ∀ i d, ds !! i = Some d →
    let r := Virt_step pProcess flags (ctx_flags w) d
               (Virt_paged pProcess flags (ctx_flags w) (take i ds) 0) in
    r.1.2 = None → pb <$> ds' !! i = Some (pb r.1.1).
Proof.
  intros Hrun Halloc i d Hd r Hnone. unfold VmmReadScatterVirtual in Hrun.
  assert (Hif : (length ds <? 0x20)%nat || fLocalAlloc w = true).
  { destruct Halloc as [Hlt| ->]; [|by rewrite orb_true_r].
    apply Nat.ltb_lt in Hlt. by rewrite Hlt. }
  rewrite Hif in Hrun.
  destruct (Virt_translate_lookup pProcess flags (ctx_flags w) ds 0 0 i d Hd)
    as [Hl Hn].
  fold r in Hl, Hn. specialize (Hn Hnone).
  destruct (Virt_translate pProcess flags (ctx_flags w) 0 ds 0) as [ds1 phys].
  cbn [fst snd] in *. destruct phys as [|ph phys].
  { injection Hrun as <- <-. by rewrite Hl. }
  destruct (VmmReadScatterPhysical fuel _ flags w) as [[phys' w1]|]; [|done].
  cbn [mbind option_bind] in Hrun.
  destruct (Virt_result _ ds1) as [ds2|] eqn:Hres; [|done].
  cbn [mbind option_bind] in Hrun. injection Hrun as <- <-.
  rewrite (Virt_result_pb _ _ _ Hres), Hl; [done|].
  intros ([j dP] & -> & Hin)%list_elem_of_fmap. cbn [fst] in Hn.
  apply elem_of_reverse, elem_of_zip_l in Hin. done.
Qed.

(** The round of the translation loop for a descriptor that is not valid,
    with zero padding: at the address 0 or -1 the buffer is zeroed; when
    the round ends without a physical address, either the buffer is
    zeroed, or the paged read was called and has filled the buffer itself,
    or it was called, declined and gave no address, and the buffer is
    zeroed after it. *)
Lemma Virt_step_fail pProcess flags ctxflags d q :
  f d = false → fZeropadOnFail flags ctxflags = true →
  (qwA d = 0 ∨ qwA d = MEM_SCATTER_ADDR_INVALID →
   Virt_step pProcess flags ctxflags d q
   = (set_pb (ZeroMemory (pb d) (Z.to_nat (cb d))) d, None, q)) ∧
  (∀ d1 q', Virt_step pProcess flags ctxflags d q = (d1, None, q') →
     pb d1 = ZeroMemory (pb d) (Z.to_nat (cb d)) ∨
     ∃ fn va pte r buf,
       pfnPagedRead = Some fn ∧
       fn pProcess va pte (Some (pb d)) q flags = (r, buf, q') ∧
       ((r = true ∧ pb d1 = buf) ∨
        (r = false ∧ q' = 0 ∧ pb d1 = ZeroMemory buf (Z.to_nat (cb d))))).
Proof.
  intros Hf Hz. unfold Virt_step, zeropad. rewrite Hf, Hz. cbn [negb orb].
  split.
  - intros [-> | ->]; [done|]. rewrite Z.eqb_refl. by rewrite orb_true_r.
  - intros d1 q'.
    destruct ((qwA d =? 0) || (qwA d =? MEM_SCATTER_ADDR_INVALID)).
    { intros [= <- <-]. by left. }
    destruct (if fAltAddrPte flags then (false, 0)
              else VmmVirt2Phys pProcess (qwA d) 0) as [fV qwPA].
    destruct (if negb fV && fPaging flags ctxflags && (cb d =? 0x1000)
              then pfnPagedRead else None) as [fn|] eqn:Hfn.
    + assert (pfnPagedRead = Some fn) as Hp.
      { by destruct (negb fV && fPaging flags ctxflags && (cb d =? 0x1000)). }
      destruct (fn pProcess (if fAltAddrPte flags then 0 else qwA d)
                  (if fAltAddrPte flags then qwA d else qwPA) (Some (pb d)) q flags)
        as [[r buf] q2] eqn:Hcall.
      destruct r.
      * intros [= <- <-]. right. eexists fn, _, _, true, buf.
        split; [done|]. split; [exact Hcall|]. by left.
      * destruct (Z.eqb_spec q2 0) as [->|Hq2]; [|done].
        intros [= <- <-]. right. eexists fn, _, _, false, buf.
        split; [done|]. split; [exact Hcall|]. right. done.
    + destruct fV; [done|]. intros [= <- <-]. by left.
Qed.

(** ** Reads without the cache *)

#[global] Instance P_caller_inj : Inj (=) (=) P_caller.
Proof. by intros i j [= ->]. Qed.

Lemma mapM_load_caller ds s :
  mapM (load ds s) (P_caller <$> seq 0 (length ds)) = Some ds.
Proof.
  apply mapM_Some. apply Forall2_fmap_l. apply Forall2_same_length_lookup.
  split; [by rewrite length_seq|]. intros i j d Hj Hd.
  apply lookup_seq in Hj as [-> _]. done.
Qed.

(** With [VMM_FLAG_NOCACHE], [VmmReadScatterPhysical] calls the device
    with the descriptors of the caller and fixes the results up. *)
Lemma VmmReadScatterPhysical_nocache fuel ds flags w :
  flag_set (Z.lor flags (ctx_flags w)) VMM_FLAG_NOCACHE = true →
  ∃ ds' w', VmmReadScatterPhysical fuel ds flags w = Some (ds', w') ∧
    rd_log w' = ds :: rd_log w ∧
    ∀ i, ds' !! i
         = zero_fix flags (paMax w) <$>
             (dev_result (LcReadScatter (dev w) ds).2 i <$> ds !! i).
Proof.
  intros Hnc. unfold VmmReadScatterPhysical, Read_batch. rewrite Hnc.
  cbn [negb andb mbind option_bind]. unfold Read_device, Read_with_fixup.
  rewrite Hnc. cbn [negb]. rewrite mapM_load_caller. cbn [mbind option_bind].
  unfold dev_read. destruct (LcReadScatter (dev w) ds) as [dv res] eqn:Hdev.
  cbn [cache snd].
  assert (Hnd : NoDup (P_caller <$> seq 0 (length ds))).
  { apply (NoDup_fmap_2 _), NoDup_seq. }
  assert (Hin : ∀ i, P_caller i ∈ P_caller <$> seq 0 (length ds) ↔ (i < length ds)%nat).
  { intros i. rewrite list_elem_of_fmap. split.
    - intros (j & [= ->] & Hj). apply elem_of_seq in Hj. lia.
    - intros Hi. exists i. split; [done|]. apply elem_of_seq. lia. }
  assert (Hal : ∀ (ds0 : list MEM_SCATTER) s0, length ds0 = length ds →
            ∀ p, p ∈ P_caller <$> seq 0 (length ds) → is_Some (load ds0 s0 p)).
  { intros ds0 s0 Hlen p (j & -> & Hj)%list_elem_of_fmap. cbn.
    apply lookup_lt_is_Some. apply elem_of_seq in Hj. lia. }
  destruct (write_back_spec _ res ds (cache w) Hnd (Hal ds (cache w) eq_refl))
    as (ds3 & s3 & -> & Hwb & Hwb').
  cbn [mbind option_bind].
  assert (Hlen3 : length ds3 = length ds).
  { destruct (decide (length ds3 = length ds)) as [|Hne]; [done|]. exfalso.
    destruct (decide (length ds3 < length ds)%nat) as [Hlt|Hge].
    - destruct (lookup_lt_is_Some_2 ds (length ds3) Hlt) as [d Hd].
      pose proof (Hwb (length ds3) (P_caller (length ds3)) d) as Hx.
      cbn [load] in Hx. rewrite list_lookup_fmap, lookup_seq_lt in Hx by done.
      specialize (Hx eq_refl Hd). apply lookup_lt_Some in Hx. lia.
    - pose proof (Hwb' (P_caller (length ds))) as Hx. cbn [load] in Hx.
      rewrite (lookup_ge_None_2 ds) in Hx by lia.
      rewrite Hin in Hx. specialize (Hx ltac:(lia)).
      apply lookup_ge_None in Hx. lia. }
  destruct (Read_fixup_spec flags _ ds3
              (set_cache s3 (mkWorld (cache w) (ctx_flags w) (paMax w) (fLocalAlloc w)
                 dv (ds :: rd_log w) (wr_log w) (cPhysCacheHit w) (cPhysReadSuccess w)
                 (cPhysReadFail w) (cPhysWrite w))) Hnd)
    as (ds4 & w4 & Hfix & Hfx & Hfx').
  { apply Hal. exact Hlen3. }
  rewrite Hfix. cbn [mbind option_bind]. exists ds4, w4. split; [done|].
  split. { by apply Read_fixup_same_device in Hfix as (-> & _). }
  intros i. destruct (ds !! i) as [d|] eqn:Hd.
  - pose proof (lookup_lt_Some _ _ _ Hd) as Hi.
    pose proof (Hwb i (P_caller i) d) as Hx. cbn [load] in Hx.
    rewrite list_lookup_fmap, lookup_seq_lt in Hx by done.
    specialize (Hx eq_refl Hd).
    pose proof (Hfx (P_caller i) _ (proj2 (Hin i) Hi) Hx) as Hy.
    cbn [load] in Hy. rewrite Hy. done.
  - apply lookup_ge_None in Hd.
    pose proof (Hfx' (P_caller i)) as Hx. rewrite Hin in Hx.
    specialize (Hx ltac:(lia)). cbn [load] in Hx. rewrite Hx.
    pose proof (Hwb' (P_caller i)) as Hy. rewrite Hin in Hy.
    specialize (Hy ltac:(lia)). cbn [load] in Hy. rewrite Hy.
    cbn. by apply lookup_ge_None_2.
Qed.

Lemma vStack_zero_fix flags paMx d : vStack (zero_fix flags paMx d) = vStack d.
Proof.
  unfold zero_fix. destruct (f d); [done|].
  by destruct (flag_set flags VMM_FLAG_ZEROPAD_ON_FAIL && (qwA d <? paMx)).
Qed.

Lemma vStack_dev_result res k d : vStack (dev_result res k d) = vStack d.
Proof. unfold dev_result. by destruct (res !! k) as [[fl buf]|]. Qed.

Lemma Virt_translate_length pProcess flags ctxflags :
  ∀ ds iVA q, length (Virt_translate pProcess flags ctxflags iVA ds q).1 = length ds.
Proof.
  induction ds as [|d ds IH]; intros iVA q; [done|]. cbn [Virt_translate].
  destruct (Virt_step pProcess flags ctxflags d q) as [[d' pa] q'].
  specialize (IH (S iVA) q').
  destruct (Virt_translate pProcess flags ctxflags (S iVA) ds q') as [ds' phys].
  cbn in *. lia.
Qed.

(** A physical descriptor has the position of its descriptor on its
    stack. *)
Lemma Virt_translate_phys pProcess flags ctxflags :
  ∀ ds iVA q,
    Forall (λ x, vStack x.2 = [Z.of_nat x.1])
      (Virt_translate pProcess flags ctxflags iVA ds q).2.
Proof.
  induction ds as [|d ds IH]; intros iVA q; cbn [Virt_translate].
  - constructor.
  - destruct (Virt_step pProcess flags ctxflags d q) as [[d' pa] q'].
    specialize (IH (S iVA) q').
    destruct (Virt_translate pProcess flags ctxflags (S iVA) ds q') as [ds' phys].
    cbn [snd] in *. destruct pa as [qwPA|]; [|done]. by constructor.
Qed.

Lemma Virt_result_defined :
  ∀ phys ds,
    Forall (λ x, (x.1 < length ds)%nat ∧
                 MEM_SCATTER_STACK_PEEK x.2 = Some (Z.of_nat x.1)) phys →
    is_Some (Virt_result phys ds).
Proof.
  induction phys as [|[iVA dP] phys IH]; intros ds Hall; [by eexists|].
  apply Forall_cons in Hall as [[Hlt Hpeek] Hall]. cbn [fst snd] in *.
  cbn [Virt_result]. destruct (lookup_lt_is_Some_2 ds iVA Hlt) as [dV ->].
  cbn [mbind option_bind]. unfold MEM_SCATTER_STACK_PEEK in Hpeek.
  unfold MEM_SCATTER_STACK_POP. destruct (vStack dP) as [|v st]; [done|].
  cbn in Hpeek. injection Hpeek as ->. cbn [mbind option_bind].
  rewrite Nat2Z.id. rewrite list_lookup_insert_eq by done.
  cbn [mbind option_bind]. apply IH.
  eapply Forall_impl; [exact Hall|]. intros [j d] [Hj Hp].
  by rewrite !length_insert.
Qed.

(** With [VMM_FLAG_NOCACHE], [VmmReadScatterVirtual] returns. *)
Lemma VmmReadScatterVirtual_nocache fuel pProcess ds flags w :
  flag_set (Z.lor flags (ctx_flags w)) VMM_FLAG_NOCACHE = true →
  is_Some (VmmReadScatterVirtual fuel pProcess ds flags w).
Proof.
  intros Hnc. unfold VmmReadScatterVirtual.
  destruct ((length ds <? 0x20)%nat || fLocalAlloc w); [|by eexists].
  pose proof (Virt_translate_length pProcess flags (ctx_flags w) ds 0 0) as Hlen.
  pose proof (Virt_translate_phys pProcess flags (ctx_flags w) ds 0 0) as Hst.
  pose proof (Virt_translate_idx pProcess flags (ctx_flags w) ds 0 0) as Hidx.
  destruct (Virt_translate pProcess flags (ctx_flags w) 0 ds 0) as [ds1 phys].
  cbn [fst snd] in *. destruct phys as [|ph phys]; [by eexists|].
  destruct (VmmReadScatterPhysical_nocache fuel (snd <$> ph :: phys) flags w Hnc)
    as (phys' & w' & -> & _ & Hres).
  cbn [mbind option_bind].
  destruct (Virt_result_defined (reverse (zip (fst <$> ph :: phys) phys')) ds1)
    as [ds2 ->]; [|by eexists].
  apply Forall_reverse, Forall_lookup. intros k [j dP] Hk. cbn [fst snd].
  apply lookup_zip_with_Some in Hk as (j' & dP' & [= <- <-] & Hj & HdP).
  rewrite list_lookup_fmap in Hj.
  destruct ((ph :: phys) !! k) as [[j0 d0]|] eqn:Hph; [|done].
  cbn in Hj. injection Hj as ->.
  split.
  - rewrite Hlen. assert (Hin : j ∈ (ph :: phys).*1).
    { apply list_elem_of_fmap. exists (j, d0). split; [done|].
      by eapply list_elem_of_lookup_2. }
    specialize (Hidx j Hin). lia.
  - rewrite Hres, list_lookup_fmap, Hph in HdP. cbn in HdP.
    injection HdP as <-. unfold MEM_SCATTER_STACK_PEEK.
    rewrite vStack_zero_fix, vStack_dev_result.
    rewrite Forall_lookup in Hst. pose proof (Hst k (j, d0) Hph) as Hs.
    cbn [fst snd] in Hs. by rewrite Hs.
Qed.

(** ** [VMM_FLAG_ZEROPAD_ON_FAIL] *)

(** Steps 3 and 4 for a batch of distinct pointers. *)
Lemma Read_with_fixup_spec flags ds batch w :
  NoDup batch → (∀ p, p ∈ batch → is_Some (load ds (cache w) p)) →
  ∃ vals ds4 w4,
    Forall2 (loaded ds (cache w)) batch vals ∧
    Read_with_fixup flags ds batch w = Some (ds4, w4) ∧
    ∀ k p d, batch !! k = Some p → load ds (cache w) p = Some d →
      load ds4 (cache w4) p
      = Some (zero_fix flags (paMax w) (dev_result (LcReadScatter (dev w) vals).2 k d)).
Proof.
  intros Hnd Hal.
  destruct (proj2 (mapM_is_Some (load ds (cache w)) batch)) as [vals Hvals].
  { apply Forall_forall. intros p Hp. by apply Hal. }
  exists vals. unfold Read_with_fixup. rewrite Hvals. cbn [mbind option_bind].
  unfold dev_read. destruct (LcReadScatter (dev w) vals) as [dv res].
  cbn [cache snd].
  destruct (write_back_spec _ res ds (cache w) Hnd Hal) as (ds3 & s3 & -> & Hwb & _).
  cbn [mbind option_bind].
  destruct (Read_fixup_spec flags batch ds3
              (set_cache s3 (mkWorld (cache w) (ctx_flags w) (paMax w) (fLocalAlloc w)
                 dv (vals :: rd_log w) (wr_log w) (cPhysCacheHit w) (cPhysReadSuccess w)
                 (cPhysReadFail w) (cPhysWrite w))) Hnd)
    as (ds4 & w4 & Hfix & Hfx & _).
  { intros p Hp. destruct (Hal p Hp) as [d Hd].
    apply list_elem_of_lookup_1 in Hp as [k Hk]. cbn [cache set_cache].
    rewrite (Hwb k p d Hk Hd). eauto. }
  exists ds4, w4. split; [by apply mapM_Some|]. split; [exact Hfix|].
  intros k p d Hk Hd.
  apply (Hfx p _ (list_elem_of_lookup_2 _ _ _ Hk)). cbn [cache set_cache].
  by apply Hwb.
Qed.

(** ** Remarks on the batch of the physical read *)

(** While the PHYS table is not active [VmmCacheReserve] returns NULL, and
    the loop that fills [ppMEMsSpeculative] makes no progress: no number
    of rounds ends it. *)
Lemma Speculative_loop_inactive n fuel ds batch s :
  fActive (PHYS s) = false → (length batch < 0x18)%nat →
  Speculative_loop n fuel ds batch s = None.
Proof.
  intros Hact Hlen. induction n as [|n IH]; cbn [Speculative_loop].
  - by rewrite decide_True.
  - rewrite decide_True by done. unfold VmmCacheReserve.
    rewrite VmmCacheTableGet_PHYS. change (tbl s T_PHYS) with (PHYS s).
    rewrite Hact. cbn [negb mbind option_bind]. exact IH.
Qed.

(** Hence the physical read of one page that is not valid, through the
    cache, does not return while the PHYS table is not active. *)
Lemma VmmReadScatterPhysical_inactive fuel d flags w :
  flag_set (Z.lor flags (ctx_flags w)) VMM_FLAG_NOCACHE = false →
  flag_set flags VMM_FLAG_FORCECACHE_READ = false →
  fActive (PHYS (cache w)) = false → f d = false →
  VmmReadScatterPhysical fuel [d] flags w = None.
Proof.
  intros Hnc Hfc Hact Hf. unfold VmmReadScatterPhysical, Read_batch.
  rewrite Hnc, Hfc. cbn [negb andb orb Read_cache]. rewrite Hf.
  assert (Hget : (if cb d =? 0x1000
                  then VmmCacheGet fuel VMM_CACHE_TAG_PHYS (qwA d) (cache w)
                  else Some (None, cache w)) = Some (None, cache w)).
  { destruct (cb d =? 0x1000); [|done]. unfold VmmCacheGet.
    rewrite VmmCacheTableGet_PHYS. change (tbl (cache w) T_PHYS) with (PHYS (cache w)).
    by rewrite Hact. }
  rewrite Hget. cbn [mbind option_bind length app]. rewrite decide_True by (cbn; lia).
  cbn [mbind option_bind length app Nat.eqb Nat.ltb Nat.leb negb andb orb].
  rewrite set_cache_id.
  cbn [mapM mbind option_bind mret option_ret fmap list_fmap].
  unfold pop_unless_1. destruct d as [a n b fl st]. cbn.
  rewrite decide_True by done. cbn [mbind option_bind mret option_ret].
  by rewrite (Speculative_loop_inactive _ _ _ _ _ Hact) by (cbn [length]; lia).
Qed.

(** Without readahead the device is called with the whole array of the
    caller, whatever its length: after a cache read that leaves 0x18
    misses or more, the batch is the array itself, the descriptors that
    are already valid included. *)
Lemma Read_batch_no_readahead fuel ds flags w ds1 c sp w1 :
  flag_set (Z.lor flags (ctx_flags w)) VMM_FLAG_NOCACHE = false →
  flag_set flags VMM_FLAG_FORCECACHE_READ = false →
  Read_cache fuel 0 ds 0 [] w = Some (ds1, c, sp, w1) →
  (0x18 ≤ n_miss ds1)%nat →
  Read_batch fuel ds flags w
  = Some (inr (ds1, P_caller <$> seq 0 (length ds), w1)).
Proof.
  intros Hnc Hfc Hrc Hm. unfold Read_batch. rewrite Hnc, Hfc, Hrc.
  cbn [negb andb orb mbind option_bind].
  destruct (Read_cache_shape _ _ _ _ _ _ _ _ _ _ Hrc)
    as (Hlen & _ & Hc & new & -> & Hnew).
  apply Forall2_length in Hnew. rewrite length_take in Hnew.
  cbn [app length] in Hnew. fold (n_miss ds1) in Hnew.
  rewrite (proj2 (Nat.eqb_neq _ _)) by lia. cbn [app].
  rewrite (proj2 (Nat.ltb_ge _ _)) by lia.
  rewrite andb_false_r. by rewrite Hlen.
Qed.

End Scatter.

(** * The batch of the device read, and the descriptors of the virtual
    read that reach the physical read *)
Section Batch.
Context `{!VmmConsts}.
Variables D P : Type.
Variable LcReadScatter : D → list MEM_SCATTER → D * list (bool * list Z).
Variable LcWriteScatter : D → list MEM_SCATTER → D * list bool.
Variable VmmVirt2Phys : P → Z → Z → bool * Z.
Variable pfnPagedRead :
  option (P → Z → Z → option (list Z) → Z → Z → bool * list Z * Z).

(** ** The batch of the physical read *)








(** ** The descriptors a virtual read hands to the physical read *)

Lemma write_back_length :
  ∀ batch res ds s ds' s',
    write_back batch res ds s = Some (ds', s') → length ds' = length ds.
Proof.
  induction batch as [|p batch IH]; intros res ds s ds' s'; cbn [write_back].
  - by intros [= <- <-].
  - destruct res as [|[fl buf] res]; [by intros [= <- <-]|].
    destruct (load ds s p) as [d|]; [|done]. cbn [mbind option_bind].
    destruct (store p _ ds s) as [[ds1 s1]|] eqn:Hst; [|done].
    cbn [mbind option_bind]. intros Hrun.
    rewrite (IH _ _ _ _ _ Hrun). by eapply store_length.
Qed.

Lemma Read_fixup_length flags :
  ∀ batch ds (w : VMM_WORLD D) ds' w',
    Read_fixup D flags batch ds w = Some (ds', w') → length ds' = length ds.
Proof.
  induction batch as [|p batch IH]; intros ds w ds' w'; cbn [Read_fixup].
  - by intros [= <- <-].
  - destruct (load ds (cache D w) p) as [d|]; [|done]. cbn [mbind option_bind].
    destruct (f d); [apply IH|].
    destruct (flag_set flags VMM_FLAG_ZEROPAD_ON_FAIL && (qwA d <? paMax D w)).
    + destruct (store p _ ds _) as [[ds1 s1]|] eqn:Hst; [|done].
      cbn [mbind option_bind]. intros Hrun.
      rewrite (IH _ _ _ _ Hrun). by eapply store_length.
    + apply IH.
Qed.

Lemma Read_device_length fuel flags ds batch w ds' w' :
  Read_device D LcReadScatter fuel flags ds batch w = Some (ds', w') →
  length ds' = length ds.
Proof.
  unfold Read_device, Read_with_fixup.
  destruct (mapM (load ds (cache D w)) batch) as [vals|]; [|done].
  cbn [mbind option_bind]. unfold dev_read.
  destruct (LcReadScatter (dev D w) vals) as [dv res].
  destruct (write_back batch res ds _) as [[ds3 s3]|] eqn:Hwb; [|done].
  cbn [mbind option_bind].
  destruct (Read_fixup D flags batch ds3 _) as [[ds4 w4]|] eqn:Hfix; [|done].
  cbn [mbind option_bind].
  apply write_back_length in Hwb. apply Read_fixup_length in Hfix.
  destruct (negb _).
  - destruct (Read_cacheput fuel flags batch ds4 (cache D w4)) as [[ds5 s5]|] eqn:Hput;
      [|done].
    cbn [mbind option_bind]. intros [= <- <-].
    apply Read_cacheput_same_data, Forall2_length in Hput. lia.
  - intros [= <- <-]. lia.
Qed.

(** [VmmReadScatterPhysical] keeps the number of descriptors. *)
Lemma VmmReadScatterPhysical_length fuel ds flags w ds' w' :
  VmmReadScatterPhysical D LcReadScatter fuel ds flags w = Some (ds', w') →
  length ds' = length ds.
Proof.
  unfold VmmReadScatterPhysical, Read_batch.
  destruct (negb (flag_set (Z.lor flags (ctx_flags D w)) VMM_FLAG_NOCACHE)).
  - destruct (Read_cache D fuel 0 ds 0 [] w) as [[[[ds1 c] sp] w1]|] eqn:Hrc; [|done].
    cbn [mbind option_bind andb].
    destruct (Read_cache_shape _ _ _ _ _ _ _ _ _ _ _ Hrc) as (Hlen & _).
    destruct ((c =? length ds)%nat || flag_set flags VMM_FLAG_FORCECACHE_READ).
    + destruct (pop_all ds1) as [dsp|] eqn:Hpop; [|done].
      cbn [mbind option_bind]. intros [= <- <-].
      apply length_mapM in Hpop. lia.
    + destruct (negb (length sp =? 0)%nat && (length sp <? 24)%nat).
      * destruct (mapM pop_unless_1 ds1) as [ds2|] eqn:Hpop; [|done].
        cbn [mbind option_bind].
        destruct (Speculative_loop fuel fuel ds2 _ _) as [[batch s2]|]; [|done].
        cbn [mbind option_bind]. intros Hrun.
        apply Read_device_length in Hrun. apply length_mapM in Hpop. lia.
      * cbn [mbind option_bind]. intros Hrun.
        apply Read_device_length in Hrun. lia.
  - cbn [mbind option_bind andb]. apply Read_device_length.
Qed.

(** The translation loop makes a physical descriptor for every descriptor
    for which a round gives a physical address: one page at that address,
    not valid, with the buffer of the descriptor. *)
Lemma Virt_translate_handed pProcess flags ctxflags :
  ∀ ds iVA q i d d1 pa q',
    ds !! i = Some d →
    Virt_step P VmmVirt2Phys pfnPagedRead pProcess flags ctxflags d
      (Virt_paged P VmmVirt2Phys pfnPagedRead pProcess flags ctxflags (take i ds) q)
    = (d1, Some pa, q') →
    ∃ k, (Virt_translate P VmmVirt2Phys pfnPagedRead pProcess flags ctxflags
            iVA ds q).2 !! k
         = Some ((iVA + i)%nat,
                 MEM_SCATTER_STACK_PUSH (Z.of_nat (iVA + i))
                   (mkMEM pa 0x1000 (pb d1) false [])).
Proof.
  induction ds as [|d0 ds IH]; intros iVA q i d d1 pa q' Hd Hstep; [done|].
  cbn [Virt_translate].
  destruct (Virt_step P VmmVirt2Phys pfnPagedRead pProcess flags ctxflags d0 q)
    as [[d' pa0] q0] eqn:Hs0.
  destruct i as [|i].
  - cbn in Hd. injection Hd as <-. cbn [take Virt_paged foldl] in Hstep.
    rewrite Hs0 in Hstep. injection Hstep as -> -> ->.
    destruct (Virt_translate _ _ _ _ _ _ (S iVA) ds q') as [ds' phys].
    exists 0%nat. cbn. by rewrite Nat.add_0_r.
  - cbn in Hd. cbn [take] in Hstep. unfold Virt_paged in Hstep.
    cbn [foldl] in Hstep. rewrite Hs0 in Hstep. cbn [snd] in Hstep.
    destruct (IH (S iVA) q0 i d d1 pa q' Hd Hstep) as [k Hk].
    destruct (Virt_translate _ _ _ _ _ _ (S iVA) ds q0) as [ds' phys].
    cbn [snd] in *. replace (iVA + S i)%nat with (S iVA + i)%nat by lia.
    destruct pa0 as [qwPA|]; [by exists (S k)|by exists k].
Qed.

Lemma Virt_translate_NoDup pProcess flags ctxflags :
  ∀ ds iVA q,
    NoDup (Virt_translate P VmmVirt2Phys pfnPagedRead pProcess flags ctxflags
             iVA ds q).2.*1.
Proof.
  induction ds as [|d ds IH]; intros iVA q; cbn [Virt_translate].
  - constructor.
  - destruct (Virt_step _ _ _ _ _ _ d q) as [[d' pa] q'].
    pose proof (Virt_translate_idx P VmmVirt2Phys pfnPagedRead pProcess flags
                  ctxflags ds (S iVA) q') as Hidx.
    specialize (IH (S iVA) q').
    destruct (Virt_translate _ _ _ _ _ _ (S iVA) ds q') as [ds' phys].
    cbn [snd] in *. destruct pa as [qwPA|]; [|done].
    cbn [fmap list_fmap fst]. apply NoDup_cons. split; [|done].
    intros Hin. specialize (Hidx _ Hin). lia.
Qed.

(** Step 3 gives a descriptor the buffer of its physical descriptor. *)
Lemma Virt_result_handed :
  ∀ phys ds ds',
    Virt_result phys ds = Some ds' → NoDup phys.*1 →
    ∀ i dP, (i, dP) ∈ phys → pb <$> ds' !! i = Some (pb dP).
Proof.
  induction phys as [|[iVA dP0] phys IH]; intros ds ds' Hrun Hnd i dP Hin.
  - destruct (not_elem_of_nil _ Hin).
  - cbn [fmap list_fmap fst] in Hnd. apply NoDup_cons in Hnd as [Hni Hnd].
    cbn [Virt_result] in Hrun.
    destruct (ds !! iVA) as [dV|] eqn:HdV; [|done]. cbn [mbind option_bind] in Hrun.
    destruct (MEM_SCATTER_STACK_POP dP0) as [[v d0]|]; [|done].
    cbn [mbind option_bind] in Hrun.
    destruct (<[iVA:=set_pb (pb dP0) dV]> ds !! Z.to_nat v) as [dT|] eqn:HdT; [|done].
    cbn [mbind option_bind] in Hrun.
    apply elem_of_cons in Hin as [[= -> ->]|Hin]; [|by eapply IH].
    rewrite (Virt_result_pb _ _ _ Hrun iVA Hni).
    pose proof (lookup_lt_Some _ _ _ HdV) as Hlt.
    destruct (decide (Z.to_nat v = iVA)) as [Hv|Hv].
    + rewrite Hv in *. rewrite list_lookup_insert_eq by (by rewrite length_insert).
      rewrite list_lookup_insert_eq in HdT by done. by injection HdT as <-.
    + rewrite list_lookup_insert_ne by done.
      by rewrite list_lookup_insert_eq by done.
Qed.

(** A descriptor for which the translation loop finds the physical
    address [pa] is handed to [VmmReadScatterPhysical] as a descriptor of
    one page at [pa] that shares its buffer; the buffer it has when the
    virtual read returns is the one the physical read has left: the
    virtual read has no zero fixup of its own after the physical read. *)
Lemma VmmReadScatterVirtual_handed fuel pProcess ds flags w ds' w' :
  VmmReadScatterVirtual D P LcReadScatter VmmVirt2Phys pfnPagedRead
    fuel pProcess ds flags w = Some (ds', w') →
  (length ds < 0x20)%nat ∨ fLocalAlloc D w = true →
  ∀ i d d1 pa q', ds !! i = Some d →
    Virt_step P VmmVirt2Phys pfnPagedRead pProcess flags (ctx_flags D w) d
      (Virt_paged P VmmVirt2Phys pfnPagedRead pProcess flags (ctx_flags D w)
         (take i ds) 0)
    = (d1, Some pa, q') →
    let phys := (Virt_translate P VmmVirt2Phys pfnPagedRead pProcess flags
                   (ctx_flags D w) 0 ds 0).2 in
    ∃ k phys' dP',
      phys !! k = Some (i, MEM_SCATTER_STACK_PUSH (Z.of_nat i)
                             (mkMEM pa 0x1000 (pb d1) false [])) ∧
      VmmReadScatterPhysical D LcReadScatter fuel (snd <$> phys) flags w
      = Some (phys', w') ∧
      phys' !! k = Some dP' ∧
      pb <$> ds' !! i = Some (pb dP').
Proof.
  intros Hrun Halloc i d d1 pa q' Hd Hstep phys.
  unfold VmmReadScatterVirtual in Hrun.
  assert (Hif : (length ds <? 0x20)%nat || fLocalAlloc D w = true).
  { destruct Halloc as [Hlt| ->]; [|by rewrite orb_true_r].
    apply Nat.ltb_lt in Hlt. by rewrite Hlt. }
  rewrite Hif in Hrun.
  destruct (Virt_translate_handed pProcess flags (ctx_flags D w) ds 0 0 i d d1 pa q'
              Hd Hstep) as [k Hk].
  pose proof (Virt_translate_NoDup pProcess flags (ctx_flags D w) ds 0 0) as Hnd.
  fold phys in Hk, Hnd. cbn [Nat.add] in Hk.
  destruct (Virt_translate P VmmVirt2Phys pfnPagedRead pProcess flags
              (ctx_flags D w) 0 ds 0) as [ds1 phys0] eqn:Htr.
  cbn [snd] in phys. subst phys.
  destruct phys0 as [|ph phys0]; [done|].
  destruct (VmmReadScatterPhysical D LcReadScatter fuel _ flags w)
    as [[phys' w1]|] eqn:Hphys; [|done].
  cbn [mbind option_bind] in Hrun.
  destruct (Virt_result _ ds1) as [ds2|] eqn:Hres; [|done].
  cbn [mbind option_bind] in Hrun. injection Hrun as <- <-.
  pose proof (VmmReadScatterPhysical_length _ _ _ _ _ _ Hphys) as Hlen.
  rewrite length_fmap in Hlen.
  destruct (lookup_lt_is_Some_2 phys' k) as [dP' HdP'].
  { rewrite Hlen. by eapply lookup_lt_Some. }
  exists k, phys', dP'. split; [done|]. split; [done|]. split; [done|].
  apply (Virt_result_handed _ _ _ Hres).
  - rewrite fmap_reverse, reverse_Permutation.
    rewrite fst_zip; [done|]. rewrite length_fmap. lia.
  - apply elem_of_reverse. apply (list_elem_of_lookup_2 _ k).
    apply lookup_zip_with_Some. exists i, dP'. split; [done|].
    split; [|done]. rewrite list_lookup_fmap, Hk. done.
Qed.

(** C6 (amended): [VMM_FLAG_ZEROPAD_ON_FAIL].
    Physical reads: for a batch of distinct descriptors, steps 3 and 4 of
    [VmmReadScatterPhysical] return, and a descriptor that is not valid
    after the device read is zeroed and made valid when the flags hold
    [VMM_FLAG_ZEROPAD_ON_FAIL] and its address is below [dev.paMax], and is
    left not valid otherwise; step 5 changes nothing but the stacks of the
    descriptors of the caller.  With [VMM_FLAG_NOCACHE] this is the result
    of the whole function.
    Virtual reads, with the flag in [flags] or in [ctxVmm->flags]: with
    [VMM_FLAG_NOCACHE] the function returns; when it returns, a descriptor
    that is not valid and has the address 0 or -1 has its buffer zeroed,
    and a descriptor for which the translation loop finds no physical
    address has the buffer the loop gives it, which is zeroed unless the
    paged read has filled it.
    Virtual reads, the descriptors for which the translation loop finds a
    physical address: such a descriptor is handed to
    [VmmReadScatterPhysical] as a descriptor of one page at that address
    with its buffer, and when the virtual read returns it has the buffer
    the physical read has left, there is no zero fixup after the physical
    read.  With [VMM_FLAG_NOCACHE] the function returns and the buffer is
    the one the rule of the physical read gives: the one of the device
    when it has read the page, zeroed when it has not and the flags hold
    [VMM_FLAG_ZEROPAD_ON_FAIL] and the physical address is below
    [dev.paMax], and as the device left it otherwise. *)
Theorem C6_zeropad_on_fail :
  (∀ flags ds batch w,
     NoDup batch → (∀ p, p ∈ batch → is_Some (load ds (cache D w) p)) →
     ∃ vals ds4 w4,
       Forall2 (loaded ds (cache D w)) batch vals ∧
       Read_with_fixup D LcReadScatter flags ds batch w = Some (ds4, w4) ∧
       (∀ k p d, batch !! k = Some p → load ds (cache D w) p = Some d →
          ∃ d4, load ds4 (cache D w4) p = Some d4 ∧
            zeropad_result flags (paMax D w)
              (dev_result (LcReadScatter (dev D w) vals).2 k d) d4) ∧
       (∀ fuel ds' w',
          Read_device D LcReadScatter fuel flags ds batch w = Some (ds', w') →
          Forall2 same_data ds4 ds')) ∧
  (∀ fuel ds flags w,
     flag_set (Z.lor flags (ctx_flags D w)) VMM_FLAG_NOCACHE = true →
     ∃ ds' w', VmmReadScatterPhysical D LcReadScatter fuel ds flags w
               = Some (ds', w') ∧
       ∀ i d, ds !! i = Some d →
         ∃ d', ds' !! i = Some d' ∧
           zeropad_result flags (paMax D w)
             (dev_result (LcReadScatter (dev D w) ds).2 i d) d') ∧
  (∀ fuel pProcess ds flags w,
     (flag_set (Z.lor flags (ctx_flags D w)) VMM_FLAG_NOCACHE = true →
      is_Some (VmmReadScatterVirtual D P LcReadScatter VmmVirt2Phys pfnPagedRead
                 fuel pProcess ds flags w)) ∧
     ∀ ds' w',
       VmmReadScatterVirtual D P LcReadScatter VmmVirt2Phys pfnPagedRead
         fuel pProcess ds flags w = Some (ds', w') →
       (length ds < 0x20)%nat ∨ fLocalAlloc D w = true →
       fZeropadOnFail flags (ctx_flags D w) = true →
       ∀ i d, ds !! i = Some d → f d = false →
         (qwA d = 0 ∨ qwA d = MEM_SCATTER_ADDR_INVALID →
          pb <$> ds' !! i = Some (ZeroMemory (pb d) (Z.to_nat (cb d)))) ∧
         (∀ d1 q',
            Virt_step P VmmVirt2Phys pfnPagedRead pProcess flags (ctx_flags D w) d
              (Virt_paged P VmmVirt2Phys pfnPagedRead pProcess flags (ctx_flags D w)
                 (take i ds) 0)
            = (d1, None, q') →
            pb <$> ds' !! i = Some (pb d1) ∧
            (pb d1 = ZeroMemory (pb d) (Z.to_nat (cb d)) ∨
             ∃ fn va pte r buf,
               pfnPagedRead = Some fn ∧
               fn pProcess va pte (Some (pb d))
                 (Virt_paged P VmmVirt2Phys pfnPagedRead pProcess flags
                    (ctx_flags D w) (take i ds) 0) flags
               = (r, buf, q') ∧
               ((r = true ∧ pb d1 = buf) ∨
                (r = false ∧ q' = 0 ∧
                 pb d1 = ZeroMemory buf (Z.to_nat (cb d))))))) ∧
  (∀ fuel pProcess ds flags w ds' w',
     VmmReadScatterVirtual D P LcReadScatter VmmVirt2Phys pfnPagedRead
       fuel pProcess ds flags w = Some (ds', w') →
     (length ds < 0x20)%nat ∨ fLocalAlloc D w = true →
     ∀ i d d1 pa q', ds !! i = Some d →
       Virt_step P VmmVirt2Phys pfnPagedRead pProcess flags (ctx_flags D w) d
         (Virt_paged P VmmVirt2Phys pfnPagedRead pProcess flags (ctx_flags D w)
            (take i ds) 0)
       = (d1, Some pa, q') →
       let phys := (Virt_translate P VmmVirt2Phys pfnPagedRead pProcess flags
                      (ctx_flags D w) 0 ds 0).2 in
       ∃ k phys' dP',
         phys !! k = Some (i, MEM_SCATTER_STACK_PUSH (Z.of_nat i)
                                (mkMEM pa 0x1000 (pb d1) false [])) ∧
         VmmReadScatterPhysical D LcReadScatter fuel (snd <$> phys) flags w
         = Some (phys', w') ∧
         phys' !! k = Some dP' ∧
         pb <$> ds' !! i = Some (pb dP')) ∧
  (∀ fuel pProcess ds flags w,
     flag_set (Z.lor flags (ctx_flags D w)) VMM_FLAG_NOCACHE = true →
     (length ds < 0x20)%nat ∨ fLocalAlloc D w = true →
     ∃ ds' w',
       VmmReadScatterVirtual D P LcReadScatter VmmVirt2Phys pfnPagedRead
         fuel pProcess ds flags w = Some (ds', w') ∧
       ∀ i d d1 pa q', ds !! i = Some d →
         Virt_step P VmmVirt2Phys pfnPagedRead pProcess flags (ctx_flags D w) d
           (Virt_paged P VmmVirt2Phys pfnPagedRead pProcess flags (ctx_flags D w)
              (take i ds) 0)
         = (d1, Some pa, q') →
         let phys := (Virt_translate P VmmVirt2Phys pfnPagedRead pProcess flags
                        (ctx_flags D w) 0 ds 0).2 in
         let dP := MEM_SCATTER_STACK_PUSH (Z.of_nat i)
                     (mkMEM pa 0x1000 (pb d1) false []) in
         ∃ k dP',
           phys !! k = Some (i, dP) ∧
           zeropad_result flags (paMax D w)
             (dev_result (LcReadScatter (dev D w) (snd <$> phys)).2 k dP) dP' ∧
           pb <$> ds' !! i = Some (pb dP')).
Proof.
  split; [|split; [|split; [|split]]].
  - intros flags ds batch w Hnd Hal.
    destruct (Read_with_fixup_spec D LcReadScatter flags ds batch w Hnd Hal)
      as (vals & ds4 & w4 & Hvals & Hrun & Hres).
    exists vals, ds4, w4. split; [done|]. split; [done|]. split.
    + intros k p d Hk Hd. eexists. split; [by apply Hres|].
      apply zero_fix_result.
    + intros fuel ds' w'. unfold Read_device. rewrite Hrun.
      cbn [mbind option_bind].
      destruct (negb (flag_set (Z.lor flags (ctx_flags D w)) VMM_FLAG_NOCACHE)).
      * destruct (Read_cacheput fuel flags batch ds4 (cache D w4))
          as [[ds5 s5]|] eqn:Hput; [|done].
        cbn [mbind option_bind]. intros [= <- <-].
        by eapply Read_cacheput_same_data.
      * intros [= <- <-]. apply Forall2_same_data_refl.
  - intros fuel ds flags w Hnc.
    destruct (VmmReadScatterPhysical_nocache D LcReadScatter fuel ds flags w Hnc)
      as (ds' & w' & Hrun & _ & Hres).
    exists ds', w'. split; [done|]. intros i d Hd. rewrite Hres, Hd. cbn.
    eexists. split; [done|]. apply zero_fix_result.
  - intros fuel pProcess ds flags w. split.
    { apply VmmReadScatterVirtual_nocache. }
    intros ds' w' Hrun Halloc Hz i d Hd Hf.
    pose proof (VmmReadScatterVirtual_unread _ _ _ _ _ _ _ _ _ _ _ _ Hrun Halloc i d Hd)
      as Hun.
    cbn zeta in Hun.
    destruct (Virt_step_fail P VmmVirt2Phys pfnPagedRead pProcess flags
                (ctx_flags D w) d
                (Virt_paged P VmmVirt2Phys pfnPagedRead pProcess flags
                   (ctx_flags D w) (take i ds) 0) Hf Hz)
      as [Hsent Hstep].
    split.
    + intros Ha. rewrite (Hsent Ha) in Hun. by apply Hun.
    + intros d1 q' Hs. rewrite Hs in Hun. split; [by apply Hun|].
      by apply Hstep.
  - intros fuel pProcess ds flags w ds' w' Hrun Halloc i d d1 pa q' Hd Hstep.
    by eapply VmmReadScatterVirtual_handed.
  - intros fuel pProcess ds flags w Hnc Halloc.
    destruct (VmmReadScatterVirtual_nocache D P LcReadScatter VmmVirt2Phys
                pfnPagedRead fuel pProcess ds flags w Hnc) as [[ds' w'] Hrun].
    exists ds', w'. split; [done|].
    intros i d d1 pa q' Hd Hstep phys dP.
    destruct (VmmReadScatterVirtual_handed _ _ _ _ _ _ _ Hrun Halloc i d d1 pa q'
                Hd Hstep) as (k & phys' & dP' & Hk & Hphys & HdP' & Hpb).
    fold phys in Hk, Hphys. fold dP in Hk.
    exists k, dP'. split; [done|]. split; [|done].
    destruct (VmmReadScatterPhysical_nocache D LcReadScatter fuel (snd <$> phys)
                flags w Hnc) as (phys'' & w'' & Hrun' & _ & Hres).
    rewrite Hphys in Hrun'. injection Hrun' as <- <-.
    rewrite Hres, list_lookup_fmap, Hk in HdP'. cbn in HdP'.
    injection HdP' as <-. apply zero_fix_result.
Qed.

End Batch.

(** ** Concrete runs of the pipeline *)

#[local] Existing Instance small_consts.

(** A device for the runs below: the pages below 0x100000 can be read, and
    hold the number of the page in every byte; they can be written. *)
Definition t_LcReadScatter (dv : unit) (l : list MEM_SCATTER)
    : unit * list (bool * list Z) :=
  (dv, (λ d, if f d then (true, pb d)
             else if qwA d <? 0x100000
                  then (true, replicate (Z.to_nat (cb d)) (Z.shiftr (qwA d) 12))
                  else (false, pb d)) <$> l).

Definition t_LcWriteScatter (dv : unit) (l : list MEM_SCATTER) : unit * list bool :=
  (dv, (λ d, qwA d <? 0x100000) <$> l).

(** A memory model for the runs below: the addresses below 0x80000 are
    mapped 0x10000 higher, the addresses from there to 0x90000 are mapped
    0x200000 higher, the addresses from there to 0xA0000 are mapped 0x100000
    higher, the others are not mapped; there is no paged memory. *)
Definition t_VmmVirt2Phys (p : unit) (va old : Z) : bool * Z :=
  if va <? 0x80000 then (true, va + 0x10000)
  else if va <? 0x90000 then (true, va + 0x200000)
  else if va <? 0xA0000 then (true, va + 0x100000)
  else (false, old).

Definition t_pfnPagedRead
    : option (unit → Z → Z → option (list Z) → Z → Z → bool * list Z * Z) := None.

Definition t_world : VMM_WORLD unit :=
  mkWorld unit
    (VmmCache2Initialize VMM_CACHE_TAG_PHYS
       (mkCache ∅ table_zero table_zero table_zero 64))
    0 0x200000 true tt [] [] 0 0 0 0.

Definition t_read := VmmReadScatterPhysical unit t_LcReadScatter.
Definition t_read_virt :=
  VmmReadScatterVirtual unit unit t_LcReadScatter t_VmmVirt2Phys t_pfnPagedRead.

(** A descriptor of one page that is not valid, with a buffer of [v]s. *)
Definition page_at (a v : Z) : MEM_SCATTER := mkMEM a 0x1000 (replicate 0x1000 v) false [].

Definition t_write := VmmWrite unit unit t_LcWriteScatter t_VmmVirt2Phys t_pfnPagedRead.
Definition t_readmem :=
  VmmRead unit unit t_LcReadScatter t_VmmVirt2Phys t_pfnPagedRead.

(** The state after the page 0x1000 has been read from the clean cache:
    the cache holds the pages 0x1000 to 0x18000. *)
Definition t_world1 : VMM_WORLD unit :=
  default t_world (snd <$> t_read 30 [page_at 0x1000 7] 0 t_world).

Lemma t_world1_hit : lookup_ok 30 (cache _ t_world1) (page_at 0x3000 7).
Proof.
  intros _ _. exists (Some 1%nat). split; [vm_compute; reflexivity|].
  intros x [= <-]. exists (ob_at (cache _ t_world1) 1).
  split; [vm_compute; reflexivity|]. vm_compute. split; [discriminate|reflexivity].
Qed.

Lemma t_world1_miss : lookup_ok 30 (cache _ t_world1) (page_at 0x50000 7).
Proof.
  intros _ _. exists None. split; [vm_compute; reflexivity|]. intros x [=].
Qed.

Lemma C4_forcecache_read_cache_only_witness :
  ∃ ds' w',
    t_read 30 [page_at 0x3000 7; page_at 0x50000 7] 8 t_world1 = Some (ds', w') ∧
    rd_log _ w' = rd_log _ t_world1 ∧ dev _ w' = dev _ t_world1 ∧
    cache _ w' = cache _ t_world1 ∧
    Forall2 (cache_only_result 30 (cache _ t_world1))
      [page_at 0x3000 7; page_at 0x50000 7] ds'.
Proof.
  apply C4_forcecache_read_cache_only.
  - vm_compute; reflexivity.
  - vm_compute; reflexivity.
  - repeat constructor; [exact t_world1_hit|exact t_world1_miss].
Defined.

(** C4 as stated fails: with [VMM_FLAG_NOCACHE] next to
    [VMM_FLAG_FORCECACHE_READ] the device is called for the page 0x1000,
    which no cache holds, and the descriptor is valid afterwards; and a
    descriptor that is valid before the call is valid after it, although
    the cache does not hold its page. *)
Lemma C4_counterexample :
  flag_set 9 VMM_FLAG_FORCECACHE_READ = true ∧
  (∃ ds' w', t_read 30 [page_at 0x1000 7] 9 t_world = Some (ds', w') ∧
     rd_log _ w' = [[page_at 0x1000 7]] ∧ f <$> ds' = [true]) ∧
  cache_find 30 (cache _ t_world) 0x50000 = Some None ∧
  (∃ w', t_read 30 [set_f true (page_at 0x50000 7)] 8 t_world
         = Some ([set_f true (page_at 0x50000 7)], w')).
Proof.
  split; [vm_compute; reflexivity|]. split.
  { eexists _, _. split; [vm_compute; reflexivity|]. split; vm_compute; reflexivity. }
  split; [vm_compute; reflexivity|].
  eexists. vm_compute. reflexivity.
Qed.

Lemma C8_zero_length_read_write_witness :
  t_readmem 30 None 0x1001 [] 0 t_world = Some ([], true, t_world) ∧
  t_write 30 None 0x2000 [] 0 t_world
    = Some (true, (dev_write unit t_LcWriteScatter [] t_world).2) ∧
  t_write 30 None 0x1001 [] 0 t_world = None.
Proof.
  destruct (C8_zero_length_read_write unit unit t_LcReadScatter t_LcWriteScatter
              t_VmmVirt2Phys t_pfnPagedRead 30 None 0x1001 [] t_world eq_refl)
    as (Hread & _ & Hfault).
  destruct (C8_zero_length_read_write unit unit t_LcReadScatter t_LcWriteScatter
              t_VmmVirt2Phys t_pfnPagedRead 30 None 0x2000 [] t_world eq_refl)
    as (_ & Hal & _).
  split; [exact Hread|]. split.
  - apply Hal. reflexivity.
  - apply Hfault. vm_compute. discriminate.
Defined.

Definition t_readfile :=
  VmmReadAsFile unit unit t_LcReadScatter t_VmmVirt2Phys t_pfnPagedRead.
Definition t_writefile :=
  VmmWriteAsFile unit unit t_LcWriteScatter t_VmmVirt2Phys t_pfnPagedRead.

Lemma C10_zero_length_file_access_eof_witness :
  (t_readfile 30 None 0x1000 0x2000 [7; 7] 2 0x2000 t_world
     = Some (STATUS_END_OF_FILE, [7; 7], 0, t_world) ∧
   t_writefile 30 None 0x1000 0x2000 [7; 7] 2 0x2000 t_world
     = Some (STATUS_END_OF_FILE, 0, t_world)) ∧
  (t_readfile 30 None 0x1000 0x2000 [] 0 0x10 t_world
     = Some (STATUS_END_OF_FILE, [], 0, t_world) ∧
   t_writefile 30 None 0x1000 0x2000 [] 0 0x10 t_world
     = Some (STATUS_END_OF_FILE, 0, t_world)).
Proof.
  split.
  - apply (C10_zero_length_file_access_eof unit unit t_LcReadScatter
             t_LcWriteScatter t_VmmVirt2Phys t_pfnPagedRead).
    left. lia.
  - apply (C10_zero_length_file_access_eof unit unit t_LcReadScatter
             t_LcWriteScatter t_VmmVirt2Phys t_pfnPagedRead).
    right. left. reflexivity.
Defined.








Lemma C6_zeropad_on_fail_witness :
  (∃ ds' w',
     t_read 30 [page_at 0x180000 7; page_at 0x280000 7] 3 t_world = Some (ds', w') ∧
     ∀ i d, [page_at 0x180000 7; page_at 0x280000 7] !! i = Some d →
       ∃ d', ds' !! i = Some d' ∧
         zeropad_result 3 (paMax _ t_world)
           (dev_result
              (t_LcReadScatter (dev _ t_world)
                 [page_at 0x180000 7; page_at 0x280000 7]).2 i d) d') ∧
  (∃ ds' w',
     t_read_virt 30 tt [page_at 0xB0000 7; page_at 0 7] 3 t_world = Some (ds', w') ∧
     pb <$> ds' !! 1%nat = Some (ZeroMemory (replicate 0x1000 7) 0x1000) ∧
     pb <$> ds' !! 0%nat = Some (ZeroMemory (replicate 0x1000 7) 0x1000)) ∧
  (∃ vals ds4 w4,
     Forall2 (loaded [page_at 0x180000 7] (cache _ t_world)) [P_caller 0] vals ∧
     Read_with_fixup unit t_LcReadScatter 2 [page_at 0x180000 7] [P_caller 0] t_world
     = Some (ds4, w4)) ∧
  (∃ ds' w' phys' dP',
     t_read_virt 30 tt [page_at 0x90000 7] 2 t_world = Some (ds', w') ∧
     t_read 30 [MEM_SCATTER_STACK_PUSH 0
                  (mkMEM 0x190000 0x1000 (replicate 0x1000 7) false [])] 2 t_world
     = Some (phys', w') ∧
     phys' !! 0%nat = Some dP' ∧
     pb <$> ds' !! 0%nat = Some (pb dP')) ∧
  (∃ ds' w',
     t_read_virt 30 tt [page_at 0x90000 7; page_at 0x80000 7] 3 t_world
     = Some (ds', w') ∧
     pb <$> ds' !! 0%nat = Some (replicate 0x1000 0) ∧
     pb <$> ds' !! 1%nat = Some (replicate 0x1000 7)).
Proof.
  destruct (C6_zeropad_on_fail unit unit t_LcReadScatter t_VmmVirt2Phys t_pfnPagedRead)
    as (Hfix & Hphys & Hvirt & Hhand & Hnc).
  split; [|split; [|split; [|split]]].
  - apply (Hphys 30%nat _ 3 t_world). vm_compute; reflexivity.
  - destruct (Hvirt 30%nat tt [page_at 0xB0000 7; page_at 0 7] 3 t_world) as [Hex Hprop].
    destruct (Hex ltac:(vm_compute; reflexivity)) as [[ds' w'] Hrun].
    exists ds', w'. split; [exact Hrun|].
    pose proof (Hprop ds' w' Hrun ltac:(left; cbn; lia) ltac:(vm_compute; reflexivity))
      as Hp.
    split.
    + destruct (Hp 1%nat (page_at 0 7) eq_refl eq_refl) as [Hs _].
      apply Hs. left; reflexivity.
    + destruct (Hp 0%nat (page_at 0xB0000 7) eq_refl eq_refl) as [_ Hs].
      destruct (Hs (set_pb (ZeroMemory (replicate 0x1000 7) 0x1000) (page_at 0xB0000 7))
                  0 ltac:(vm_compute; reflexivity)) as [Hpb _].
      exact Hpb.
  - destruct (Hfix 2 [page_at 0x180000 7] [P_caller 0] t_world)
      as (vals & ds4 & w4 & Hv & Hrun & _).
    + apply NoDup_singleton.
    + intros p ->%list_elem_of_singleton. by eexists.
    + by exists vals, ds4, w4.
  - destruct (t_read_virt 30 tt [page_at 0x90000 7] 2 t_world) as [[ds' w']|] eqn:E;
      [|vm_compute in E; discriminate E].
    destruct (Hhand 30%nat tt [page_at 0x90000 7] 2 t_world ds' w' E
                ltac:(left; cbn; lia) 0%nat (page_at 0x90000 7)
                (page_at 0x90000 7) 0x190000 0 eq_refl
                ltac:(vm_compute; reflexivity))
      as (k & phys' & dP' & Hk & Hrun & HdP' & Hpb).
    destruct k as [|k]; [|vm_compute in Hk; discriminate Hk].
    exists ds', w', phys', dP'. split; [done|]. split; [exact Hrun|]. by split.
  - destruct (Hnc 30%nat tt [page_at 0x90000 7; page_at 0x80000 7] 3 t_world
                ltac:(vm_compute; reflexivity) ltac:(left; cbn; lia))
      as (ds' & w' & Hrun & Hres).
    exists ds', w'. split; [exact Hrun|]. split.
    + destruct (Hres 0%nat (page_at 0x90000 7) (page_at 0x90000 7) 0x190000 0
                  eq_refl ltac:(vm_compute; reflexivity))
        as (k & dP' & Hk & (_ & Hz & _) & Hpb).
      destruct k as [|[|k]]; [|vm_compute in Hk; discriminate Hk..].
      destruct Hz as (_ & Hb & _); [vm_compute; reflexivity..|].
      rewrite Hpb, Hb. vm_compute. reflexivity.
    + destruct (Hres 1%nat (page_at 0x80000 7) (page_at 0x80000 7) 0x280000 0
                  eq_refl ltac:(vm_compute; reflexivity))
        as (k & dP' & Hk & (_ & _ & Hz) & Hpb).
      destruct k as [|[|k]]; [vm_compute in Hk; discriminate Hk| |
                              vm_compute in Hk; discriminate Hk].
      rewrite Hpb, Hz; [vm_compute; reflexivity|vm_compute; reflexivity|].
      right. vm_compute. discriminate.
Defined.

(** C6 as stated fails: [VMM_FLAG_ZEROPAD_ON_FAIL] is in the flags, the
    address 0x80000 is mapped to 0x280000, at or above [dev.paMax], the
    device is called and cannot read the page, and the descriptor is as
    before, not valid, with the buffer it had. *)
Lemma C6_counterexample :
  fZeropadOnFail 2 (ctx_flags _ t_world) = true ∧
  t_VmmVirt2Phys tt 0x80000 0 = (true, 0x280000) ∧
  paMax _ t_world = 0x200000 ∧
  pb (page_at 0x80000 7) = replicate 0x1000 7 ∧
  f (page_at 0x80000 7) = false ∧
  ∃ w', t_read_virt 30 tt [page_at 0x80000 7] 2 t_world
        = Some ([page_at 0x80000 7], w') ∧
    length (rd_log _ w') = 1%nat.
Proof.
  repeat (split; [vm_compute; reflexivity|]).
  eexists. split; vm_compute; reflexivity.
Qed.

(** ** Runs for the remarks on the batch *)

(** The world before [VmmCache2Initialize]: the PHYS table is not active. *)
Definition t_world_closed : VMM_WORLD unit :=
  mkWorld unit (mkCache ∅ table_zero table_zero table_zero 64)
    0 0x200000 true tt [] [] 0 0 0 0.

(** 25 pages that are not valid, from 0x1000 on. *)
Definition t_pages25 : list MEM_SCATTER :=
  (λ i, page_at (0x1000 * Z.of_nat i) 7) <$> seq 1 25.

Lemma Speculative_loop_inactive_witness :
  Speculative_loop 50 50 [page_at 0x1000 7] [P_caller 0]
    (cache _ t_world_closed) = None.
Proof.
  apply (Speculative_loop_inactive 50 50 [page_at 0x1000 7] [P_caller 0]
           (cache _ t_world_closed)).
  - reflexivity.
  - cbn [length]. lia.
Defined.

Lemma VmmReadScatterPhysical_inactive_witness :
  t_read 30 [page_at 0x1000 7] 0 t_world_closed = None.
Proof.
  apply (VmmReadScatterPhysical_inactive unit t_LcReadScatter 30
           (page_at 0x1000 7) 0 t_world_closed); reflexivity.
Defined.

Lemma Read_batch_no_readahead_witness :
  Read_batch unit 30 t_pages25 0 t_world
  = Some (inr (MEM_SCATTER_STACK_PUSH 1 <$> t_pages25,
               P_caller <$> seq 0 25, t_world)).
Proof.
  apply (Read_batch_no_readahead unit 30 t_pages25 0 t_world
           (MEM_SCATTER_STACK_PUSH 1 <$> t_pages25) 0%nat (seq 0 24) t_world).
  - reflexivity.
  - reflexivity.
  - vm_compute; reflexivity.
  - vm_compute. lia.
Defined.

(** The device is then called once, with the 25 descriptors. *)
Lemma Read_no_readahead_25 :
  ∃ ds' w', t_read 30 t_pages25 0 t_world = Some (ds', w') ∧
    length <$> rd_log _ w' = [25%nat].
Proof.
  destruct (t_read 30 t_pages25 0 t_world) as [[ds' w']|] eqn:E.
  - exists ds', w'. split; [done|].
    assert (H : (λ r, length <$> rd_log _ r.2) <$> t_read 30 t_pages25 0 t_world
                = Some [25%nat]) by (vm_compute; reflexivity).
    rewrite E in H. by injection H.
  - vm_compute in E. discriminate E.
Qed.

(** ** Runs for the batch of the device read *)



End Scatter.

(** * Iteration over the process table *)
Module ProcIter.
Import Proc.

Definition set_fTlbSpiderDone (o : VMM_PROCESS) (b : bool) : VMM_PROCESS :=
  mkProcess (ob_tag o) (dwPID o) (dwPPID o) (dwState o) (paDTB o)
    (paDTB_UserOpt o) (szName o) (fUserOnly o) b
    (win_EPROCESS o) (win_TOKEN o) (pObPersistent o) (pObProcessCloneParent o).

Section ProcIter.
Context `{!VmmConsts}.
Variable VmmProcess_TokenTryEnsure :
  VMMOB_PROCESS_TABLE → gmap nat VMM_PROCESS → nat → VMM_TOKEN.

#[local] Abbreviation N := VMM_PROCESSTABLE_ENTRIES_MAX.
#[local] Abbreviation home pid := (pid `mod` N).

(** The probing loop of [VmmProcessGetNextEx]: the slot that holds the
    process with the PID of [pProcess], NULL at [fail:]. *)
Fixpoint GetNextEx_loop (fuel : nat) (h : gmap nat VMM_PROCESS)
    (pt : VMMOB_PROCESS_TABLE) (pid i iStart : Z) : option (option Z) :=
  match fuel with
  | O => None
  | S fuel =>
    match _M pt !! i with
    | None => Some None
    | Some b =>
      o ← h !! b;
      if decide (dwPID o = pid) then Some (Some i)
      else
        let i' := next_slot i in
        if decide (i' = iStart) then Some None
        else GetNextEx_loop fuel h pt pid i' iStart
    end
  end.

(** [VmmProcessGetNextEx] on a table that is not NULL; [n] bounds the
    number of times the function goes back to [restart:]. *)
Fixpoint GetNextEx_pt (n : nat) (pt : VMMOB_PROCESS_TABLE)
    (pProcess : option nat) (fl : Z) (s : VMM_CONTEXT)
    : option (option nat * VMM_CONTEXT) :=
  match n with
  | O => None
  | S n =>
    let fToken := flag_set (Z.lor fl (flags s)) VMM_FLAG_PROCESS_TOKEN in
    let fShowTerminated :=
      flag_set (Z.lor fl (flags s)) VMM_FLAG_PROCESS_SHOW_TERMINATED in
    slot ←
      match pProcess with
      | None => Some (Some (_iFLink pt))
      | Some a =>
        o ← heap s !! a;
        r ← GetNextEx_loop (Z.to_nat N) (heap s) pt (dwPID o)
              (home (dwPID o)) (home (dwPID o));
        (* current process -> retrieve next! *)
        Some (match r with
              | Some i => Some (default 0 (_iFLinkM pt !! i))
              | None => None
              end)
      end;
    match slot with
    | None => Some (None, s)
    | Some i =>
      match _M pt !! i with
      | None => Some (None, s)
      | Some b =>
        o ← heap s !! b;
        if negb (dwState o =? 0) && negb fShowTerminated
        then GetNextEx_pt n pt (Some b) fl s
        else if fToken && negb (fInitialized (win_TOKEN o))
        then s1 ← VmmProcess_TokenTryEnsureLock VmmProcess_TokenTryEnsure pt b s;
             Some (Some b, s1)
        else Some (Some b, s)
      end
    end
  end.

(** [VmmProcessGetNextEx(pt, pProcess, flags)] *)
Definition VmmProcessGetNextEx (n : nat) (pt : option VMMOB_PROCESS_TABLE)
    (pProcess : option nat) (fl : Z) (s : VMM_CONTEXT)
    : option (option nat * VMM_CONTEXT) :=
  match pt with
  | Some t => GetNextEx_pt n t pProcess fl s
  | None =>
    match pObCPROC s with
    | None => Some (None, s)
    | Some t => GetNextEx_pt n t pProcess fl s
    end
  end.

(** The loop of [VmmProcessTlbClear]; [a] is the current (non-NULL)
    [pProcess]. *)
Fixpoint TlbClear_loop (fuel : nat) (h : gmap nat VMM_PROCESS)
    (pt : VMMOB_PROCESS_TABLE) (iProcess : Z) (a : nat)
    : option (gmap nat VMM_PROCESS) :=
  match fuel with
  | O => None
  | S fuel =>
    o ← h !! a;
    let h1 := <[a := set_fTlbSpiderDone o false]> h in
    let iProcess' := default 0 (_iFLinkM pt !! iProcess) in
    match _M pt !! iProcess' with
    | None => Some h1
    | Some a' =>
      if decide (iProcess' = _iFLink pt) then Some h1
      else TlbClear_loop fuel h1 pt iProcess' a'
    end
  end.

(** [VmmProcessTlbClear] *)
Definition VmmProcessTlbClear (fuel : nat) (s : VMM_CONTEXT) : option VMM_CONTEXT :=
  match pObCPROC s with
  | None => Some s
  | Some pt =>
    match _M pt !! _iFLink pt with
    | None => Some s
    | Some a =>
      h ← TlbClear_loop fuel (heap s) pt (_iFLink pt) a;
      Some (set_heap s h)
    end
  end.

(** ** The chain of a built table *)

Lemma snd_inj_NoDup (sl : list (Z * nat)) k j a :
  NoDup (sl.*2) → (k, a) ∈ sl → (j, a) ∈ sl → k = j.
Proof.
  intros Hnd [i1 H1]%list_elem_of_lookup_1 [i2 H2]%list_elem_of_lookup_1.
  assert (i1 = i2).
  { eapply NoDup_lookup; [exact Hnd| |].
    - rewrite list_lookup_fmap, H1. reflexivity.
    - rewrite list_lookup_fmap, H2. reflexivity. }
  subst i2. congruence.
Qed.

(** The link of a slot of the chain is the slot of the next object, and 0
    at the end of the chain; a next slot is never the head. *)
Lemma chain_succ h pt sl pre j a rest :
  table_inv h pt sl → sl = pre ++ (j, a) :: rest →
  default 0 (_iFLinkM pt !! j) = hd 0 (rest.*1) ∧
  ∀ j' a' rest', rest = (j', a') :: rest' →
    _M pt !! j' = Some a' ∧ j' ≠ _iFLink pt.
Proof.
  intros Hinv Hsl. split.
  - pose proof (inv_links _ _ _ Hinv) as Hl.
    rewrite Hsl, fmap_app in Hl. apply links_app in Hl.
    cbn [fmap list_fmap fst links] in Hl. apply Hl.
  - intros j' a' rest' ->. split.
    + apply (inv_M _ _ _ Hinv). rewrite Hsl.
      apply elem_of_app. right. apply elem_of_cons. right.
      apply elem_of_cons. by left.
    + rewrite (inv_head _ _ _ Hinv). pose proof (inv_slots _ _ _ Hinv) as Hnd.
      rewrite Hsl in Hnd |- *. rewrite fmap_app in Hnd |- *.
      cbn [fmap list_fmap fst] in *.
      destruct pre as [|[j0 a0] pre]; cbn [fmap list_fmap app hd fst] in *.
      * apply NoDup_cons_1_1 in Hnd. intros ->. apply Hnd.
        apply elem_of_cons. by left.
      * apply NoDup_cons_1_1 in Hnd. intros ->. apply Hnd.
        apply elem_of_app. right. apply elem_of_cons. right.
        apply elem_of_cons. by left.
Qed.

(** When slot 0 is occupied every link of the chain leads to an occupied
    slot, which is not the head unless the head is slot 0. *)
Lemma chain_next_slot0 h pt sl a0 :
  table_inv h pt sl → _M pt !! 0 = Some a0 →
  ∀ j a, (j, a) ∈ sl →
    ∃ a', _M pt !! default 0 (_iFLinkM pt !! j) = Some a' ∧
          (default 0 (_iFLinkM pt !! j), a') ∈ sl ∧
          (_iFLink pt ≠ 0 → default 0 (_iFLinkM pt !! j) ≠ _iFLink pt).
Proof.
  intros Hinv H0 j a Hin.
  apply list_elem_of_split in Hin as (pre & rest & Hsl).
  destruct (chain_succ _ _ _ _ _ _ _ Hinv Hsl) as [Hlink Hnext].
  rewrite Hlink. destruct rest as [|[j' a'] rest']; cbn [fmap list_fmap hd fst].
  - exists a0. split; [done|]. split; [by apply (inv_M _ _ _ Hinv)|congruence].
  - destruct (Hnext _ _ _ eq_refl) as [HM Hne]. exists a'.
    split; [done|]. split; [by apply (inv_M _ _ _ Hinv)|done].
Qed.

Lemma ListPIDs_loop_never h pt sl a0 fST :
  table_inv h pt sl → _M pt !! 0 = Some a0 → _iFLink pt ≠ 0 →
  ∀ fuel buf i j a, (j, a) ∈ sl →
    ListPIDs_loop fuel h pt fST buf i j a = None.
Proof.
  intros Hinv H0 Hh. induction fuel as [|fuel IH]; intros buf i j a Hin; [done|].
  cbn [ListPIDs_loop].
  destruct (h !! a) as [o|]; [|done]. cbn [mbind option_bind].
  destruct (if (dwState o =? 0) || fST
            then if decide (Z.to_nat i < length buf)%nat
                 then Some (<[Z.to_nat i := dwPID o]> buf, (i + 1) `mod` 2 ^ 32)
                 else None
            else Some (buf, i)) as [[buf1 i1]|]; [|done].
  cbn [mbind option_bind].
  destruct (chain_next_slot0 _ _ _ _ Hinv H0 _ _ Hin) as (a' & -> & Hin' & Hne).
  rewrite decide_False by auto. by apply IH.
Qed.

(** [VmmProcessListPIDs] with an array does not return when slot 0 of the
    table holds a process that is not the most recently installed one: the
    chain ends with the link value 0, the walk takes it for slot 0 and goes
    round the chain from there, writing PIDs, and neither exit of the loop
    is ever taken. *)
Theorem ListPIDs_slot0_never_returns fl s pt l a0 fuel buf n :
  0 < N ≤ 2 ^ 16 →
  pObCPROC s = Some pt → built (heap s) pt l →
  _M pt !! 0 = Some a0 → _iFLink pt ≠ 0 →
  (if flag_set (Z.lor fl (flags s)) VMM_FLAG_PROCESS_SHOW_TERMINATED
   then c pt else cActive pt) ≤ n →
  VmmProcessListPIDs fuel (Some buf) n fl s = None.
Proof.
  intros HN Hpt Hb H0 Hh Hn.
  destruct (built_table_inv _ _ _ HN Hb) as (sl & _ & Hinv).
  unfold VmmProcessListPIDs. rewrite Hpt. cbn [mbind option_bind].
  rewrite decide_False by lia.
  destruct sl as [|[j a] rest].
  { apply (inv_M _ _ _ Hinv) in H0. by apply elem_of_nil in H0. }
  assert (Hin : (j, a) ∈ (j, a) :: rest) by (apply elem_of_cons; by left).
  rewrite (inv_head _ _ _ Hinv). cbn [fmap list_fmap hd fst].
  rewrite (proj2 (inv_M _ _ _ Hinv j a) Hin).
  by rewrite (ListPIDs_loop_never _ _ _ _ _ Hinv H0 Hh fuel buf 0 j a Hin).
Qed.

(** ** [VmmProcessGetNextEx] *)

Lemma GetNextEx_loop_GetEx fuel h pt pid i i0 a :
  GetEx_loop fuel h pt pid i i0 = Some (Some a) →
  ∃ k, GetNextEx_loop fuel h pt pid i i0 = Some (Some k) ∧ _M pt !! k = Some a.
Proof.
  revert i. induction fuel as [|fuel IH]; intros i; cbn [GetEx_loop GetNextEx_loop]; [done|].
  destruct (_M pt !! i) as [b|] eqn:EM; [|done].
  destruct (h !! b) as [o|]; [|done]. cbn [mbind option_bind].
  destruct (decide (dwPID o = pid)).
  - intros [= <-]. eauto.
  - destruct (decide (next_slot i = i0)); [done|]. apply IH.
Qed.

(** The probe of [VmmProcessGetNextEx] finds the slot of an object of the
    table. *)
Lemma GetNextEx_loop_slot h pt sl j a :
  table_inv h pt sl → (j, a) ∈ sl →
  ∃ o, h !! a = Some o ∧
    GetNextEx_loop (Z.to_nat N) h pt (dwPID o) (home (dwPID o)) (home (dwPID o))
      = Some (Some j).
Proof.
  intros Hinv Hin. destruct (inv_probe _ _ _ Hinv _ _ Hin) as (o & Ho & Hl).
  exists o. split; [done|].
  apply GetNextEx_loop_GetEx in Hl as (k & -> & Hk).
  apply (inv_M _ _ _ Hinv) in Hk.
  by rewrite (snd_inj_NoDup _ _ _ _ (inv_objs _ _ _ Hinv) Hk Hin).
Qed.

Lemma table_inv_heap_ext h h' pt sl :
  heap_ext h h' → table_inv h pt sl → table_inv h' pt sl.
Proof.
  intros Hext [A B C D E F G I J].
  assert (Hsh : ∀ a, a ∈ sl.*2 → shown h' false a = shown h false a).
  { intros a ([j b] & -> & Hin)%list_elem_of_fmap_1. cbn [snd].
    destruct (E _ _ Hin) as (o & Ho & _).
    destruct (Hext _ _ Ho) as (o' & Ho' & _ & Hst & _).
    by rewrite (shown_lookup _ _ _ _ Ho), (shown_lookup _ _ _ _ Ho'), Hst. }
  split; try done.
  - intros j a Hin. destruct (E _ _ Hin) as (o & Ho & Hl).
    destruct (Hext _ _ Ho) as (o' & Ho' & Hp & _). exists o'. split; [done|].
    rewrite Hp. eapply GetEx_loop_heap_ext; eauto.
  - rewrite J. f_equal. f_equal. apply Cache.filter_ext_in.
    intros a Ha. by rewrite Hsh.
Qed.

Lemma shown_cond h fST a o :
  h !! a = Some o →
  negb (dwState o =? 0) && negb fST = negb (shown h fST a).
Proof. intros Ho. rewrite (shown_lookup _ _ _ _ Ho). by rewrite negb_orb. Qed.

(** The end of a call of [VmmProcessGetNextEx] that has found the process
    [b] to return. *)
Lemma GetNextEx_token pt b o fl s :
  heap s !! b = Some o →
  ∃ s', (if flag_set (Z.lor fl (flags s)) VMM_FLAG_PROCESS_TOKEN
            && negb (fInitialized (win_TOKEN o))
         then s1 ← VmmProcess_TokenTryEnsureLock VmmProcess_TokenTryEnsure pt b s;
              Some (Some b, s1)
         else Some (Some b, s)) = Some (Some b, s') ∧ frame s s'.
Proof.
  intros Ho.
  destruct (flag_set (Z.lor fl (flags s)) VMM_FLAG_PROCESS_TOKEN
            && negb (fInitialized (win_TOKEN o))).
  - destruct (VmmProcess_TokenTryEnsureLock VmmProcess_TokenTryEnsure pt b s)
      as [s1|] eqn:E.
    + exists s1. split; [done|]. by apply TokenTryEnsureLock_frame in E as [? _].
    + unfold VmmProcess_TokenTryEnsureLock in E. rewrite Ho in E.
      cbn [mbind option_bind] in E. by destruct (fInitialized (win_TOKEN o)).
  - exists s. split; [done|apply frame_refl].
Qed.

Lemma GetNextEx_pt_next fl s pt sl :
  table_inv (heap s) pt sl → _M pt !! 0 = None →
  let fST := flag_set (Z.lor fl (flags s)) VMM_FLAG_PROCESS_SHOW_TERMINATED in
  ∀ rest pre j a n,
    sl = pre ++ (j, a) :: rest → (length rest < n)%nat →
    ∃ s', GetNextEx_pt n pt (Some a) fl s
            = Some (head (filter (λ b, shown (heap s) fST b = true) (rest.*2)), s')
          ∧ frame s s'.
Proof.
  intros Hinv H0 fST. induction rest as [|[j' a'] rest IH];
    intros pre j a n Hsl Hn; (destruct n as [|n]; [cbn in Hn; lia|]).
  all: assert (Hin : (j, a) ∈ sl)
    by (rewrite Hsl; apply elem_of_app; right; apply elem_of_cons; by left).
  all: destruct (GetNextEx_loop_slot _ _ _ _ _ Hinv Hin) as (o & Ho & Hl).
  all: cbn [GetNextEx_pt]; rewrite Ho; cbn [mbind option_bind]; rewrite Hl;
       cbn [mbind option_bind].
  all: destruct (chain_succ _ _ _ _ _ _ _ Hinv Hsl) as [-> Hnext];
       cbn [fmap list_fmap hd fst].
  - rewrite H0. exists s. split; [done|apply frame_refl].
  - destruct (Hnext _ _ _ eq_refl) as [-> _].
    assert (Hin' : (j', a') ∈ sl).
    { rewrite Hsl. apply elem_of_app. right. apply elem_of_cons. right.
      apply elem_of_cons. by left. }
    destruct (inv_probe _ _ _ Hinv _ _ Hin') as (o' & Ho' & _).
    rewrite Ho'. cbn [mbind option_bind snd].
    rewrite (shown_cond _ _ _ _ Ho'). fold fST. rewrite filter_cons.
    destruct (shown (heap s) fST a') eqn:Es; cbn [negb].
    + rewrite decide_True by done. cbn [head].
      by apply GetNextEx_token.
    + rewrite decide_False by done.
      apply (IH (pre ++ [(j, a)]) j' a' n); [by rewrite <- app_assoc|].
      cbn [length] in Hn. lia.
Qed.

(** Enumeration with [VmmProcessGetNextEx]: on a table built by
    [VmmProcessCreateEntry] installs ([l], the most recent first) whose
    slot 0 is free, the call with NULL returns the first process of [l]
    that is shown, the call with a process of the table returns the next
    shown process after it, and NULL after the last one. *)
Theorem GetNextEx_enumerates fl s pt l :
  0 < N ≤ 2 ^ 16 → built (heap s) pt l → _M pt !! 0 = None →
  let vis := filter (λ b, shown (heap s)
               (flag_set (Z.lor fl (flags s)) VMM_FLAG_PROCESS_SHOW_TERMINATED) b
               = true) in
  (∀ n, (length l < n)%nat →
     ∃ s', VmmProcessGetNextEx n (Some pt) None fl s = Some (head (vis l), s')
           ∧ frame s s') ∧
  (∀ l1 a l2 n, l = l1 ++ a :: l2 → (length l2 < n)%nat →
     ∃ s', VmmProcessGetNextEx n (Some pt) (Some a) fl s = Some (head (vis l2), s')
           ∧ frame s s').
Proof.
  intros HN Hb H0 vis.
  destruct (built_table_inv _ _ _ HN Hb) as (sl & <- & Hinv).
  split.
  - intros n Hn. destruct n as [|n]; [lia|]. cbn [VmmProcessGetNextEx GetNextEx_pt].
    cbn [mbind option_bind]. rewrite (inv_head _ _ _ Hinv).
    destruct sl as [|[j a] rest]; cbn [fmap list_fmap hd fst snd].
    { rewrite H0. exists s. split; [done|apply frame_refl]. }
    assert (Hin : (j, a) ∈ (j, a) :: rest) by (apply elem_of_cons; by left).
    rewrite (proj2 (inv_M _ _ _ Hinv j a) Hin).
    destruct (inv_probe _ _ _ Hinv _ _ Hin) as (o & Ho & _).
    rewrite Ho. cbn [mbind option_bind]. rewrite (shown_cond _ _ _ _ Ho).
    subst vis. cbv beta. rewrite filter_cons.
    destruct (shown (heap s) _ a) eqn:Es; cbn [negb].
    + rewrite decide_True by done. cbn [head]. by apply GetNextEx_token.
    + rewrite decide_False by done.
      apply (GetNextEx_pt_next fl s pt _ Hinv H0 rest [] j a n eq_refl).
      rewrite length_fmap in Hn. cbn [length] in Hn. lia.
  - intros l1 a l2 n Hl Hn.
    apply fmap_app_inv in Hl as (pre & rest0 & -> & Hr & ->).
    symmetry in Hr. apply fmap_cons_inv in Hr as ([j a'] & rest & Ha & -> & ->).
    cbn [snd] in Ha. subst a'. cbn [VmmProcessGetNextEx].
    apply (GetNextEx_pt_next fl s pt _ Hinv H0 rest pre j a n eq_refl).
    by rewrite length_fmap in Hn.
Qed.

(** When slot 0 of the table is occupied [VmmProcessGetNextEx] never
    returns NULL: after the last process of the chain, whose link is 0, it
    goes on with the process of slot 0, so that an enumeration
    [while((p = VmmProcessGetNext(p, 0)))] does not end. *)
Theorem GetNextEx_slot0_never_null fl s pt l a0 :
  0 < N ≤ 2 ^ 16 → built (heap s) pt l → _M pt !! 0 = Some a0 →
  ∀ n p r s',
    (∀ a, p = Some a → a ∈ l) →
    VmmProcessGetNextEx n (Some pt) p fl s = Some (r, s') →
    ∃ b, r = Some b ∧ b ∈ l ∧ built (heap s') pt l.
Proof.
  intros HN Hb H0.
  destruct (built_table_inv _ _ _ HN Hb) as (sl & Hl & Hinv).
  assert (Hstep : ∀ i b o n r s',
    (i, b) ∈ sl → heap s !! b = Some o →
    (∀ p r s', (∀ a, p = Some a → a ∈ l) →
       GetNextEx_pt n pt p fl s = Some (r, s') →
       ∃ b, r = Some b ∧ b ∈ l ∧ built (heap s') pt l) →
    (if negb (dwState o =? 0)
        && negb (flag_set (Z.lor fl (flags s)) VMM_FLAG_PROCESS_SHOW_TERMINATED)
     then GetNextEx_pt n pt (Some b) fl s
     else if flag_set (Z.lor fl (flags s)) VMM_FLAG_PROCESS_TOKEN
             && negb (fInitialized (win_TOKEN o))
     then s1 ← VmmProcess_TokenTryEnsureLock VmmProcess_TokenTryEnsure pt b s;
          Some (Some b, s1)
     else Some (Some b, s)) = Some (r, s') →
    ∃ b, r = Some b ∧ b ∈ l ∧ built (heap s') pt l).
  { intros i b o n r s' Hin Ho IH.
    assert (Hbl : b ∈ l).
    { rewrite <- Hl. by apply (list_elem_of_fmap_2 snd _ (i, b)). }
    destruct (negb (dwState o =? 0) && negb _).
    - apply IH. by intros ? [= <-].
    - destruct (GetNextEx_token pt b o fl s Ho) as (s1 & -> & Hf).
      intros [= <- <-]. exists b. split; [done|]. split; [done|].
      eapply built_heap_ext; [apply Hf|done]. }
  induction n as [|n IH]; intros p r s' Hp; [done|].
  cbn [VmmProcessGetNextEx GetNextEx_pt].
  destruct p as [a|].
  - assert (∃ j, (j, a) ∈ sl) as [j Hin].
    { specialize (Hp a eq_refl). rewrite <- Hl in Hp.
      apply list_elem_of_fmap_1 in Hp as ([j a'] & -> & Hin). by exists j. }
    destruct (GetNextEx_loop_slot _ _ _ _ _ Hinv Hin) as (o & Ho & Hlp).
    rewrite Ho. cbn [mbind option_bind]. rewrite Hlp. cbn [mbind option_bind].
    destruct (chain_next_slot0 _ _ _ _ Hinv H0 _ _ Hin) as (a' & -> & Hin' & _).
    destruct (inv_probe _ _ _ Hinv _ _ Hin') as (o' & Ho' & _).
    rewrite Ho'. cbn [mbind option_bind].
    apply (Hstep _ _ _ _ _ _ Hin' Ho'). apply IH.
  - cbn [mbind option_bind]. rewrite (inv_head _ _ _ Hinv).
    destruct sl as [|[j a] rest].
    { apply (inv_M _ _ _ Hinv) in H0. by apply elem_of_nil in H0. }
    cbn [fmap list_fmap hd fst].
    assert (Hin : (j, a) ∈ (j, a) :: rest) by (apply elem_of_cons; by left).
    rewrite (proj2 (inv_M _ _ _ Hinv j a) Hin).
    destruct (inv_probe _ _ _ Hinv _ _ Hin) as (o & Ho & _).
    rewrite Ho. cbn [mbind option_bind].
    apply (Hstep _ _ _ _ _ _ Hin Ho). apply IH.
Qed.

(** ** [VmmProcessTlbClear] *)

(** The heap after [fTlbSpiderDone] has been cleared in the objects [l]. *)
Definition cleared (l : list nat) (h : gmap nat VMM_PROCESS) : gmap nat VMM_PROCESS :=
  foldl (λ h b, alter (λ o, set_fTlbSpiderDone o false) b h) h l.

Lemma cleared_lookup l h b :
  cleared l h !! b =
  if decide (b ∈ l) then (λ o, set_fTlbSpiderDone o false) <$> h !! b else h !! b.
Proof.
  revert h. induction l as [|x l IH]; intros h; cbn [cleared foldl].
  { rewrite decide_False; [done|]. by intros ?%elem_of_nil. }
  fold (cleared l (alter (λ o, set_fTlbSpiderDone o false) x h)). rewrite IH.
  destruct (decide (b = x)) as [->|Hne].
  - rewrite lookup_alter_eq. rewrite (decide_True (P := x ∈ x :: l))
      by (apply elem_of_cons; by left).
    destruct (decide (x ∈ l)); [|done]. by destruct (h !! x).
  - rewrite lookup_alter_ne by done.
    destruct (decide (b ∈ l)) as [Hl|Hl].
    + rewrite decide_True; [done|]. apply elem_of_cons. by right.
    + rewrite decide_False; [done|]. rewrite elem_of_cons. tauto.
Qed.

Lemma insert_alter_eq (h : gmap nat VMM_PROCESS) a o g :
  h !! a = Some o → <[a := g o]> h = alter g a h.
Proof.
  intros Ha. apply map_eq. intros b. destruct (decide (b = a)) as [->|Hne].
  - by rewrite lookup_insert_eq, lookup_alter_eq, Ha.
  - by rewrite lookup_insert_ne, lookup_alter_ne.
Qed.

Lemma TlbClear_loop_ok h0 pt sl :
  table_inv h0 pt sl →
  (_M pt !! 0 = None ∨ _iFLink pt = 0) →
  ∀ rest pre j a h fuel,
    sl = pre ++ (j, a) :: rest →
    (∀ b, b ∈ a :: rest.*2 → is_Some (h !! b)) →
    (length rest < fuel)%nat →
    TlbClear_loop fuel h pt j a = Some (cleared (a :: rest.*2) h).
Proof.
  intros Hinv Hzero. induction rest as [|[j' a'] rest IH];
    intros pre j a h fuel Hsl Hal Hfuel;
    (destruct fuel as [|fuel]; [cbn in Hfuel; lia|]); cbn [TlbClear_loop].
  all: destruct (Hal a ltac:(apply elem_of_cons; by left)) as [o Ho].
  all: rewrite Ho; cbn [mbind option_bind].
  all: destruct (chain_succ _ _ _ _ _ _ _ Hinv Hsl) as [-> Hnext];
       cbn [fmap list_fmap hd fst snd].
  all: rewrite (insert_alter_eq _ _ _ (λ o, set_fTlbSpiderDone o false) Ho).
  - destruct (_M pt !! 0) as [a'|] eqn:E0; [|done].
    destruct Hzero as [?|Hh]; [congruence|].
    by rewrite decide_True.
  - destruct (Hnext _ _ _ eq_refl) as [-> Hne]. rewrite decide_False by done.
    rewrite (IH (pre ++ [(j, a)]) j' a'); [done|by rewrite <- app_assoc| |].
    + intros b Hb. rewrite lookup_alter_is_Some. apply Hal.
      apply elem_of_cons. by right.
    + cbn [length] in Hfuel. lia.
Qed.

(** [VmmProcessTlbClear] on a table built by [VmmProcessCreateEntry]
    installs whose slot 0 is free or holds the most recent object: the
    flag [fTlbSpiderDone] is cleared in every process of the table, and
    nothing else changes. *)
Theorem VmmProcessTlbClear_clears s pt l fuel :
  0 < N ≤ 2 ^ 16 →
  pObCPROC s = Some pt → built (heap s) pt l →
  (_M pt !! 0 = None ∨ _iFLink pt = 0) →
  (length l ≤ fuel)%nat →
  ∃ s', VmmProcessTlbClear fuel s = Some s' ∧
    pObCPROC s' = pObCPROC s ∧ flags s' = flags s ∧
    ∀ b, heap s' !! b =
         if decide (b ∈ l) then (λ o, set_fTlbSpiderDone o false) <$> heap s !! b
         else heap s !! b.
Proof.
  intros HN Hpt Hb Hzero Hfuel.
  destruct (built_table_inv _ _ _ HN Hb) as (sl & <- & Hinv).
  unfold VmmProcessTlbClear. rewrite Hpt, (inv_head _ _ _ Hinv).
  destruct sl as [|[j a] rest]; cbn [fmap list_fmap hd fst snd].
  - assert (HM0 : _M pt !! 0 = None).
    { destruct (_M pt !! 0) as [a|] eqn:E0; [|done].
      apply (inv_M _ _ _ Hinv) in E0. by apply elem_of_nil in E0. }
    rewrite HM0. exists s. split; [done|]. split; [done|]. split; [done|].
    intros b. rewrite decide_False; [done|]. by intros ?%elem_of_nil.
  - assert (Hin : (j, a) ∈ (j, a) :: rest) by (apply elem_of_cons; by left).
    rewrite (proj2 (inv_M _ _ _ Hinv j a) Hin).
    rewrite (TlbClear_loop_ok _ _ _ Hinv Hzero rest [] j a (heap s) fuel eq_refl).
    + cbn [mbind option_bind]. eexists. split; [done|].
      split; [done|]. split; [done|]. intros b.
      apply cleared_lookup.
    + intros b Hb'.
      assert (∃ i, (i, b) ∈ (j, a) :: rest) as [i Hi].
      { change (a :: rest.*2) with (((j, a) :: rest).*2) in Hb'.
        apply list_elem_of_fmap_1 in Hb' as ([i b'] & -> & Hi). by exists i. }
      destruct (inv_probe _ _ _ Hinv _ _ Hi) as (o & Ho & _). by exists o.
    + cbn [length] in Hfuel. rewrite length_fmap in Hfuel. cbn [length] in Hfuel. lia.
Qed.

Lemma TlbClear_loop_never h0 pt sl a0 :
  table_inv h0 pt sl → _M pt !! 0 = Some a0 → _iFLink pt ≠ 0 →
  ∀ fuel h j a, (j, a) ∈ sl → TlbClear_loop fuel h pt j a = None.
Proof.
  intros Hinv H0 Hh. induction fuel as [|fuel IH]; intros h j a Hin; [done|].
  cbn [TlbClear_loop]. destruct (h !! a) as [o|]; [|done]. cbn [mbind option_bind].
  destruct (chain_next_slot0 _ _ _ _ Hinv H0 _ _ Hin) as (a' & -> & Hin' & Hne).
  rewrite decide_False by auto. by apply IH.
Qed.

(** [VmmProcessTlbClear] does not return when slot 0 of the live table
    holds a process that is not the most recently installed one: the walk
    goes round the chain through slot 0 for ever. *)
Theorem VmmProcessTlbClear_slot0_never_returns s pt l a0 fuel :
  0 < N ≤ 2 ^ 16 →
  pObCPROC s = Some pt → built (heap s) pt l →
  _M pt !! 0 = Some a0 → _iFLink pt ≠ 0 →
  VmmProcessTlbClear fuel s = None.
Proof.
  intros HN Hpt Hb H0 Hh.
  destruct (built_table_inv _ _ _ HN Hb) as (sl & _ & Hinv).
  unfold VmmProcessTlbClear. rewrite Hpt.
  destruct sl as [|[j a] rest].
  { apply (inv_M _ _ _ Hinv) in H0. by apply elem_of_nil in H0. }
  assert (Hin : (j, a) ∈ (j, a) :: rest) by (apply elem_of_cons; by left).
  rewrite (inv_head _ _ _ Hinv). cbn [fmap list_fmap hd fst].
  rewrite (proj2 (inv_M _ _ _ Hinv j a) Hin).
  by rewrite (TlbClear_loop_never _ _ _ _ Hinv H0 Hh fuel (heap s) j a Hin).
Qed.

(** ** A PID is installed once in a generation, and a generation replaces
    the one before *)

#[local] Abbreviation CLONE := VMM_PID_PROCESS_CLONE_WITH_KERNELMEMORY.
#[local] Abbreviation CreateEntry := (VmmProcessCreateEntry VmmProcess_TokenTryEnsure).
#[local] Abbreviation GetEx := (VmmProcessGetEx VmmProcess_TokenTryEnsure).



Lemma next_slot_mod i : 0 < N → 0 ≤ i < N → next_slot i = (i + 1) `mod` N.
Proof.
  intros HN Hi. unfold next_slot. destruct (decide (i + 1 = N)) as [->|Hne].
  - by rewrite Z.mod_same by lia.
  - rewrite Z.mod_small; lia.
Qed.

(** The probe for a PID that no process of the table has ends at [fail:]
    within one round of the table. *)
Lemma GetEx_loop_absent h pt sl pid :
  0 < N → table_inv h pt sl →
  (∀ j a, (j, a) ∈ sl → pid_of h a ≠ pid) →
  GetEx_loop (Z.to_nat N) h pt pid (home pid) (home pid) = Some None.
Proof.
  intros HN Hinv Habs.
  assert (Hi0 : 0 ≤ home pid < N) by (apply Z.mod_pos_bound; lia).
  assert (Hgen : ∀ m fuel i,
    (1 ≤ m)%nat → Z.of_nat m ≤ N → (m ≤ fuel)%nat →
    i = (home pid + (N - Z.of_nat m)) `mod` N →
    GetEx_loop fuel h pt pid i (home pid) = Some None).
  { induction m as [|m IH]; intros fuel i Hm HmN Hfuel Hi; [lia|].
    destruct fuel as [|fuel]; [lia|]. cbn [GetEx_loop].
    assert (Hir : 0 ≤ i < N) by (subst i; apply Z.mod_pos_bound; lia).
    destruct (_M pt !! i) as [b|] eqn:EM; [|done].
    apply (inv_M _ _ _ Hinv) in EM.
    destruct (inv_probe _ _ _ Hinv _ _ EM) as (o & Ho & _).
    rewrite Ho. cbn [mbind option_bind].
    specialize (Habs _ _ EM). unfold pid_of in Habs. rewrite Ho in Habs.
    cbn in Habs. rewrite decide_False by done.
    assert (Hnext : next_slot i = (home pid + (N - Z.of_nat m)) `mod` N).
    { rewrite next_slot_mod by done. subst i.
      rewrite Zplus_mod_idemp_l. f_equal. lia. }
    destruct (decide (m = 0%nat)) as [->|Hm0].
    - rewrite decide_True; [done|]. rewrite Hnext.
      replace (home pid + (N - Z.of_nat 0)) with (home pid + 1 * N) by lia.
      rewrite Z.mod_add by lia. apply Z.mod_small. lia.
    - rewrite decide_False.
      + apply IH; [lia|lia|lia|done].
      + rewrite Hnext. intros E.
        destruct (Z_lt_le_dec (home pid + (N - Z.of_nat m)) N) as [Hlt|Hge].
        * rewrite Z.mod_small in E by lia. lia.
        * replace (home pid + (N - Z.of_nat m))
            with (home pid - Z.of_nat m + 1 * N) in E by lia.
          rewrite Z.mod_add in E by lia. rewrite Z.mod_small in E by lia. lia. }
  apply (Hgen (Z.to_nat N)); [lia|lia|lia|].
  rewrite Z2Nat.id by lia. rewrite Z.sub_diag, Z.add_0_r.
  symmetry. apply Z.mod_small. done.
Qed.

(** [VmmProcessCreateFinish] clears the processes of the generation
    before.  For a table of at most 2^16 slots and a new table made by
    installs of [VmmProcessCreateEntry] alone: a PID without the bit
    [VMM_PID_PROCESS_CLONE_WITH_KERNELMEMORY] that no process of the new
    table has is not found afterwards, whatever the table before held:
    [VmmProcessGetEx] on the live table returns NULL for it and changes
    nothing.  (A PID with the clone bit is looked up a second time without
    the bit, and a clone is made of what that finds.) *)
Theorem CreateFinish_drops pid fl s ptOld ptN l :
  0 < N ≤ 2 ^ 16 → flag_set pid CLONE = false →
  pObCPROC s = Some ptOld → pObCNewPROC ptOld = Some ptN →
  built (heap s) ptN l →
  (∀ a, a ∈ l → pid_of (heap s) a ≠ pid) →
  GetEx None pid fl (VmmProcessCreateFinish s)
    = Some (None, VmmProcessCreateFinish s).
Proof.
  intros HN Hc Hold Hnew Hb Habs.
  destruct (built_table_inv _ _ _ HN Hb) as (sl & Hl & Hinv).
  unfold VmmProcessCreateFinish. rewrite Hold, Hnew.
  unfold VmmProcessGetEx. cbn [pObCPROC set_pObCPROC mbind option_bind GetEx_pt].
  change (heap (set_pObCPROC s (Some ptN))) with (heap s).
  rewrite (GetEx_loop_absent (heap s) ptN sl pid); [|lia|done|].
  - cbn [mbind option_bind]. by rewrite Hc.
  - intros j a Hin. apply Habs. rewrite <- Hl.
    by apply (list_elem_of_fmap_2 snd _ (j, a)).
Qed.

End ProcIter.

(** ** Concrete runs (a table of 8 slots) *)

#[local] Existing Instance small_consts.

Lemma small_N : 0 < VMM_PROCESSTABLE_ENTRIES_MAX ≤ 2 ^ 16.
Proof. vm_compute. split; [reflexivity|discriminate]. Qed.

(** The table of [st_slot0]: PID 8 (object 0) in slot 0, then PID 4
    (object 1) in slot 4, which is the head. *)
Definition st_8 : VMM_CONTEXT :=
  state_of (VmmProcessCreateEntry tok_none true true 8 4 0 0x1aa000 0
              name_A false None 0 st_init) st_init.

Lemma st_slot0_built : built (heap st_slot0) (live_table st_slot0) [1; 0]%nat.
Proof.
  eapply (built_install _ (pending_table st_8) [0]%nat 1%nat);
    [|vm_compute; reflexivity..].
  eapply (built_install _ table_zero [] 0%nat);
    [|vm_compute; reflexivity..].
  apply built_zero.
Qed.

Lemma ListPIDs_slot0_never_returns_witness :
  VmmProcessListPIDs 100 (Some [0; 0; 0]) 3 0 st_slot0 = None.
Proof.
  apply (ListPIDs_slot0_never_returns 0 st_slot0 (live_table st_slot0)
           [1; 0]%nat 0%nat 100 [0; 0; 0] 3 small_N).
  - vm_compute; reflexivity.
  - exact st_slot0_built.
  - vm_compute; reflexivity.
  - vm_compute; discriminate.
  - vm_compute; discriminate.
Defined.

(** Enumeration of the second generation (PIDs 301, 204 terminated, 100):
    301, then 100, then NULL. *)
Lemma GetNextEx_enumerates_witness :
  (∃ s', VmmProcessGetNextEx tok_none 4 (Some (live_table st_gen2)) None 0 st_gen2
         = Some (Some 2%nat, s')) ∧
  (∃ s', VmmProcessGetNextEx tok_none 4 (Some (live_table st_gen2)) (Some 2%nat) 0
           st_gen2 = Some (Some 0%nat, s')) ∧
  (∃ s', VmmProcessGetNextEx tok_none 4 (Some (live_table st_gen2)) (Some 0%nat) 0
           st_gen2 = Some (None, s')).
Proof.
  assert (H0 : _M (live_table st_gen2) !! 0 = None) by (vm_compute; reflexivity).
  destruct (GetNextEx_enumerates tok_none 0 st_gen2 _ _ small_N st_gen2_built H0)
    as [Hfirst Hnext].
  split; [|split].
  - destruct (Hfirst 4%nat ltac:(cbn; lia)) as (s' & E & _). exists s'. exact E.
  - destruct (Hnext [] 2%nat [1; 0]%nat 4%nat eq_refl ltac:(cbn; lia))
      as (s' & E & _). exists s'. exact E.
  - destruct (Hnext [2; 1]%nat 0%nat [] 4%nat eq_refl ltac:(cbn; lia))
      as (s' & E & _). exists s'. exact E.
Defined.

(** In [st_slot0] the process after PID 8, the last of the chain, is
    PID 8 again. *)
Lemma GetNextEx_slot0_never_null_witness :
  ∃ b s', VmmProcessGetNextEx tok_none 4 (Some (live_table st_slot0)) (Some 0%nat) 0
            st_slot0 = Some (Some b, s').
Proof.
  assert (H0 : _M (live_table st_slot0) !! 0 = Some 0%nat) by (vm_compute; reflexivity).
  destruct (VmmProcessGetNextEx tok_none 4 (Some (live_table st_slot0)) (Some 0%nat) 0
              st_slot0) as [[r s']|] eqn:E; [|vm_compute in E; discriminate E].
  destruct (GetNextEx_slot0_never_null tok_none 0 st_slot0 _ _ _ small_N
              st_slot0_built H0 4%nat (Some 0%nat) r s') as (b & -> & _).
  - intros a [= <-]. apply elem_of_cons. right. apply elem_of_cons. by left.
  - exact E.
  - by exists b, s'.
Defined.

(** The second generation after the spider has run on the objects 2 and 0. *)
Definition st_spidered : VMM_CONTEXT :=
  set_heap st_gen2
    (alter (λ o, set_fTlbSpiderDone o true) 2%nat
       (alter (λ o, set_fTlbSpiderDone o true) 0%nat (heap st_gen2))).

Lemma st_spidered_built : built (heap st_spidered) (live_table st_spidered) [2; 1; 0]%nat.
Proof.
  eapply (built_install _ (pending_table st_204) [1; 0]%nat 2%nat);
    [|vm_compute; reflexivity..].
  eapply (built_install _ (pending_table st_100) [0]%nat 1%nat);
    [|vm_compute; reflexivity..].
  eapply (built_install _ table_zero [] 0%nat);
    [|vm_compute; reflexivity..].
  apply built_zero.
Qed.

Lemma VmmProcessTlbClear_clears_witness :
  fTlbSpiderDone <$> heap st_spidered !! 2%nat = Some true ∧
  ∃ s', VmmProcessTlbClear 3 st_spidered = Some s' ∧
    fTlbSpiderDone <$> heap s' !! 2%nat = Some false ∧
    fTlbSpiderDone <$> heap s' !! 0%nat = Some false.
Proof.
  split; [vm_compute; reflexivity|].
  destruct (VmmProcessTlbClear_clears st_spidered (live_table st_spidered)
              [2; 1; 0]%nat 3 small_N) as (s' & E & _ & _ & Hh).
  - vm_compute; reflexivity.
  - exact st_spidered_built.
  - left. vm_compute; reflexivity.
  - cbn; lia.
  - exists s'. split; [exact E|]. rewrite !Hh. split; vm_compute; reflexivity.
Defined.

Lemma VmmProcessTlbClear_slot0_never_returns_witness :
  VmmProcessTlbClear 100 st_slot0 = None.
Proof.
  apply (VmmProcessTlbClear_slot0_never_returns st_slot0 (live_table st_slot0)
           [1; 0]%nat 0%nat 100 small_N).
  - vm_compute; reflexivity.
  - exact st_slot0_built.
  - vm_compute; reflexivity.
  - vm_compute; discriminate.
Defined.


(** A third generation that holds PID 301 only: after
    [VmmProcessCreateFinish] PID 100 is not found any more. *)
Definition st_only301 : VMM_CONTEXT :=
  state_of (VmmProcessCreateEntry tok_none true false 301 4 0 0x3cc000 0
              name_A true None 0 st_gen2) st_gen2.

Lemma CreateFinish_drops_witness :
  fst <$> VmmProcessGetEx tok_none None 100 0 st_only301 = Some (Some 0%nat) ∧
  VmmProcessGetEx tok_none None 100 0 (VmmProcessCreateFinish st_only301)
    = Some (None, VmmProcessCreateFinish st_only301).
Proof.
  split; [vm_compute; reflexivity|].
  apply (CreateFinish_drops tok_none 100 0 st_only301 (live_table st_only301)
           (pending_table st_only301) [2]%nat small_N).
  - reflexivity.
  - vm_compute; reflexivity.
  - vm_compute; reflexivity.
  - eapply (built_install _ table_zero [] 2%nat); [apply built_zero|vm_compute; reflexivity..].
  - intros a [->|[]%elem_of_nil]%elem_of_cons. vm_compute. discriminate.
Defined.

End ProcIter.

(** * More of the page cache: queries and the read-through path *)
Module CacheOps.
Import Cache.

Section CacheOps.
Context `{!VmmConsts}.

(** Modelled from the spec: [Ob_DECREF] of [ob.c] accepts NULL and does
    nothing then (the callers in this file rely on it). *)
Definition Ob_DECREF_opt (p : option nat) (s : VMM_CACHE) : option VMM_CACHE :=
  match p with Some x => Ob_DECREF x s | None => Some s end.

(** [VmmCacheExists] *)
Definition VmmCacheExists (fuel : nat) (dwTblTag qwA : Z) (s : VMM_CACHE)
    : option (bool * VMM_CACHE) :=
  '(pOb, s1) ← VmmCacheGet fuel dwTblTag qwA s;
  let result := match pOb with Some _ => true | None => false end in
  s2 ← Ob_DECREF_opt pOb s1;
  Some (result, s2).

(** ** The reference a lookup takes *)

Lemma Ob_INCREF_DECREF x s s1 o :
  mem s !! x = Some o → 2 ≤ _count o < 2 ^ 32 - 1 →
  Ob_INCREF x s = Some s1 → Ob_DECREF x s1 = Some s.
Proof.
  intros Ho Hc. unfold Ob_INCREF, wr. rewrite Ho. cbn [mbind option_bind].
  intros [= <-]. unfold Ob_DECREF. rewrite mem_set_mem, lookup_insert_eq.
  cbn [mbind option_bind].
  assert (Hi : incr32 (_count o) = _count o + 1).
  { unfold incr32. apply Z.mod_small. lia. }
  assert (Hd : decr32 (_count (set_count (incr32 (_count o)) o)) = _count o).
  { cbn. rewrite Hi. unfold decr32. rewrite Z.add_simpl_r.
    apply Z.mod_small. lia. }
  rewrite Hd. rewrite !decide_False by lia.
  rewrite insert_insert_eq. f_equal.
  replace (set_count (_count o) (set_count (incr32 (_count o)) o)) with o
    by (by destruct o).
  rewrite (insert_id _ _ _ Ho). by destruct s.
Qed.

Lemma VmmCacheGet_inv fuel tag a s r s1 :
  VmmCacheGet fuel tag a s = Some (r, s1) →
  match r with
  | Some x => Ob_INCREF x s = Some s1
  | None => s1 = s
  end.
Proof.
  unfold VmmCacheGet.
  destruct (VmmCacheTableGet tag) as [T|]; [|by intros ?; simplify_eq].
  destruct (negb (fActive (tbl s T))); [by intros ?; simplify_eq|].
  destruct (Get_loop _ _ _ _) as [[x|]|]; cbn [mbind option_bind]; [| |done].
  - destruct (Ob_INCREF x s) as [s'|] eqn:E; cbn [mbind option_bind]; [|done].
    by intros ?; simplify_eq.
  - by intros ?; simplify_eq.
Qed.

(** [VmmCacheExists] is a query: it answers whether [VmmCacheGet] finds a
    descriptor, and it leaves the cache as it found it (the reference the
    lookup takes is released). *)
Theorem VmmCacheExists_query fuel tag a s r s1 :
  VmmCacheGet fuel tag a s = Some (r, s1) →
  (∀ x, r = Some x → ∃ o, mem s !! x = Some o ∧ 2 ≤ _count o < 2 ^ 32 - 1) →
  VmmCacheExists fuel tag a s
    = Some (match r with Some _ => true | None => false end, s).
Proof.
  intros Hget Hc. unfold VmmCacheExists. rewrite Hget. cbn [mbind option_bind].
  apply VmmCacheGet_inv in Hget. destruct r as [x|]; cbn [Ob_DECREF_opt].
  - destruct (Hc x eq_refl) as (o & Ho & Hcnt).
    by rewrite (Ob_INCREF_DECREF _ _ _ _ Ho Hcnt Hget).
  - by subst s1.
Qed.

(** ** Put, then get *)

Lemma VmmCacheGet_tag fuel tag tag' T a s :
  VmmCacheTableGet tag = Some T → VmmCacheTableGet tag' = Some T →
  VmmCacheGet fuel tag a s = VmmCacheGet fuel tag' a s.
Proof. intros H1 H2. unfold VmmCacheGet. by rewrite H1, H2. Qed.

Lemma put_then_get a s o T fuel :
  mem s !! a = Some o →
  VmmCacheTableGet (_tag o) = Some T →
  fActive (tbl s T) = true → f (h o) = true →
  qwA (h o) ≠ MEM_SCATTER_ADDR_INVALID →
  let iR := VMM_CACHE2_GET_REGION (qwA (h o)) in
  let iB := VMM_CACHE2_GET_BUCKET (qwA (h o)) in
  let r := region (tbl s T) iR in
  (∀ x, R_B r !! iB = Some x → is_Some (mem s !! x) ∧ x ≠ a) →
  (∀ x, R_AgeFLink r = Some x → is_Some (mem s !! x) ∧ x ≠ a) →
  (0 < fuel)%nat →
  ∃ s' s'', VmmCacheReserveReturn (Some a) s = Some s' ∧
    VmmCacheGet fuel (_tag o) (qwA (h o)) s' = Some (Some a, s'') ∧
    h <$> mem s'' !! a = Some (h o) ∧
    _count <$> mem s'' !! a = Some (incr32 (_count o)) ∧
    h <$> mem s' !! a = Some (h o) ∧
    _count <$> mem s' !! a = Some (_count o).
Proof.
  intros Ho HT Hact Hf Hq iR iB r Hhd Hage Hfuel.
  destruct (VmmCacheReserveReturn_insert a s o T Ho HT Hact Hf Hq)
    as (s' & Hret & Hmem & Hreg & _ & _ & _ & Hact').
  { intros x Hx. by apply Hhd. }
  { intros x Hx. by apply Hage. }
  fold iR iB r in Hmem, Hreg.
  destruct (mem_inserted_links a (R_B r !! iB) (R_AgeFLink r) (mem s)
              ltac:(eauto) Hhd Hage a) as (_ & _ & _ & _ & Hcnt & Hh & _).
  rewrite <- Hmem, Ho in Hcnt, Hh. cbn [fmap option_fmap option_map] in Hcnt, Hh.
  destruct (mem s' !! a) as [o'|] eqn:Ho'; [|done].
  cbn in Hcnt, Hh. injection Hcnt as Hcnt. injection Hh as Hh.
  exists s'. unfold VmmCacheGet. rewrite HT, Hact'. cbn [negb]. fold iR iB.
  rewrite Hreg. cbn [R_B]. rewrite lookup_insert_eq.
  destruct fuel as [|fuel]; [lia|]. cbn [Get_loop]. rewrite Ho'.
  cbn [mbind option_bind]. rewrite Hh. rewrite decide_False by (intros Hn; by apply Hn).
  cbn [mbind option_bind]. unfold Ob_INCREF, wr. rewrite Ho'.
  cbn [mbind option_bind]. eexists. split; [done|]. split; [reflexivity|].
  rewrite mem_set_mem, lookup_insert_eq. cbn. by rewrite Hh, Hcnt.
Qed.

(** A descriptor that [VmmCacheReserveReturn] has put in the cache is the
    one [VmmCacheGet] returns for its address: it is at the head of its
    bucket chain, before any older descriptor with the same address, and
    the lookup takes a reference on it. *)
Theorem ReserveReturn_then_Get a s o T fuel :
  mem s !! a = Some o →
  VmmCacheTableGet (_tag o) = Some T →
  fActive (tbl s T) = true → f (h o) = true →
  qwA (h o) ≠ MEM_SCATTER_ADDR_INVALID →
  let iR := VMM_CACHE2_GET_REGION (qwA (h o)) in
  let iB := VMM_CACHE2_GET_BUCKET (qwA (h o)) in
  let r := region (tbl s T) iR in
  (∀ x, R_B r !! iB = Some x → is_Some (mem s !! x) ∧ x ≠ a) →
  (∀ x, R_AgeFLink r = Some x → is_Some (mem s !! x) ∧ x ≠ a) →
  (0 < fuel)%nat →
  ∃ s' s'', VmmCacheReserveReturn (Some a) s = Some s' ∧
    VmmCacheGet fuel (_tag o) (qwA (h o)) s' = Some (Some a, s'') ∧
    h <$> mem s'' !! a = Some (h o) ∧
    _count <$> mem s'' !! a = Some (incr32 (_count o)).
Proof.
  intros Ho HT Hact Hf Hq iR iB r Hhd Hage Hfuel.
  destruct (put_then_get a s o T fuel Ho HT Hact Hf Hq Hhd Hage Hfuel)
    as (s' & s'' & H1 & H2 & H3 & H4 & _).
  by exists s', s''.
Qed.

End CacheOps.

(** ** Concrete runs *)

#[local] Existing Instance small_consts.

(** In [cst_cached] the page 0x1000 is in the PHYS cache and 0x5000 is
    not. *)
Lemma VmmCacheExists_query_witness :
  VmmCacheExists 2 VMM_CACHE_TAG_PHYS 0x1000 cst_cached = Some (true, cst_cached) ∧
  VmmCacheExists 2 VMM_CACHE_TAG_PHYS 0x5000 cst_cached = Some (false, cst_cached).
Proof.
  split.
  - apply (VmmCacheExists_query 2 VMM_CACHE_TAG_PHYS 0x1000 cst_cached (Some 0%nat)
             (default cst_cached
                (snd <$> VmmCacheGet 2 VMM_CACHE_TAG_PHYS 0x1000 cst_cached))).
    + vm_compute; reflexivity.
    + intros x [= <-]. exists (ob_at cst_cached 0).
      split; [vm_compute; reflexivity|]. vm_compute. split; [discriminate|reflexivity].
  - apply (VmmCacheExists_query 2 VMM_CACHE_TAG_PHYS 0x5000 cst_cached None cst_cached).
    + vm_compute; reflexivity.
    + intros x [=].
Defined.

(** The filled descriptor 0 of [cst_filled] is returned to the cache and
    found again, with three references. *)
Lemma ReserveReturn_then_Get_witness :
  ∃ s' s'', VmmCacheReserveReturn (Some 0%nat) cst_filled = Some s' ∧
    VmmCacheGet 1 VMM_CACHE_TAG_PHYS 0x1000 s' = Some (Some 0%nat, s'') ∧
    _count <$> mem s'' !! 0%nat = Some 3.
Proof.
  destruct (ReserveReturn_then_Get 0 cst_filled (ob_at cst_filled 0) T_PHYS 1)
    as (s' & s'' & Hret & Hget & _ & Hc).
  - vm_compute; reflexivity.
  - vm_compute; reflexivity.
  - vm_compute; reflexivity.
  - vm_compute; reflexivity.
  - vm_compute; discriminate.
  - intros x Hx. vm_compute in Hx. discriminate Hx.
  - intros x Hx. vm_compute in Hx. discriminate Hx.
  - lia.
  - exists s', s''. split; [exact Hret|]. split; [exact Hget|]. exact Hc.
Defined.

End CacheOps.

(** * The read-through path of the cache *)
Module ReadThrough.
Import Cache Scatter CacheOps.

Section ReadThrough.
Context `{!VmmConsts}.
Variable D : Type.
Variable LcReadScatter : D → list MEM_SCATTER → D * list (bool * list Z).

#[local] Abbreviation VMM_WORLD := (Scatter.VMM_WORLD D).
#[local] Abbreviation cache := (Scatter.cache D).
#[local] Abbreviation set_cache := (Scatter.set_cache D).
#[local] Abbreviation dev_read := (Scatter.dev_read D LcReadScatter).
#[local] Abbreviation rd_log := (Scatter.rd_log D).
#[local] Abbreviation dev := (Scatter.dev D).

(** [VmmCacheGet_FromDeviceOnMiss] *)
Definition VmmCacheGet_FromDeviceOnMiss (fuel : nat)
    (dwTblTag dwTblTagSecondaryOpt qwA : Z) (w : VMM_WORLD)
    : option (option nat * VMM_WORLD) :=
  '(pObMEM, s1) ← VmmCacheGet fuel dwTblTag qwA (cache w);
  match pObMEM with
  | Some x => Some (Some x, set_cache s1 w)
  | None =>
    '(pObReservedMEM, s2) ← VmmCacheReserve fuel dwTblTag s1;
    match pObReservedMEM with
    | None => Some (None, set_cache s2 w)
    | Some r =>
      s3 ← wr r (λ o, set_h (set_qwA qwA (h o)) o) s2;
      s5 ← (if dwTblTagSecondaryOpt =? 0 then Some s3
            else
              '(pOb2, s4) ← VmmCacheGet fuel dwTblTagSecondaryOpt qwA s3;
              match pOb2 with
              | Some y =>
                o2 ← mem s4 !! y;
                s4a ← wr r (λ o, set_h (set_pb (memcpy (pb (h o)) (pb (h o2)) 0x1000)
                                          (set_f true (h o))) o) s4;
                Ob_DECREF y s4a
              | None => Some s4
              end);
      o ← mem s5 !! r;
      w6 ← (if f (h o) then Some (set_cache s5 w)
            else
              let '(res, w') := dev_read [h o] (set_cache s5 w) in
              '(_, s6) ← write_back [P_cache r] res [] (cache w');
              Some (set_cache s6 w'));
      o ← mem (cache w6) !! r;
      if f (h o) then
        s7 ← Ob_INCREF r (cache w6);
        s8 ← VmmCacheReserveReturn (Some r) s7;
        Some (Some r, set_cache s8 w6)
      else
        s8 ← VmmCacheReserveReturn (Some r) (cache w6);
        Some (None, set_cache s8 w6)
    end
  end.


(** ** A miss that is answered by the device or by the secondary table *)

Lemma wr_Some a g s o :
  mem s !! a = Some o → wr a g s = Some (set_mem s (<[a := g o]> (mem s))).
Proof. intros Ho. unfold wr. by rewrite Ho. Qed.

Lemma tbl_set_mem' s m T : tbl (set_mem s m) T = tbl s T.
Proof. by destruct T. Qed.

Lemma Ob_DECREF_total a s : is_Some (mem s !! a) → is_Some (Ob_DECREF a s).
Proof.
  intros [o Ho]. unfold Ob_DECREF. rewrite Ho. cbn [mbind option_bind].
  destruct (decide (decr32 (_count o) = 0)); [eauto|].
  destruct (decide (decr32 (_count o) = 1)); [|eauto].
  unfold VmmCache_CallbackRefCount1. rewrite mem_set_mem, lookup_insert_eq.
  cbn [mbind option_bind]. destruct (VmmCacheTableGet _) as [T|]; [|eauto].
  destruct (negb _); [eauto|]. unfold Ob_INCREF, wr.
  rewrite mem_set_mem, lookup_insert_eq. cbn [mbind option_bind]. eauto.
Qed.

Lemma Ob_DECREF_dec y s o :
  mem s !! y = Some o → 3 ≤ _count o < 2 ^ 32 →
  Ob_DECREF y s = Some (set_mem s (<[y := set_count (_count o - 1) o]> (mem s))).
Proof.
  intros Ho Hc. unfold Ob_DECREF. rewrite Ho. cbn [mbind option_bind].
  assert (Hd : decr32 (_count o) = _count o - 1).
  { unfold decr32. apply Z.mod_small. lia. }
  rewrite Hd. by rewrite !decide_False by lia.
Qed.

#[local] Ltac wsimpl :=
  cbn [Scatter.cache Scatter.set_cache Scatter.dev Scatter.rd_log Scatter.wr_log
       Scatter.ctx_flags Scatter.paMax Scatter.fLocalAlloc].

(** The end of [VmmCacheGet_FromDeviceOnMiss] for a reserved descriptor
    that has been filled: it is put in the cache with one more
    reference, the one of the caller. *)
Lemma FromDeviceOnMiss_put fuel tag T r s6 o6 :
  VmmCacheTableGet tag = Some T →
  mem s6 !! r = Some o6 → VmmCacheTableGet (_tag o6) = Some T →
  f (h o6) = true → fActive (tbl s6 T) = true →
  qwA (h o6) ≠ MEM_SCATTER_ADDR_INVALID →
  let rg := region (tbl s6 T) (VMM_CACHE2_GET_REGION (qwA (h o6))) in
  (∀ x, R_B rg !! VMM_CACHE2_GET_BUCKET (qwA (h o6)) = Some x →
        is_Some (mem s6 !! x) ∧ x ≠ r) →
  (∀ x, R_AgeFLink rg = Some x → is_Some (mem s6 !! x) ∧ x ≠ r) →
  (0 < fuel)%nat →
  ∃ s7 s8, Ob_INCREF r s6 = Some s7 ∧
    VmmCacheReserveReturn (Some r) s7 = Some s8 ∧
    h <$> mem s8 !! r = Some (h o6) ∧
    _count <$> mem s8 !! r = Some (incr32 (_count o6)) ∧
    (∀ y, y ≠ r → _count <$> mem s8 !! y = _count <$> mem s6 !! y) ∧
    ∃ s'', VmmCacheGet fuel tag (qwA (h o6)) s8 = Some (Some r, s'').
Proof.
  intros HT Ho6 HTo Hf Hact Hq rg Hhd Hage Hfuel.
  unfold Ob_INCREF. rewrite (wr_Some _ _ _ o6 Ho6). eexists. 
  set (o7 := set_count (incr32 (_count o6)) o6).
  set (s7 := set_mem s6 _).
  assert (Ho7 : mem s7 !! r = Some o7).
  { subst s7. by rewrite mem_set_mem, lookup_insert_eq. }
  assert (Hal7 : ∀ x, is_Some (mem s6 !! x) → is_Some (mem s7 !! x)).
  { intros x Hx. subst s7. rewrite mem_set_mem. by apply lookup_insert_is_Some'; right. }
  assert (Ht7 : ∀ T', tbl s7 T' = tbl s6 T').
  { intros T'. subst s7. by rewrite tbl_set_mem'. }
  assert (Hhd7 : ∀ x, R_B (region (tbl s7 T) (VMM_CACHE2_GET_REGION (qwA (h o7))))
                   !! VMM_CACHE2_GET_BUCKET (qwA (h o7)) = Some x →
                 is_Some (mem s7 !! x) ∧ x ≠ r).
  { rewrite Ht7. intros x Hx. destruct (Hhd x Hx). auto. }
  assert (Hage7 : ∀ x, R_AgeFLink (region (tbl s7 T) (VMM_CACHE2_GET_REGION (qwA (h o7))))
                    = Some x → is_Some (mem s7 !! x) ∧ x ≠ r).
  { rewrite Ht7. intros x Hx. destruct (Hage x Hx). auto. }
  assert (Hact7 : fActive (tbl s7 T) = true) by (by rewrite Ht7).
  destruct (put_then_get r s7 o7 T fuel Ho7 HTo Hact7 Hf Hq Hhd7 Hage7 Hfuel)
    as (s8 & s9 & Hret & Hget & _ & _ & Hh & Hc).
  exists s8. split; [done|]. split; [done|]. split; [done|]. split; [done|].
  split.
  - intros y Hy.
    destruct (VmmCacheReserveReturn_insert r s7 o7 T Ho7 HTo Hact7 Hf Hq)
      as (s8' & Hret' & Hmem' & _).
    { intros x Hx. by destruct (Hhd7 x Hx). }
    { intros x Hx. by destruct (Hage7 x Hx). }
    rewrite Hret in Hret'. injection Hret' as <-.
    destruct (mem_inserted_links r _ _ (mem s7) ltac:(eauto) Hhd7 Hage7 y)
      as (_ & _ & _ & _ & Hcnt & _).
    rewrite Hmem', Hcnt. subst s7. by rewrite mem_set_mem, lookup_insert_ne.
  - exists s9. by rewrite (VmmCacheGet_tag _ _ _ _ _ _ HT HTo).
Qed.

(** [VmmCacheGet_FromDeviceOnMiss] when the table and the secondary table
    (if one is given) have no descriptor for the address, and
    [VmmCacheReserve] hands out the descriptor [r]: the device is read
    once, for the one page.  If it reads the page, [r] holds the page, is
    returned with the reference of the caller and is in the cache: the
    next [VmmCacheGet] finds it.  If it does not, NULL is returned and [r]
    goes back to the list of empty descriptors; nothing is put in the
    cache. *)
Theorem FromDeviceOnMiss_device fuel tag tag2 qa w r s2 o T dv fl buf rest :
  VmmCacheTableGet tag = Some T →
  VmmCacheGet fuel tag qa (cache w) = Some (None, cache w) →
  VmmCacheReserve fuel tag (cache w) = Some (Some r, s2) →
  mem s2 !! r = Some o → VmmCacheTableGet (_tag o) = Some T →
  f (h o) = false → fActive (tbl s2 T) = true →
  qa ≠ MEM_SCATTER_ADDR_INVALID →
  let s3 := set_mem s2 (<[r := set_h (set_qwA qa (h o)) o]> (mem s2)) in
  ((tag2 =? 0) = false → VmmCacheGet fuel tag2 qa s3 = Some (None, s3)) →
  let rg := region (tbl s2 T) (VMM_CACHE2_GET_REGION qa) in
  (∀ x, R_B rg !! VMM_CACHE2_GET_BUCKET qa = Some x → is_Some (mem s2 !! x) ∧ x ≠ r) →
  (∀ x, R_AgeFLink rg = Some x → is_Some (mem s2 !! x) ∧ x ≠ r) →
  LcReadScatter (dev w) [set_qwA qa (h o)] = (dv, (fl, buf) :: rest) →
  (0 < fuel)%nat →
  ∃ w', VmmCacheGet_FromDeviceOnMiss fuel tag tag2 qa w
          = Some ((if fl then Some r else None), w') ∧
    rd_log w' = [set_qwA qa (h o)] :: rd_log w ∧ dev w' = dv ∧
    if fl then
      h <$> mem (cache w') !! r = Some (set_pb buf (set_f true (set_qwA qa (h o)))) ∧
      _count <$> mem (cache w') !! r = Some (incr32 (_count o)) ∧
      ∃ s'', VmmCacheGet fuel tag qa (cache w') = Some (Some r, s'')
    else
      _count o = 2 →
      ListHeadEmpty (tbl (cache w') T) = r :: ListHeadEmpty (tbl s2 T) ∧
      R (tbl (cache w') T) = R (tbl s2 T) ∧
      _count <$> mem (cache w') !! r = Some 2.
Proof.
  intros HT Hmiss Hres Ho HTo Hf Hact Hq s3 Hsec rg Hhd Hage Hdev Hfuel.
  unfold VmmCacheGet_FromDeviceOnMiss.
  rewrite Hmiss. cbn [mbind option_bind]. rewrite Hres. cbn [mbind option_bind].
  rewrite (wr_Some _ _ _ _ Ho). cbn [mbind option_bind]. fold s3.
  assert (Hs5 : (if tag2 =? 0 then Some s3
                 else '(pOb2, s4) ← VmmCacheGet fuel tag2 qa s3;
                      match pOb2 with
                      | Some y =>
                        o2 ← mem s4 !! y;
                        s4a ← wr r (λ o, set_h (set_pb (memcpy (pb (h o)) (pb (h o2)) 0x1000)
                                                  (set_f true (h o))) o) s4;
                        Ob_DECREF y s4a
                      | None => Some s4
                      end) = Some s3).
  { destruct (tag2 =? 0); [done|]. by rewrite Hsec. }
  rewrite Hs5. cbn [mbind option_bind]. subst s3.
  rewrite mem_set_mem, lookup_insert_eq. cbn [mbind option_bind h set_h f set_qwA].
  rewrite Hf. unfold Scatter.dev_read. wsimpl.
  rewrite Hdev. cbn [write_back load]. wsimpl.
  rewrite mem_set_mem, lookup_insert_eq. cbn [fmap option_fmap option_map mbind option_bind].
  cbn [store]. rewrite (wr_Some _ _ _ (set_h (set_qwA qa (h o)) o))
    by (by rewrite mem_set_mem, lookup_insert_eq).
  cbn [mbind option_bind]. wsimpl.
  rewrite !mem_set_mem, insert_insert_eq, lookup_insert_eq.
  cbn [mbind option_bind h set_h f set_f set_pb].
  set (o6 := set_h (set_pb buf (set_f fl (set_qwA qa (h o)))) (set_h (set_qwA qa (h o)) o)).
  set (s6 := set_mem (set_mem s2 _) (<[r := o6]> (mem s2))).
  assert (Hm6 : mem s6 = <[r := o6]> (mem s2)).
  { subst s6. by rewrite mem_set_mem. }
  assert (Ht6 : ∀ T', tbl s6 T' = tbl s2 T').
  { intros T'. subst s6. by rewrite !tbl_set_mem'. }
  clearbody s6.
  assert (Ho6 : mem s6 !! r = Some o6) by (by rewrite Hm6, lookup_insert_eq).
  destruct fl.
  - (* the device has read the page *)
    destruct (FromDeviceOnMiss_put fuel tag T r s6 o6 HT Ho6 HTo eq_refl)
      as (s7 & s8 & -> & Hret & Hh & Hc & _ & Hget); [by rewrite Ht6|done| | |done|].
    { rewrite Ht6, Hm6. intros x Hx. destruct (Hhd x Hx) as [Hal Hne].
      by rewrite lookup_insert_ne. }
    { rewrite Ht6, Hm6. intros x Hx. destruct (Hage x Hx) as [Hal Hne].
      by rewrite lookup_insert_ne. }
    cbn [mbind option_bind]. rewrite Hret. cbn [mbind option_bind].
    eexists. split; [reflexivity|]. wsimpl. done.
  - (* the device has not read the page *)
    unfold VmmCacheReserveReturn. rewrite Ho6. cbn [mbind option_bind].
    change (_tag o6) with (_tag o). rewrite HTo.
    change (f (h o6)) with false. rewrite orb_true_r. cbn [orb].
    destruct (Ob_DECREF r s6) as [s8|] eqn:Hdec.
    + cbn [mbind option_bind]. eexists. split; [reflexivity|]. wsimpl.
      split; [done|]. split; [done|]. intros Hc2.
      destruct (Ob_DECREF_recycle r s6 o6 T Ho6 Hc2 HTo)
        as (s8' & Hdec' & Hm8 & Hl & _ & HR & _).
      { by rewrite Ht6. }
      rewrite Hdec in Hdec'. injection Hdec' as <-.
      by rewrite Hl, HR, !Ht6, Hm8, lookup_insert_eq.
    + destruct (Ob_DECREF_total r s6) as [? E]; [by rewrite Ho6|congruence].
Qed.

(** [VmmCacheGet_FromDeviceOnMiss] when the table has no descriptor for
    the address and the secondary table has one ([y]): the page is copied
    from [y], whose reference count is as before afterwards; the device is
    not read; the reserved descriptor [r] is returned and is in the
    cache. *)
Theorem FromDeviceOnMiss_secondary fuel tag tag2 qa w r s2 o T y s4 oy :
  VmmCacheTableGet tag = Some T →
  VmmCacheGet fuel tag qa (cache w) = Some (None, cache w) →
  VmmCacheReserve fuel tag (cache w) = Some (Some r, s2) →
  mem s2 !! r = Some o → VmmCacheTableGet (_tag o) = Some T →
  fActive (tbl s2 T) = true →
  qa ≠ MEM_SCATTER_ADDR_INVALID →
  let s3 := set_mem s2 (<[r := set_h (set_qwA qa (h o)) o]> (mem s2)) in
  (tag2 =? 0) = false →
  VmmCacheGet fuel tag2 qa s3 = Some (Some y, s4) →
  mem s2 !! y = Some oy → y ≠ r → 2 ≤ _count oy < 2 ^ 32 - 1 →
  let rg := region (tbl s2 T) (VMM_CACHE2_GET_REGION qa) in
  (∀ x, R_B rg !! VMM_CACHE2_GET_BUCKET qa = Some x → is_Some (mem s2 !! x) ∧ x ≠ r) →
  (∀ x, R_AgeFLink rg = Some x → is_Some (mem s2 !! x) ∧ x ≠ r) →
  (0 < fuel)%nat →
  ∃ w', VmmCacheGet_FromDeviceOnMiss fuel tag tag2 qa w = Some (Some r, w') ∧
    rd_log w' = rd_log w ∧ dev w' = dev w ∧
    h <$> mem (cache w') !! r
      = Some (set_pb (memcpy (pb (h o)) (pb (h oy)) 0x1000)
                (set_f true (set_qwA qa (h o)))) ∧
    _count <$> mem (cache w') !! r = Some (incr32 (_count o)) ∧
    _count <$> mem (cache w') !! y = Some (_count oy) ∧
    ∃ s'', VmmCacheGet fuel tag qa (cache w') = Some (Some r, s'').
Proof.
  intros HT Hmiss Hres Ho HTo Hact Hq s3 Htag2 Hget2 Hoy Hyr Hcy rg Hhd Hage Hfuel.
  unfold VmmCacheGet_FromDeviceOnMiss.
  rewrite Hmiss. cbn [mbind option_bind]. rewrite Hres. cbn [mbind option_bind].
  rewrite (wr_Some _ _ _ _ Ho). cbn [mbind option_bind]. fold s3.
  rewrite Htag2, Hget2. cbn [mbind option_bind].
  assert (Hoy3 : mem s3 !! y = Some oy).
  { subst s3. by rewrite mem_set_mem, lookup_insert_ne. }
  assert (Hor3 : mem s3 !! r = Some (set_h (set_qwA qa (h o)) o)).
  { subst s3. by rewrite mem_set_mem, lookup_insert_eq. }
  apply VmmCacheGet_inv in Hget2 as Hinc.
  pose proof (Ob_INCREF_DECREF _ _ _ _ Hoy3 Hcy Hinc) as Hdec.
  unfold Ob_INCREF in Hinc. rewrite (wr_Some _ _ _ _ Hoy3) in Hinc.
  injection Hinc as <-.
  rewrite mem_set_mem, lookup_insert_eq. cbn [mbind option_bind].
  rewrite (wr_Some _ _ _ (set_h (set_qwA qa (h o)) o))
    by (by rewrite mem_set_mem, lookup_insert_ne).
  cbn [mbind option_bind h set_h set_count pb set_qwA].
  set (o6 := set_h (set_pb (memcpy (pb (h o)) (pb (h oy)) 0x1000)
                      (set_f true (set_qwA qa (h o)))) (set_h (set_qwA qa (h o)) o)).
  rewrite !mem_set_mem.
  rewrite (Ob_DECREF_dec y _ (set_count (incr32 (_count oy)) oy)).
  2:{ rewrite mem_set_mem, lookup_insert_ne, lookup_insert_eq by done. done. }
  2:{ cbn [_count set_count]. unfold incr32. rewrite Z.mod_small by lia. lia. }
  cbn [mbind option_bind].
  set (s5 := set_mem _ _).
  assert (Hm5 : mem s5 !! r = Some o6).
  { subst s5. rewrite !mem_set_mem, lookup_insert_ne, lookup_insert_eq by done. done. }
  assert (Hal5 : ∀ x, is_Some (mem s2 !! x) → is_Some (mem s5 !! x)).
  { intros x Hx. subst s5. rewrite !mem_set_mem.
    repeat (apply lookup_insert_is_Some'; right). done. }
  assert (Hy5 : _count <$> mem s5 !! y = Some (_count oy)).
  { subst s5. rewrite !mem_set_mem, lookup_insert_eq. cbn.
    f_equal. unfold incr32. rewrite Z.mod_small by lia. lia. }
  assert (Ht5 : ∀ T', tbl s5 T' = tbl s2 T').
  { intros T'. subst s5 s3. by rewrite !tbl_set_mem'. }
  clearbody s5. rewrite Hm5. cbn [mbind option_bind].
  change (f (h o6)) with true. cbn [mbind option_bind]. wsimpl.
  rewrite Hm5. cbn [mbind option_bind]. change (f (h o6)) with true. cbn match.
  destruct (FromDeviceOnMiss_put fuel tag T r s5 o6 HT Hm5 HTo eq_refl)
    as (s7 & s8 & -> & Hret & Hh & Hc & Hoth & Hget); [by rewrite Ht5|done| | |done|].
  { rewrite Ht5. intros x Hx. destruct (Hhd x Hx) as [Hal Hne]. auto. }
  { rewrite Ht5. intros x Hx. destruct (Hage x Hx) as [Hal Hne]. auto. }
  cbn [mbind option_bind]. rewrite Hret. cbn [mbind option_bind].
  eexists. split; [reflexivity|]. wsimpl.
  split; [done|]. split; [done|]. split; [done|]. split; [done|].
  split; [|done]. by rewrite Hoth.
Qed.

End ReadThrough.

(** ** Concrete runs *)

#[local] Existing Instance small_consts.

Definition t_FromDevice := VmmCacheGet_FromDeviceOnMiss unit t_LcReadScatter.

(** The descriptor [VmmCacheReserve] hands out in the world [w]. *)
Definition t_reserved (tag : Z) (w : Scatter.VMM_WORLD unit) : VMM_CACHE :=
  default (cache _ w) (snd <$> VmmCacheReserve 4 tag (cache _ w)).

(** In the clean world the page 0x3000 is read from the device and cached;
    the page 0x100000 cannot be read. *)
Lemma FromDeviceOnMiss_device_witness :
  (∃ w', t_FromDevice 4 VMM_CACHE_TAG_PHYS 0 0x3000 t_world = Some (Some 0%nat, w') ∧
     length (rd_log _ w') = 1%nat ∧
     (pb <$> (h <$> mem (cache _ w') !! 0%nat)) = Some (replicate 0x1000 3) ∧
     ∃ s'', VmmCacheGet 4 VMM_CACHE_TAG_PHYS 0x3000 (cache _ w') = Some (Some 0%nat, s'')) ∧
  (∃ w', t_FromDevice 4 VMM_CACHE_TAG_PHYS 0 0x100000 t_world = Some (None, w') ∧
     length (rd_log _ w') = 1%nat ∧
     ListHeadEmpty (PHYS (cache _ w')) = [0%nat]).
Proof.
  split.
  - destruct (FromDeviceOnMiss_device unit t_LcReadScatter 4 VMM_CACHE_TAG_PHYS 0 0x3000
                t_world 0%nat (t_reserved VMM_CACHE_TAG_PHYS t_world)
                (ob_at (t_reserved VMM_CACHE_TAG_PHYS t_world) 0) T_PHYS tt
                true (replicate 0x1000 3) [])
      as (w' & Hrun & Hlog & _ & Hh & _ & Hget).
    + vm_compute; reflexivity.
    + vm_compute; reflexivity.
    + vm_compute; reflexivity.
    + vm_compute; reflexivity.
    + vm_compute; reflexivity.
    + vm_compute; reflexivity.
    + vm_compute; reflexivity.
    + vm_compute; discriminate.
    + intros [=].
    + intros x Hx. vm_compute in Hx. discriminate Hx.
    + intros x Hx. vm_compute in Hx. discriminate Hx.
    + vm_compute; reflexivity.
    + lia.
    + exists w'. split; [exact Hrun|]. split; [by rewrite Hlog|].
      split; [by rewrite Hh|exact Hget].
  - destruct (FromDeviceOnMiss_device unit t_LcReadScatter 4 VMM_CACHE_TAG_PHYS 0 0x100000
                t_world 0%nat (t_reserved VMM_CACHE_TAG_PHYS t_world)
                (ob_at (t_reserved VMM_CACHE_TAG_PHYS t_world) 0) T_PHYS tt
                false (replicate 0x1000 0) [])
      as (w' & Hrun & Hlog & _ & Hrec).
    + vm_compute; reflexivity.
    + vm_compute; reflexivity.
    + vm_compute; reflexivity.
    + vm_compute; reflexivity.
    + vm_compute; reflexivity.
    + vm_compute; reflexivity.
    + vm_compute; reflexivity.
    + vm_compute; discriminate.
    + intros [=].
    + intros x Hx. vm_compute in Hx. discriminate Hx.
    + intros x Hx. vm_compute in Hx. discriminate Hx.
    + vm_compute; reflexivity.
    + lia.
    + exists w'. split; [exact Hrun|]. split; [by rewrite Hlog|].
      destruct (Hrec ltac:(vm_compute; reflexivity)) as (Hl & _).
      etransitivity; [exact Hl|]. vm_compute; reflexivity.
Defined.

(** The world after the page 0x1000 has been read (the PHYS cache holds
    the pages 0x1000 to 0x18000), with the TLB table initialised. *)
Definition t_world_tlb : Scatter.VMM_WORLD unit :=
  Scatter.set_cache unit
    (VmmCache2Initialize VMM_CACHE_TAG_TLB (cache _ t_world1)) t_world1.

(** The page 0x2000 is taken from the PHYS cache into the TLB cache. *)
Lemma FromDeviceOnMiss_secondary_witness :
  ∃ r w', t_FromDevice 4 VMM_CACHE_TAG_TLB VMM_CACHE_TAG_PHYS 0x2000 t_world_tlb
           = Some (Some r, w') ∧
    rd_log _ w' = rd_log _ t_world_tlb ∧
    (pb <$> (h <$> mem (cache _ w') !! r)) = Some (replicate 0x1000 2) ∧
    ∃ s'', VmmCacheGet 4 VMM_CACHE_TAG_TLB 0x2000 (cache _ w') = Some (Some r, s'').
Proof.
  set (s2 := t_reserved VMM_CACHE_TAG_TLB t_world_tlb).
  set (r := default 0%nat (VmmCacheReserve 4 VMM_CACHE_TAG_TLB (cache _ t_world_tlb)
                            ≫= fst)).
  set (s3 := set_mem s2 (<[r := set_h (set_qwA 0x2000 (h (ob_at s2 r))) (ob_at s2 r)]>
                           (mem s2))).
  set (y := default 0%nat (VmmCacheGet 4 VMM_CACHE_TAG_PHYS 0x2000 s3 ≫= fst)).
  destruct (FromDeviceOnMiss_secondary unit t_LcReadScatter 4 VMM_CACHE_TAG_TLB
              VMM_CACHE_TAG_PHYS 0x2000 t_world_tlb r s2 (ob_at s2 r) T_TLB y
              (default s3 (snd <$> VmmCacheGet 4 VMM_CACHE_TAG_PHYS 0x2000 s3))
              (ob_at s2 y))
    as (w' & Hrun & Hlog & _ & Hh & _ & _ & Hget).
  - vm_compute; reflexivity.
  - vm_compute; reflexivity.
  - vm_compute; reflexivity.
  - vm_compute; reflexivity.
  - vm_compute; reflexivity.
  - vm_compute; reflexivity.
  - vm_compute; discriminate.
  - vm_compute; reflexivity.
  - vm_compute; reflexivity.
  - vm_compute; reflexivity.
  - vm_compute; discriminate.
  - vm_compute. split; [discriminate|reflexivity].
  - intros x Hx. vm_compute in Hx. discriminate Hx.
  - intros x Hx. vm_compute in Hx. discriminate Hx.
  - lia.
  - exists r, w'. split; [exact Hrun|]. split; [exact Hlog|].
    split; [rewrite Hh; vm_compute; reflexivity|exact Hget].
Defined.

End ReadThrough.

(** * The byte-granular access functions *)
Module Rw.
Import Cache Scatter.

Section Rw.
Context `{!VmmConsts}.
Variables D P : Type.
Variable LcReadScatter : D → list MEM_SCATTER → D * list (bool * list Z).
Variable LcWriteScatter : D → list MEM_SCATTER → D * list bool.
Variable VmmVirt2Phys : P → Z → Z → bool * Z.
Variable pfnPagedRead :
  option (P → Z → Z → option (list Z) → Z → Z → bool * list Z * Z).

#[local] Abbreviation VMM_WORLD := (Scatter.VMM_WORLD D).
#[local] Abbreviation VmmReadEx :=
  (Scatter.VmmReadEx D P LcReadScatter VmmVirt2Phys pfnPagedRead).
#[local] Abbreviation VmmWriteEx :=
  (Scatter.VmmWriteEx D P LcWriteScatter VmmVirt2Phys pfnPagedRead).
#[local] Abbreviation VmmReadAsFile :=
  (Scatter.VmmReadAsFile D P LcReadScatter VmmVirt2Phys pfnPagedRead).
#[local] Abbreviation VmmWriteAsFile :=
  (Scatter.VmmWriteAsFile D P LcWriteScatter VmmVirt2Phys pfnPagedRead).

(** [VmmRead2] *)
Definition VmmRead2 (fuel : nat) (pProcess : option P) (qwA : Z) (pb : list Z)
    (cb : Z) (flags : Z) (w : VMM_WORLD) : option (list Z * bool * VMM_WORLD) :=
  '(pb', cbRead, w') ← VmmReadEx fuel pProcess qwA pb cb flags w;
  Some (pb', cbRead =? cb, w').

(** [VmmReadPage] *)
Definition VmmReadPage (fuel : nat) (pProcess : option P) (qwA : Z)
    (pbPage : list Z) (w : VMM_WORLD) : option (list Z * bool * VMM_WORLD) :=
  '(pb', cb, w') ← VmmReadEx fuel pProcess qwA pbPage 0x1000 0 w;
  Some (pb', cb =? 0x1000, w').

(** ** The length of a file access *)

(** [cbMax] and the length of the access when the sums do not wrap: the
    part of the request that lies before the end of the object. *)
Lemma file_length_min A S cb O :
  0 ≤ A → 0 ≤ O < S → 0 ≤ cb < 2 ^ 32 →
  A + S < 2 ^ 64 → A + cb + O < 2 ^ 64 →
  file_length A S cb O = Z.min cb (S - O).
Proof.
  intros HA HO Hcb HS HC. unfold file_length.
  rewrite (Z.mod_small (A + S)), (Z.mod_small (A + cb + O)), (Z.mod_small (A + O)) by lia.
  replace (Z.min (A + S) (A + cb + O) - (A + O)) with (Z.min (S - O) cb) by lia.
  rewrite (Z.mod_small (Z.min (S - O) cb)) by lia.
  rewrite Z.mod_small by lia. lia.
Qed.

(** [VmmReadAsFile] and [VmmWriteAsFile] on an object of [cbMemorySize]
    bytes at [qwMemoryAddress] whose end is below 2^64
    ([qwMemoryAddress + cbMemorySize < 2^64]): a request of [cb > 0] bytes
    at [cbOffset] inside the object whose end does not wrap either
    ([qwMemoryAddress + cb + cbOffset < 2^64]) is an access of
    [min(cb, cbMemorySize - cbOffset)] bytes at
    [qwMemoryAddress + cbOffset], never past the end of the object; the
    read is done with [VMM_FLAG_ZEROPAD_ON_FAIL] and reports success
    whatever the device answers. *)
Theorem VmmAsFile_within_object fuel pProcess A S pb cb O w :
  0 ≤ A → 0 ≤ O < S → 0 < cb < 2 ^ 32 →
  A + S < 2 ^ 64 → A + cb + O < 2 ^ 64 →
  let n := Z.min cb (S - O) in
  0 < n ≤ S - O ∧
  VmmReadAsFile fuel pProcess A S pb cb O w
    = ('(pb', _, w') ← VmmReadEx fuel pProcess (A + O) pb n
                         VMM_FLAG_ZEROPAD_ON_FAIL w;
       Some (STATUS_SUCCESS, pb', n, w')) ∧
  VmmWriteAsFile fuel pProcess A S pb cb O w
    = ('(_, w') ← VmmWriteEx fuel pProcess (A + O) pb n w;
       Some (STATUS_SUCCESS, n, w')).
Proof.
  intros HA HO Hcb HS HC n. split; [lia|].
  unfold Scatter.VmmReadAsFile, Scatter.VmmWriteAsFile.
  rewrite (proj2 (Z.leb_gt S O)) by lia.
  rewrite file_length_min by lia. fold n.
  rewrite (proj2 (Z.eqb_neq n 0)) by lia.
  rewrite (Z.mod_small (A + O)) by lia. done.
Qed.

(** The length of the access when [qwMemoryAddress + cb + cbOffset] wraps
    around 2^64: [cb] itself. *)
Lemma file_length_wrap A S cb O :
  0 ≤ A → 0 ≤ O < S → 0 ≤ cb < 2 ^ 32 →
  A + S < 2 ^ 64 → 2 ^ 64 ≤ A + cb + O →
  file_length A S cb O = cb.
Proof.
  intros HA HO Hcb HS HC. unfold file_length.
  rewrite (Z.mod_small (A + S)), (Z.mod_small (A + O)) by lia.
  assert (Ht : (A + cb + O) `mod` 2 ^ 64 = A + cb + O - 2 ^ 64).
  { symmetry. apply (Z.mod_unique _ _ 1); [left; lia|lia]. }
  rewrite Ht. rewrite (Z.min_r (A + S)) by lia.
  assert (Hm : (A + cb + O - 2 ^ 64 - (A + O)) `mod` 2 ^ 64 = cb).
  { symmetry. apply (Z.mod_unique _ _ (-1)); [left; lia|lia]. }
  rewrite Hm, Z.min_id. apply Z.mod_small. lia.
Qed.

(** [VmmReadAsFile] and [VmmWriteAsFile] leave an object whose end is
    below 2^64 ([qwMemoryAddress + cbMemorySize < 2^64]) when the end of
    the request, [qwMemoryAddress + cb + cbOffset], reaches 2^64 and wraps
    (the object lies in the last 4 GB of the address space): for [cb > 0]
    and [cbOffset] inside the object, the access then has the full [cb]
    bytes from [qwMemoryAddress + cbOffset] on, more than the
    [cbMemorySize - cbOffset] bytes the object has left, and reports
    success.  (An object that ends at 2^64 exactly is not covered.) *)
Theorem VmmAsFile_wrap_past_end fuel pProcess A S pb cb O w :
  0 ≤ A → 0 ≤ O < S → 0 < cb < 2 ^ 32 →
  A + S < 2 ^ 64 → 2 ^ 64 ≤ A + cb + O →
  S - O < cb ∧
  VmmReadAsFile fuel pProcess A S pb cb O w
    = ('(pb', _, w') ← VmmReadEx fuel pProcess (A + O) pb cb
                         VMM_FLAG_ZEROPAD_ON_FAIL w;
       Some (STATUS_SUCCESS, pb', cb, w')) ∧
  VmmWriteAsFile fuel pProcess A S pb cb O w
    = ('(_, w') ← VmmWriteEx fuel pProcess (A + O) pb cb w;
       Some (STATUS_SUCCESS, cb, w')).
Proof.
  intros HA HO Hcb HS HC. split; [lia|].
  unfold Scatter.VmmReadAsFile, Scatter.VmmWriteAsFile.
  rewrite (proj2 (Z.leb_gt S O)) by lia.
  rewrite file_length_wrap by lia.
  rewrite (proj2 (Z.eqb_neq cb 0)) by lia.
  rewrite (Z.mod_small (A + O)) by lia. done.
Qed.

(** ** The pages of [VmmWriteEx] *)

Lemma land_fff_range a : 0 ≤ Z.land a 0xfff < 0x1000.
Proof. rewrite land_fff. apply Z.mod_pos_bound. lia. Qed.

Lemma mod_2_64_4096 x : (x `mod` 2 ^ 64) `mod` 4096 = x `mod` 4096.
Proof.
  rewrite (Z.div_mod x (2 ^ 64)) at 2 by lia.
  replace (2 ^ 64 * (x / 2 ^ 64) + x `mod` 2 ^ 64)
    with (x `mod` 2 ^ 64 + (x / 2 ^ 64 * 2 ^ 52) * 4096) by lia.
  by rewrite Z.mod_add by lia.
Qed.

(** The number of pages left at the offset [oA]. *)
Definition pages_left (qwA cb oA : Z) : Z :=
  if oA <? cb then (Z.land (qwA + oA) 0xfff + (cb - oA) + 0xfff) / 0x1000 else 0.

(** A descriptor lies in one page. *)
Definition in_one_page (d : MEM_SCATTER) : Prop :=
  0 < Cache.cb d ∧ Z.land (Cache.qwA d) 0xfff + Cache.cb d ≤ 0x1000.

(** The descriptors follow each other from the address [a] on. *)
Fixpoint consecutive (a : Z) (l : list MEM_SCATTER) : Prop :=
  match l with
  | [] => True
  | d :: l => Cache.qwA d = a `mod` 2 ^ 64 ∧ consecutive (a + Cache.cb d) l
  end.

Lemma WriteEx_pages_spec qwA pb cb :
  0 ≤ qwA →
  ∀ n oA, 0 ≤ oA ≤ cb → cb - oA ≤ Z.of_nat n →
    let pages := WriteEx_pages n qwA pb cb oA in
    Z.of_nat (length pages) = pages_left qwA cb oA ∧
    foldr (λ d acc, Cache.cb d + acc) 0 pages = cb - oA ∧
    Forall in_one_page pages ∧
    Forall (λ d, f d = false ∧ vStack d = []) pages ∧
    consecutive (qwA + oA) pages ∧
    (Z.to_nat cb ≤ length pb →
     concat (Cache.pb <$> pages) = take (Z.to_nat (cb - oA)) (drop (Z.to_nat oA) pb))%nat.
Proof.
  intros HA. induction n as [|n IH]; intros oA HoA Hn.
  - assert (oA = cb) by lia. subst oA. cbn [WriteEx_pages length foldr].
    unfold pages_left. rewrite Z.ltb_irrefl.
    split; [done|]. split; [lia|].
    split; [constructor|]. split; [constructor|]. split; [done|].
    intros _. by rewrite Z.sub_diag.
  - cbn [WriteEx_pages]. destruct (Z.ltb_spec oA cb) as [Hlt|Hge].
    2:{ assert (oA = cb) by lia. subst oA. cbn [length foldr].
        unfold pages_left. rewrite Z.ltb_irrefl.
        split; [done|]. split; [lia|].
        split; [constructor|]. split; [constructor|]. split; [done|].
        intros _. by rewrite Z.sub_diag. }
    pose proof (land_fff_range (qwA + oA)) as Hm.
    set (m := Z.land (qwA + oA) 0xfff) in *.
    set (cbP := Z.min (0x1000 - m) (cb - oA)).
    assert (HcbP : 0 < cbP ≤ 0x1000 - m) by lia.
    destruct (IH (oA + cbP)) as (Hlen & Hsum & Hpage & Hfl & Hcons & Hcat); [lia|lia|].
    cbn [length foldr Cache.cb fmap list_fmap concat Cache.pb].
    assert (Hland : Z.land ((qwA + oA) `mod` 2 ^ 64) 0xfff = m).
    { subst m. rewrite !land_fff. apply mod_2_64_4096. }
    split; [|split; [|split; [|split; [|split]]]].
    + rewrite Nat2Z.inj_succ, Hlen. unfold pages_left. fold m.
      rewrite (proj2 (Z.ltb_lt oA cb)) by done.
      destruct (Z_le_gt_dec (cb - oA) (0x1000 - m)) as [Hle|Hgt].
      * replace cbP with (cb - oA) by lia.
        replace (oA + (cb - oA)) with cb by lia. rewrite Z.ltb_irrefl.
        change (Z.succ 0) with 1.
        apply (Z.div_unique _ _ 1 (m + (cb - oA) + 0xfff - 0x1000)); [left; lia|lia].
      * replace cbP with (0x1000 - m) by lia.
        rewrite (proj2 (Z.ltb_lt (oA + (0x1000 - m)) cb)) by lia.
        assert (Hal : Z.land (qwA + (oA + (0x1000 - m))) 0xfff = 0).
        { rewrite land_fff. subst m. rewrite land_fff.
          replace (qwA + (oA + (4096 - (qwA + oA) `mod` 4096)))
            with ((qwA + oA) - (qwA + oA) `mod` 4096 + 1 * 4096) by lia.
          rewrite Z.mod_add by lia.
          rewrite Zminus_mod_idemp_r, Z.sub_diag. done. }
        rewrite Hal.
        replace (m + (cb - oA) + 0xfff)
          with (0 + (cb - (oA + (0x1000 - m))) + 0xfff + 1 * 0x1000) by lia.
        rewrite Z.div_add by lia. lia.
    + rewrite Hsum. lia.
    + constructor; [|done]. unfold in_one_page. cbn [Cache.cb Cache.qwA].
      rewrite Hland. lia.
    + constructor; [done|done].
    + cbn [consecutive Cache.qwA Cache.cb]. split; [done|].
      by rewrite <- Z.add_assoc.
    + intros Hpb. rewrite Hcat by done.
      replace (Z.to_nat (cb - oA)) with (Z.to_nat cbP + Z.to_nat (cb - (oA + cbP)))%nat by lia.
      rewrite <- take_take_drop. f_equal. rewrite drop_drop. f_equal. f_equal. lia.
Qed.

#[local] Abbreviation VmmWriteScatterPhysical :=
  (Scatter.VmmWriteScatterPhysical D LcWriteScatter).
#[local] Abbreviation VmmWriteScatterVirtual :=
  (Scatter.VmmWriteScatterVirtual D P LcWriteScatter VmmVirt2Phys pfnPagedRead).
#[local] Abbreviation VmmWrite :=
  (Scatter.VmmWrite D P LcWriteScatter VmmVirt2Phys pfnPagedRead).

Lemma count_pages_left qwA cb :
  0 < cb < 2 ^ 32 → count_pages qwA cb = pages_left qwA cb 0.
Proof.
  intros Hcb. unfold count_pages, pages_left.
  rewrite (proj2 (Z.ltb_lt 0 cb)) by lia. rewrite Z.add_0_r, Z.sub_0_r.
  rewrite Z.shiftr_div_pow2 by lia. change (2 ^ 12) with 0x1000.
  pose proof (land_fff_range qwA).
  apply Z.mod_small. split; [apply Z.div_pos; lia|].
  apply Z.div_lt_upper_bound; lia.
Qed.

(** The call [VmmWriteEx] makes once the pages are prepared. *)
Lemma WriteEx_call fuel pProcess qwA pb cb w :
  0 ≤ qwA → 0 < cb < 2 ^ 32 → fLocalAlloc D w = true →
  let pages := WriteEx_pages (Z.to_nat cb) qwA pb cb 0 in
  VmmWriteEx fuel pProcess qwA pb cb w =
    ('(ds, w') ← match pProcess with
                  | Some p => VmmWriteScatterVirtual fuel p (Some <$> pages) w
                  | None => VmmWriteScatterPhysical fuel (Some <$> pages) w
                  end;
     Some (sum_written ds `mod` 2 ^ 32, w')).
Proof.
  intros HA Hcb Hal pages.
  destruct (WriteEx_pages_spec qwA pb cb HA (Z.to_nat cb) 0 ltac:(lia) ltac:(lia))
    as (Hlen & _).
  fold pages in Hlen. rewrite <- count_pages_left in Hlen by done.
  unfold Scatter.VmmWriteEx. rewrite Hal. cbn [negb]. fold pages.
  rewrite <- Hlen, Nat2Z.id, Nat.sub_diag. cbn [replicate].
  rewrite app_nil_r, <- (length_fmap Some pages), firstn_all. done.
Qed.

(** [VmmWriteEx] with [cb > 0] splits the range [qwA, qwA + cb) at the
    page boundaries: the loop prepares exactly [cMEMs] descriptors (no
    entry of [ppMEMs] stays NULL), which follow each other from [qwA] on,
    lie in one page each, have sizes that add up to [cb] and buffers that
    are the consecutive parts of [pb]; these are the descriptors the
    scatter write is called with. *)
Theorem VmmWriteEx_split fuel pProcess qwA pb cb w :
  0 ≤ qwA → 0 < cb < 2 ^ 32 → fLocalAlloc D w = true →
  let pages := WriteEx_pages (Z.to_nat cb) qwA pb cb 0 in
  Z.of_nat (length pages) = count_pages qwA cb ∧
  foldr (λ d acc, Cache.cb d + acc) 0 pages = cb ∧
  Forall in_one_page pages ∧
  consecutive qwA pages ∧
  ((Z.to_nat cb ≤ length pb)%nat →
   concat (Cache.pb <$> pages) = take (Z.to_nat cb) pb) ∧
  VmmWriteEx fuel pProcess qwA pb cb w =
    ('(ds, w') ← match pProcess with
                  | Some p => VmmWriteScatterVirtual fuel p (Some <$> pages) w
                  | None => VmmWriteScatterPhysical fuel (Some <$> pages) w
                  end;
     Some (sum_written ds `mod` 2 ^ 32, w')).
Proof.
  intros HA Hcb Hal pages.
  destruct (WriteEx_pages_spec qwA pb cb HA (Z.to_nat cb) 0 ltac:(lia) ltac:(lia))
    as (Hlen & Hsum & Hpage & _ & Hcons & Hcat).
  fold pages in Hlen, Hsum, Hpage, Hcons, Hcat.
  rewrite <- count_pages_left in Hlen by done.
  rewrite Z.sub_0_r in Hsum, Hcat. rewrite Z.add_0_r in Hcons.
  change (Z.to_nat 0) with 0%nat in Hcat. rewrite drop_0 in Hcat.
  split; [done|]. split; [done|]. split; [done|]. split; [done|]. split; [done|].
  by apply WriteEx_call.
Qed.

Lemma set_flags_cb ds res :
  Cache.cb <$> set_flags ds res = Cache.cb <$> ds.
Proof.
  revert res. induction ds as [|d ds IH]; intros [|fl res]; cbn; try done.
  by rewrite IH.
Qed.

Lemma sum_written_all (ds : list MEM_SCATTER) :
  Forall (λ c, 0 < c) (Cache.cb <$> ds) →
  0 ≤ sum_written ds ≤ foldr Z.add 0 (Cache.cb <$> ds) ∧
  (sum_written ds = foldr Z.add 0 (Cache.cb <$> ds) ↔ forallb f ds = true).
Proof.
  induction ds as [|d ds IH]; [intros _; cbn; split; [lia|done]|].
  rewrite fmap_cons. intros [Hd Hds]%Forall_cons. destruct (IH Hds) as [Hr Hiff].
  unfold sum_written in *. cbn [foldr forallb].
  destruct (f d); cbn [andb].
  - split; [lia|]. rewrite <- Hiff. lia.
  - split; [lia|]. split; [lia|done].
Qed.

Lemma foldr_cb (ds : list MEM_SCATTER) :
  foldr (λ d acc, Cache.cb d + acc) 0 ds = foldr Z.add 0 (Cache.cb <$> ds).
Proof. induction ds as [|d ds IH]; cbn; [done|]. by rewrite IH. Qed.

Lemma mapM_id_Some {A} (l : list A) : mapM id (Some <$> l) = Some l.
Proof. induction l as [|x l IH]; [done|]. cbn. by rewrite IH. Qed.

(** [VmmWrite] on physical memory, [cb > 0]: the device is called once,
    with the pages of the range; the result is TRUE exactly when the
    device has written every page; the pages written are invalidated in
    the caches. *)
Theorem VmmWrite_phys_result fuel qwA pb cb w :
  0 ≤ qwA → 0 < cb < 2 ^ 32 → fLocalAlloc D w = true →
  let pages := WriteEx_pages (Z.to_nat cb) qwA pb cb 0 in
  let written := set_flags pages (LcWriteScatter (dev D w) pages).2 in
  VmmWrite fuel None qwA pb cb w =
    (w2 ← Write_invalidate D fuel written (dev_write D LcWriteScatter pages w).2;
     Some (forallb f written, w2)).
Proof.
  intros HA Hcb Hal pages written.
  destruct (WriteEx_pages_spec qwA pb cb HA (Z.to_nat cb) 0 ltac:(lia) ltac:(lia))
    as (_ & Hsum & Hpage & _).
  fold pages in Hsum, Hpage. rewrite Z.sub_0_r in Hsum.
  pose proof (WriteEx_call fuel None qwA pb cb w HA Hcb Hal) as Hrun.
  fold pages in Hrun.
  unfold Scatter.VmmWrite. rewrite Hrun. unfold Scatter.VmmWriteScatterPhysical.
  rewrite mapM_id_Some. cbn [mbind option_bind].
  unfold written, Scatter.dev_write.
  destruct (LcWriteScatter (dev D w) pages) as [dv res]. cbn [snd].
  destruct (Write_invalidate D fuel (set_flags pages res) _) as [w2|];
    cbn [mbind option_bind]; [|done].
  f_equal. f_equal. f_equal.
  destruct (sum_written_all (set_flags pages res)) as [Hr Hiff].
  { rewrite set_flags_cb. apply Forall_fmap. eapply Forall_impl; [exact Hpage|].
    by intros d [? _]. }
  rewrite set_flags_cb, <- foldr_cb, Hsum in Hr, Hiff.
  rewrite Z.mod_small by lia.
  destruct (forallb f (set_flags pages res)) eqn:E.
  - apply Z.eqb_eq. by apply Hiff.
  - apply Z.eqb_neq. intros Heq. apply Hiff in Heq. congruence.
Qed.

(** ** The buffer [VmmReadEx] assembles *)

(** The part of [VmmReadEx] after the scatter read: the buffer of the
    caller and the number of bytes read. *)
Definition ReadEx_finish (qwA cb : Z) (pb : list Z) (ds : list MEM_SCATTER)
    : option (list Z * Z) :=
  let cMEMs := Z.to_nat (count_pages qwA cb) in
  let oA := Z.land qwA 0xfff in
  let ds1 := (λ d, if f d then d
                   else set_pb (ZeroMemory (Cache.pb d) 0x1000) d) <$> ds in
  let pb1 := ReadEx_middle (Z.to_nat oA) cMEMs 0 ds1 pb in
  let cValid := Z.of_nat (length (filter (λ d, f d = true) ds1)) in
  d0 ← head ds1;
  dl ← last ds1;
  let fLast := (1 <? cMEMs)%nat && f dl in
  let cbRead0 := 0x1000 * cValid - (if f d0 then 0x1000 else 0)
                 - (if fLast then 0x1000 else 0) in
  let cbP := Z.min cb (0x1000 - oA) in
  let pb2 := if f d0 then copy_at pb1 0 (drop (Z.to_nat oA) (Cache.pb d0)) (Z.to_nat cbP)
             else ZeroMemory pb1 (Z.to_nat cbP) in
  let cbRead1 := cbRead0 + (if f d0 then cbP else 0) in
  let cbPl := if Z.land (qwA + cb) 0xfff =? 0 then 0x1000
              else Z.land (qwA + cb) 0xfff in
  let off := (cMEMs * 0x1000 - Z.to_nat oA - 0x1000)%nat in
  let pb3 := if (1 <? cMEMs)%nat then
               copy_at pb2 off
                 (if f dl then Cache.pb dl else replicate 0x1000 0)
                 (Z.to_nat cbPl)
             else pb2 in
  let cbRead2 := cbRead1 + (if fLast then cbPl else 0) in
  Some (pb3, cbRead2 `mod` 2 ^ 32).

Lemma VmmReadEx_finish fuel pProcess qwA pb cb flags w :
  cb ≠ 0 → fLocalAlloc D w = true →
  VmmReadEx fuel pProcess qwA pb cb flags w =
    ('(ds, w') ← match pProcess with
                  | Some p =>
                    VmmReadScatterVirtual D P LcReadScatter VmmVirt2Phys pfnPagedRead
                      fuel p (ReadEx_pages qwA pb (Z.to_nat (count_pages qwA cb)))
                      flags w
                  | None =>
                    VmmReadScatterPhysical D LcReadScatter
                      fuel (ReadEx_pages qwA pb (Z.to_nat (count_pages qwA cb)))
                      flags w
                  end;
     '(pb3, c) ← ReadEx_finish qwA cb pb ds;
     Some (pb3, c, w')).
Proof.
  intros Hcb Hal. unfold Scatter.VmmReadEx, ReadEx_finish.
  rewrite (proj2 (Z.eqb_neq cb 0)) by done. rewrite Hal. cbn [negb].
  destruct (match pProcess with Some _ => _ | None => _ end) as [[ds w']|];
    cbn [mbind option_bind]; [|done].
  destruct (head _) as [d0|]; cbn [mbind option_bind]; [|done].
  destruct (last _) as [dl|]; cbn [mbind option_bind]; done.
Qed.

Lemma length_concat_uniform {A} (ls : list (list A)) k :
  Forall (λ l, length l = k) ls → length (concat ls) = (length ls * k)%nat.
Proof.
  induction 1 as [|l ls Hl _ IH]; [done|]. cbn. rewrite length_app, IH, Hl. lia.
Qed.

Lemma ReadEx_middle_spec o n dl :
  (o ≤ 0x1000)%nat →
  ∀ mid i acc,
    (1 ≤ i)%nat → (i + length mid + 1 = n)%nat →
    Forall (λ d, length (Cache.pb d) = 0x1000%nat) mid →
    ((i + length mid) * 0x1000 - o ≤ length acc)%nat →
    ReadEx_middle o n i (mid ++ [dl]) acc
    = take (i * 0x1000 - o) acc ++ concat (Cache.pb <$> mid)
        ++ drop ((i + length mid) * 0x1000 - o) acc.
Proof.
  intros Ho. induction mid as [|d mid IH]; intros i acc Hi Hn Hlen Hacc.
  - cbn [app ReadEx_middle length fmap list_fmap concat] in *.
    rewrite decide_True by lia. rewrite Nat.add_0_r. by rewrite take_drop.
  - cbn [app ReadEx_middle length fmap list_fmap concat] in *.
    apply Forall_cons in Hlen as [Hd Hlen].
    rewrite decide_False by lia.
    rewrite IH; [|lia|lia|done|].
    2:{ unfold copy_at. rewrite !length_app, length_take, length_take, length_drop. lia. }
    unfold copy_at. rewrite <- Hd, firstn_all, Hd.
    set (off := (i * 4096 - o)%nat).
    assert (Hoff : (S i * 4096 - o = off + 4096)%nat) by lia.
    assert (Hto : length (take off acc) = off) by (rewrite length_take; lia).
    rewrite Hoff.
    rewrite (take_app_add' (take off acc) _ off) by done.
    rewrite (take_app_length' (Cache.pb d) _ 4096) by done.
    rewrite <- !app_assoc. f_equal. f_equal. f_equal.
    replace ((S i + length mid) * 4096 - o)%nat
      with (off + (4096 + ((i + length mid) * 4096 - o - off)))%nat by lia.
    rewrite (drop_app_add' (take off acc) _ off) by done.
    rewrite (drop_app_add' (Cache.pb d) _ 4096) by done.
    rewrite drop_drop. f_equal. lia.
Qed.

(** The bytes a page descriptor stands for once the read is over: the
    page when it has been read, zeros when it has not. *)
Definition page_data (d : MEM_SCATTER) : list Z :=
  if f d then Cache.pb d else replicate 0x1000 0.

Lemma snoc_case {A} (l : list A) : l = [] ∨ ∃ l' x, l = l' ++ [x].
Proof. destruct l using rev_ind; [by left|right; eauto]. Qed.

Lemma count_valid_bounds (l : list MEM_SCATTER) :
  (length (filter (λ d, f d = true) l) ≤ length l)%nat ∧
  (Forall (λ d, f d = true) l →
   length (filter (λ d, f d = true) l) = length l).
Proof.
  split; [apply length_filter|].
  induction 1 as [|d l Hd _ IH]; [done|].
  rewrite filter_cons_True by done. cbn. by rewrite IH.
Qed.

Lemma count_pages_bounds qwA cb :
  0 < cb < 2 ^ 32 →
  let N := count_pages qwA cb in
  1 ≤ N ∧ 0x1000 * (N - 1) < Z.land qwA 0xfff + cb ≤ 0x1000 * N.
Proof.
  intros Hcb N. subst N. unfold count_pages.
  rewrite Z.shiftr_div_pow2 by lia. change (2 ^ 12) with 0x1000.
  pose proof (land_fff_range qwA) as Ho.
  set (x := Z.land qwA 0xfff + cb + 0xfff).
  assert (Hx : 0 ≤ x / 0x1000 < 2 ^ 32).
  { split; [apply Z.div_pos; lia|]. apply Z.div_lt_upper_bound; lia. }
  rewrite Z.mod_small by done.
  pose proof (Z.div_mod x 0x1000 ltac:(lia)) as Hdm.
  pose proof (Z.mod_pos_bound x 0x1000 ltac:(lia)) as Hm.
  lia.
Qed.

Lemma ReadEx_finish_spec qwA cb pb ds :
  0 < cb < 2 ^ 32 →
  (Z.to_nat cb ≤ length pb)%nat →
  length ds = Z.to_nat (count_pages qwA cb) →
  Forall (λ d, length (Cache.pb d) = 0x1000%nat) ds →
  ∃ c,
    ReadEx_finish qwA cb pb ds
    = Some (take (Z.to_nat cb)
              (drop (Z.to_nat (Z.land qwA 0xfff)) (concat (page_data <$> ds)))
            ++ drop (Z.to_nat cb) pb, c) ∧
    0 ≤ c ≤ cb ∧
    (Forall (λ d, f d = true) ds → c = cb).
Proof.
  intros Hcb Hpb Hlen Hpg.
  destruct (count_pages_bounds qwA cb Hcb) as [HN1 HN]. cbn zeta in HN1, HN.
  pose proof (land_fff_range qwA) as Ho.
  unfold ReadEx_finish.
  set (g := λ d, if f d then d else set_pb (ZeroMemory (Cache.pb d) 0x1000) d).
  assert (Hfg : ∀ d, f (g d) = f d).
  { intros d. unfold g. by destruct (f d) eqn:E. }
  assert (Hpbg : ∀ d, length (Cache.pb d) = 0x1000%nat → Cache.pb (g d) = page_data d).
  { intros d Hd. unfold g, page_data. destruct (f d) eqn:E; [done|].
    unfold set_pb, ZeroMemory. cbn [Cache.pb]. rewrite drop_ge by lia. by rewrite app_nil_r. }
  assert (Hpd : ∀ d, length (Cache.pb d) = 0x1000%nat → length (page_data d) = 0x1000%nat).
  { intros d Hd. unfold page_data. destruct (f d); [done|]. by rewrite length_replicate. }
  set (o := Z.to_nat (Z.land qwA 0xfff)) in *.
  set (L := Z.to_nat cb) in *.
  set (n := Z.to_nat (count_pages qwA cb)) in *.
  assert (Hn : Z.of_nat n = count_pages qwA cb) by lia.
  assert (Hoz : Z.of_nat o = Z.land qwA 0xfff) by lia.
  assert (HLz : Z.of_nat L = cb) by lia.
  destruct ds as [|d0 rest]; [cbn in Hlen; lia|].
  apply Forall_cons in Hpg as [Hd0 Hrest].
  destruct (snoc_case rest) as [->|(mid & dl & ->)].
  - (* one page *)
    cbn [length] in Hlen.
    cbn [fmap list_fmap head last mbind option_bind ReadEx_middle].
    rewrite <- Hlen. cbn [Nat.ltb Nat.leb andb].
    assert (HN' : count_pages qwA cb = 1) by lia. rewrite HN' in HN.
    rewrite decide_True by (by left).
    rewrite Z.min_l by lia. fold L.
    rewrite Hpbg, Hfg by done. cbn [concat]. rewrite app_nil_r.
    destruct (f d0) eqn:Hf0.
    + rewrite filter_cons_True by (by rewrite Hfg). rewrite filter_nil. cbn [length].
      exists cb. split; [|split; [lia|done]].
      unfold copy_at. cbn [take app Nat.add]. f_equal. f_equal.
      rewrite Z.mod_small by lia. lia.
    + rewrite filter_cons_False by (rewrite Hfg, Hf0; done). rewrite filter_nil. cbn [length].
      exists 0. split; [|split; [lia|]].
      * unfold ZeroMemory, page_data. rewrite Hf0.
        rewrite drop_replicate, take_replicate.
        replace (L `min` (4096 - o))%nat with L by lia. done.
      * intros Hall. apply Forall_cons in Hall as [Hall _]. congruence.
  - (* two pages or more *)
    apply Forall_app in Hrest as [Hmid Hdl]. apply Forall_inv in Hdl.
    rewrite length_cons, length_app in Hlen. cbn [length] in Hlen.
    assert (Hn2 : n = (length mid + 2)%nat) by lia.
    assert (HNz : count_pages qwA cb = Z.of_nat (length mid) + 2) by lia.
    rewrite HNz in HN.
    rewrite !fmap_cons, !fmap_app. cbn [fmap list_fmap head mbind option_bind].
    replace (last (g d0 :: (g <$> mid) ++ [g dl])) with (Some (g dl))
      by (by rewrite app_comm_cons, last_snoc).
    cbn [mbind option_bind].
    rewrite (proj2 (Nat.ltb_lt 1 n)) by lia. cbn [andb].
    cbn [ReadEx_middle]. rewrite decide_True by (by left).
    rewrite (ReadEx_middle_spec o n (g dl) ltac:(lia) (g <$> mid) 1 pb);
      [|lia|rewrite length_fmap; lia| |rewrite length_fmap; lia].
    2:{ apply Forall_fmap. eapply Forall_impl; [exact Hmid|].
        intros d Hd. cbn. rewrite Hpbg by done. by apply Hpd. }
    rewrite length_fmap.
    assert (Hmidpb : Cache.pb <$> (g <$> mid) = page_data <$> mid).
    { rewrite <- list_fmap_compose. apply Forall_fmap_ext_1.
      eapply Forall_impl; [exact Hmid|]. intros d Hd. by apply Hpbg. }
    rewrite Hmidpb. rewrite !Hfg. rewrite (Hpbg d0 Hd0), (Hpbg dl Hdl).
    assert (Hdlpd : (if f dl then page_data dl else replicate 4096 0) = page_data dl).
    { unfold page_data. by destruct (f dl). }
    rewrite Hdlpd.
    assert (HM : length (concat (page_data <$> mid)) = (length mid * 4096)%nat).
    { rewrite (length_concat_uniform _ 4096), length_fmap; [done|].
      apply Forall_fmap. eapply Forall_impl; [exact Hmid|]. intros d Hd. by apply Hpd. }
    assert (HcbP : Z.to_nat (cb `min` (4096 - Z.land qwA 4095)) = (4096 - o)%nat) by lia.
    rewrite HcbP.
    assert (Hl : Z.land (qwA + cb) 4095
                 = (Z.land qwA 4095 + cb) `mod` 4096).
    { rewrite !land_fff. by rewrite Zplus_mod_idemp_l. }
    set (cbPl := if Z.land (qwA + cb) 4095 =? 0 then 4096 else Z.land (qwA + cb) 4095).
    assert (HcbPl : cbPl = Z.land qwA 4095 + cb - 4096 * (Z.of_nat (length mid) + 1)).
    { subst cbPl. rewrite Hl.
      destruct (Z.eq_dec (Z.land qwA 4095 + cb) (4096 * (Z.of_nat (length mid) + 2))) as [He|Hne].
      - rewrite He, Z.mul_comm, Z_mod_mult. cbn [Z.eqb]. lia.
      - rewrite <- (Z.mod_unique (Z.land qwA 4095 + cb) 4096 (Z.of_nat (length mid) + 1)
                   (Z.land qwA 4095 + cb - 4096 * (Z.of_nat (length mid) + 1)))
          by (try left; lia).
        rewrite (proj2 (Z.eqb_neq _ 0)) by lia. done. }
    assert (HcbPn : Z.to_nat cbPl = (L + o - (length mid + 1) * 4096)%nat) by lia.
    rewrite HcbPn.
    assert (Hpb2 : (if f d0
                    then copy_at (take (1 * 4096 - o) pb ++ concat (page_data <$> mid)
                                  ++ drop ((1 + length mid) * 4096 - o) pb)
                           0 (drop o (page_data d0)) (4096 - o)
                    else ZeroMemory (take (1 * 4096 - o) pb ++ concat (page_data <$> mid)
                                     ++ drop ((1 + length mid) * 4096 - o) pb)
                           (4096 - o))
                   = drop o (page_data d0) ++ concat (page_data <$> mid)
                     ++ drop ((1 + length mid) * 4096 - o) pb).
    { assert (Ht : length (take (1 * 4096 - o) pb) = (4096 - o)%nat)
        by (rewrite length_take; lia).
      destruct (f d0) eqn:Hf0.
      - unfold copy_at. rewrite take_0, app_nil_l, Nat.add_0_l.
        rewrite (take_ge (drop o (page_data d0)))
          by (rewrite length_drop, Hpd by done; lia).
        by rewrite (drop_app_length' _ _ (4096 - o)) by done.
      - unfold ZeroMemory.
        rewrite (drop_app_length' _ _ (4096 - o)) by done.
        unfold page_data. rewrite Hf0. by rewrite drop_replicate. }
    rewrite Hpb2.
    set (A := drop o (page_data d0)) in *.
    set (M := concat (page_data <$> mid)) in *.
    assert (HA : length A = (4096 - o)%nat) by (subst A; rewrite length_drop, Hpd by done; lia).
    assert (HT : length (page_data dl) = 4096%nat) by (by apply Hpd).
    assert (Hbuf :
      copy_at (A ++ M ++ drop ((1 + length mid) * 4096 - o) pb)
        (n * 4096 - o - 4096) (page_data dl) (L + o - (length mid + 1) * 4096)
      = take L (drop o (concat (page_data d0 :: (page_data <$> mid) ++ [page_data dl])))
        ++ drop L pb).
    { cbn [concat]. rewrite concat_app. cbn [concat]. rewrite app_nil_r. fold M.
      rewrite drop_app_le by (rewrite Hpd by done; lia). fold A.
      unfold copy_at.
      replace (n * 4096 - o - 4096)%nat with (length (A ++ M)) by (rewrite length_app; lia).
      rewrite (app_assoc A M (drop _ pb)).
      rewrite take_app_length.
      rewrite drop_app_add. rewrite drop_drop.
      set (k := (L + o - (length mid + 1) * 4096)%nat).
      assert (HL : L = (length (A ++ M) + k)%nat)
        by (subst k; rewrite length_app; lia).
      rewrite (app_assoc A M (page_data dl)).
      assert (Htk : take L ((A ++ M) ++ page_data dl) = (A ++ M) ++ take k (page_data dl)).
      { rewrite HL. apply take_app_add. }
      rewrite Htk, <- !app_assoc. f_equal. f_equal. f_equal.
      f_equal. rewrite length_app in HL. lia. }
    rewrite Hbuf. clear Hbuf Hpb2.
    set (v := length (filter (λ d, f d = true) (g <$> mid))).
    assert (Hv : (v ≤ length mid)%nat).
    { subst v. etrans; [apply count_valid_bounds|]. by rewrite length_fmap. }
    assert (Hv' : Forall (λ d, f d = true) mid → v = length mid).
    { intros Hall. subst v. rewrite (proj2 (count_valid_bounds _)), length_fmap; [done|].
      apply Forall_fmap. eapply Forall_impl; [exact Hall|]. intros d Hd. cbn. by rewrite Hfg. }
    assert (Hcnt : Z.of_nat (length (filter (λ d, f d = true)
                                (g d0 :: (g <$> mid) ++ [g dl])))
                   = (if f d0 then 1 else 0) + Z.of_nat v + (if f dl then 1 else 0)).
    { rewrite filter_cons, filter_app, (filter_cons _ (g dl)), filter_nil.
      destruct (decide (f (g d0) = true)) as [E0|E0];
        destruct (decide (f (g dl) = true)) as [El|El];
        rewrite Hfg in E0, El;
        [rewrite E0, El|rewrite E0, (not_true_is_false _ El)
        |rewrite (not_true_is_false _ E0), El
        |rewrite (not_true_is_false _ E0), (not_true_is_false _ El)];
        cbn [length]; rewrite length_app; cbn [length]; fold v; lia. }
    rewrite Hcnt. rewrite Z.min_r by lia.
    eexists. split; [reflexivity|].
    assert (Hc : 0 ≤ 4096 * ((if f d0 then 1 else 0) + Z.of_nat v + (if f dl then 1 else 0))
                   - (if f d0 then 4096 else 0) - (if f dl then 4096 else 0)
                   + (if f d0 then 4096 - Z.land qwA 4095 else 0)
                   + (if f dl then cbPl else 0) ≤ cb)
      by (destruct (f d0), (f dl); lia).
    rewrite Z.mod_small by lia. split; [done|].
    intros Hall. apply Forall_cons in Hall as [H0 Hall].
    apply Forall_app in Hall as [Hm Hl']. apply Forall_inv in Hl'.
    rewrite H0, Hl', (Hv' Hm). lia.
Qed.

Lemma lookup_fmap_length {A B} (l : list A) (l' : list B) (h : nat → A → B) :
  (∀ i, l' !! i = h i <$> l !! i) → length l' = length l.
Proof.
  intros Hlk. destruct (Nat.lt_trichotomy (length l') (length l)) as [Hlt|[->|Hgt]]; [|done|].
  - destruct (lookup_lt_is_Some_2 l _ Hlt) as [x Hx].
    pose proof (Hlk (length l')) as E. rewrite Hx, lookup_ge_None_2 in E by lia. done.
  - destruct (lookup_lt_is_Some_2 l' _ Hgt) as [x Hx].
    pose proof (Hlk (length l)) as E. rewrite Hx, (lookup_ge_None_2 l) in E by lia. done.
Qed.

(** What the device delivered for a page: the page when the read
    succeeded, zeros when it did not. *)
Definition delivered (r : bool * list Z) : list Z :=
  if r.1 then r.2 else replicate 0x1000 0.

(** A physical read that does not use the cache.  [VmmReadEx] asks the
    device once, for the pages the range touches, and hands back the bytes
    the device delivered for them from the offset of the address in its
    page on, with zeros for the pages that were not delivered; the buffer
    of the caller beyond [cb] bytes stays as it was.  The number of bytes
    read is at most [cb], and is [cb] when the device delivered every
    page. *)
Theorem VmmReadEx_phys_nocache fuel qwA pb cb flags w :
  0 < cb < 2 ^ 32 →
  (Z.to_nat cb ≤ length pb)%nat →
  fLocalAlloc D w = true →
  flag_set (Z.lor flags (ctx_flags D w)) VMM_FLAG_NOCACHE = true →
  let pages := ReadEx_pages qwA pb (Z.to_nat (count_pages qwA cb)) in
  let res := (LcReadScatter (dev D w) pages).2 in
  length res = length pages →
  Forall (λ r, length r.2 = 0x1000%nat) res →
  ∃ c w',
    VmmReadEx fuel None qwA pb cb flags w
    = Some (take (Z.to_nat cb)
              (drop (Z.to_nat (Z.land qwA 0xfff)) (concat (delivered <$> res)))
            ++ drop (Z.to_nat cb) pb, c, w') ∧
    rd_log D w' = pages :: rd_log D w ∧
    0 ≤ c ≤ cb ∧
    (Forall (λ r, r.1 = true) res → c = cb).
Proof.
  intros Hcb Hpb Hal Hnc pages res Hres Hbuf.
  rewrite VmmReadEx_finish by (done || lia). fold pages.
  destruct (VmmReadScatterPhysical_nocache D LcReadScatter fuel pages flags w Hnc)
    as (ds' & w' & -> & Hlog & Hlk).
  fold res in Hlk. cbn [mbind option_bind].
  assert (Hlen' : length ds' = length pages).
  { apply (lookup_fmap_length pages ds'
             (λ i d, zero_fix flags (paMax D w) (dev_result res i d))).
    intros i. rewrite Hlk. by destruct (pages !! i). }
  assert (Hpages : length pages = Z.to_nat (count_pages qwA cb)).
  { subst pages. unfold ReadEx_pages. by rewrite length_fmap, length_seq. }
  assert (Hone : ∀ i d', ds' !! i = Some d' →
            ∃ r, res !! i = Some r ∧ length (Cache.pb d') = 0x1000%nat ∧
                 page_data d' = delivered r ∧ (r.1 = true → f d' = true)).
  { intros i d' Hd'. rewrite Hlk in Hd'.
    destruct (pages !! i) as [d|] eqn:Hd; [|done]. cbn in Hd'. simplify_eq.
    destruct (lookup_lt_is_Some_2 res i) as [[fl buf] Hr].
    { rewrite Hres. by eapply lookup_lt_Some. }
    exists (fl, buf). split; [done|].
    pose proof (Forall_lookup_1 _ _ _ _ Hbuf Hr) as Hb. cbn in Hb.
    assert (Hcbd : Cache.cb d = 0x1000).
    { subst pages. unfold ReadEx_pages in Hd. rewrite list_lookup_fmap in Hd.
      destruct (seq _ _ !! i); [|done]. cbn in Hd. by simplify_eq. }
    unfold dev_result. rewrite Hr. unfold zero_fix, page_data, delivered.
    cbn [f set_pb set_f Cache.pb fst snd Cache.cb Cache.qwA]. rewrite Hcbd.
    destruct fl; [done|].
    destruct (flag_set flags VMM_FLAG_ZEROPAD_ON_FAIL && _);
      cbn [f set_pb set_f Cache.pb fst snd]; [|done].
    unfold ZeroMemory. rewrite drop_ge by lia. rewrite app_nil_r, length_replicate.
    done. }
  destruct (ReadEx_finish_spec qwA cb pb ds' Hcb Hpb) as (c & -> & Hc & Hc').
  { by rewrite Hlen'. }
  { apply Forall_lookup_2. intros i d' Hd'. by destruct (Hone i d' Hd') as (r & _ & ? & _). }
  cbn [mbind option_bind]. exists c, w'.
  assert (Hdata : page_data <$> ds' = delivered <$> res).
  { apply list_eq. intros i. rewrite !list_lookup_fmap.
    destruct (ds' !! i) as [d'|] eqn:Hd'.
    - destruct (Hone i d' Hd') as (r & Hr & _ & Hpd' & _). rewrite Hr. cbn.
      by rewrite Hpd'.
    - rewrite (lookup_ge_None_2 res); [done|]. apply lookup_ge_None in Hd'. lia. }
  rewrite Hdata. split; [done|]. split; [done|]. split; [done|].
  intros Hall. apply Hc'. apply Forall_lookup_2. intros i d' Hd'.
  destruct (Hone i d' Hd') as (r & Hr & _ & _ & Hf). apply Hf.
  by apply (Forall_lookup_1 _ _ _ _ Hall Hr).
Qed.

(** ** A write takes the page out of the cache *)

#[local] Ltac wsimpl :=
  cbn [Scatter.cache Scatter.set_cache Scatter.dev Scatter.rd_log Scatter.wr_log
       Scatter.ctx_flags Scatter.paMax Scatter.fLocalAlloc Scatter.set_cPhysWrite
       Scatter.cPhysWrite].

(** A physical write of one page that the device accepts, when the table
    of page tables holds nothing in the bucket of the page: the device is
    called with the descriptor, and the page is gone from the cache of
    physical pages afterwards, so that [VmmCacheGet] returns NULL. *)
Theorem Write_then_cache_miss fuel d w lb la :
  VMM_CACHE_TAG_TLB ≠ VMM_CACHE_TAG_PHYS →
  (LcWriteScatter (dev D w) [d]).2 = [true] →
  Cache.qwA d ≠ MEM_SCATTER_ADDR_INVALID →
  let a := Z.land (Cache.qwA d) (Z.lnot 0xfff) in
  let iR := VMM_CACHE2_GET_REGION a in
  let iB := VMM_CACHE2_GET_BUCKET a in
  let s := Scatter.cache D w in
  (fActive (tbl s T_TLB) = true → R_B (region (tbl s T_TLB) iR) !! iB = None) →
  fActive (tbl s T_PHYS) = true →
  region_wf s T_PHYS iR iB lb la →
  (∀ y, y ∈ lb → y ∈ la) →
  (∀ y, y ∈ lb → ∃ c, _count <$> mem s !! y = Some c ∧ 2 ≤ c < 2 ^ 32) →
  0 ≤ R_c (region (tbl s T_PHYS) iR) < 2 ^ 32 →
  (length lb ≤ fuel)%nat →
  ∃ w', VmmWriteScatterPhysical fuel [Some d] w = Some ([set_f true d], w') ∧
    wr_log D w' = [d] :: wr_log D w ∧
    VmmCacheGet fuel VMM_CACHE_TAG_PHYS a (Scatter.cache D w')
      = Some (None, Scatter.cache D w').
Proof.
  intros Htag Hdev Hinv a iR iB s Htlb Hact Hwf Hsub Hcnt Hc Hfuel.
  assert (HT : VmmCacheTableGet VMM_CACHE_TAG_PHYS = Some T_PHYS).
  { unfold VmmCacheTableGet. by rewrite decide_True. }
  assert (HT' : VmmCacheTableGet VMM_CACHE_TAG_TLB = Some T_TLB).
  { unfold VmmCacheTableGet. rewrite decide_False by done. by rewrite decide_True. }
  destruct (Invalidate_loop_spec T_PHYS iR iB a lb [] la s fuel Hwf Hsub Hcnt Hc Hfuel)
    as (s' & Hrun & Hwf' & Hc' & Hact' & Hh').
  cbn [app] in Hwf'.
  unfold Scatter.VmmWriteScatterPhysical. cbn [mapM mbind option_bind id fmap option_fmap option_map mret option_ret].
  unfold dev_write. destruct (LcWriteScatter (dev D w) [d]) as [dv res] eqn:Hdv.
  cbn [snd] in Hdev. subst res. cbn [set_flags Write_invalidate].
  cbn [f set_f Cache.qwA andb]. rewrite (proj2 (Z.eqb_neq _ _) Hinv). cbn [negb].
  unfold VmmCacheInvalidate. wsimpl. fold s a.
  assert (Htlb2 : VmmCacheInvalidate_2 fuel VMM_CACHE_TAG_TLB a s = Some s).
  { unfold VmmCacheInvalidate_2. rewrite HT'.
    destruct (fActive (tbl s T_TLB)) eqn:E; [|done]. cbn [negb].
    fold iR iB. rewrite (Htlb eq_refl). by destruct fuel. }
  rewrite Htlb2. cbn [mbind option_bind].
  assert (Hphys : VmmCacheInvalidate_2 fuel VMM_CACHE_TAG_PHYS a s = Some s').
  { unfold VmmCacheInvalidate_2. rewrite HT, Hact. cbn [negb].
    fold iR iB. by rewrite (wf_B _ _ _ _ _ _ Hwf). }
  rewrite Hphys. cbn [mbind option_bind]. eexists. split; [reflexivity|].
  wsimpl. split; [done|].
  unfold VmmCacheGet. rewrite HT, Hact', Hact. cbn [negb]. fold iR iB.
  rewrite (wf_B _ _ _ _ _ _ Hwf'), head_lookup.
  rewrite (Get_loop_miss (mem s') a _ (wf_chain _ _ _ _ _ _ Hwf')); [done| |].
  - intros y [Hy _]%list_elem_of_filter Hy'. apply Hy.
    exact (proj1 (addr_is_ext (mem s) (mem s') a y (Hh' y)) Hy').
  - pose proof (length_filter (λ y, ¬ addr_is (mem s) a y) lb). lia.
Qed.

End Rw.

(** ** Concrete runs *)

#[local] Existing Instance small_consts.

#[local] Abbreviation t_VmmReadEx :=
  (Scatter.VmmReadEx unit unit t_LcReadScatter t_VmmVirt2Phys t_pfnPagedRead).
#[local] Abbreviation t_VmmWriteEx :=
  (Scatter.VmmWriteEx unit unit t_LcWriteScatter t_VmmVirt2Phys t_pfnPagedRead).

(** An object of 0x100 bytes at 0x1000; 0x80 bytes are asked for at its
    offset 0xC0, 0x40 bytes are accessed. *)
Lemma VmmAsFile_within_object_witness :
  0 < Z.min 0x80 (0x100 - 0xC0) ≤ 0x100 - 0xC0 ∧
  Scatter.VmmReadAsFile unit unit t_LcReadScatter t_VmmVirt2Phys t_pfnPagedRead
      4 None 0x1000 0x100 (replicate 0x80 0) 0x80 0xC0 t_world
    = ('(pb', _, w') ← t_VmmReadEx 4 None (0x1000 + 0xC0) (replicate 0x80 0)
                         (Z.min 0x80 (0x100 - 0xC0)) VMM_FLAG_ZEROPAD_ON_FAIL t_world;
       Some (STATUS_SUCCESS, pb', Z.min 0x80 (0x100 - 0xC0), w')) ∧
  Scatter.VmmWriteAsFile unit unit t_LcWriteScatter t_VmmVirt2Phys t_pfnPagedRead
      4 None 0x1000 0x100 (replicate 0x80 0) 0x80 0xC0 t_world
    = ('(_, w') ← t_VmmWriteEx 4 None (0x1000 + 0xC0) (replicate 0x80 0)
                    (Z.min 0x80 (0x100 - 0xC0)) t_world;
       Some (STATUS_SUCCESS, Z.min 0x80 (0x100 - 0xC0), w')).
Proof.
  apply (VmmAsFile_within_object unit unit t_LcReadScatter t_LcWriteScatter
           t_VmmVirt2Phys t_pfnPagedRead 4 None 0x1000 0x100 (replicate 0x80 0)
           0x80 0xC0 t_world); lia.
Defined.

(** An object of 0x1000 bytes that begins 0x2000 bytes below the top of
    the address space; 0x3000 bytes are asked for at its start, and
    0x3000 bytes are accessed. *)
Lemma VmmAsFile_wrap_past_end_witness :
  0x1000 - 0 < 0x3000 ∧
  Scatter.VmmReadAsFile unit unit t_LcReadScatter t_VmmVirt2Phys t_pfnPagedRead
      4 None (2 ^ 64 - 0x2000) 0x1000 (replicate 0x3000 0) 0x3000 0 t_world
    = ('(pb', _, w') ← t_VmmReadEx 4 None (2 ^ 64 - 0x2000 + 0) (replicate 0x3000 0)
                         0x3000 VMM_FLAG_ZEROPAD_ON_FAIL t_world;
       Some (STATUS_SUCCESS, pb', 0x3000, w')) ∧
  Scatter.VmmWriteAsFile unit unit t_LcWriteScatter t_VmmVirt2Phys t_pfnPagedRead
      4 None (2 ^ 64 - 0x2000) 0x1000 (replicate 0x3000 0) 0x3000 0 t_world
    = ('(_, w') ← t_VmmWriteEx 4 None (2 ^ 64 - 0x2000 + 0) (replicate 0x3000 0)
                    0x3000 t_world;
       Some (STATUS_SUCCESS, 0x3000, w')).
Proof.
  apply (VmmAsFile_wrap_past_end unit unit t_LcReadScatter t_LcWriteScatter
           t_VmmVirt2Phys t_pfnPagedRead 4 None (2 ^ 64 - 0x2000) 0x1000
           (replicate 0x3000 0) 0x3000 0 t_world); lia.
Defined.

(** Four bytes written at 0xffe: two pages of two bytes. *)
Definition t_pages : list MEM_SCATTER :=
  WriteEx_pages (Z.to_nat 4) 0xffe [1; 2; 3; 4] 4 0.

Lemma VmmWriteEx_split_witness :
  Z.of_nat (length t_pages) = count_pages 0xffe 4 ∧
  foldr (λ d acc, Cache.cb d + acc) 0 t_pages = 4 ∧
  Forall in_one_page t_pages ∧
  consecutive 0xffe t_pages ∧
  ((Z.to_nat 4 ≤ length [1; 2; 3; 4])%nat →
   concat (Cache.pb <$> t_pages) = take (Z.to_nat 4) [1; 2; 3; 4]) ∧
  t_VmmWriteEx 4 None 0xffe [1; 2; 3; 4] 4 t_world =
    ('(ds, w') ← Scatter.VmmWriteScatterPhysical unit t_LcWriteScatter 4
                   (Some <$> t_pages) t_world;
     Some (sum_written ds `mod` 2 ^ 32, w')).
Proof.
  apply (VmmWriteEx_split unit unit t_LcWriteScatter t_VmmVirt2Phys t_pfnPagedRead
           4 None 0xffe [1; 2; 3; 4] 4 t_world); [lia|lia|reflexivity].
Defined.

Lemma VmmWrite_phys_result_witness :
  Scatter.VmmWrite unit unit t_LcWriteScatter t_VmmVirt2Phys t_pfnPagedRead
      4 None 0xffe [1; 2; 3; 4] 4 t_world =
    (w2 ← Write_invalidate unit 4
            (set_flags t_pages (t_LcWriteScatter (dev unit t_world) t_pages).2)
            (dev_write unit t_LcWriteScatter t_pages t_world).2;
     Some (forallb f (set_flags t_pages
                        (t_LcWriteScatter (dev unit t_world) t_pages).2), w2)).
Proof.
  apply (VmmWrite_phys_result unit unit t_LcWriteScatter t_VmmVirt2Phys t_pfnPagedRead
           4 0xffe [1; 2; 3; 4] 4 t_world); [lia|lia|reflexivity].
Defined.

(** Four bytes read at 0xffe without the cache: the last two bytes of the
    page 0 and the first two of the page 1. *)
Definition t_res : list (bool * list Z) :=
  (t_LcReadScatter (dev unit t_world)
     (ReadEx_pages 0xffe [9; 9; 9; 9; 9] (Z.to_nat (count_pages 0xffe 4)))).2.

Lemma VmmReadEx_phys_nocache_witness :
  ∃ c w',
    t_VmmReadEx 4 None 0xffe [9; 9; 9; 9; 9] 4 VMM_FLAG_NOCACHE t_world
    = Some (take (Z.to_nat 4)
              (drop (Z.to_nat (Z.land 0xffe 0xfff)) (concat (delivered <$> t_res)))
            ++ drop (Z.to_nat 4) [9; 9; 9; 9; 9], c, w') ∧
    rd_log unit w'
      = ReadEx_pages 0xffe [9; 9; 9; 9; 9] (Z.to_nat (count_pages 0xffe 4))
        :: rd_log unit t_world ∧
    0 ≤ c ≤ 4 ∧
    (Forall (λ r, r.1 = true) t_res → c = 4).
Proof.
  apply (VmmReadEx_phys_nocache unit unit t_LcReadScatter t_VmmVirt2Phys t_pfnPagedRead
           4 0xffe [9; 9; 9; 9; 9] 4 VMM_FLAG_NOCACHE t_world).
  - lia.
  - cbn. lia.
  - reflexivity.
  - reflexivity.
  - vm_compute. reflexivity.
  - vm_compute. repeat (constructor; [reflexivity|]). constructor.
Defined.

(** The cache of physical pages holds the pages 0x1000 and 0x10000, the
    table of page tables is initialised and empty; the page 0x1000 is
    written. *)
Definition t_world_two : VMM_WORLD unit :=
  mkWorld unit (VmmCache2Initialize VMM_CACHE_TAG_TLB cst_two)
    0 0x200000 true tt [] [] 0 0 0 0.

Lemma t_world_two_wf :
  region_wf (Scatter.cache unit t_world_two) T_PHYS 1 1 [1%nat; 0%nat] [1%nat; 0%nat].
Proof.
  assert (Hnd : NoDup [1%nat; 0%nat]).
  { apply NoDup_cons. split; [|apply NoDup_singleton].
    intros Hin%list_elem_of_singleton. discriminate Hin. }
  split; [split; [exact Hnd|]|vm_compute; reflexivity|split; [exact Hnd|]|
          vm_compute; reflexivity..].
  - intros [|[|i]] x Hi; simpl in Hi; [injection Hi as <-..|discriminate Hi];
      split; vm_compute; reflexivity.
  - intros [|[|i]] x Hi; simpl in Hi; [injection Hi as <-..|discriminate Hi];
      split; vm_compute; reflexivity.
Qed.

Lemma Write_then_cache_miss_witness :
  ∃ w', Scatter.VmmWriteScatterPhysical unit t_LcWriteScatter 2
          [Some (mkMEM 0x1000 0x1000 (replicate 0x1000 7) false [])] t_world_two
        = Some ([set_f true (mkMEM 0x1000 0x1000 (replicate 0x1000 7) false [])], w') ∧
    wr_log unit w'
      = [mkMEM 0x1000 0x1000 (replicate 0x1000 7) false []] :: wr_log unit t_world_two ∧
    VmmCacheGet 2 VMM_CACHE_TAG_PHYS 0x1000 (Scatter.cache unit w')
      = Some (None, Scatter.cache unit w').
Proof.
  apply (Write_then_cache_miss unit t_LcWriteScatter 2
           (mkMEM 0x1000 0x1000 (replicate 0x1000 7) false []) t_world_two
           [1%nat; 0%nat] [1%nat; 0%nat]).
  - discriminate.
  - reflexivity.
  - discriminate.
  - intros _. vm_compute. reflexivity.
  - vm_compute. reflexivity.
  - exact t_world_two_wf.
  - intros y Hy. exact Hy.
  - intros y Hy. apply elem_of_cons in Hy as [->|Hy];
      [|apply list_elem_of_singleton in Hy as ->];
      exists 2; (split; [vm_compute; reflexivity|lia]).
  - vm_compute. split; [discriminate|reflexivity].
  - simpl. lia.
Defined.

End Rw.

(** * The virtual scatter write *)
Module WriteVirt.
Import Cache Scatter.

Section WriteVirt.
Context `{!VmmConsts}.
Variables D P : Type.
Variable LcReadScatter : D → list MEM_SCATTER → D * list (bool * list Z).
Variable LcWriteScatter : D → list MEM_SCATTER → D * list bool.
Variable VmmVirt2Phys : P → Z → Z → bool * Z.
Variable pfnPagedRead :
  option (P → Z → Z → option (list Z) → Z → Z → bool * list Z * Z).

#[local] Abbreviation VMM_WORLD := (Scatter.VMM_WORLD D).
#[local] Abbreviation Write_translate :=
  (Scatter.Write_translate P VmmVirt2Phys pfnPagedRead).
#[local] Abbreviation Write_invalidate := (Scatter.Write_invalidate D).
#[local] Abbreviation VmmWriteScatterPhysical :=
  (Scatter.VmmWriteScatterPhysical D LcWriteScatter).
#[local] Abbreviation VmmWriteScatterVirtual :=
  (Scatter.VmmWriteScatterVirtual D P LcWriteScatter VmmVirt2Phys pfnPagedRead).

(** A descriptor of the caller and the descriptor the device is given for
    it: the same buffer and size, the address of the caller on top of the
    stack; a descriptor that is marked valid or has the address -1 is
    given the address -1. *)
Definition translated (d d1 : MEM_SCATTER) : Prop :=
  Cache.pb d1 = Cache.pb d ∧ Cache.cb d1 = Cache.cb d ∧ f d1 = f d ∧
  vStack d1 = Cache.qwA d :: vStack d ∧
  (f d = true ∨ Cache.qwA d = MEM_SCATTER_ADDR_INVALID →
   Cache.qwA d1 = MEM_SCATTER_ADDR_INVALID).

Lemma Write_translate_spec pProcess :
  ∀ ds q1 q2 ds1, Write_translate pProcess ds q1 q2 = Some ds1 →
    Forall2 translated ds ds1.
Proof.
  induction ds as [|d ds IH]; intros q1 q2 ds1 Hrun.
  - cbn in Hrun. simplify_eq. constructor.
  - cbn [Scatter.Write_translate] in Hrun.
    destruct (f d || (Cache.qwA d =? MEM_SCATTER_ADDR_INVALID)) eqn:Hc.
    + destruct (Write_translate pProcess ds q1 q2) as [ds'|] eqn:E;
        cbn [mbind option_bind] in Hrun; [|done]. simplify_eq.
      constructor; [|by eapply IH].
      unfold translated, MEM_SCATTER_STACK_PUSH. cbn. by repeat split.
    + apply orb_false_iff in Hc as [Hf Hq]. apply Z.eqb_neq in Hq.
      destruct (VmmVirt2Phys pProcess (Cache.qwA d) q1) as [ok q1'].
      destruct ok.
      * destruct (Write_translate pProcess ds q1' q2) as [ds'|] eqn:E;
          cbn [mbind option_bind] in Hrun; [|done]. simplify_eq.
        constructor; [|by eapply IH].
        unfold translated, MEM_SCATTER_STACK_PUSH. cbn. repeat split; try done.
        intros [?|?]; congruence.
      * destruct pfnPagedRead as [fn|]; cbn [mbind option_bind] in Hrun; [|done].
        destruct (fn pProcess (Cache.qwA d) q1' None q2 0) as [[? ?] q2'].
        cbn beta iota zeta in Hrun.
        destruct (Scatter.Write_translate _ _ _ pProcess ds q1' q2') as [ds'|] eqn:E;
          cbn [mbind option_bind] in Hrun; [|done]. simplify_eq.
        constructor; [|by eapply IH].
        unfold translated, MEM_SCATTER_STACK_PUSH. cbn. repeat split; try done.
        intros [?|?]; congruence.
Qed.

Lemma Write_invalidate_log fuel :
  ∀ ds w w', Write_invalidate fuel ds w = Some w' →
    wr_log D w' = wr_log D w ∧ dev D w' = dev D w.
Proof.
  induction ds as [|d ds IH]; intros w w' Hrun.
  - cbn in Hrun. by simplify_eq.
  - cbn [Scatter.Write_invalidate] in Hrun.
    destruct (f d && negb (Cache.qwA d =? MEM_SCATTER_ADDR_INVALID)).
    + destruct (VmmCacheInvalidate fuel _ _) as [s|]; cbn [mbind option_bind] in Hrun;
        [|done].
      by apply IH in Hrun as [-> ->].
    + cbn [mbind option_bind] in Hrun. by apply IH in Hrun as [-> ->].
Qed.

Lemma pop_restores :
  ∀ ds ds1 res, Forall2 translated ds ds1 →
    mapM (λ d, '(v, d') ← MEM_SCATTER_STACK_POP d; Some (set_qwA v d'))
      (set_flags ds1 res)
    = Some (set_flags ds res).
Proof.
  intros ds ds1 res Htr. revert res.
  induction Htr as [|d d1 ds ds1 (Hpb & Hcb & Hf & Hst & _) _ IH]; intros res.
  - by destruct res.
  - assert (Hone : ∀ fl d2, d2 = set_f fl d1 ∨ d2 = d1 →
              ('(v, d') ← MEM_SCATTER_STACK_POP d2; Some (set_qwA v d'))
              = Some (mkMEM (Cache.qwA d) (Cache.cb d) (Cache.pb d) (f d2) (vStack d))).
    { intros fl d2 Hd2. unfold MEM_SCATTER_STACK_POP.
      assert (vStack d2 = Cache.qwA d :: vStack d) as -> by (by destruct Hd2 as [->| ->]).
      cbn [mbind option_bind]. unfold set_qwA, set_vStack. cbn.
      by destruct Hd2 as [->| ->]; cbn; rewrite ?Hpb, ?Hcb. }
    destruct res as [|fl res].
    + cbn [set_flags]. specialize (IH []).
      assert (E : set_flags ds1 [] = ds1) by (by destruct ds1).
      assert (E' : set_flags ds [] = ds) by (by destruct ds).
      rewrite E, E' in IH. cbn [mapM]. rewrite (Hone false d1) by (by right).
      cbn [mbind option_bind]. rewrite IH. cbn. rewrite Hf. by destruct d.
    + cbn [set_flags mapM]. rewrite (Hone fl (set_f fl d1)) by (by left).
      cbn [mbind option_bind]. by rewrite IH.
Qed.

(** [VmmWriteScatterVirtual] hands the descriptors back as they came but
    for the flag [f]: the virtual address is restored from the stack,
    the stack, the buffer and the size are as before, and [f] is what the
    device has set for the translated descriptor.  The device is called
    once, with the translated descriptors; a descriptor that was marked
    valid or had the address -1 is passed with the address -1. *)
Theorem VmmWriteScatterVirtual_restores fuel pProcess ds w ds3 w2 :
  VmmWriteScatterVirtual fuel pProcess (Some <$> ds) w = Some (ds3, w2) →
  ∃ ds1, Write_translate pProcess ds 0 0 = Some ds1 ∧
    Forall2 translated ds ds1 ∧
    wr_log D w2 = ds1 :: wr_log D w ∧
    ds3 = set_flags ds (LcWriteScatter (dev D w) ds1).2.
Proof.
  unfold Scatter.VmmWriteScatterVirtual. intros Hrun.
  assert (Hid : mapM id (Some <$> ds) = Some ds).
  { clear. induction ds as [|x l IH]; [done|]. cbn. by rewrite IH. }
  rewrite Hid in Hrun. cbn [mbind option_bind] in Hrun.
  destruct (Write_translate pProcess ds 0 0) as [ds1|] eqn:Htr;
    cbn [mbind option_bind] in Hrun; [|done].
  pose proof (Write_translate_spec _ _ _ _ _ Htr) as Hsp.
  exists ds1. split; [done|]. split; [done|].
  unfold Scatter.VmmWriteScatterPhysical in Hrun.
  assert (Hid1 : mapM id (Some <$> ds1) = Some ds1).
  { clear. induction ds1 as [|x l IH]; [done|]. cbn. by rewrite IH. }
  rewrite Hid1 in Hrun. cbn [mbind option_bind] in Hrun.
  unfold dev_write in Hrun.
  destruct (LcWriteScatter (dev D w) ds1) as [dv res] eqn:Hdev.
  destruct (Write_invalidate fuel (set_flags ds1 res) _) as [w3|] eqn:Hinv;
    cbn [mbind option_bind] in Hrun; [|done].
  rewrite (pop_restores ds ds1 res Hsp) in Hrun. cbn [mbind option_bind] in Hrun.
  simplify_eq. apply Write_invalidate_log in Hinv as [-> _]. done.
Qed.

End WriteVirt.

(** ** A concrete run *)

#[local] Existing Instance small_consts.

(** Two descriptors: two bytes for the virtual address 0x3000, which is
    mapped, and a descriptor that is marked valid already. *)
Definition t_virt : list MEM_SCATTER :=
  [mkMEM 0x3000 2 [1; 2] false []; mkMEM 0x5000 1 [7] true [9]].

Definition t_virt_run : list MEM_SCATTER * VMM_WORLD unit :=
  Eval vm_compute in
    default ([], t_world)
      (Scatter.VmmWriteScatterVirtual unit unit t_LcWriteScatter t_VmmVirt2Phys
         t_pfnPagedRead 2 tt (Some <$> t_virt) t_world).

Lemma VmmWriteScatterVirtual_restores_witness :
  ∃ ds1,
    Scatter.Write_translate unit t_VmmVirt2Phys t_pfnPagedRead tt t_virt 0 0 = Some ds1 ∧
    Forall2 translated t_virt ds1 ∧
    wr_log unit t_virt_run.2 = ds1 :: wr_log unit t_world ∧
    t_virt_run.1 = set_flags t_virt (t_LcWriteScatter (dev unit t_world) ds1).2.
Proof.
  apply (VmmWriteScatterVirtual_restores unit unit t_LcWriteScatter t_VmmVirt2Phys
           t_pfnPagedRead 2 tt t_virt t_world t_virt_run.1 t_virt_run.2).
  vm_compute. reflexivity.
Defined.

(** The run above: the device is given the physical address 0x13000 and
    the address -1, and the descriptors come back with the addresses
    0x3000 and 0x5000. *)
Lemma t_virt_run_values :
  (Cache.qwA <$> t_virt_run.1 = [0x3000; 0x5000]) ∧
  (f <$> t_virt_run.1 = [true; false]) ∧
  (map Cache.qwA <$> wr_log unit t_virt_run.2
   = [[0x13000; MEM_SCATTER_ADDR_INVALID]]).
Proof. vm_compute. repeat split. Qed.

End WriteVirt.
